(** * Hull visualizer: offset table to mesh, face selection and weight ledger

    A shallow embedding of the reconstruction-and-query pipeline of the
    hull visualizer (TypeScript) and the properties its specification
    states about it.

    Modelling conventions.
    - A JavaScript [number] that carries a length, a weight or a coordinate
      is an exact rational ([Q]); [===] on such numbers is [Qeq_bool].
      Array lengths, loop counters and vertex indices are [nat].
      Rounding of the floating-point operations is not modelled, and a
      rational is never NaN: the one division of the source that can be
      [0 / 0], the station ratio of [interpolateHullGrid] between two
      stations at the same position, is [0] here as every [x / 0] of [Q].
    - A [Float32Array] element is a [float32]: a rational in range, or one
      of the three special values.
    - A value that may be [undefined] is an [option].
    - The keys of the vertex lookup, written [`${s}_${w}_star`] and the like
      in the source, are the triples they encode.
    - Objects mutated in place are threaded explicitly as state. *)

From Stdlib Require Import QArith Qround Qabs Lia Lqa Sorting.Sorted.
From stdpp Require Import base decidable countable gmap list.

Open Scope Q_scope.

(** ** Helpers for JavaScript idioms *)

(** [arr.forEach((x, i) => ...)] over a threaded state. *)
Fixpoint forEachFrom {A St : Type} (f : St -> A -> nat -> St) (i : nat) (l : list A) (st : St) : St :=
  match l with
  | [] => st
  | x :: r => forEachFrom f (S i) r (f st x i)
  end.

Definition forEach {A St : Type} (f : St -> A -> nat -> St) (l : list A) (st : St) : St :=
  forEachFrom f 0 l st.

(** [isNaN] on a number of the model: rationals are never NaN. *)
Definition isNaN (_ : Q) : bool := false.

(** An index read after a validity check; the default is never used on a
    checked value. *)
Definition idx (o : option nat) : nat := default 0%nat o.

(** ** types/QuoteTable.ts, types/Geometry *)

Inductive Units := mm | ft | m.
Inductive Symmetry := symmetric | asymmetric.

Record WaterlineData := mkWaterlineData {
  height : Q;
  halfBreadthPort : Q;
  halfBreadthStarboard : option Q
}.

Record Station := mkStation {
  position : Q;
  waterlines : list WaterlineData
}.

Record QuoteTableMetadata := mkMetadata {
  weight : Q;
  hasKeel : option bool;
  hasChine : option bool;
  thickness : Q;
  units : Units;
  symmetry : option Symmetry
}.

Record QuoteTable := mkQuoteTable {
  stations : list Station;
  metadata : QuoteTableMetadata
}.

Record LODConfig := mkLODConfig {
  stationMultiplier : Q;
  waterlineMultiplier : Q;
  enableSmoothing : bool
}.

(** THREE.Vector3 *)
Record Vector3 := mkVector3 { vx : Q; vy : Q; vz : Q }.

(** Side tag of a vertex-lookup key. *)
Inductive VertexTag := Star | Port | ChineStar | ChinePort.

#[global] Instance VertexTag_eq_dec : EqDecision VertexTag.
Proof. solve_decision. Defined.

#[global] Instance VertexTag_countable : Countable VertexTag.
Proof.
  refine (inj_countable'
    (fun t => match t with Star => 0%nat | Port => 1%nat | ChineStar => 2%nat | ChinePort => 3%nat end)
    (fun n => match n with 0%nat => Star | 1%nat => Port | 2%nat => ChineStar | _ => ChinePort end) _).
  by intros [].
Defined.

(** The key [`${s}_${w}_<tag>`]. *)
Definition VertexKey : Type := nat * nat * VertexTag.

Record VertexGenerationResult := mkVertexGenerationResult {
  vertices : list Vector3;
  vertexMap : gmap VertexKey nat;
  keelVertices : list nat
}.

(** ** scripts/utils/geometry/getters.ts *)

Record PanelVertices := mkPanelVertices {
  topLeft : option nat;
  topRight : option nat;
  bottomRight : option nat;
  bottomLeft : option nat;
  topLeftPort : option nat;
  topRightPort : option nat;
  bottomRightPort : option nat;
  bottomLeftPort : option nat
}.

Record ChineVertices := mkChineVertices {
  chineTopLeft : option nat;
  chineTopRight : option nat;
  chineBottomLeft : option nat;
  chineBottomRight : option nat;
  chineTopLeftPort : option nat;
  chineTopRightPort : option nat;
  chineBottomLeftPort : option nat;
  chineBottomRightPort : option nat
}.

Definition getPanelVertices (vertexMap : gmap VertexKey nat) (s w : nat) : PanelVertices :=
  {| topLeft := vertexMap !! (s, w, Star);
     topRight := vertexMap !! (S s, w, Star);
     bottomRight := vertexMap !! (S s, S w, Star);
     bottomLeft := vertexMap !! (s, S w, Star);
     topLeftPort := vertexMap !! (s, w, Port);
     topRightPort := vertexMap !! (S s, w, Port);
     bottomRightPort := vertexMap !! (S s, S w, Port);
     bottomLeftPort := vertexMap !! (s, S w, Port) |}.

Definition getChineVertices (vertexMap : gmap VertexKey nat) (s w : nat) : ChineVertices :=
  {| chineTopLeft := vertexMap !! (s, w, ChineStar);
     chineTopRight := vertexMap !! (S s, w, ChineStar);
     chineBottomLeft := vertexMap !! (s, S w, Star);
     chineBottomRight := vertexMap !! (S s, S w, Star);
     chineTopLeftPort := vertexMap !! (s, w, ChinePort);
     chineTopRightPort := vertexMap !! (S s, w, ChinePort);
     chineBottomLeftPort := vertexMap !! (s, S w, Port);
     chineBottomRightPort := vertexMap !! (S s, S w, Port) |}.

Inductive Side := port | starboard.

Module Getters.

(** [table.stations[station].waterlines[waterline]], by index. *)
Definition getWaterlineData (table : QuoteTable) (station waterline : nat) : option WaterlineData :=
  match stations table !! station with
  | None => None
  | Some stationData => waterlines stationData !! waterline
  end.

Definition getHalfBreadth (table : QuoteTable) (station waterline : nat) (side : Side) : Q :=
  match getWaterlineData table station waterline with
  | None => 0
  | Some data =>
      match side, halfBreadthStarboard data with
      | starboard, Some sb => sb
      | _, _ => halfBreadthPort data
      end
  end.

End Getters.

Definition getUnitScale (unit : Units) : Q :=
  match unit with
  | mm => 1 # 1000
  | ft => 3048 # 10000
  | m => 1
  end.

(** [[...l].sort((a, b) => key a - key b)]: the sort is stable, so it is
    the insertion sort that puts an element before the first one that is
    not smaller. *)
Fixpoint insertBy {A : Type} (key : A -> Q) (x : A) (l : list A) : list A :=
  match l with
  | [] => [x]
  | y :: r => if Qle_bool (key x) (key y) then x :: y :: r else y :: insertBy key x r
  end.

Definition sortBy {A : Type} (key : A -> Q) (l : list A) : list A :=
  foldr (insertBy key) [] l.

Definition getSortedStations (table : QuoteTable) : list Station :=
  sortBy position (stations table).

(** [Set.add]: insertion order is kept, a value already there is not
    added again. *)
Definition setAdd (h : Q) (s : list Q) : list Q :=
  if existsb (Qeq_bool h) s then s else s ++ [h].

Definition getSortedWaterlines (table : QuoteTable) : list Q :=
  let waterlineSet :=
    fold_left (fun acc station =>
      fold_left (fun acc wl => setAdd (height wl) acc) (waterlines station) acc)
      (stations table) [] in
  sortBy (fun h => h) waterlineSet.

(** [station.waterlines.find(wl => wl.height === waterlineHeight)] *)
Definition findWaterline (station : Station) (waterlineHeight : Q) : option WaterlineData :=
  List.find (fun wl => Qeq_bool (height wl) waterlineHeight) (waterlines station).

(** ** scripts/utils/geometry/validators.ts *)

Definition areVerticesValid (indices : list (option nat)) : bool :=
  forallb (fun index => bool_decide (is_Some index)) indices.

Definition areAllPanelVerticesValid (v : PanelVertices) : bool :=
  areVerticesValid [topLeft v; topRight v; bottomRight v; bottomLeft v;
                    topLeftPort v; topRightPort v; bottomRightPort v; bottomLeftPort v].

Definition areChineVerticesValid (c : ChineVertices) : bool :=
  areVerticesValid [chineTopLeft c; chineTopRight c; chineBottomLeft c; chineBottomRight c;
                    chineTopLeftPort c; chineTopRightPort c; chineBottomLeftPort c; chineBottomRightPort c].

(** ** scripts/utils/geometry/generators/vertices.ts *)

(** The body of the inner [forEach] of [generateVertices]: one waterline
    height of one station. [scale] is [stateManager.getUnits()]. *)
Definition generateVertexPair (scale : Q) (hasKeel hasChine : bool)
    (station : Station) (sIdx : nat)
    (acc : VertexGenerationResult) (waterlineHeight : Q) (wIdx : nat) : VertexGenerationResult :=
  let zPos := position station * scale in
  match findWaterline station waterlineHeight with
  | None => acc
  | Some wlData =>
      let yPos := waterlineHeight * scale in
      let halfBreadthPort := halfBreadthPort wlData in
      let halfBreadthStarboard :=
        match halfBreadthStarboard wlData with
        | Some sb => sb
        | None => halfBreadthPort
        end in
      let xPort := halfBreadthPort * scale in
      let xStarboard := halfBreadthStarboard * scale in
      if existsb isNaN [xPort; xStarboard; yPos; zPos] then acc
      else
        let acc :=
          if hasKeel && (wIdx =? 0)%nat then
            let keelVertex := mkVector3 0 (yPos - (5 # 100) * scale) zPos in
            let keelIndex := length (vertices acc) in
            {| vertices := vertices acc ++ [keelVertex];
               vertexMap := vertexMap acc;
               keelVertices := keelVertices acc ++ [keelIndex] |}
          else acc in
        let starboardVertex := mkVector3 xStarboard yPos zPos in
        let starboardIndex := length (vertices acc) in
        let portVertex := mkVector3 (- xPort) yPos zPos in
        let portIndex := S starboardIndex in
        let acc :=
          {| vertices := vertices acc ++ [starboardVertex; portVertex];
             vertexMap := <[(sIdx, wIdx, Port) := portIndex]>
                            (<[(sIdx, wIdx, Star) := starboardIndex]> (vertexMap acc));
             keelVertices := keelVertices acc |} in
        if hasChine && (wIdx =? 0)%nat then
          let chineStarboard := mkVector3 (xStarboard * (8 # 10)) yPos zPos in
          let chineStarboardIndex := length (vertices acc) in
          let chinePort := mkVector3 (- xPort * (8 # 10)) yPos zPos in
          let chinePortIndex := S chineStarboardIndex in
          {| vertices := vertices acc ++ [chineStarboard; chinePort];
             vertexMap := <[(sIdx, wIdx, ChinePort) := chinePortIndex]>
                            (<[(sIdx, wIdx, ChineStar) := chineStarboardIndex]> (vertexMap acc));
             keelVertices := keelVertices acc |}
        else acc
  end.

Definition generateVertices (stateUnits : Units) (table : QuoteTable) : VertexGenerationResult :=
  let hasKeel := default false (hasKeel (metadata table)) in
  let hasChine := default false (hasChine (metadata table)) in
  let scale := getUnitScale stateUnits in
  let sortedStations := getSortedStations table in
  let sortedWaterlines := getSortedWaterlines table in
  forEach (fun acc station sIdx =>
             forEach (generateVertexPair scale hasKeel hasChine station sIdx)
                     sortedWaterlines acc)
          sortedStations
          {| vertices := []; vertexMap := ∅; keelVertices := [] |}.

(** ** scripts/utils/geometry/generators/keel.ts, chine.ts, faces.ts *)

Definition generateKeelConnection (indices : list nat) (vertexMap : gmap VertexKey nat)
    (keelVertices : list nat) (s w : nat) : list nat :=
  let keelLeft := keelVertices !! s in
  let keelRight := keelVertices !! S s in
  let bottomCenterLeft := vertexMap !! (s, w, Star) in
  let bottomCenterRight := vertexMap !! (S s, w, Star) in
  let bottomCenterLeftPort := vertexMap !! (s, w, Port) in
  let bottomCenterRightPort := vertexMap !! (S s, w, Port) in
  if negb (areVerticesValid [keelLeft; keelRight; bottomCenterLeft; bottomCenterRight;
                             bottomCenterLeftPort; bottomCenterRightPort])
  then indices
  else indices
       ++ [idx bottomCenterLeft; idx bottomCenterRight; idx keelRight]
       ++ [idx bottomCenterLeft; idx keelRight; idx keelLeft]
       ++ [idx bottomCenterLeftPort; idx keelLeft; idx keelRight]
       ++ [idx bottomCenterLeftPort; idx keelRight; idx bottomCenterRightPort].

Definition generateChinePanel (indices : list nat) (vertexMap : gmap VertexKey nat)
    (s w : nat) : list nat :=
  let v := getPanelVertices vertexMap s w in
  let c := getChineVertices vertexMap s w in
  if negb (areChineVerticesValid c) then indices
  else indices
       ++ [idx (topLeft v); idx (topRight v); idx (chineTopRight c)]
       ++ [idx (topLeft v); idx (chineTopRight c); idx (chineTopLeft c)]
       ++ [idx (chineTopLeft c); idx (chineTopRight c); idx (chineBottomRight c)]
       ++ [idx (chineTopLeft c); idx (chineBottomRight c); idx (chineBottomLeft c)]
       ++ [idx (topLeftPort v); idx (chineTopLeftPort c); idx (chineTopRightPort c)]
       ++ [idx (topLeftPort v); idx (chineTopRightPort c); idx (topRightPort v)]
       ++ [idx (chineTopLeftPort c); idx (chineBottomLeftPort c); idx (chineBottomRightPort c)]
       ++ [idx (chineTopLeftPort c); idx (chineBottomRightPort c); idx (chineTopRightPort c)].

Definition generateStandardPanel (indices : list nat) (v : PanelVertices) : list nat :=
  indices
  ++ [idx (topLeft v); idx (topRight v); idx (bottomRight v)]
  ++ [idx (topLeft v); idx (bottomRight v); idx (bottomLeft v)]
  ++ [idx (topLeftPort v); idx (bottomLeftPort v); idx (bottomRightPort v)]
  ++ [idx (topLeftPort v); idx (bottomRightPort v); idx (topRightPort v)].

Definition generatePanelFaces (indices : list nat) (vertexMap : gmap VertexKey nat)
    (keelVertices : list nat) (s w : nat) (hasKeel hasChine : bool) : list nat :=
  let vertices := getPanelVertices vertexMap s w in
  if negb (areAllPanelVerticesValid vertices) then indices
  else
    let indices :=
      if hasChine && (w =? 0)%nat then generateChinePanel indices vertexMap s w
      else generateStandardPanel indices vertices in
    if hasKeel && (w =? 0)%nat then generateKeelConnection indices vertexMap keelVertices s w
    else indices.

Definition generateFaces (table : QuoteTable) (vertexMap : gmap VertexKey nat)
    (keelVertices : list nat) : list nat :=
  let stationCount := length (getSortedStations table) in
  let waterlineCount := length (getSortedWaterlines table) in
  let hasKeel := default false (hasKeel (metadata table)) in
  let hasChine := default false (hasChine (metadata table)) in
  fold_left (fun indices s =>
    fold_left (fun indices w =>
                 generatePanelFaces indices vertexMap keelVertices s w hasKeel hasChine)
              (seq 0 (waterlineCount - 1)) indices)
    (seq 0 (stationCount - 1)) [].


(** ** Records keyed by a number written as a string

    [Record<string, T>] whose keys are [n.toString()]: an association
    list in insertion order; assigning to a key that is there replaces its
    value in place. *)
Fixpoint recordSet {T : Type} (key : Q) (v : T) (r : list (Q * T)) : list (Q * T) :=
  match r with
  | [] => [(key, v)]
  | (k, x) :: rest =>
      if Qeq_bool k key then (k, v) :: rest else (k, x) :: recordSet key v rest
  end.

Fixpoint recordGet {T : Type} (key : Q) (r : list (Q * T)) : option T :=
  match r with
  | [] => None
  | (k, x) :: rest => if Qeq_bool k key then Some x else recordGet key rest
  end.

(** [a < b] on numbers. *)
Definition Qltb (a b : Q) : bool := negb (Qle_bool b a).

(** [new Uint16Array(indices)] *)
Definition toUint16 (n : nat) : nat := Z.to_nat (Z.of_nat n mod 65536).

(** [new Uint32Array(indices)] *)
Definition toUint32 (n : nat) : nat := Z.to_nat (Z.of_nat n mod 4294967296).

(** ** scripts/utils/geometry/generators: stations.ts, waterlines.ts,
       deck.ts, transom.ts, bow.ts *)

(** The pair of points a curve or a cap takes from one sample: port
    (negative x) then starboard. *)
Definition samplePoints (scale : Q) (wlData : WaterlineData) (yPos zPos : Q) : list Vector3 :=
  let xPort := halfBreadthPort wlData * scale in
  let xStarboard :=
    match halfBreadthStarboard wlData with
    | Some sb => sb * scale
    | None => xPort
    end in
  [mkVector3 (- xPort) yPos zPos; mkVector3 xStarboard yPos zPos].

(** Points of one station from the bottom waterline to the top one. *)
Definition stationProfile (scale : Q) (sortedWaterlines : list Q) (station : Station) : list Vector3 :=
  let zPos := position station * scale in
  fold_left (fun points waterlineHeight =>
    match findWaterline station waterlineHeight with
    | Some wlData => points ++ samplePoints scale wlData (waterlineHeight * scale) zPos
    | None => points
    end) sortedWaterlines [].

Definition generateStationCurves (stateUnits : Units) (table : QuoteTable) : list (Q * list Vector3) :=
  let scale := getUnitScale stateUnits in
  let sortedStations := getSortedStations table in
  let sortedWaterlines := getSortedWaterlines table in
  fold_left (fun stationPoints station =>
               recordSet (position station)
                         (stationProfile scale sortedWaterlines station) stationPoints)
            sortedStations [].

(** The closed loop of one waterline: the starboard side from bow to
    stern, the port side back, and the first point again. *)
Definition waterlineLoop (scale : Q) (sortedStations : list Station) (waterlineHeight : Q)
    : list Vector3 :=
  let yPos := waterlineHeight * scale in
  (* first pass: starboard side, bow to stern *)
  let points :=
    fold_left (fun points station =>
      match findWaterline station waterlineHeight with
      | Some wlData =>
          let zPos := position station * scale in
          let xStarboard :=
            match halfBreadthStarboard wlData with
            | Some sb => sb * scale
            | None => halfBreadthPort wlData * scale
            end in
          points ++ [mkVector3 xStarboard yPos zPos]
      | None => points
      end) sortedStations [] in
  (* second pass: port side, stern to bow *)
  let points :=
    fold_left (fun points station =>
      match findWaterline station waterlineHeight with
      | Some wlData =>
          let zPos := position station * scale in
          let xPort := halfBreadthPort wlData * scale in
          points ++ [mkVector3 (- xPort) yPos zPos]
      | None => points
      end) (rev sortedStations) points in
  (* close the loop *)
  match points with
  | [] => points
  | p0 :: _ => points ++ [p0]
  end.

Definition generateWaterlineCurves (stateUnits : Units) (table : QuoteTable) : list (Q * list Vector3) :=
  let scale := getUnitScale stateUnits in
  let sortedStations := getSortedStations table in
  let sortedWaterlines := getSortedWaterlines table in
  fold_left (fun waterlinePoints waterlineHeight =>
               recordSet waterlineHeight
                         (waterlineLoop scale sortedStations waterlineHeight) waterlinePoints)
            sortedWaterlines [].

Definition generateDeckPoints (stateUnits : Units) (table : QuoteTable) : list Vector3 :=
  let scale := getUnitScale stateUnits in
  let sortedStations := getSortedStations table in
  let sortedWaterlines := getSortedWaterlines table in
  match last sortedWaterlines with
  | None => []
  | Some topWaterlineHeight =>
      fold_left (fun points station =>
        match findWaterline station topWaterlineHeight with
        | Some wlData =>
            points ++ samplePoints scale wlData (topWaterlineHeight * scale)
                                   (position station * scale)
        | None => points
        end) sortedStations []
  end.

Definition generateTransomPoints (stateUnits : Units) (table : QuoteTable) : list Vector3 :=
  let scale := getUnitScale stateUnits in
  let sortedStations := getSortedStations table in
  let sortedWaterlines := getSortedWaterlines table in
  match last sortedStations with
  | None => []
  | Some lastStation => stationProfile scale sortedWaterlines lastStation
  end.

Definition generateBowPoints (stateUnits : Units) (table : QuoteTable) : list Vector3 :=
  let scale := getUnitScale stateUnits in
  let sortedStations := getSortedStations table in
  let sortedWaterlines := getSortedWaterlines table in
  match head sortedStations with
  | None => []
  | Some firstStation => stationProfile scale sortedWaterlines firstStation
  end.

(** The quad strip of [generateDeckIndices], [generateTransomIndices] and
    [generateBowIndices]: the three functions have the same body. The
    loop runs while [i < points.length / 2 - 1]. *)
Definition quadStripIndices (pointCount : nat) : list nat :=
  if (pointCount <? 4)%nat then []
  else
    map toUint16
      (flat_map (fun i =>
         let portCurrent := (i * 2)%nat in
         let starboardCurrent := (i * 2 + 1)%nat in
         let portNext := ((i + 1) * 2)%nat in
         let starboardNext := ((i + 1) * 2 + 1)%nat in
         [portCurrent; starboardCurrent; portNext;
          starboardCurrent; starboardNext; portNext])
       (seq 0 ((pointCount + 1) / 2 - 1))).

Definition generateDeckIndices (points : list Vector3) : list nat := quadStripIndices (length points).
Definition generateTransomIndices (points : list Vector3) : list nat := quadStripIndices (length points).
Definition generateBowIndices (points : list Vector3) : list nat := quadStripIndices (length points).

(** ** scripts/utils/geometry/helpers.ts *)

Module Helpers.

(** [Math.round]: the nearest integer, halves upwards. *)
Definition mathRound (x : Q) : Z := Qfloor (x + (1 # 2)).

(** [Math.max(2, Math.round((n - 1) * multiplier) + 1)] *)
Definition denseCount (n : nat) (multiplier : Q) : nat :=
  Z.to_nat (Z.max 2 (mathRound (inject_Z (Z.of_nat n - 1) * multiplier) + 1)).

(** The loop that fills [denseStations] and [denseWaterlines]. *)
Definition densePositions (count : nat) (first last : Q) : list Q :=
  map (fun i =>
         let t := inject_Z (Z.of_nat i) / inject_Z (Z.of_nat count - 1) in
         t * (last - first) + first)
      (seq 0 count).

(** [l.find(wl => Math.abs(wl.height - h) < 0.001)] *)
Definition findNear (station : Station) (h : Q) : option WaterlineData :=
  List.find (fun wl => Qltb (Qabs (height wl - h)) (1 # 1000)) (waterlines station).

(** The two stations that bracket a position, with the ratio between
    them: the first adjacent pair that holds it.  For a pair at one and
    the same position the source divides 0 by 0. *)
Fixpoint findBracket (sortedStations : list Station) (stationPos : Q)
    : option (Station * Station * Q) :=
  match sortedStations with
  | lower :: ((upper :: _) as rest) =>
      if Qle_bool (position lower) stationPos && Qle_bool stationPos (position upper)
      then Some (lower, upper,
                 (stationPos - position lower) / (position upper - position lower))
      else findBracket rest stationPos
  | _ => None
  end.

(** Fallback of the bracket search: the nearest station, first minimum. *)
Definition nearestStation (first : Station) (sortedStations : list Station) (stationPos : Q) : Station :=
  fst (fold_left (fun '(nearest, minDist) station =>
                    let dist := Qabs (stationPos - position station) in
                    if Qltb dist minDist then (station, dist) else (nearest, minDist))
                 sortedStations
                 (first, Qabs (stationPos - position first))).

(** The two waterline heights that bracket a height, with the ratio;
    [(0, 0, 0)] when none does. *)
Fixpoint findWaterlineBracket (heights : list Q) (waterlineHeight : Q) : Q * Q * Q :=
  match heights with
  | lowerWl :: ((upperWl :: _) as rest) =>
      if Qle_bool lowerWl waterlineHeight && Qle_bool waterlineHeight upperWl
      then (lowerWl, upperWl, (waterlineHeight - lowerWl) / (upperWl - lowerWl))
      else findWaterlineBracket rest waterlineHeight
  | _ => (0, 0, 0)
  end.

(** The body of [denseWaterlines.forEach]: one sample of a new station. *)
Definition interpolateSample (table : QuoteTable) (lowerStation upperStation : Station)
    (stationRatio waterlineHeight : Q) : WaterlineData :=
  let lowerWlData := findNear lowerStation waterlineHeight in
  let upperWlData := findNear upperStation waterlineHeight in
  let '(newPort, newStarboard) :=
    match lowerWlData, upperWlData with
    | Some l, Some u =>
        (halfBreadthPort l + (halfBreadthPort u - halfBreadthPort l) * stationRatio,
         match halfBreadthStarboard l, halfBreadthStarboard u with
         | Some ls, Some us => Some (ls + (us - ls) * stationRatio)
         | _, _ => None
         end)
    | Some l, None => (halfBreadthPort l, halfBreadthStarboard l)
    | None, Some u => (halfBreadthPort u, halfBreadthStarboard u)
    | None, None =>
        let lowerWaterlines := getSortedWaterlines table in
        let '(lowerWl, upperWl, waterlineRatio) :=
          findWaterlineBracket lowerWaterlines waterlineHeight in
        match findNear lowerStation lowerWl, findNear lowerStation upperWl,
              findNear upperStation lowerWl, findNear upperStation upperWl with
        | Some ll, Some lu, Some ul, Some uu =>
            let lowerStationValue :=
              halfBreadthPort ll + (halfBreadthPort lu - halfBreadthPort ll) * waterlineRatio in
            let upperStationValue :=
              halfBreadthPort ul + (halfBreadthPort uu - halfBreadthPort ul) * waterlineRatio in
            (lowerStationValue + (upperStationValue - lowerStationValue) * stationRatio, None)
        | _, _, _, _ => (0, None)
        end
    end in
  {| height := waterlineHeight;
     halfBreadthPort := newPort;
     halfBreadthStarboard := newStarboard |}.

(** The body of [denseStations.forEach]: one new station. *)
Definition interpolateStation (table : QuoteTable) (sortedStations : list Station)
    (first : Station) (denseWaterlines : list Q) (stationPos : Q) : Station :=
  let '(lowerStation, upperStation, stationRatio) :=
    match findBracket sortedStations stationPos with
    | Some b => b
    | None =>
        let nearest := nearestStation first sortedStations stationPos in
        (nearest, nearest, 0)
    end in
  {| position := stationPos;
     waterlines :=
       map (interpolateSample table lowerStation upperStation stationRatio) denseWaterlines |}.

Definition interpolateHullGrid (table : QuoteTable) (config : LODConfig) : QuoteTable :=
  if Qle_bool (stationMultiplier config) 1 && Qle_bool (waterlineMultiplier config) 1
  then table
  else
    let sortedStations := getSortedStations table in
    let sortedWaterlines := getSortedWaterlines table in
    match sortedStations, sortedWaterlines with
    | firstStation :: _, firstWaterline :: _ =>
        let lastStation := default firstStation (last sortedStations) in
        let lastWaterline := default firstWaterline (last sortedWaterlines) in
        let denseStationCount :=
          denseCount (length sortedStations) (stationMultiplier config) in
        let denseStations :=
          densePositions denseStationCount (position firstStation) (position lastStation) in
        let denseWaterlineCount :=
          denseCount (length sortedWaterlines) (waterlineMultiplier config) in
        let denseWaterlines :=
          densePositions denseWaterlineCount firstWaterline lastWaterline in
        {| metadata := metadata table;
           stations :=
             map (interpolateStation table sortedStations firstStation denseWaterlines)
                 denseStations |}
    | _, _ => table
    end.

(** [table.stations.find(s => s.position === p)] then
    [station.waterlines.find(wl => wl.height === h)] *)
Definition getWaterlineData (table : QuoteTable) (stationPosition waterlineHeight : Q)
    : option WaterlineData :=
  match List.find (fun s => Qeq_bool (position s) stationPosition) (stations table) with
  | None => None
  | Some station => findWaterline station waterlineHeight
  end.

Definition getHalfBreadth (table : QuoteTable) (stationPosition waterlineHeight : Q)
    (side : Side) : Q :=
  match getWaterlineData table stationPosition waterlineHeight with
  | None => 0
  | Some wlData =>
      match side with
      | port => halfBreadthPort wlData
      | starboard =>
          match halfBreadthStarboard wlData with
          | Some sb => sb
          | None => halfBreadthPort wlData
          end
      end
  end.

End Helpers.

(** ** Float32Array elements *)

Inductive float32 :=
  | F32 (q : Q)
  | F32PosInfinity
  | F32NegInfinity
  | F32NaN.

(** Smallest magnitude that a store into a [Float32Array] rounds to an
    infinity: [2^128 - 2^103]. Rounding inside the range is not modelled. *)
Definition float32Overflow : Q := inject_Z (2 ^ 128 - 2 ^ 103).

Definition toFloat32 (q : Q) : float32 :=
  if Qle_bool float32Overflow q then F32PosInfinity
  else if Qle_bool q (- float32Overflow) then F32NegInfinity
  else F32 q.

(** [isNaN] on an element of a [Float32Array]. *)
Definition isNaN32 (x : float32) : bool :=
  match x with
  | F32NaN => true
  | _ => false
  end.

(** [Number.isFinite] on an element of a [Float32Array]. *)
Definition isFinite32 (x : float32) : bool :=
  match x with
  | F32 _ => true
  | _ => false
  end.

(** ** scripts/group_organizer.ts *)

Record GeometryGroups := mkGeometryGroups {
  groupStations : list (Q * list nat);
  groupWaterlines : list (Q * list nat);
  deck : list nat
}.

Definition emptyGroups : GeometryGroups :=
  {| groupStations := []; groupWaterlines := []; deck := [] |}.

(** [if (r[key]) r[key].push(...items)] *)
Definition recordPush (key : Q) (items : list nat) (r : list (Q * list nat)) : list (Q * list nat) :=
  match recordGet key r with
  | Some l => recordSet key (l ++ items) r
  | None => r
  end.

Definition Vector3_add (a b : Vector3) : Vector3 :=
  mkVector3 (vx a + vx b) (vy a + vy b) (vz a + vz b).

Definition Vector3_multiplyScalar (a : Vector3) (k : Q) : Vector3 :=
  mkVector3 (vx a * k) (vy a * k) (vz a * k).

Definition Vector3_divideScalar (a : Vector3) (k : Q) : Vector3 :=
  Vector3_multiplyScalar a (1 / k).

(** Centroid of the face whose three vertices are given. *)
Definition faceCentroid (v1 v2 v3 : Vector3) : Vector3 :=
  Vector3_divideScalar
    (Vector3_add (Vector3_add (Vector3_add (mkVector3 0 0 0) v1) v2) v3) 3.

(** The scan for the closest station: first minimum under [<]. *)
Definition closestStation (station0 : Station) (stations : list Station) (z : Q) : Station :=
  fst (fold_left (fun '(closest, minDist) station =>
                    let dist := Qabs (z - position station) in
                    if Qltb dist minDist then (station, dist) else (closest, minDist))
                 stations
                 (station0, Qabs (z - position station0))).

Definition closestWaterline (waterline0 : Q) (waterlines : list Q) (y : Q) : Q :=
  fst (fold_left (fun '(closest, minDist) waterline =>
                    let dist := Qabs (y - waterline) in
                    if Qltb dist minDist then (waterline, dist) else (closest, minDist))
                 waterlines
                 (waterline0, Qabs (y - waterline0))).

(** [Math.abs(centroid.y - topWaterline) < 0.01] *)
Definition isTopWaterline (centroid : Vector3) (topWaterline : Q) : bool :=
  Qltb (Qabs (vy centroid - topWaterline)) (1 # 100).

(** One face of the loop of [organizeGeometryGroups], at offset [i] of
    [indices]. *)
Definition organizeFace (vertices : list Vector3) (stations : list Station) (waterlines : list Q)
    (station0 : Station) (waterline0 : Q) (i : nat) (v1 v2 v3 : Vector3)
    (groups : GeometryGroups) : GeometryGroups :=
  let centroid := faceCentroid v1 v2 v3 in
  let closestStation := closestStation station0 stations (vz centroid) in
  let closestWaterline := closestWaterline waterline0 waterlines (vy centroid) in
  let face := [i; (i + 1)%nat; (i + 2)%nat] in
  let groupStations := recordPush (position closestStation) face (groupStations groups) in
  let groupWaterlines := recordPush closestWaterline face (groupWaterlines groups) in
  let topWaterline := default waterline0 (last waterlines) in
  let deck :=
    if isTopWaterline centroid topWaterline then deck groups ++ face else deck groups in
  {| groupStations := groupStations; groupWaterlines := groupWaterlines; deck := deck |}.

(** The loop [for (i = 0; i < indices.length; i += 3)].  [None] is the
    exception raised when a vertex of an incomplete last face is read,
    which the caller catches. *)
Fixpoint organizeFaces (vertices : list Vector3) (stations : list Station) (waterlines : list Q)
    (station0 : Station) (waterline0 : Q) (i : nat) (indices : list nat)
    (groups : GeometryGroups) : option GeometryGroups :=
  let invalid := fun idx => (length vertices <=? idx)%nat in
  match indices with
  | [] => Some groups
  | a :: b :: c :: rest =>
      match vertices !! a, vertices !! b, vertices !! c with
      | Some v1, Some v2, Some v3 =>
          organizeFaces vertices stations waterlines station0 waterline0 (i + 3) rest
            (organizeFace vertices stations waterlines station0 waterline0 i v1 v2 v3 groups)
      | _, _, _ =>
          organizeFaces vertices stations waterlines station0 waterline0 (i + 3) rest groups
      end
  | short => if existsb invalid short then Some groups else None
  end.

Definition organizeGeometryGroups (vertices : list Vector3) (indices : list nat)
    (stations : list Station) (waterlines : list Q) : GeometryGroups :=
  if (length vertices =? 0)%nat || (length indices =? 0)%nat then emptyGroups
  else
    match stations, waterlines with
    | station0 :: _, waterline0 :: _ =>
        let groups :=
          {| groupStations :=
               fold_left (fun r station => recordSet (position station) [] r) stations [];
             groupWaterlines :=
               fold_left (fun r waterlineHeight => recordSet waterlineHeight [] r) waterlines [];
             deck := [] |} in
        match organizeFaces vertices stations waterlines station0 waterline0 0 indices groups with
        | Some groups => groups
        | None => emptyGroups
        end
    | _, _ => emptyGroups
    end.

(** ** scripts/color_generator.ts *)

Record ColorMap := mkColorMap {
  colorStation : Vector3;
  colorWaterline : Vector3;
  colorDeck : Vector3;
  colorDefault : Vector3
}.

Record PartialColorMap := mkPartialColorMap {
  optStation : option Vector3;
  optWaterline : option Vector3;
  optDeck : option Vector3;
  optDefault : option Vector3
}.

Definition defaultColorMap : ColorMap :=
  {| colorStation := mkVector3 (2 # 10) (4 # 10) (8 # 10);
     colorWaterline := mkVector3 (4 # 10) (8 # 10) (8 # 10);
     colorDeck := mkVector3 (8 # 10) (2 # 10) (2 # 10);
     colorDefault := mkVector3 (7 # 10) (7 # 10) (7 # 10) |}.

Definition noColorMap : PartialColorMap :=
  {| optStation := None; optWaterline := None; optDeck := None; optDefault := None |}.

(** Writes outside a typed array are lost, as with the list insert. *)
Definition applyColorToFace (colors : list float32) (indices : list nat) (faceIndex : nat)
    (color : Vector3) : list float32 :=
  let baseIndex := (faceIndex * 3)%nat in
  fold_left (fun colors i =>
    match indices !! (baseIndex + i)%nat with
    | None => colors
    | Some vertexIndex =>
        let colorOffset := (vertexIndex * 3)%nat in
        <[(colorOffset + 2)%nat := toFloat32 (vz color)]>
          (<[(colorOffset + 1)%nat := toFloat32 (vy color)]>
             (<[colorOffset := toFloat32 (vx color)]> colors))
    end) [0; 1; 2]%nat colors.

Definition initializeDefaultColors (vertexCount : nat) (defaultColor : Vector3) : list float32 :=
  flat_map (fun _ => [toFloat32 (vx defaultColor); toFloat32 (vy defaultColor);
                      toFloat32 (vz defaultColor)])
           (seq 0 vertexCount).

Definition applyGroupColors (colors : list float32) (indices : list nat)
    (faces : list (Q * list nat)) (color : Vector3) : list float32 :=
  fold_left (fun colors '(_, group) =>
               fold_left (fun colors faceIndex => applyColorToFace colors indices faceIndex color)
                         group colors)
            faces colors.

Definition applyDeckColors (colors : list float32) (indices : list nat)
    (deckFaces : list nat) (deckColor : Vector3) : list float32 :=
  fold_left (fun colors faceIndex => applyColorToFace colors indices faceIndex deckColor)
            deckFaces colors.

Definition generateColors (vertexCount : nat) (indices : list nat) (groups : GeometryGroups)
    (colorMap : PartialColorMap) : list float32 :=
  let finalColorMap :=
    {| colorStation := default (colorStation defaultColorMap) (optStation colorMap);
       colorWaterline := default (colorWaterline defaultColorMap) (optWaterline colorMap);
       colorDeck := default (colorDeck defaultColorMap) (optDeck colorMap);
       colorDefault := default (colorDefault defaultColorMap) (optDefault colorMap) |} in
  let colors := initializeDefaultColors vertexCount (colorDefault finalColorMap) in
  let colors := applyGroupColors colors indices (groupStations groups) (colorStation finalColorMap) in
  let colors := applyGroupColors colors indices (groupWaterlines groups) (colorWaterline finalColorMap) in
  applyDeckColors colors indices (deck groups) (colorDeck finalColorMap).

(** ** scripts/utils/geometry/generators/hull.ts *)

Record HullStats := mkHullStats {
  vertexCount : nat;
  faceCount : Q;
  stationCount : nat;
  waterlineCount : nat
}.

Record HullGeometry := mkHullGeometry {
  hullVertices : list float32;
  hullIndices : list nat;
  groups : GeometryGroups;
  stats : HullStats;
  waterlinePoints : list (Q * list Vector3);
  stationPoints : list (Q * list Vector3);
  deckPoints : list Vector3;
  deckIndices : list nat;
  transomPoints : list Vector3;
  transomIndices : list nat;
  bowPoints : list Vector3;
  bowIndices : list nat;
  colors : list float32
}.

Definition createEmptyHullGeometry : HullGeometry :=
  {| hullVertices := [];
     hullIndices := [];
     groups := emptyGroups;
     stats := {| vertexCount := 0; faceCount := 0; stationCount := 0; waterlineCount := 0 |};
     waterlinePoints := [];
     stationPoints := [];
     deckPoints := [];
     deckIndices := [];
     transomPoints := [];
     transomIndices := [];
     bowPoints := [];
     bowIndices := [];
     colors := [] |}.

(** The [Float32Array] filled from the vertex list. *)
Definition fillVertexArray (vertices : list Vector3) : list float32 :=
  flat_map (fun vertex => [toFloat32 (vx vertex); toFloat32 (vy vertex); toFloat32 (vz vertex)])
           vertices.

(** The second half of [generateStructuredHullGeometry]: from the filled
    vertex buffer to the result.  The checks of the shape of [groups] are
    left out: [organizeGeometryGroups] always returns the three fields. *)
Definition assembleHullGeometry (stateUnits : Units) (table : QuoteTable)
    (refinedStations : list Station) (refinedWaterlines : list Q)
    (vertices : list Vector3) (indices : list nat) (vertexArray : list float32) : HullGeometry :=
  if existsb isNaN32 vertexArray then createEmptyHullGeometry
  else
    let groups := organizeGeometryGroups vertices indices refinedStations refinedWaterlines in
    let colors := generateColors (length vertices) (map toUint32 indices) groups noColorMap in
    {| hullVertices := vertexArray;
       hullIndices := map toUint16 indices;
       groups := groups;
       stats := {| vertexCount := length vertices;
                   faceCount := inject_Z (Z.of_nat (length indices)) / 3;
                   stationCount := length refinedStations;
                   waterlineCount := length refinedWaterlines |};
       waterlinePoints := generateWaterlineCurves stateUnits table;
       stationPoints := generateStationCurves stateUnits table;
       deckPoints := generateDeckPoints stateUnits table;
       deckIndices := generateDeckIndices (generateDeckPoints stateUnits table);
       transomPoints := generateTransomPoints stateUnits table;
       transomIndices := generateTransomIndices (generateTransomPoints stateUnits table);
       bowPoints := generateBowPoints stateUnits table;
       bowIndices := generateBowIndices (generateBowPoints stateUnits table);
       colors := colors |}.

Definition generateStructuredHullGeometry (stateUnits : Units) (table : QuoteTable)
    (lodConfig : LODConfig) : HullGeometry :=
  let refinedData :=
    if Qltb 1 (stationMultiplier lodConfig) || Qltb 1 (waterlineMultiplier lodConfig)
    then Helpers.interpolateHullGrid table lodConfig
    else table in
  let refinedStations := getSortedStations refinedData in
  let refinedWaterlines := getSortedWaterlines refinedData in
  let r := generateVertices stateUnits refinedData in
  let indices := generateFaces refinedData (vertexMap r) (keelVertices r) in
  if (length (vertices r) =? 0)%nat || (length indices =? 0)%nat then createEmptyHullGeometry
  else
    assembleHullGeometry stateUnits table refinedStations refinedWaterlines
      (vertices r) indices (fillVertexArray (vertices r)).

(** ** types/Physics.ts, scripts/physics/physics.ts *)

Record Weight := mkWeight {
  weightPosition : Vector3;
  magnitude : Q
}.

(** [weights.reduce((sum, w) => sum + w.magnitude, 0)] *)
Definition sumMagnitudes (weights : list Weight) : Q :=
  fold_left (fun sum w => sum + magnitude w) weights 0.

Module Physics.

Record Physics := mkPhysics {
  thickness : Q;
  weight : Q;
  customWeights : list Weight;
  paintedWeights : list Weight
}.

(** The copy made by [[...weights]] is the list itself. *)
Definition setPaintedWeights (this : Physics) (weights : list Weight) : Physics :=
  {| thickness := thickness this;
     weight := weight this;
     customWeights := customWeights this;
     paintedWeights := weights |}.

Definition getPaintedWeights (this : Physics) : list Weight := paintedWeights this.

Definition clearPaintedWeights (this : Physics) : Physics :=
  {| thickness := thickness this;
     weight := weight this;
     customWeights := customWeights this;
     paintedWeights := [] |}.

Definition getTotalWeight (this : Physics) : Q :=
  let baseWeight := weight this in
  let customWeight := sumMagnitudes (customWeights this) in
  let paintedWeight := sumMagnitudes (paintedWeights this) in
  baseWeight + customWeight + paintedWeight.

Definition getWeightDistribution (this : Physics) : list Vector3 * list Q :=
  (map weightPosition (paintedWeights this) ++ map weightPosition (customWeights this),
   map magnitude (paintedWeights this) ++ map magnitude (customWeights this)).

End Physics.

(** ** scripts/utils/controls/paint_selection_tool.ts *)

Record BufferGeometry := mkBufferGeometry {
  index : option (list nat);
  positionArray : list Q
}.

(** A [THREE.Mesh]: its [id], its geometry and its world transform, given
    by [worldToLocal] and by the action of [matrixWorld] on a point. *)
Record Mesh := mkMesh {
  meshId : Z;
  geometry : BufferGeometry;
  worldToLocal : Vector3 -> Vector3;
  applyMatrixWorld : Vector3 -> Vector3
}.

(** What [hull.getSeparatedHullMesh()] returns, each object by its [id];
    [stationsMesh] lists the objects that [traverse] visits. *)
Record SeparatedHullMesh := mkSeparatedHullMesh {
  hullMesh : Z;
  transomMesh : option Z;
  bowMesh : option Z;
  deckMesh : option Z;
  stationsMesh : list Z
}.

Inductive MeshType := TypeHull | TypeTransom | TypeBow | TypeDeck | TypeStation | TypeUnknown.

Record FaceData := mkFaceData {
  worldCenter : Vector3;
  faceMesh : Mesh;
  faceIndex : nat;
  meshType : MeshType;
  localCenter : Vector3
}.

(** [Set<number>] and [Map<number, T>], in insertion order. *)
Definition setHas (x : Z) (s : list Z) : bool := existsb (Z.eqb x) s.

Definition setInsert (x : Z) (s : list Z) : list Z :=
  if setHas x s then s else s ++ [x].

Definition setDelete (x : Z) (s : list Z) : list Z :=
  filter (fun y => y <> x) s.

Definition mapHas {T : Type} (k : Z) (mp : list (Z * T)) : bool :=
  existsb (fun e => Z.eqb k (fst e)) mp.

Fixpoint mapSet {T : Type} (k : Z) (v : T) (mp : list (Z * T)) : list (Z * T) :=
  match mp with
  | [] => [(k, v)]
  | (k', x) :: rest => if Z.eqb k' k then (k', v) :: rest else (k', x) :: mapSet k v rest
  end.

Definition mapDelete {T : Type} (k : Z) (mp : list (Z * T)) : list (Z * T) :=
  filter (fun e => fst e <> k) mp.

Module PaintSelectionTool.

(** The fields of the tool that selection reads and writes.  [hull] is
    the part of the hull object the tool uses: its meshes. *)
Record PaintSelectionTool := mkPaintSelectionTool {
  hull : option SeparatedHullMesh;
  isPainting : bool;
  isRemoving : bool;
  selectedFaces : list Z;
  brushSize : Q;
  faceData : list (Z * FaceData);
  brushHelperVisible : bool;
  lastPaintPosition : option Vector3
}.

(** The tool as its constructor leaves it. *)
Definition new : PaintSelectionTool :=
  {| hull := None;
     isPainting := false;
     isRemoving := false;
     selectedFaces := [];
     brushSize := 1 # 2;
     faceData := [];
     brushHelperVisible := false;
     lastPaintPosition := None |}.

Definition setHull (this : PaintSelectionTool) (h : SeparatedHullMesh) : PaintSelectionTool :=
  {| hull := Some h;
     isPainting := isPainting this;
     isRemoving := isRemoving this;
     selectedFaces := selectedFaces this;
     brushSize := brushSize this;
     faceData := faceData this;
     brushHelperVisible := brushHelperVisible this;
     lastPaintPosition := lastPaintPosition this |}.

Definition setBrushSize (this : PaintSelectionTool) (size : Q) : PaintSelectionTool :=
  {| hull := hull this;
     isPainting := isPainting this;
     isRemoving := isRemoving this;
     selectedFaces := selectedFaces this;
     brushSize := size;
     faceData := faceData this;
     brushHelperVisible := brushHelperVisible this;
     lastPaintPosition := lastPaintPosition this |}.

Definition setRemoveMode (this : PaintSelectionTool) (removing : bool) : PaintSelectionTool :=
  {| hull := hull this;
     isPainting := isPainting this;
     isRemoving := removing;
     selectedFaces := selectedFaces this;
     brushSize := brushSize this;
     faceData := faceData this;
     brushHelperVisible := brushHelperVisible this;
     lastPaintPosition := lastPaintPosition this |}.

Definition getMeshType (h : SeparatedHullMesh) (mesh : Mesh) : MeshType :=
  if Z.eqb (meshId mesh) (hullMesh h) then TypeHull
  else if bool_decide (transomMesh h = Some (meshId mesh)) then TypeTransom
  else if bool_decide (bowMesh h = Some (meshId mesh)) then TypeBow
  else if bool_decide (deckMesh h = Some (meshId mesh)) then TypeDeck
  else if existsb (Z.eqb (meshId mesh)) (stationsMesh h) then TypeStation
  else TypeUnknown.

Definition getFaceUniqueId (mesh : Mesh) (faceIndex : nat) : Z :=
  (meshId mesh * 1000000 + Z.of_nat faceIndex)%Z.

(** The vertex read through [index[k]]; [None] when a read falls
    outside an array, where the source computes with [undefined]. *)
Definition faceVertex (positions : list Q) (index : list nat) (k : nat) : option Vector3 :=
  match index !! k with
  | None => None
  | Some i =>
      match positions !! (i * 3)%nat, positions !! (i * 3 + 1)%nat, positions !! (i * 3 + 2)%nat with
      | Some x, Some y, Some z => Some (mkVector3 x y z)
      | _, _, _ => None
      end
  end.

(** [a.distanceTo(b) <= r], without the square root. *)
Definition withinDistance (a b : Vector3) (r : Q) : bool :=
  let dx := vx a - vx b in
  let dy := vy a - vy b in
  let dz := vz a - vz b in
  Qle_bool 0 r && Qle_bool (dx * dx + dy * dy + dz * dz) (r * r).

(** Centre of face [faceIndex] in local space, when all its reads are
    inside the arrays. *)
Definition localFaceCenter (positions : list Q) (index : list nat) (faceIndex : nat)
    : option Vector3 :=
  let i := (faceIndex * 3)%nat in
  match faceVertex positions index i, faceVertex positions index (i + 1),
        faceVertex positions index (i + 2) with
  | Some v1, Some v2, Some v3 =>
      Some (Vector3_multiplyScalar
              (Vector3_add (Vector3_add (Vector3_add (mkVector3 0 0 0) v1) v2) v3)
              (1 / 3))
  | _, _, _ => None
  end.

(** One turn of the loop of [selectFacesAroundPoint]. *)
Definition selectFace (hitMesh : Mesh) (meshType : MeshType) (localPoint : Vector3)
    (positions : list Q) (index : list nat)
    (this : PaintSelectionTool) (faceIndex : nat) : PaintSelectionTool :=
  match localFaceCenter positions index faceIndex with
  | None => this
  | Some faceCenter =>
      if withinDistance faceCenter localPoint (brushSize this) then
        let uniqueFaceId := getFaceUniqueId hitMesh faceIndex in
        if negb (isRemoving this) then
          let faceData :=
            if negb (mapHas uniqueFaceId (faceData this)) then
              mapSet uniqueFaceId
                {| worldCenter := applyMatrixWorld hitMesh faceCenter;
                   faceMesh := hitMesh;
                   faceIndex := faceIndex;
                   meshType := meshType;
                   localCenter := faceCenter |}
                (faceData this)
            else faceData this in
          {| hull := hull this;
             isPainting := isPainting this;
             isRemoving := isRemoving this;
             selectedFaces := setInsert uniqueFaceId (selectedFaces this);
             brushSize := brushSize this;
             faceData := faceData;
             brushHelperVisible := brushHelperVisible this;
             lastPaintPosition := lastPaintPosition this |}
        else if setHas uniqueFaceId (selectedFaces this) then
          {| hull := hull this;
             isPainting := isPainting this;
             isRemoving := isRemoving this;
             selectedFaces := setDelete uniqueFaceId (selectedFaces this);
             brushSize := brushSize this;
             faceData := mapDelete uniqueFaceId (faceData this);
             brushHelperVisible := brushHelperVisible this;
             lastPaintPosition := lastPaintPosition this |}
        else this
      else this
  end.

(** The highlight overlay that [updateHighlight] redraws is not part of
    the state kept here. *)
Definition selectFacesAroundPoint (this : PaintSelectionTool) (worldPoint : Vector3)
    (hitMesh : Mesh) : PaintSelectionTool :=
  match hull this with
  | None => this
  | Some h =>
      let meshType := getMeshType h hitMesh in
      match index (geometry hitMesh) with
      | None => this
      | Some index =>
          let positions := positionArray (geometry hitMesh) in
          let localPoint := worldToLocal hitMesh worldPoint in
          fold_left (selectFace hitMesh meshType localPoint positions index)
                    (seq 0 ((length index + 2) / 3)) this
      end
  end.

Definition getFaceData (this : PaintSelectionTool) : list (Z * FaceData) := faceData this.

Definition getSelectedFaceCount (this : PaintSelectionTool) : nat := length (selectedFaces this).

Definition clearSelection (this : PaintSelectionTool) : PaintSelectionTool :=
  {| hull := hull this;
     isPainting := isPainting this;
     isRemoving := isRemoving this;
     selectedFaces := [];
     brushSize := brushSize this;
     faceData := [];
     brushHelperVisible := false;
     lastPaintPosition := None |}.

End PaintSelectionTool.

(** ** components/weight_manager.ts *)

Record WeightMarker := mkWeightMarker {
  markerPosition : Vector3;
  markerWeight : Q;
  markerIndex : nat
}.

Module WeightManager.

(** [hull] is the part of the hull object the manager uses: its weight
    ledger.  [weightMarkers] is [weightMarkers.children]. *)
Record WeightManager := mkWeightManager {
  hull : option Physics.Physics;
  paintSelectionTool : PaintSelectionTool.PaintSelectionTool;
  weightPerFace : Q;
  weightMarkers : list WeightMarker
}.

(** The manager as its constructor leaves it. *)
Definition new (hull : option Physics.Physics)
    (paintSelectionTool : PaintSelectionTool.PaintSelectionTool) : WeightManager :=
  {| hull := hull;
     paintSelectionTool := paintSelectionTool;
     weightPerFace := 10;
     weightMarkers := [] |}.

Definition setWeightPerFace (this : WeightManager) (w : Q) : WeightManager :=
  {| hull := hull this;
     paintSelectionTool := paintSelectionTool this;
     weightPerFace := w;
     weightMarkers := weightMarkers this |}.

(** The tool, changed by a painting gesture. *)
Definition withTool (this : WeightManager)
    (tool : PaintSelectionTool.PaintSelectionTool) : WeightManager :=
  {| hull := hull this;
     paintSelectionTool := tool;
     weightPerFace := weightPerFace this;
     weightMarkers := weightMarkers this |}.

(** [clearWeightMarkers] then one marker for each weight. *)
Definition createWeightMarkers (weights : list Weight) : list WeightMarker :=
  imap (fun index w =>
          {| markerPosition := weightPosition w;
             markerWeight := magnitude w;
             markerIndex := index |}) weights.

(** The weights of the selection: one for each cached face that is
    selected, in the order of the cache. *)
Definition selectionWeights (this : WeightManager) : list Weight :=
  let tool := paintSelectionTool this in
  flat_map (fun '(faceId, data) =>
              if setHas faceId (PaintSelectionTool.selectedFaces tool)
              then [{| weightPosition := worldCenter data; magnitude := weightPerFace this |}]
              else [])
           (PaintSelectionTool.getFaceData tool).

Definition applyWeightToSelection (this : WeightManager) : bool * WeightManager :=
  match hull this with
  | None => (false, this)
  | Some h =>
      let faceData := PaintSelectionTool.getFaceData (paintSelectionTool this) in
      if (length faceData =? 0)%nat then (false, this)
      else
        let weights := selectionWeights this in
        (true,
         {| hull := Some (Physics.setPaintedWeights h weights);
            paintSelectionTool := PaintSelectionTool.clearSelection (paintSelectionTool this);
            weightPerFace := weightPerFace this;
            weightMarkers := createWeightMarkers weights |})
  end.

Definition clearAllWeights (this : WeightManager) : WeightManager :=
  {| hull := option_map Physics.clearPaintedWeights (hull this);
     paintSelectionTool := PaintSelectionTool.clearSelection (paintSelectionTool this);
     weightPerFace := weightPerFace this;
     weightMarkers := [] |}.

Definition getSelectedFaceCount (this : WeightManager) : nat :=
  PaintSelectionTool.getSelectedFaceCount (paintSelectionTool this).

(** Weight of the current selection. *)
Definition getTotalWeight (this : WeightManager) : Q :=
  inject_Z (Z.of_nat (getSelectedFaceCount this)) * weightPerFace this.

Definition getAppliedWeight (this : WeightManager) : Q :=
  match hull this with
  | None => 0
  | Some h => sumMagnitudes (Physics.getPaintedWeights h)
  end.

Definition getAppliedWeightCount (this : WeightManager) : nat :=
  length (weightMarkers this).

End WeightManager.

(** ** Vocabulary of the statements *)

(** *** Selection engine *)

(** The operations of the selection engine. *)
Inductive SelectionOp :=
  | OpSelect (worldPoint : Vector3) (hitMesh : Mesh)
  | OpSetRemoveMode (removing : bool)
  | OpSetBrushSize (size : Q)
  | OpSetHull (h : SeparatedHullMesh)
  | OpClear.

Definition runSelectionOp (t : PaintSelectionTool.PaintSelectionTool) (op : SelectionOp)
    : PaintSelectionTool.PaintSelectionTool :=
  match op with
  | OpSelect worldPoint hitMesh => PaintSelectionTool.selectFacesAroundPoint t worldPoint hitMesh
  | OpSetRemoveMode removing => PaintSelectionTool.setRemoveMode t removing
  | OpSetBrushSize size => PaintSelectionTool.setBrushSize t size
  | OpSetHull h => PaintSelectionTool.setHull t h
  | OpClear => PaintSelectionTool.clearSelection t
  end.

(** A brush path: the points of a stroke, each with the surface it hit. *)
Definition paintPath (t : PaintSelectionTool.PaintSelectionTool)
    (path : list (Vector3 * Mesh)) : PaintSelectionTool.PaintSelectionTool :=
  fold_left (fun t '(worldPoint, hitMesh) =>
               PaintSelectionTool.selectFacesAroundPoint t worldPoint hitMesh)
            path t.

(** The identities of the faces of [hitMesh] that lie within the brush
    around [worldPoint], in the order of the loop. *)
Definition brushHits (t : PaintSelectionTool.PaintSelectionTool) (worldPoint : Vector3)
    (hitMesh : Mesh) : list Z :=
  match PaintSelectionTool.hull t, index (geometry hitMesh) with
  | Some _, Some index =>
      let positions := positionArray (geometry hitMesh) in
      let localPoint := worldToLocal hitMesh worldPoint in
      flat_map (fun faceIndex =>
        match PaintSelectionTool.localFaceCenter positions index faceIndex with
        | Some faceCenter =>
            if PaintSelectionTool.withinDistance faceCenter localPoint
                 (PaintSelectionTool.brushSize t)
            then [PaintSelectionTool.getFaceUniqueId hitMesh faceIndex]
            else []
        | None => []
        end) (seq 0 ((length index + 2) / 3))
  | _, _ => []
  end.

(** The cache of face data and the selection hold the same identities,
    in the same order. *)
Definition cacheConsistent (t : PaintSelectionTool.PaintSelectionTool) : Prop :=
  map fst (PaintSelectionTool.faceData t) = PaintSelectionTool.selectedFaces t.

(** *** Weight ledger *)

(** Paint at a point of a surface, then commit. *)
Definition paintAndApply (wm : WeightManager.WeightManager) (worldPoint : Vector3)
    (hitMesh : Mesh) : WeightManager.WeightManager :=
  let tool := WeightManager.paintSelectionTool wm in
  let painted :=
    WeightManager.withTool wm
      (PaintSelectionTool.selectFacesAroundPoint tool worldPoint hitMesh) in
  snd (WeightManager.applyWeightToSelection painted).

(** A surface of two triangles far from each other, with the identity as
    its world transform. *)
Definition twoFaceMesh : Mesh :=
  {| meshId := 7;
     geometry :=
       {| index := Some [0; 1; 2; 3; 4; 5]%nat;
          positionArray := [0; 0; 0;  1; 0; 0;  0; 1; 0;
                            10; 0; 0;  11; 0; 0;  10; 1; 0] |};
     worldToLocal := fun p => p;
     applyMatrixWorld := fun p => p |}.

Definition twoFaceHull : SeparatedHullMesh :=
  {| hullMesh := 7; transomMesh := None; bowMesh := None; deckMesh := None;
     stationsMesh := [] |}.

(** A ledger with a base weight, no custom load and nothing painted. *)
Definition emptyLedger : Physics.Physics :=
  {| Physics.thickness := 1 # 10;
     Physics.weight := 1500;
     Physics.customWeights := [];
     Physics.paintedWeights := [] |}.

(** The manager as built for [twoFaceHull]: weight per face 10, brush 0.5. *)
Definition twoFaceManager : WeightManager.WeightManager :=
  WeightManager.new (Some emptyLedger)
    (PaintSelectionTool.setHull PaintSelectionTool.new twoFaceHull).

(** Points at the centres of the two faces. *)
Definition firstFacePoint : Vector3 := mkVector3 (1 # 3) (1 # 3) 0.
Definition secondFacePoint : Vector3 := mkVector3 (31 # 3) (1 # 3) 0.

(** The manager of the two-face surface after a stroke over both faces. *)
Definition bothFacesOps : list SelectionOp :=
  [OpSetHull twoFaceHull; OpSelect firstFacePoint twoFaceMesh;
   OpSelect secondFacePoint twoFaceMesh].

Definition bothFacesManager : WeightManager.WeightManager :=
  WeightManager.withTool twoFaceManager
    (fold_left runSelectionOp bothFacesOps PaintSelectionTool.new).

(** A stroke over the two faces of the two-face surface. *)
Definition twoFacePath : list (Vector3 * Mesh) :=
  [(firstFacePoint, twoFaceMesh); (secondFacePoint, twoFaceMesh)].

(** *** Sorting *)

(** Order of the keys. *)
Definition keyLe {A : Type} (key : A -> Q) (a b : A) : Prop := key a <= key b.

(** Keys that differ two by two. *)
Definition distinctKeys {A : Type} (key : A -> Q) (l : list A) : Prop :=
  forall (i j : nat) (a b : A),
    i <> j -> l !! i = Some a -> l !! j = Some b -> ~ key a == key b.

(** *** Offset tables *)

(** Three symmetric samples at the heights 0, 1 and 2. *)
Definition threeSamples (a b c : Q) : list WaterlineData :=
  [mkWaterlineData 0 a None; mkWaterlineData 1 b None; mkWaterlineData 2 c None].

(** A symmetric table of three stations and three waterlines, in metres,
    with a keel and no chine. *)
Definition threeByThree : QuoteTable :=
  {| stations := [mkStation 0 (threeSamples 0 1 2);
                  mkStation 5 (threeSamples 0 2 3);
                  mkStation 10 (threeSamples 0 1 2)];
     metadata := {| weight := 1000; hasKeel := Some true; hasChine := Some false;
                    thickness := 1 # 10; units := m; symmetry := Some symmetric |} |}.

(** Two stations that carry no sample. *)
Definition bareTable : QuoteTable :=
  {| stations := [mkStation 0 []; mkStation 1 []];
     metadata := {| weight := 1000; hasKeel := None; hasChine := None;
                    thickness := 1 # 10; units := m; symmetry := None |} |}.

(** Level of detail 2. *)
Definition lodTwo : LODConfig :=
  {| stationMultiplier := 2; waterlineMultiplier := 2; enableSmoothing := true |}.

(** No densification. *)
Definition lodOne : LODConfig :=
  {| stationMultiplier := 1; waterlineMultiplier := 1; enableSmoothing := true |}.

(** A table in metres whose half-breadths are beyond the range of a
    [Float32Array]. *)
Definition hugeTable : QuoteTable :=
  let wide := inject_Z (10 ^ 39) in
  {| stations := [mkStation 0 [mkWaterlineData 0 wide None; mkWaterlineData 1 wide None];
                  mkStation 1 [mkWaterlineData 0 wide None; mkWaterlineData 1 wide None]];
     metadata := {| weight := 1000; hasKeel := None; hasChine := None;
                    thickness := 1 # 10; units := m; symmetry := None |} |}.

(** A single station: vertices and no face. *)
Definition oneStationTable : QuoteTable :=
  {| stations := [mkStation 0 (threeSamples 0 1 2)];
     metadata := {| weight := 1000; hasKeel := None; hasChine := None;
                    thickness := 1 # 10; units := m; symmetry := None |} |}.

(** Two stations with waterlines at 0, 980 and 1000, in the given units:
    for millimetres the two highest waterlines are 20 mm apart. *)
Definition deckTable (u : Units) : QuoteTable :=
  let samples := [mkWaterlineData 0 500 None; mkWaterlineData 980 500 None;
                  mkWaterlineData 1000 500 None] in
  {| stations := [mkStation 0 samples; mkStation 1000 samples];
     metadata := {| weight := 1000; hasKeel := None; hasChine := None;
                    thickness := 1 # 10; units := u; symmetry := None |} |}.

(** The three vertices of the face at offset [i] of an index list. *)
Definition faceVertices (vertices : list Vector3) (indices : list nat) (i : nat)
    : option (Vector3 * Vector3 * Vector3) :=
  match indices !! i, indices !! (i + 1)%nat, indices !! (i + 2)%nat with
  | Some a, Some b, Some c =>
      match vertices !! a, vertices !! b, vertices !! c with
      | Some v1, Some v2, Some v3 => Some (v1, v2, v3)
      | _, _, _ => None
      end
  | _, _, _ => None
  end.

(** The hull of [deckTable mm], given in metres. *)
Definition deckTableMetres : QuoteTable :=
  let samples := [mkWaterlineData 0 (1 # 2) None; mkWaterlineData (98 # 100) (1 # 2) None;
                  mkWaterlineData 1 (1 # 2) None] in
  {| stations := [mkStation 0 samples; mkStation 1 samples];
     metadata := {| weight := 1000; hasKeel := None; hasChine := None;
                    thickness := 1 # 10; units := m; symmetry := None |} |}.

(** The table handed to the generators: densified when a multiplier
    exceeds 1. *)
Definition refinedTable (table : QuoteTable) (lodConfig : LODConfig) : QuoteTable :=
  if Qltb 1 (stationMultiplier lodConfig) || Qltb 1 (waterlineMultiplier lodConfig)
  then Helpers.interpolateHullGrid table lodConfig
  else table.

(** *** Faces of one panel *)

(** The four body triangles of the panel [(s, w)]. *)
Definition bodyFaces (r : VertexGenerationResult) (s w : nat) : list nat :=
  generateStandardPanel [] (getPanelVertices (vertexMap r) s w).

(** The four triangles that tie the bottom of the panel column [s] to the
    keel. *)
Definition keelFaces (r : VertexGenerationResult) (s : nat) : list nat :=
  generateKeelConnection [] (vertexMap r) (keelVertices r) s 0.

(** The eight triangles of the chine panel of the column [s]. *)
Definition chineFaces (r : VertexGenerationResult) (s : nat) : list nat :=
  generateChinePanel [] (vertexMap r) s 0.

(** *** Vertex generation, sample by sample *)

(** A sample that is present: the indices of its station and of its
    height in the sorted lists, the station, the height and the data. *)
Record Entry := mkEntry {
  entryS : nat;
  entryW : nat;
  entryStation : Station;
  entryHeight : Q;
  entryData : WaterlineData
}.

(** The present samples of one station, for the heights [hs] counted
    from [j]. *)
Fixpoint rowEntries (station : Station) (sIdx j : nat) (hs : list Q) : list Entry :=
  match hs with
  | [] => []
  | h :: rest =>
      match findWaterline station h with
      | Some wlData => [mkEntry sIdx j station h wlData]
      | None => []
      end ++ rowEntries station sIdx (S j) rest
  end.

(** The present samples of the stations [ss] counted from [i], in the
    order in which [generateVertices] meets them. *)
Fixpoint gridEntries (i : nat) (ss : list Station) (ws : list Q) : list Entry :=
  match ss with
  | [] => []
  | station :: rest => rowEntries station i 0 ws ++ gridEntries (S i) rest ws
  end.

(** The vertices of a present sample. *)
Definition starboardX (scale : Q) (wlData : WaterlineData) : Q :=
  match halfBreadthStarboard wlData with
  | Some sb => sb
  | None => halfBreadthPort wlData
  end * scale.

Definition keelVertexOf (scale : Q) (e : Entry) : Vector3 :=
  mkVector3 0 (entryHeight e * scale - (5 # 100) * scale) (position (entryStation e) * scale).

Definition starboardVertexOf (scale : Q) (e : Entry) : Vector3 :=
  mkVector3 (starboardX scale (entryData e)) (entryHeight e * scale)
            (position (entryStation e) * scale).

Definition portVertexOf (scale : Q) (e : Entry) : Vector3 :=
  mkVector3 (- (halfBreadthPort (entryData e) * scale)) (entryHeight e * scale)
            (position (entryStation e) * scale).

Definition chineStarboardVertexOf (scale : Q) (e : Entry) : Vector3 :=
  mkVector3 (starboardX scale (entryData e) * (8 # 10)) (entryHeight e * scale)
            (position (entryStation e) * scale).

Definition chinePortVertexOf (scale : Q) (e : Entry) : Vector3 :=
  mkVector3 (- (halfBreadthPort (entryData e) * scale) * (8 # 10)) (entryHeight e * scale)
            (position (entryStation e) * scale).

(** The vertices that a present sample adds, in order. *)
Definition keelBlock (scale : Q) (hasKeel : bool) (e : Entry) : list Vector3 :=
  if hasKeel && (entryW e =? 0)%nat then [keelVertexOf scale e] else [].

Definition chineBlock (scale : Q) (hasChine : bool) (e : Entry) : list Vector3 :=
  if hasChine && (entryW e =? 0)%nat
  then [chineStarboardVertexOf scale e; chinePortVertexOf scale e] else [].

Definition vertexBlock (scale : Q) (hasKeel hasChine : bool) (e : Entry) : list Vector3 :=
  keelBlock scale hasKeel e
  ++ [starboardVertexOf scale e; portVertexOf scale e]
  ++ chineBlock scale hasChine e.

(** What [generateVertexPair] does for a present sample. *)
Definition emitEntry (scale : Q) (hasKeel hasChine : bool)
    (acc : VertexGenerationResult) (e : Entry) : VertexGenerationResult :=
  let base := length (vertices acc) in
  let k := length (keelBlock scale hasKeel e) in
  let vm :=
    <[(entryS e, entryW e, Port) := S (base + k)]>
      (<[(entryS e, entryW e, Star) := (base + k)%nat]> (vertexMap acc)) in
  {| vertices := vertices acc ++ vertexBlock scale hasKeel hasChine e;
     vertexMap :=
       if hasChine && (entryW e =? 0)%nat
       then <[(entryS e, entryW e, ChinePort) := S (base + k + 2)]>
              (<[(entryS e, entryW e, ChineStar) := (base + k + 2)%nat]> vm)
       else vm;
     keelVertices :=
       if hasKeel && (entryW e =? 0)%nat then keelVertices acc ++ [base] else keelVertices acc |}.

(** The key of a sample in the vertex lookup, without the side. *)
Definition entryKey (e : Entry) : nat * nat := (entryS e, entryW e).

(** Mirror image of a point about the centreline. *)
Definition mirror (v : Vector3) : Vector3 := mkVector3 (- vx v) (vy v) (vz v).

(** Every sample of the table leaves the starboard half-breadth out. *)
Definition allSymmetric (table : QuoteTable) : Prop :=
  forall st wl, In st (stations table) -> In wl (waterlines st) ->
                halfBreadthStarboard wl = None.

(** The table in which every missing starboard half-breadth is written
    out as the port one. *)
Definition fillSample (wl : WaterlineData) : WaterlineData :=
  {| height := height wl;
     halfBreadthPort := halfBreadthPort wl;
     halfBreadthStarboard :=
       Some (match halfBreadthStarboard wl with
             | Some sb => sb
             | None => halfBreadthPort wl
             end) |}.

Definition fillStation (st : Station) : Station :=
  {| position := position st; waterlines := map fillSample (waterlines st) |}.

Definition fillStarboard (table : QuoteTable) : QuoteTable :=
  {| stations := map fillStation (stations table); metadata := metadata table |}.

Definition fillEntry (e : Entry) : Entry :=
  mkEntry (entryS e) (entryW e) (fillStation (entryStation e)) (entryHeight e)
          (fillSample (entryData e)).

(** The table with another symmetry flag. *)
Definition withSymmetry (sym : option Symmetry) (table : QuoteTable) : QuoteTable :=
  {| stations := stations table;
     metadata :=
       {| weight := weight (metadata table);
          hasKeel := hasKeel (metadata table);
          hasChine := hasChine (metadata table);
          thickness := thickness (metadata table);
          units := units (metadata table);
          symmetry := sym |} |}.

(** Order of the samples in the grid: by station, then by height. *)
Definition keyLt (e e' : Entry) : Prop :=
  (entryS e < entryS e')%nat \/ (entryS e = entryS e' /\ (entryW e < entryW e')%nat).

(** *** Positions behind the vertex lookup *)

(** The vertex that a sample records under a side tag, if any. *)
Definition tagVertex (scale : Q) (hasChine : bool) (tag : VertexTag) (e : Entry)
    : option Vector3 :=
  match tag with
  | Star => Some (starboardVertexOf scale e)
  | Port => Some (portVertexOf scale e)
  | ChineStar =>
      if hasChine && (entryW e =? 0)%nat then Some (chineStarboardVertexOf scale e) else None
  | ChinePort =>
      if hasChine && (entryW e =? 0)%nat then Some (chinePortVertexOf scale e) else None
  end.

(** The sample at the station index [s] and the height index [w] of the
    sorted grid. *)
Definition sampleAt (ss : list Station) (ws : list Q) (s w : nat) : option Entry :=
  match ss !! s, ws !! w with
  | Some st, Some h =>
      match findWaterline st h with
      | Some wl => Some (mkEntry s w st h wl)
      | None => None
      end
  | _, _ => None
  end.

(** The position recorded under a key of the vertex lookup. *)
Definition positionAt (r : VertexGenerationResult) (k : VertexKey) : option Vector3 :=
  match vertexMap r !! k with
  | Some i => vertices r !! i
  | None => None
  end.

(** The position of the keel vertex recorded for the [k]-th entry of
    [keelVertices]. *)
Definition keelPositionAt (r : VertexGenerationResult) (k : nat) : option Vector3 :=
  match keelVertices r !! k with
  | Some i => vertices r !! i
  | None => None
  end.

(** The samples on the lowest waterline. *)
Definition bottomEntries (L : list Entry) : list Entry :=
  List.filter (fun e => (entryW e =? 0)%nat) L.

(** Every index of the lookup and of the keel list is an index of the
    vertex list. *)
Definition indicesInRange (r : VertexGenerationResult) : Prop :=
  (forall k i, vertexMap r !! k = Some i -> is_Some (vertices r !! i))
  /\ (forall k i, keelVertices r !! k = Some i -> is_Some (vertices r !! i)).

(** *** Removing a sample *)

(** The station without its samples of height [h0], when it stands at
    position [p0]; any other station as it is. *)
Definition dropSample (p0 h0 : Q) (st : Station) : Station :=
  if Qeq_bool (position st) p0
  then {| position := position st;
          waterlines := List.filter (fun wl => negb (Qeq_bool (height wl) h0)) (waterlines st) |}
  else st.

(** The table without the sample of height [h0] at position [p0]. *)
Definition removeSample (p0 h0 : Q) (table : QuoteTable) : QuoteTable :=
  {| stations := map (dropSample p0 h0) (stations table);
     metadata := metadata table |}.

(** Whether a sample of the grid is the removed one. *)
Definition removed (p0 h0 : Q) (e : Entry) : bool :=
  Qeq_bool (position (entryStation e)) p0 && Qeq_bool (entryHeight e) h0.

(** A sample that stays, seen in the table after the removal. *)
Definition dropEntry (p0 h0 : Q) (e : Entry) : Entry :=
  mkEntry (entryS e) (entryW e) (dropSample p0 h0 (entryStation e)) (entryHeight e)
          (entryData e).

(** A panel touches the removed sample when one of its four grid corners
    is the station at [p0] on the waterline [h0]. *)
Definition touchesSample (table : QuoteTable) (p0 h0 : Q) (s w : nat) : Prop :=
  exists s' w' st h,
    (s' = s \/ s' = S s) /\ (w' = w \/ w' = S w)
    /\ getSortedStations table !! s' = Some st
    /\ getSortedWaterlines table !! w' = Some h
    /\ position st == p0 /\ h == h0.

(** The index buffer of the hull body of a table. *)
Definition facesOf (stateUnits : Units) (table : QuoteTable) : list nat :=
  let r := generateVertices stateUnits table in
  generateFaces table (vertexMap r) (keelVertices r).

(** The part of the index buffer that one panel contributes. *)
Definition panelFaces (stateUnits : Units) (table : QuoteTable) (s w : nat) : list nat :=
  let r := generateVertices stateUnits table in
  generatePanelFaces [] (vertexMap r) (keelVertices r) s w
    (default false (hasKeel (metadata table))) (default false (hasChine (metadata table))).

(** The positions that a list of indices points at. *)
Definition facePositions (stateUnits : Units) (table : QuoteTable) (indices : list nat)
    : list (option Vector3) :=
  map (fun i => vertices (generateVertices stateUnits table) !! i) indices.

(** Whether the panel has its eight corners in the vertex lookup. *)
Definition panelComplete (stateUnits : Units) (table : QuoteTable) (s w : nat) : bool :=
  areAllPanelVerticesValid
    (getPanelVertices (vertexMap (generateVertices stateUnits table)) s w).

(** *** The corners of a panel over any lookup *)

Definition allPresent {A : Type} (l : list (option A)) : bool :=
  forallb (fun o => bool_decide (is_Some o)) l.

(** The corners of the triangles of a panel, in the order of
    [generatePanelFaces], read from a lookup of corners and a lookup of
    keel entries. *)
Definition panelCornersOf {A : Type} (look : VertexKey -> option A) (keel : nat -> option A)
    (s w : nat) (hasKeel hasChine : bool) : list (option A) :=
  let tl := look (s, w, Star) in
  let tr := look (S s, w, Star) in
  let br := look (S s, S w, Star) in
  let bl := look (s, S w, Star) in
  let tlp := look (s, w, Port) in
  let trp := look (S s, w, Port) in
  let brp := look (S s, S w, Port) in
  let blp := look (s, S w, Port) in
  let ctl := look (s, w, ChineStar) in
  let ctr := look (S s, w, ChineStar) in
  let ctlp := look (s, w, ChinePort) in
  let ctrp := look (S s, w, ChinePort) in
  let kl := keel s in
  let kr := keel (S s) in
  if negb (allPresent [tl; tr; br; bl; tlp; trp; brp; blp]) then []
  else
    (if hasChine && (w =? 0)%nat
     then if negb (allPresent [ctl; ctr; bl; br; ctlp; ctrp; blp; brp]) then []
          else [tl; tr; ctr; tl; ctr; ctl; ctl; ctr; br; ctl; br; bl;
                tlp; ctlp; ctrp; tlp; ctrp; trp; ctlp; blp; brp; ctlp; brp; ctrp]
     else [tl; tr; br; tl; br; bl; tlp; blp; brp; tlp; brp; trp])
    ++ (if hasKeel && (w =? 0)%nat
        then if negb (allPresent [kl; kr; tl; tr; tlp; trp]) then []
             else [tl; tr; kr; tl; kr; kl; tlp; kl; kr; tlp; kr; trp]
        else []).

(** The value behind an index, if the index is there. *)
Definition behind {A : Type} (l : list A) (o : option nat) : option A :=
  match o with
  | Some i => l !! i
  | None => None
  end.

(** Three stations in metres, without keel or chine: the outer two with
    samples at the heights 0 and 2, the middle one with a third sample
    at the height 1. *)
Definition sparseTable : QuoteTable :=
  {| stations := [mkStation 0 [mkWaterlineData 0 1 None; mkWaterlineData 2 2 None];
                  mkStation 1 (threeSamples 1 2 3);
                  mkStation 2 [mkWaterlineData 0 1 None; mkWaterlineData 2 2 None]];
     metadata := {| weight := 1000; hasKeel := Some false; hasChine := Some false;
                    thickness := 1 # 10; units := m; symmetry := Some symmetric |} |}.

(** Four stations with a sample at each of three heights, in metres, with
    a keel and no chine. *)
Definition fourByThree : QuoteTable :=
  {| stations := [mkStation 0 (threeSamples 0 1 2);
                  mkStation 1 (threeSamples 1 2 3);
                  mkStation 2 (threeSamples 1 2 3);
                  mkStation 3 (threeSamples 0 1 2)];
     metadata := {| weight := 1000; hasKeel := Some true; hasChine := Some false;
                    thickness := 1 # 10; units := m; symmetry := Some symmetric |} |}.

(** *** Triangles *)

(** The triangles of an index buffer, three entries at a time. *)
Fixpoint triangles {A : Type} (l : list A) : list (A * A * A) :=
  match l with
  | a :: b :: c :: rest => (a, b, c) :: triangles rest
  | _ => []
  end.

(** The mirror image of a triangle, listed in the opposite sense of
    rotation so that it faces outward like the original. *)
Definition mirrorTriangle (t : option Vector3 * option Vector3 * option Vector3)
    : option Vector3 * option Vector3 * option Vector3 :=
  (mirror <$> t.1.1, mirror <$> t.2, mirror <$> t.1.2).

(** The triangles of the hull body, as triples of positions. *)
Definition meshTriangles (stateUnits : Units) (table : QuoteTable)
    : list (option Vector3 * option Vector3 * option Vector3) :=
  triangles (facePositions stateUnits table (facesOf stateUnits table)).

(** ** More of the code, and the vocabulary of its properties *)

(** The heights of a list are strictly increasing. *)
Definition increasing (l : list Q) : Prop :=
  forall (i j : nat) (a b : Q), (i < j)%nat -> l !! i = Some a -> l !! j = Some b -> a < b.

(** The elements of a list with the key [p], in the order of the list. *)
Definition withKey {A : Type} (key : A -> Q) (p : Q) (l : list A) : list A :=
  List.filter (fun a => Qeq_bool (key a) p) l.

(** *** Counting the samples of a table *)

(** Whether the station has a sample at the height. *)
Definition hasSample (station : Station) (h : Q) : bool :=
  match findWaterline station h with
  | Some _ => true
  | None => false
  end.

(** The number of places of the sorted grid (station, height) that hold
    a sample. *)
Definition sampleCount (table : QuoteTable) : nat :=
  list_sum (map (fun station =>
                   length (List.filter (hasSample station) (getSortedWaterlines table)))
                (getSortedStations table)).

(** The number of stations with a sample on the lowest waterline. *)
Definition bottomCount (table : QuoteTable) : nat :=
  match getSortedWaterlines table with
  | [] => 0%nat
  | h0 :: _ =>
      length (List.filter (fun station => hasSample station h0) (getSortedStations table))
  end.

(** Every station has a sample at every height of the table. *)
Definition completeTable (table : QuoteTable) : Prop :=
  forall st h, In st (stations table) -> In h (getSortedWaterlines table) ->
               findWaterline st h <> None.

(** *** The indices of the vertex lookup *)

(** Every index of the lookup and of the keel list is below [n]; no two
    keys of the lookup share an index; no index of the keel list is an
    index of the lookup, and none comes twice. *)
Definition distinctIndices (n : nat) (vm : gmap VertexKey nat) (kv : list nat) : Prop :=
  (forall k i, vm !! k = Some i -> (i < n)%nat)
  /\ (forall j i, kv !! j = Some i -> (i < n)%nat)
  /\ (forall k1 k2 i, vm !! k1 = Some i -> vm !! k2 = Some i -> k1 = k2)
  /\ (forall k j i, vm !! k = Some i -> kv !! j = Some i -> False)
  /\ NoDup kv.

(** *** Cap surfaces *)

(** An index buffer over the points of a cap: empty for fewer than four
    points; otherwise, as long as a 16-bit index can hold them, two
    triangles for every pair of points after the first, each index the
    index of a point. *)
Definition stripValid (points : list Vector3) (indices : list nat) : Prop :=
  ((length points < 4)%nat -> indices = [])
  /\ ((4 <= length points)%nat -> (Z.of_nat (length points) <= 65536)%Z ->
      length indices = (3 * (length points - 2))%nat
      /\ forall i, In i indices -> (i < length points)%nat).

(** ** scripts/utils/geometry/helpers.ts: array search *)

(** [findClosestLower]: [null] is [None]. *)
Definition findClosestLower (array : list Q) (value : Q) : option Q :=
  fold_left (fun closest item =>
               if Qle_bool item value
                  && match closest with
                     | None => true
                     | Some c => Qltb c item
                     end
               then Some item else closest)
            array None.

Definition findClosestHigher (array : list Q) (value : Q) : option Q :=
  fold_left (fun closest item =>
               if Qle_bool value item
                  && match closest with
                     | None => true
                     | Some c => Qltb item c
                     end
               then Some item else closest)
            array None.

(** [array.reduce] without an initial value starts from the first
    element. *)
Definition findNearest (array : list Q) (value : Q) : Q :=
  match array with
  | [] => value
  | first :: rest =>
      fold_left (fun prev curr =>
                   if Qltb (Qabs (curr - value)) (Qabs (prev - value)) then curr else prev)
                rest first
  end.

(** What [findClosestLower] holds after it has read [seen]. *)
Definition lowerOf (value : Q) (seen : list Q) (closest : option Q) : Prop :=
  match closest with
  | None => forall x, In x seen -> value < x
  | Some c => In c seen /\ c <= value /\ forall x, In x seen -> x <= value -> x <= c
  end.

Definition higherOf (value : Q) (seen : list Q) (closest : option Q) : Prop :=
  match closest with
  | None => forall x, In x seen -> x < value
  | Some c => In c seen /\ value <= c /\ forall x, In x seen -> value <= x -> c <= x
  end.

(** ** scripts/utils/geometry/helpers.ts: ear clipping *)

Definition pointInTriangle (p a b c : Vector3) : bool :=
  let area := Qabs ((vy b - vy a) * (vz c - vz a) - (vy c - vy a) * (vz b - vz a)) in
  let area1 := Qabs ((vy p - vy b) * (vz c - vz b) - (vy c - vy b) * (vz p - vz b)) in
  let area2 := Qabs ((vy a - vy p) * (vz c - vz p) - (vy c - vy p) * (vz a - vz p)) in
  let area3 := Qabs ((vy a - vy b) * (vz p - vz b) - (vy p - vy b) * (vz a - vz b)) in
  Qltb (Qabs (area - (area1 + area2 + area3))) (1 # 10000).

(** [isEar]: the indices it is given are indices of [points]; a read
    outside, which the loop of [triangulatePolygon] never makes, is
    [false] here. *)
Definition isEar (points : list Vector3) (a b c : nat) (remaining : list nat) : bool :=
  match points !! a, points !! b, points !! c with
  | Some pa, Some pb, Some pc =>
      let area := (vy pb - vy pa) * (vz pc - vz pa) - (vy pc - vy pa) * (vz pb - vz pa) in
      if Qle_bool area 0 then false
      else
        forallb (fun idx =>
                   if (idx =? a)%nat || (idx =? b)%nat || (idx =? c)%nat then true
                   else
                     match points !! idx with
                     | Some p => negb (pointInTriangle p pa pb pc)
                     | None => true
                     end)
                remaining
  | _, _, _ => false
  end.

(** The triangle that the scan of [triangulatePolygon] tries at place
    [i] of [remaining]. *)
Definition earAt (points : list Vector3) (remaining : list nat) (i : nat)
    : option (nat * nat * nat) :=
  let len := length remaining in
  match remaining !! ((i + len - 1) mod len)%nat, remaining !! i,
        remaining !! ((i + 1) mod len)%nat with
  | Some a, Some b, Some c => if isEar points a b c remaining then Some (a, b, c) else None
  | _, _, _ => None
  end.

(** The first place of [remaining] that is an ear, with its triangle. *)
Definition findEar (points : list Vector3) (remaining : list nat)
    : option (nat * (nat * nat * nat)) :=
  fold_left (fun found i =>
               match found with
               | Some _ => found
               | None =>
                   match earAt points remaining i with
                   | Some t => Some (i, t)
                   | None => None
                   end
               end)
            (seq 0 (length remaining)) None.

(** The fan from the first vertex that remains. *)
Definition fanTriangles (remaining : list nat) : list nat :=
  let first := nth 0 remaining 0%nat in
  flat_map (fun i => [first; nth i remaining 0%nat; nth (i + 1) remaining 0%nat])
           (seq 1 (length remaining - 2)).

(** The loop [while (remaining.length > 2)]; it removes a vertex at every
    turn but the last, so [fuel] turns are enough when [fuel] is the
    number of vertices. *)
Fixpoint clipEars (fuel : nat) (points : list Vector3) (remaining indices : list nat)
    : list nat :=
  match fuel with
  | O => indices
  | S fuel =>
      if (length remaining <=? 2)%nat then indices
      else
        match findEar points remaining with
        | Some (i, (a, b, c)) =>
            clipEars fuel points (delete i remaining) (indices ++ [a; b; c])
        | None => indices ++ fanTriangles remaining
        end
  end.

Definition triangulatePolygon (points : list Vector3) : list nat :=
  let n := length points in
  if (n <? 3)%nat then []
  else clipEars n points (seq 0 n) [].

(** A square in the plane x = 0, its corners in order. *)
Definition squarePoints : list Vector3 :=
  [mkVector3 0 0 0; mkVector3 0 1 0; mkVector3 0 1 1; mkVector3 0 0 1].

(** An index buffer of whole triangles over [n] points, each with three
    different corners. *)
Definition validTriangles (n : nat) (indices : list nat) : Prop :=
  (exists k, length indices = (3 * k)%nat)
  /\ forall a b c, In (a, b, c) (triangles indices) ->
       ((a < n)%nat /\ (b < n)%nat /\ (c < n)%nat) /\ a <> b /\ b <> c /\ a <> c.

(** A sample whose half-breadths, the starboard one when it is given, lie
    between 0 and [bound]. *)
Definition sampleWithin (bound : Q) (wl : WaterlineData) : Prop :=
  0 <= halfBreadthPort wl <= bound
  /\ forall s, halfBreadthStarboard wl = Some s -> 0 <= s <= bound.

Definition breadthsWithin (bound : Q) (table : QuoteTable) : Prop :=
  forall st wl, In st (stations table) -> In wl (waterlines st) -> sampleWithin bound wl.

(** ** scripts/group_organizer.ts: the faces that the loop classifies *)

(** The faces of an index buffer whose three indices are indices of
    [vertices], each with its offset in the buffer and its centroid,
    from the offset [i] on. *)
Fixpoint validFacesFrom (vertices : list Vector3) (i : nat) (indices : list nat)
    : list (nat * Vector3) :=
  match indices with
  | a :: b :: c :: rest =>
      match vertices !! a, vertices !! b, vertices !! c with
      | Some v1, Some v2, Some v3 =>
          (i, faceCentroid v1 v2 v3) :: validFacesFrom vertices (i + 3) rest
      | _, _, _ => validFacesFrom vertices (i + 3) rest
      end
  | _ => []
  end.

(** What the loop pushes for a list of faces: [i, i + 1, i + 2] for each. *)
Definition faceOffsets (faces : list (nat * Vector3)) : list nat :=
  flat_map (fun f => [f.1; (f.1 + 1)%nat; (f.1 + 2)%nat]) faces.

(** The place of an element in a list, with what a scan for the first
    minimum of [dist] leaves there: nothing before it is as near, nothing
    at all is nearer. *)
Definition firstNearest {A : Type} (dist : A -> Q) (l : list A) (c : A) : Prop :=
  exists i, l !! i = Some c
    /\ (forall j x, (j < i)%nat -> l !! j = Some x -> dist c < dist x)
    /\ (forall x, In x l -> dist c <= dist x).

(** ** scripts/color_generator.ts: the colour of a vertex *)

(** The three entries of the colour buffer for the vertex [v]. *)
Definition vertexColor (colors : list float32) (v : nat)
    : option float32 * option float32 * option float32 :=
  (colors !! (v * 3)%nat, colors !! (v * 3 + 1)%nat, colors !! (v * 3 + 2)%nat).

(** The three entries that a colour leaves in the buffer. *)
Definition colorTriple (color : Vector3) : option float32 * option float32 * option float32 :=
  (Some (toFloat32 (vx color)), Some (toFloat32 (vy color)), Some (toFloat32 (vz color))).

(** The vertex [v] is the corner number [k] of the face that the entry
    [faceIndex] of a group stands for. *)
Definition cornerOf (indices : list nat) (faceIndex : nat) (v : nat) : Prop :=
  exists k, (k < 3)%nat /\ indices !! (faceIndex * 3 + k)%nat = Some v.

(** Every entry of the station groups, the waterline groups and the deck
    group. *)
Definition groupEntries (groups : GeometryGroups) : list nat :=
  flat_map snd (groupStations groups) ++ flat_map snd (groupWaterlines groups) ++ deck groups.

(** Three stations with the samples of [deckTableMetres]. *)
Definition deckTableThree : QuoteTable :=
  let samples := [mkWaterlineData 0 (1 # 2) None; mkWaterlineData (98 # 100) (1 # 2) None;
                  mkWaterlineData 1 (1 # 2) None] in
  {| stations := [mkStation 0 samples; mkStation 1 samples; mkStation 2 samples];
     metadata := metadata deckTableMetres |}.

(** ** scripts/utils/controls/paint_selection_tool.ts: the breakdown *)

(** The object that [getSelectionBreakdown] returns: a count for each of
    the six kinds of surface. *)
Record SelectionBreakdown := mkSelectionBreakdown {
  countHull : nat;
  countDeck : nat;
  countStation : nat;
  countTransom : nat;
  countBow : nat;
  countUnknown : nat
}.

(** [breakdown[meshType] = (breakdown[meshType] || 0) + 1] *)
Definition countFace (b : SelectionBreakdown) (meshType : MeshType) : SelectionBreakdown :=
  match meshType with
  | TypeHull =>
      {| countHull := countHull b + 1; countDeck := countDeck b;
         countStation := countStation b; countTransom := countTransom b;
         countBow := countBow b; countUnknown := countUnknown b |}
  | TypeDeck =>
      {| countHull := countHull b; countDeck := countDeck b + 1;
         countStation := countStation b; countTransom := countTransom b;
         countBow := countBow b; countUnknown := countUnknown b |}
  | TypeStation =>
      {| countHull := countHull b; countDeck := countDeck b;
         countStation := countStation b + 1; countTransom := countTransom b;
         countBow := countBow b; countUnknown := countUnknown b |}
  | TypeTransom =>
      {| countHull := countHull b; countDeck := countDeck b;
         countStation := countStation b; countTransom := countTransom b + 1;
         countBow := countBow b; countUnknown := countUnknown b |}
  | TypeBow =>
      {| countHull := countHull b; countDeck := countDeck b;
         countStation := countStation b; countTransom := countTransom b;
         countBow := countBow b + 1; countUnknown := countUnknown b |}
  | TypeUnknown =>
      {| countHull := countHull b; countDeck := countDeck b;
         countStation := countStation b; countTransom := countTransom b;
         countBow := countBow b; countUnknown := countUnknown b + 1 |}
  end.

Definition getSelectionBreakdown (this : PaintSelectionTool.PaintSelectionTool)
    : SelectionBreakdown :=
  fold_left (fun breakdown '(faceId, faceData) =>
               if setHas faceId (PaintSelectionTool.selectedFaces this)
               then countFace breakdown (meshType faceData)
               else breakdown)
            (PaintSelectionTool.faceData this)
            {| countHull := 0; countDeck := 0; countStation := 0; countTransom := 0;
               countBow := 0; countUnknown := 0 |}.

(** The count that a breakdown holds for a kind of surface. *)
Definition countOf (b : SelectionBreakdown) (meshType : MeshType) : nat :=
  match meshType with
  | TypeHull => countHull b
  | TypeDeck => countDeck b
  | TypeStation => countStation b
  | TypeTransom => countTransom b
  | TypeBow => countBow b
  | TypeUnknown => countUnknown b
  end.

Definition sameMeshType (a b : MeshType) : bool :=
  match a, b with
  | TypeHull, TypeHull | TypeDeck, TypeDeck | TypeStation, TypeStation
  | TypeTransom, TypeTransom | TypeBow, TypeBow | TypeUnknown, TypeUnknown => true
  | _, _ => false
  end.

(** The cached faces of a kind of surface. *)
Definition facesOfType (this : PaintSelectionTool.PaintSelectionTool) (kind : MeshType)
    : list (Z * FaceData) :=
  List.filter (fun e => sameMeshType (meshType e.2) kind) (PaintSelectionTool.faceData this).

(** * Selection engine *)

Section SelectionEngine.

Import PaintSelectionTool.

Lemma mapHas_keys {T : Type} (k : Z) (mp : list (Z * T)) :
  mapHas k mp = setHas k (map fst mp).
Proof.
  unfold mapHas, setHas. induction mp as [|[k' x] mp IH]; simpl; [done|].
  by rewrite IH.
Qed.

Lemma mapSet_fresh {T : Type} (k : Z) (v : T) (mp : list (Z * T)) :
  mapHas k mp = false -> mapSet k v mp = mp ++ [(k, v)].
Proof.
  unfold mapHas. induction mp as [|[k' x] mp IH]; simpl; [done|].
  intros H. apply orb_false_iff in H as [Hk Hr].
  rewrite Z.eqb_sym, Hk. by rewrite IH.
Qed.

Lemma mapDelete_keys {T : Type} (k : Z) (mp : list (Z * T)) :
  map fst (mapDelete k mp) = setDelete k (map fst mp).
Proof.
  unfold mapDelete, setDelete. induction mp as [|[k' x] mp IH]; simpl; [done|].
  rewrite !filter_cons. simpl. case_decide; simpl; by rewrite IH.
Qed.

Lemma setHas_In (x : Z) (s : list Z) : setHas x s = true <-> In x s.
Proof.
  unfold setHas. rewrite existsb_exists. split.
  - intros (y & Hy & Heq). apply Z.eqb_eq in Heq. by subst.
  - intros H. exists x. split; [done | apply Z.eqb_refl].
Qed.

Lemma setHas_false (x : Z) (s : list Z) : setHas x s = false <-> ~ In x s.
Proof.
  rewrite <- setHas_In. destruct (setHas x s); split; intros; congruence.
Qed.

Lemma selectFace_consistent hitMesh meshType localPoint positions index t k :
  cacheConsistent t ->
  cacheConsistent (selectFace hitMesh meshType localPoint positions index t k).
Proof.
  unfold cacheConsistent, selectFace. intros Hinv.
  destruct (localFaceCenter positions index k) as [c|]; [|done].
  destruct (withinDistance c localPoint (brushSize t)); [|done].
  destruct (isRemoving t); simpl.
  - destruct (setHas _ (selectedFaces t)) eqn:Hhas; simpl; [|done].
    by rewrite mapDelete_keys, Hinv.
  - unfold setInsert. rewrite mapHas_keys, Hinv.
    destruct (setHas _ (selectedFaces t)) eqn:Hhas; simpl; [done|].
    rewrite mapSet_fresh by (by rewrite mapHas_keys, Hinv).
    by rewrite map_app, Hinv.
Qed.

Lemma selectFacesAroundPoint_consistent t worldPoint hitMesh :
  cacheConsistent t -> cacheConsistent (selectFacesAroundPoint t worldPoint hitMesh).
Proof.
  unfold selectFacesAroundPoint. intros Hinv.
  destruct (hull t); [|done].
  destruct (index (geometry hitMesh)) as [ix|]; [|done].
  generalize (seq 0 ((length ix + 2) / 3)). intros l. revert t Hinv.
  induction l as [|k l IH]; simpl; intros t Hinv; [done|].
  apply IH. by apply selectFace_consistent.
Qed.

Lemma runSelectionOp_consistent t op :
  cacheConsistent t -> cacheConsistent (runSelectionOp t op).
Proof.
  destruct op; simpl; try done.
  apply selectFacesAroundPoint_consistent.
Qed.

Lemma runSelectionOps_consistent ops t :
  cacheConsistent t -> cacheConsistent (fold_left runSelectionOp ops t).
Proof.
  revert t. induction ops as [|op ops IH]; simpl; intros t Hinv; [done|].
  apply IH. by apply runSelectionOp_consistent.
Qed.

(** What one call of [selectFacesAroundPoint] leaves untouched. *)
Lemma selectFace_frame hitMesh meshType localPoint positions index t k :
  let t' := selectFace hitMesh meshType localPoint positions index t k in
  hull t' = hull t /\ brushSize t' = brushSize t /\ isRemoving t' = isRemoving t.
Proof.
  unfold selectFace.
  destruct (localFaceCenter positions index k) as [c|]; [|done].
  destruct (withinDistance c localPoint (brushSize t)); [|done].
  destruct (isRemoving t) eqn:Hrem; simpl; [|done].
  destruct (setHas _ (selectedFaces t)); simpl; by rewrite ?Hrem.
Qed.

Lemma selectFacesAroundPoint_frame t worldPoint hitMesh :
  let t' := selectFacesAroundPoint t worldPoint hitMesh in
  hull t' = hull t /\ brushSize t' = brushSize t /\ isRemoving t' = isRemoving t.
Proof.
  unfold selectFacesAroundPoint.
  destruct (hull t) eqn:Hh; [|by rewrite Hh].
  destruct (index (geometry hitMesh)) as [ix|]; [|by rewrite Hh].
  rewrite <- Hh. generalize (seq 0 ((length ix + 2) / 3)). intros l.
  generalize (getMeshType s hitMesh). intros mt. clear Hh.
  revert t. induction l as [|k l IH]; simpl; intros t; [done|].
  destruct (IH (selectFace hitMesh mt (worldToLocal hitMesh worldPoint)
                   (positionArray (geometry hitMesh)) ix t k)) as (H1 & H2 & H3).
  destruct (selectFace_frame hitMesh mt (worldToLocal hitMesh worldPoint)
                   (positionArray (geometry hitMesh)) ix t k) as (G1 & G2 & G3).
  simpl in *. rewrite H1, H2, H3. done.
Qed.

Lemma setDelete_absent (x : Z) (s : list Z) : ~ In x s -> setDelete x s = s.
Proof.
  unfold setDelete. induction s as [|y s IH]; simpl; intros H; [done|].
  rewrite filter_cons. case_decide; [f_equal; tauto | subst; tauto].
Qed.

Lemma setDelete_In (x y : Z) (s : list Z) : In y (setDelete x s) <-> In y s /\ y <> x.
Proof.
  unfold setDelete. rewrite <- !list_elem_of_In, list_elem_of_filter. tauto.
Qed.

Lemma setInsert_In (x y : Z) (s : list Z) : In y (setInsert x s) <-> In y s \/ y = x.
Proof.
  unfold setInsert. destruct (setHas x s) eqn:H.
  - apply setHas_In in H. split; [tauto | intros [|]; by subst].
  - rewrite in_app_iff. simpl. intuition congruence.
Qed.

Lemma fold_setInsert_In (hits s : list Z) (y : Z) :
  In y (fold_left (fun s x => setInsert x s) hits s) <-> In y s \/ In y hits.
Proof.
  revert s. induction hits as [|x hits IH]; simpl; intros s; [tauto|].
  rewrite IH, setInsert_In. split; intros; intuition (subst; auto).
Qed.

Lemma fold_setDelete_In (hits s : list Z) (y : Z) :
  In y (fold_left (fun s x => setDelete x s) hits s) <-> In y s /\ ~ In y hits.
Proof.
  revert s. induction hits as [|x hits IH]; simpl; intros s; [tauto|].
  rewrite IH, setDelete_In. split; intros; intuition (subst; auto).
Qed.

Lemma brushHits_frame t t' worldPoint hitMesh :
  hull t' = hull t -> brushSize t' = brushSize t ->
  brushHits t' worldPoint hitMesh = brushHits t worldPoint hitMesh.
Proof. unfold brushHits. by intros -> ->. Qed.

(** In add mode a call inserts the brush hits, one after the other. *)
Lemma selectFacesAroundPoint_add t worldPoint hitMesh :
  isRemoving t = false ->
  selectedFaces (selectFacesAroundPoint t worldPoint hitMesh)
  = fold_left (fun s x => setInsert x s) (brushHits t worldPoint hitMesh) (selectedFaces t).
Proof.
  unfold selectFacesAroundPoint, brushHits. intros Hrem.
  destruct (hull t) eqn:Hh; [|done].
  destruct (index (geometry hitMesh)) as [ix|]; [|done].
  generalize (seq 0 ((length ix + 2) / 3)). intros l.
  generalize (getMeshType s hitMesh). intros mt.
  assert (Hb : brushSize t = brushSize t) by done. revert Hb.
  generalize (brushSize t) at 1 3. intros b. clear Hh.
  revert t Hrem. induction l as [|k l IH]; simpl; intros t Hrem Hb; [done|].
  rewrite fold_left_app.
  destruct (selectFace_frame hitMesh mt (worldToLocal hitMesh worldPoint)
                   (positionArray (geometry hitMesh)) ix t k) as (G1 & G2 & G3).
  simpl in *. rewrite IH by congruence. f_equal.
  unfold selectFace.
  destruct (localFaceCenter _ ix k) as [c|]; [|done].
  rewrite <- Hb. destruct (withinDistance c _ b); [|done].
  by rewrite Hrem.
Qed.

(** In remove mode a call deletes the brush hits. *)
Lemma selectFacesAroundPoint_remove t worldPoint hitMesh :
  isRemoving t = true ->
  selectedFaces (selectFacesAroundPoint t worldPoint hitMesh)
  = fold_left (fun s x => setDelete x s) (brushHits t worldPoint hitMesh) (selectedFaces t).
Proof.
  unfold selectFacesAroundPoint, brushHits. intros Hrem.
  destruct (hull t) eqn:Hh; [|done].
  destruct (index (geometry hitMesh)) as [ix|]; [|done].
  generalize (seq 0 ((length ix + 2) / 3)). intros l.
  generalize (getMeshType s hitMesh). intros mt.
  assert (Hb : brushSize t = brushSize t) by done. revert Hb.
  generalize (brushSize t) at 1 3. intros b. clear Hh.
  revert t Hrem. induction l as [|k l IH]; simpl; intros t Hrem Hb; [done|].
  rewrite fold_left_app.
  destruct (selectFace_frame hitMesh mt (worldToLocal hitMesh worldPoint)
                   (positionArray (geometry hitMesh)) ix t k) as (G1 & G2 & G3).
  simpl in *. rewrite IH by congruence. f_equal.
  unfold selectFace.
  destruct (localFaceCenter _ ix k) as [c|]; [|done].
  rewrite <- Hb. destruct (withinDistance c _ b); [|done].
  rewrite Hrem. simpl.
  destruct (setHas _ (selectedFaces t)) eqn:Hhas; simpl; [done|].
  apply setHas_false in Hhas. by rewrite setDelete_absent.
Qed.

Lemma paintPath_frame path t :
  hull (paintPath t path) = hull t
  /\ brushSize (paintPath t path) = brushSize t
  /\ isRemoving (paintPath t path) = isRemoving t.
Proof.
  unfold paintPath. revert t. induction path as [|[p mesh] path IH]; simpl; intros t; [done|].
  destruct (IH (selectFacesAroundPoint t p mesh)) as (H1 & H2 & H3).
  destruct (selectFacesAroundPoint_frame t p mesh) as (G1 & G2 & G3).
  simpl in *. rewrite H1, H2, H3. done.
Qed.

(** Every face selected by a path painted in add mode was hit by it or
    was selected before. *)
Lemma paintPath_add_In path t y :
  isRemoving t = false ->
  In y (selectedFaces (paintPath t path)) ->
  In y (selectedFaces t)
  \/ exists p mesh, In (p, mesh) path /\ In y (brushHits t p mesh).
Proof.
  unfold paintPath. revert t. induction path as [|[p mesh] path IH]; simpl; intros t Hrem Hy.
  { by left. }
  destruct (selectFacesAroundPoint_frame t p mesh) as (G1 & G2 & G3). simpl in *.
  apply IH in Hy; [|congruence].
  destruct Hy as [Hy | (p' & mesh' & Hin & Hy)].
  - rewrite selectFacesAroundPoint_add in Hy by done.
    apply fold_setInsert_In in Hy as [Hy|Hy]; [by left|].
    right. exists p, mesh. split; [by left | done].
  - right. exists p', mesh'. split; [by right|].
    by rewrite (brushHits_frame t) in Hy.
Qed.

(** No face hit by a path painted in remove mode stays selected. *)
Lemma paintPath_remove_In path t y :
  isRemoving t = true ->
  In y (selectedFaces (paintPath t path)) ->
  In y (selectedFaces t)
  /\ forall p mesh, In (p, mesh) path -> ~ In y (brushHits t p mesh).
Proof.
  unfold paintPath. revert t. induction path as [|[p mesh] path IH]; simpl; intros t Hrem Hy.
  { split; [done | tauto]. }
  destruct (selectFacesAroundPoint_frame t p mesh) as (G1 & G2 & G3). simpl in *.
  apply IH in Hy; [|congruence].
  destruct Hy as [Hy Hnot].
  rewrite selectFacesAroundPoint_remove in Hy by done.
  apply fold_setDelete_In in Hy as [Hy Hn].
  split; [done|]. intros p' mesh' [Heq | Hin].
  - by inversion Heq; subst.
  - specialize (Hnot p' mesh' Hin). by rewrite (brushHits_frame t) in Hnot.
Qed.

End SelectionEngine.

(** * Weight ledger *)

Section WeightLedger.

Import WeightManager.

Lemma sumMagnitudes_from (l : list Weight) (a : Q) :
  fold_left (fun sum w => sum + magnitude w) l a == a + sumMagnitudes l.
Proof.
  unfold sumMagnitudes. revert a. induction l as [|x l IH]; simpl; intros a.
  - ring.
  - rewrite IH, (IH (0 + magnitude x)). ring.
Qed.

Lemma sumMagnitudes_cons (x : Weight) (l : list Weight) :
  sumMagnitudes (x :: l) == magnitude x + sumMagnitudes l.
Proof.
  unfold sumMagnitudes at 1. simpl. rewrite sumMagnitudes_from. ring.
Qed.

(** The sum of loads that all have the magnitude [w]. *)
Lemma sumMagnitudes_uniform (l : list Weight) (w : Q) :
  Forall (fun x => magnitude x = w) l ->
  sumMagnitudes l == inject_Z (Z.of_nat (length l)) * w.
Proof.
  induction 1 as [|x l Hx Hl IH].
  - reflexivity.
  - rewrite sumMagnitudes_cons, IH, Hx. simpl length.
    rewrite Nat2Z.inj_succ, <- Z.add_1_r, inject_Z_plus. ring.
Qed.

Lemma selectionWeights_uniform (wm : WeightManager) :
  Forall (fun x => magnitude x = weightPerFace wm) (selectionWeights wm).
Proof.
  unfold selectionWeights.
  induction (PaintSelectionTool.getFaceData (paintSelectionTool wm)) as [|[k d] l IH]; simpl.
  - constructor.
  - destruct (setHas k _); simpl; [constructor|]; done.
Qed.

Lemma selected_entries_length (l : list (Z * FaceData)) (sel : list Z) (w : Q) :
  (forall e, In e l -> setHas (fst e) sel = true) ->
  length (flat_map (fun '(faceId, data) =>
                      if setHas faceId sel
                      then [{| weightPosition := worldCenter data; magnitude := w |}]
                      else []) l)
  = length l.
Proof.
  induction l as [|[k d] l IH]; simpl; intros Hall; [done|].
  pose proof (Hall (k, d) (or_introl eq_refl)) as Hk. simpl in Hk.
  rewrite Hk. simpl. f_equal. apply IH.
  intros e He. apply Hall. by right.
Qed.

(** With a consistent cache there is one weight for each selected face. *)
Lemma selectionWeights_length (wm : WeightManager) :
  cacheConsistent (paintSelectionTool wm) ->
  length (selectionWeights wm) = getSelectedFaceCount wm.
Proof.
  unfold selectionWeights, getSelectedFaceCount, PaintSelectionTool.getSelectedFaceCount,
    PaintSelectionTool.getFaceData, cacheConsistent.
  intros Hinv. rewrite selected_entries_length.
  - by rewrite <- Hinv, length_map.
  - intros e He. apply setHas_In. rewrite <- Hinv. by apply in_map.
Qed.

Lemma createWeightMarkers_length (weights : list Weight) :
  length (createWeightMarkers weights) = length weights.
Proof. unfold createWeightMarkers. by rewrite length_imap. Qed.

(** What a successful commit leaves: the painted set is exactly the
    weights of the selection, with one marker each. *)
Lemma applyWeightToSelection_true (wm : WeightManager) :
  fst (applyWeightToSelection wm) = true ->
  exists h,
    hull wm = Some h
    /\ PaintSelectionTool.faceData (paintSelectionTool wm) <> []
    /\ snd (applyWeightToSelection wm)
       = {| hull := Some (Physics.setPaintedWeights h (selectionWeights wm));
            paintSelectionTool := PaintSelectionTool.clearSelection (paintSelectionTool wm);
            weightPerFace := weightPerFace wm;
            weightMarkers := createWeightMarkers (selectionWeights wm) |}.
Proof.
  unfold applyWeightToSelection. destruct (hull wm) as [h|]; [|done].
  unfold PaintSelectionTool.getFaceData.
  destruct (PaintSelectionTool.faceData (paintSelectionTool wm)) eqn:Hfd; [done|].
  simpl. intros _. by exists h.
Qed.

Lemma applyWeightToSelection_succeeds (wm : WeightManager) (h : Physics.Physics) :
  hull wm = Some h ->
  PaintSelectionTool.faceData (paintSelectionTool wm) <> [] ->
  fst (applyWeightToSelection wm) = true.
Proof.
  unfold applyWeightToSelection. intros -> Hne.
  unfold PaintSelectionTool.getFaceData.
  by destruct (PaintSelectionTool.faceData (paintSelectionTool wm)).
Qed.

(** Total weight after a commit. *)
Lemma committed_total (wm : WeightManager) :
  cacheConsistent (paintSelectionTool wm) ->
  fst (applyWeightToSelection wm) = true ->
  exists h h',
    hull wm = Some h
    /\ hull (snd (applyWeightToSelection wm)) = Some h'
    /\ Physics.getTotalWeight h'
       == Physics.weight h + sumMagnitudes (Physics.customWeights h)
          + inject_Z (Z.of_nat (getSelectedFaceCount wm)) * weightPerFace wm.
Proof.
  intros Hinv Hok. destruct (applyWeightToSelection_true wm Hok) as (h & Hh & _ & ->).
  exists h, (Physics.setPaintedWeights h (selectionWeights wm)).
  split; [done|]. split; [done|].
  unfold Physics.getTotalWeight. simpl.
  rewrite (sumMagnitudes_uniform _ _ (selectionWeights_uniform wm)).
  by rewrite selectionWeights_length.
Qed.

End WeightLedger.

Section Commit.

Import WeightManager.

(** What the two getters of applied weight return after a commit. *)
Lemma committed_applied (wm : WeightManager) :
  cacheConsistent (paintSelectionTool wm) ->
  fst (applyWeightToSelection wm) = true ->
  getAppliedWeight (snd (applyWeightToSelection wm))
    == inject_Z (Z.of_nat (getSelectedFaceCount wm)) * weightPerFace wm
  /\ getAppliedWeightCount (snd (applyWeightToSelection wm)) = getSelectedFaceCount wm.
Proof.
  intros Hinv Hok. destruct (applyWeightToSelection_true wm Hok) as (h & Hh & _ & ->).
  unfold getAppliedWeight, getAppliedWeightCount. simpl.
  rewrite createWeightMarkers_length, selectionWeights_length by done.
  split; [|done].
  rewrite (sumMagnitudes_uniform _ _ (selectionWeights_uniform wm)).
  by rewrite selectionWeights_length.
Qed.

(** Painting on a manager whose tool has a consistent cache and leaves a
    selection that is not empty: the commit goes through. *)
Lemma paintAndApply_commits (wm : WeightManager) (p : Vector3) (mesh : Mesh) :
  hull wm <> None ->
  cacheConsistent (paintSelectionTool wm) ->
  PaintSelectionTool.selectedFaces
    (PaintSelectionTool.selectFacesAroundPoint (paintSelectionTool wm) p mesh) <> [] ->
  let painted :=
    withTool wm (PaintSelectionTool.selectFacesAroundPoint (paintSelectionTool wm) p mesh) in
  cacheConsistent (paintSelectionTool painted)
  /\ fst (applyWeightToSelection painted) = true.
Proof.
  intros Hh Hinv Hsel painted.
  assert (Hc : cacheConsistent (paintSelectionTool painted)).
  { by apply selectFacesAroundPoint_consistent. }
  split; [done|].
  destruct (hull wm) as [h|] eqn:Hhull; [|done].
  apply (applyWeightToSelection_succeeds painted h); [done|].
  unfold cacheConsistent in Hc. simpl in *. intros Hnil. apply Hsel.
  by rewrite <- Hc, Hnil.
Qed.

Lemma paintAndApply_state (wm : WeightManager) (p : Vector3) (mesh : Mesh) :
  hull wm <> None ->
  cacheConsistent (paintSelectionTool wm) ->
  PaintSelectionTool.selectedFaces
    (PaintSelectionTool.selectFacesAroundPoint (paintSelectionTool wm) p mesh) <> [] ->
  hull (paintAndApply wm p mesh) <> None
  /\ weightPerFace (paintAndApply wm p mesh) = weightPerFace wm
  /\ paintSelectionTool (paintAndApply wm p mesh)
     = PaintSelectionTool.clearSelection
         (PaintSelectionTool.selectFacesAroundPoint (paintSelectionTool wm) p mesh).
Proof.
  intros Hh Hinv Hsel.
  destruct (paintAndApply_commits wm p mesh Hh Hinv Hsel) as [Hc Hok].
  unfold paintAndApply.
  destruct (applyWeightToSelection_true _ Hok) as (h & Hhull & _ & ->). by simpl.
Qed.

End Commit.

(** * Sorting by a numeric key *)

Section SortBy.

Context {A : Type} (key : A -> Q).

Lemma insertBy_Permutation (x : A) (l : list A) :
  Permutation (insertBy key x l) (x :: l).
Proof.
  induction l as [|y l IH]; simpl; [done|].
  destruct (Qle_bool (key x) (key y)); [done|].
  rewrite IH. apply perm_swap.
Qed.

Lemma sortBy_Permutation (l : list A) : Permutation (sortBy key l) l.
Proof.
  unfold sortBy. induction l as [|x l IH]; simpl; [done|].
  by rewrite insertBy_Permutation, IH.
Qed.

Lemma sortBy_length (l : list A) : length (sortBy key l) = length l.
Proof. apply Permutation_length, sortBy_Permutation. Qed.

Lemma sortBy_In (x : A) (l : list A) : In x (sortBy key l) <-> In x l.
Proof.
  split; apply Permutation_in; [|symmetry]; apply sortBy_Permutation.
Qed.

Lemma sortBy_nil (l : list A) : sortBy key l = [] <-> l = [].
Proof.
  split; intros H.
  - apply length_zero_iff_nil. rewrite <- sortBy_length, H. done.
  - by subst.
Qed.

Lemma insertBy_sorted (x : A) (l : list A) :
  StronglySorted (keyLe key) l -> StronglySorted (keyLe key) (insertBy key x l).
Proof.
  induction 1 as [|y l Hl IH Hy]; simpl.
  - constructor; constructor.
  - destruct (Qle_bool (key x) (key y)) eqn:Hxy.
    + apply Qle_bool_iff in Hxy.
      constructor; [by constructor|].
      constructor; [done|].
      eapply Forall_impl; [exact Hy|].
      intros z Hz. unfold keyLe in *. eapply Qle_trans; eassumption.
    + constructor; [done|].
      assert (Hyx : key y <= key x).
      { apply Qlt_le_weak, Qnot_le_lt. intros H. apply Qle_bool_iff in H. congruence. }
      apply List.Forall_forall. intros z Hz.
      apply (Permutation_in _ (insertBy_Permutation x l)) in Hz.
      destruct Hz as [<-|Hz]; [done|].
      rewrite List.Forall_forall in Hy. by apply Hy.
Qed.

Lemma sortBy_sorted (l : list A) : StronglySorted (keyLe key) (sortBy key l).
Proof.
  unfold sortBy. induction l as [|x l IH]; simpl; [constructor|].
  by apply insertBy_sorted.
Qed.

(** In a sorted list the first element is the least and the last one
    the greatest. *)
Lemma sorted_head_least (x : A) (l : list A) (y : A) :
  StronglySorted (keyLe key) (x :: l) -> In y (x :: l) -> key x <= key y.
Proof.
  intros Hs [<-|Hy]; [apply Qle_refl|].
  apply StronglySorted_inv in Hs as [_ Hall].
  rewrite List.Forall_forall in Hall. by apply Hall.
Qed.

Lemma sorted_last_greatest (l : list A) (z y : A) :
  StronglySorted (keyLe key) l -> last l = Some z -> In y l -> key y <= key z.
Proof.
  induction 1 as [|x l Hl IH Hx]; simpl; [done|].
  intros Hlast Hy. destruct l as [|x' l'].
  - simpl in Hlast. injection Hlast as <-. destruct Hy as [<-|[]]. apply Qle_refl.
  - change (last (x :: x' :: l')) with (last (x' :: l')) in Hlast.
    destruct Hy as [<-|Hy]; [|by apply IH].
    rewrite List.Forall_forall in Hx. apply Hx.
    apply list_elem_of_In. apply last_Some_elem_of in Hlast. done.
Qed.

Lemma distinctKeys_Permutation (l k : list A) :
  Permutation l k -> distinctKeys key k -> distinctKeys key l.
Proof.
  intros Hp Hd i j a b Hij Ha Hb.
  apply Permutation_inj in Hp as (_ & f & Hinj & Hf).
  rewrite Hf in Ha, Hb.
  apply (Hd (f i) (f j)); [|done|done].
  intros Heq. apply Hij. by apply Hinj.
Qed.

(** With two stations or more at distinct keys, the first of the sorted
    list is strictly below the last. *)
Lemma sorted_first_lt_last (l : list A) (x z : A) :
  (2 <= length l)%nat ->
  distinctKeys key l ->
  head (sortBy key l) = Some x ->
  last (sortBy key l) = Some z ->
  key x < key z.
Proof.
  intros Hlen Hd Hx Hz.
  pose proof (sortBy_sorted l) as Hs.
  pose proof (distinctKeys_Permutation _ _ (sortBy_Permutation l) Hd) as Hd'.
  rewrite <- sortBy_length in Hlen.
  destruct (sortBy key l) as [|x0 s] eqn:Hsort; [done|].
  simpl in Hx. injection Hx as <-.
  assert (Hle : key x0 <= key z).
  { apply (sorted_head_least x0 s z Hs).
    apply list_elem_of_In. by apply last_Some_elem_of. }
  apply Qle_lteq in Hle as [Hlt|Heq]; [done|].
  exfalso. rewrite last_lookup in Hz.
  apply (Hd' 0%nat (Nat.pred (length (x0 :: s))) x0 z); [|done|done|done].
  simpl in *. lia.
Qed.

End SortBy.

(** Sorting commutes with a map that keeps the keys. *)
Lemma insertBy_map {A : Type} (key : A -> Q) (f : A -> A) (x : A) (l : list A) :
  (forall a, key (f a) = key a) ->
  insertBy key (f x) (map f l) = map f (insertBy key x l).
Proof.
  intros Hf. induction l as [|y l IH]; simpl; [done|].
  rewrite !Hf. destruct (Qle_bool (key x) (key y)); simpl; [done|]. by rewrite IH.
Qed.

Lemma sortBy_map {A : Type} (key : A -> Q) (f : A -> A) (l : list A) :
  (forall a, key (f a) = key a) ->
  sortBy key (map f l) = map f (sortBy key l).
Proof.
  intros Hf. unfold sortBy. induction l as [|x l IH]; simpl; [done|].
  by rewrite IH, insertBy_map.
Qed.

(** * Interpolator *)

Section Interpolator.

Import Helpers.

Lemma setAdd_not_nil (h : Q) (s : list Q) : setAdd h s <> [].
Proof.
  unfold setAdd. destruct (existsb (Qeq_bool h) s) eqn:H.
  - destruct s; [done | done].
  - by destruct s.
Qed.

Lemma fold_setAdd_not_nil (wls : list WaterlineData) (s : list Q) :
  s <> [] -> fold_left (fun acc wl => setAdd (height wl) acc) wls s <> [].
Proof.
  revert s. induction wls as [|wl wls IH]; simpl; intros s Hs; [done|].
  apply IH, setAdd_not_nil.
Qed.

Lemma waterlineSet_not_nil (sts : list Station) (s : list Q) :
  s <> [] \/ (exists st, In st sts /\ waterlines st <> []) ->
  fold_left (fun acc station =>
               fold_left (fun acc wl => setAdd (height wl) acc) (waterlines station) acc)
            sts s <> [].
Proof.
  revert s. induction sts as [|st sts IH]; simpl; intros s H.
  - destruct H as [H | (st & [] & _)]. done.
  - apply IH. destruct H as [H | (st' & [<-|Hin] & Hne)].
    + left. by apply fold_setAdd_not_nil.
    + left. destruct (waterlines st) as [|wl wls]; [done|]. simpl.
      apply fold_setAdd_not_nil, setAdd_not_nil.
    + right. by exists st'.
Qed.

(** A table that carries a sample has a waterline height. *)
Lemma getSortedWaterlines_not_nil (table : QuoteTable) :
  (exists st, In st (stations table) /\ waterlines st <> []) ->
  getSortedWaterlines table <> [].
Proof.
  intros H. unfold getSortedWaterlines. rewrite sortBy_nil.
  apply waterlineSet_not_nil. by right.
Qed.

Lemma densePositions_length (count : nat) (first last : Q) :
  length (densePositions count first last) = count.
Proof. unfold densePositions. by rewrite length_map, length_seq. Qed.

Lemma densePositions_lookup (count : nat) (first last : Q) (i : nat) (p : Q) :
  densePositions count first last !! i = Some p ->
  (i < count)%nat
  /\ p = inject_Z (Z.of_nat i) / inject_Z (Z.of_nat count - 1) * (last - first) + first.
Proof.
  unfold densePositions. rewrite list_lookup_fmap.
  destruct (seq 0 count !! i) as [k|] eqn:Hk; simpl; [|done].
  apply lookup_seq in Hk as [-> Hlt]. intros [= <-]. done.
Qed.

Lemma inject_Z_lt (a b : Z) : (a < b)%Z -> inject_Z a < inject_Z b.
Proof. intros H. by rewrite <- Zlt_Qlt. Qed.

Lemma inject_Z_le (a b : Z) : (a <= b)%Z -> inject_Z a <= inject_Z b.
Proof. intros H. by rewrite <- Zle_Qle. Qed.

(** The resampled positions grow strictly when the range is not empty. *)
Lemma densePositions_increasing (count : nat) (first last : Q) (i j : nat) (a b : Q) :
  first < last -> (i < j)%nat ->
  densePositions count first last !! i = Some a ->
  densePositions count first last !! j = Some b ->
  a < b.
Proof.
  intros Hfl Hij Ha Hb.
  apply densePositions_lookup in Ha as [Hi ->].
  apply densePositions_lookup in Hb as [Hj ->].
  assert (Hd : 0 < inject_Z (Z.of_nat count - 1)).
  { change 0 with (inject_Z 0). apply inject_Z_lt. lia. }
  assert (Hij' : inject_Z (Z.of_nat i) < inject_Z (Z.of_nat j)).
  { apply inject_Z_lt. lia. }
  assert (Hq : inject_Z (Z.of_nat i) / inject_Z (Z.of_nat count - 1)
               < inject_Z (Z.of_nat j) / inject_Z (Z.of_nat count - 1)).
  { apply Qlt_shift_div_l; [done|].
    unfold Qdiv. rewrite <- Qmult_assoc, (Qmult_comm (/ _)), Qmult_inv_r, Qmult_1_r; [done|].
    intros H0. rewrite H0 in Hd. by apply Qlt_irrefl in Hd. }
  apply Qplus_lt_l. apply Qmult_lt_compat_r; [|done]. lra.
Qed.

(** The resampled positions stay between the two ends. *)
Lemma densePositions_bounded (count : nat) (first last : Q) (i : nat) (a : Q) :
  first <= last ->
  densePositions count first last !! i = Some a ->
  first <= a <= last.
Proof.
  intros Hfl Ha.
  apply densePositions_lookup in Ha as [Hi ->].
  destruct (decide (count = 1%nat)) as [->|Hc].
  { assert (i = 0%nat) as -> by lia. simpl.
    assert (H0 : inject_Z 0 / inject_Z 0 == 0) by reflexivity.
    rewrite H0. lra. }
  assert (Hd : 0 < inject_Z (Z.of_nat count - 1)).
  { change 0 with (inject_Z 0). apply inject_Z_lt. lia. }
  set (t := inject_Z (Z.of_nat i) / inject_Z (Z.of_nat count - 1)).
  assert (H0 : 0 <= t).
  { unfold t. apply Qle_shift_div_l; [done|]. rewrite Qmult_0_l.
    change 0 with (inject_Z 0). apply inject_Z_le. lia. }
  assert (H1 : t <= 1).
  { unfold t. apply Qle_shift_div_r; [done|]. rewrite Qmult_1_l.
    apply inject_Z_le. lia. }
  assert (Hm : 0 <= t * (last - first)) by (apply Qmult_le_0_compat; lra).
  assert (Hn : 0 <= (1 - t) * (last - first)) by (apply Qmult_le_0_compat; lra).
  assert (Heq : (1 - t) * (last - first) == (last - first) - t * (last - first)) by ring.
  rewrite Heq in Hn. clearbody t.
  generalize dependent (t * (last - first)). intros p Hm Hn. split; lra.
Qed.

Lemma interpolateStation_position table sortedStations first denseWaterlines stationPos :
  position (interpolateStation table sortedStations first denseWaterlines stationPos)
  = stationPos.
Proof.
  unfold interpolateStation.
  destruct (findBracket sortedStations stationPos) as [[[lo up] r]|]; done.
Qed.

(** The positions of the interpolated table, when the densification
    takes place: the resampling between the first and the last sorted
    station. *)
Lemma interpolateHullGrid_positions (table : QuoteTable) (config : LODConfig)
    (firstStation lastStation : Station) :
  1 < stationMultiplier config ->
  getSortedWaterlines table <> [] ->
  head (getSortedStations table) = Some firstStation ->
  last (getSortedStations table) = Some lastStation ->
  map position (stations (interpolateHullGrid table config))
  = densePositions (denseCount (length (stations table)) (stationMultiplier config))
                   (position firstStation) (position lastStation).
Proof.
  intros Hm Hw Hfirst Hlast. unfold interpolateHullGrid.
  assert (Qle_bool (stationMultiplier config) 1 = false) as ->.
  { destruct (Qle_bool _ 1) eqn:H; [|done]. apply Qle_bool_iff in H. lra. }
  simpl.
  destruct (getSortedStations table) as [|s0 ss] eqn:Hss; [done|].
  destruct (getSortedWaterlines table) as [|w0 ws] eqn:Hws; [done|].
  simpl in Hfirst. injection Hfirst as ->. rewrite Hlast. simpl.
  rewrite map_map.
  assert (Hlen : length (firstStation :: ss) = length (stations table)).
  { rewrite <- Hss. apply sortBy_length. }
  simpl in Hlen. rewrite Hlen.
  erewrite map_ext; [apply map_id|].
  intros p. apply interpolateStation_position.
Qed.

End Interpolator.

(** * Assembly of the hull geometry *)

Section HullAssembly.

Lemma existsb_isNaN32 (vertexArray : list float32) :
  existsb isNaN32 vertexArray = true <-> In F32NaN vertexArray.
Proof.
  rewrite existsb_exists. split.
  - intros (x & Hx & Hnan). by destruct x.
  - intros H. by exists F32NaN.
Qed.

(** A NaN in the vertex buffer stops the assembly. *)
Lemma assembleHullGeometry_NaN stateUnits table refinedStations refinedWaterlines
    vertices indices vertexArray :
  In F32NaN vertexArray ->
  assembleHullGeometry stateUnits table refinedStations refinedWaterlines
    vertices indices vertexArray = createEmptyHullGeometry.
Proof.
  intros H. unfold assembleHullGeometry.
  apply existsb_isNaN32 in H. by rewrite H.
Qed.

(** Without a NaN the buffer is handed over as it is. *)
Lemma assembleHullGeometry_vertices stateUnits table refinedStations refinedWaterlines
    vertices indices vertexArray :
  ~ In F32NaN vertexArray ->
  hullVertices (assembleHullGeometry stateUnits table refinedStations refinedWaterlines
                  vertices indices vertexArray) = vertexArray.
Proof.
  intros H. unfold assembleHullGeometry.
  destruct (existsb isNaN32 vertexArray) eqn:He; [|done].
  by apply existsb_isNaN32 in He.
Qed.

Lemma generateStructuredHullGeometry_unfold stateUnits table lodConfig :
  generateStructuredHullGeometry stateUnits table lodConfig
  = let refinedData := refinedTable table lodConfig in
    let r := generateVertices stateUnits refinedData in
    let indices := generateFaces refinedData (vertexMap r) (keelVertices r) in
    if (length (vertices r) =? 0)%nat || (length indices =? 0)%nat
    then createEmptyHullGeometry
    else assembleHullGeometry stateUnits table (getSortedStations refinedData)
           (getSortedWaterlines refinedData) (vertices r) indices
           (fillVertexArray (vertices r)).
Proof. reflexivity. Qed.

(** A build without a face, or without a vertex, gives the placeholder. *)
Lemma generateStructuredHullGeometry_no_face stateUnits table lodConfig :
  let refinedData := refinedTable table lodConfig in
  let r := generateVertices stateUnits refinedData in
  vertices r = [] \/ generateFaces refinedData (vertexMap r) (keelVertices r) = [] ->
  generateStructuredHullGeometry stateUnits table lodConfig = createEmptyHullGeometry.
Proof.
  intros refinedData r H. rewrite generateStructuredHullGeometry_unfold.
  cbv zeta. fold refinedData. fold r.
  destruct H as [H | H]; rewrite H; simpl; [done|].
  by rewrite orb_true_r.
Qed.

End HullAssembly.

(** * Vertex generation *)

Section VertexGeneration.

Variables (scale : Q) (hasKeel hasChine : bool).

Lemma Qopp_mult_l (a b : Q) : - a * b = - (a * b).
Proof. destruct a, b. unfold Qopp, Qmult. simpl. f_equal. lia. Qed.

(** [generateVertexPair] is [emitEntry] on a sample that is present. *)
Lemma generateVertexPair_entry station sIdx acc h wIdx :
  generateVertexPair scale hasKeel hasChine station sIdx acc h wIdx
  = match findWaterline station h with
    | Some wlData => emitEntry scale hasKeel hasChine acc (mkEntry sIdx wIdx station h wlData)
    | None => acc
    end.
Proof.
  unfold generateVertexPair. destruct (findWaterline station h) as [wl|]; [|done].
  unfold emitEntry, vertexBlock, keelBlock, chineBlock, starboardVertexOf, portVertexOf,
    chineStarboardVertexOf, chinePortVertexOf, keelVertexOf, starboardX. simpl.
  destruct hasKeel, hasChine, wIdx; simpl;
    rewrite ?length_app, ?Nat.add_0_r, <- ?app_assoc; simpl;
    rewrite ?Qopp_mult_l, ?Nat.add_1_r, ?Nat.add_0_r;
    try replace (length (vertices acc) + 2)%nat with (S (S (length (vertices acc)))) by lia;
    try replace (length (vertices acc) + 1 + 2)%nat with (S (S (S (length (vertices acc))))) by lia;
    try replace (S (length (vertices acc)) + 2)%nat with (S (S (S (length (vertices acc))))) by lia;
    try replace (length (vertices acc) + 1)%nat with (S (length (vertices acc))) by lia;
    reflexivity.
Qed.

End VertexGeneration.

Section VertexFold.

Variables (scale : Q) (hasKeel hasChine : bool).

Local Abbreviation emit := (emitEntry scale hasKeel hasChine).
Local Abbreviation block := (vertexBlock scale hasKeel hasChine).

Lemma forEachFrom_row station sIdx (hs : list Q) (j : nat) acc :
  forEachFrom (generateVertexPair scale hasKeel hasChine station sIdx) j hs acc
  = fold_left emit (rowEntries station sIdx j hs) acc.
Proof.
  revert j acc. induction hs as [|h hs IH]; simpl; intros j acc; [done|].
  rewrite IH, generateVertexPair_entry, fold_left_app.
  by destruct (findWaterline station h).
Qed.

Lemma forEachFrom_grid (ss : list Station) (ws : list Q) (i : nat) acc :
  forEachFrom (fun acc station sIdx =>
                 forEach (generateVertexPair scale hasKeel hasChine station sIdx) ws acc)
              i ss acc
  = fold_left emit (gridEntries i ss ws) acc.
Proof.
  revert i acc. induction ss as [|st ss IH]; simpl; intros i acc; [done|].
  rewrite IH, fold_left_app. unfold forEach. by rewrite forEachFrom_row.
Qed.

(** The vertices are the blocks of the samples, one after the other. *)
Lemma fold_emit_vertices (L : list Entry) acc :
  vertices (fold_left emit L acc) = vertices acc ++ flat_map block L.
Proof.
  revert acc. induction L as [|e L IH]; simpl; intros acc.
  - by rewrite app_nil_r.
  - rewrite IH. simpl. by rewrite app_assoc.
Qed.

(** A later sample with another key leaves the entries of a key alone. *)
Lemma emit_other_key acc e (k : VertexKey) :
  (k.1.1, k.1.2) <> entryKey e ->
  vertexMap (emit acc e) !! k = vertexMap acc !! k.
Proof.
  intros Hk. unfold emitEntry, entryKey in *. simpl.
  destruct k as [[s w] tag]. simpl in Hk.
  destruct (hasChine && (entryW e =? 0)%nat);
    rewrite !lookup_insert_ne by congruence; done.
Qed.

Lemma fold_emit_other_key (L : list Entry) acc (k : VertexKey) :
  (forall e, In e L -> (k.1.1, k.1.2) <> entryKey e) ->
  vertexMap (fold_left emit L acc) !! k = vertexMap acc !! k.
Proof.
  revert acc. induction L as [|e L IH]; simpl; intros acc Hk; [done|].
  rewrite IH by (intros e' He'; apply Hk; by right).
  apply emit_other_key, Hk. by left.
Qed.

(** What a sample writes under its own key. *)
Lemma emit_own_key acc e :
  let base := (length (vertices acc) + length (keelBlock scale hasKeel e))%nat in
  let res := emit acc e in
  vertexMap res !! (entryS e, entryW e, Star) = Some base
  /\ vertexMap res !! (entryS e, entryW e, Port) = Some (S base)
  /\ vertices res !! base = Some (starboardVertexOf scale e)
  /\ vertices res !! S base = Some (portVertexOf scale e).
Proof.
  intros base res. subst res. unfold emitEntry. simpl.
  assert (Hv : forall (n : nat) (v : Vector3),
            ([starboardVertexOf scale e; portVertexOf scale e]
               ++ chineBlock scale hasChine e) !! n = Some v ->
            (vertices acc ++ vertexBlock scale hasKeel hasChine e) !! (base + n)%nat = Some v).
  { intros n v Hn. unfold vertexBlock, base.
    rewrite app_assoc, lookup_app_r; rewrite length_app; [|lia].
    replace (length (vertices acc) + length (keelBlock scale hasKeel e) + n
             - (length (vertices acc) + length (keelBlock scale hasKeel e)))%nat
      with n by lia. done. }
  repeat split.
  - destruct (hasChine && (entryW e =? 0)%nat);
      rewrite !lookup_insert_ne by congruence; apply lookup_insert_eq.
  - destruct (hasChine && (entryW e =? 0)%nat);
      rewrite ?lookup_insert_ne by congruence; apply lookup_insert_eq.
  - specialize (Hv 0%nat (starboardVertexOf scale e) eq_refl).
    by rewrite Nat.add_0_r in Hv.
  - specialize (Hv 1%nat (portVertexOf scale e) eq_refl).
    by rewrite Nat.add_1_r in Hv.
Qed.

Lemma lookup_prefix {A : Type} (l ext : list A) (i : nat) (x : A) :
  l !! i = Some x -> (l ++ ext) !! i = Some x.
Proof. intros H. by apply lookup_app_l_Some. Qed.

(** The entries of a key in the result of a fold in which that key
    occurs once. *)
Lemma fold_emit_own_key (L1 L2 : list Entry) (e : Entry) acc :
  (forall e', In e' L2 -> entryKey e <> entryKey e') ->
  let res := fold_left emit (L1 ++ e :: L2) acc in
  exists i : nat,
    vertexMap res !! (entryS e, entryW e, Star) = Some i
    /\ vertexMap res !! (entryS e, entryW e, Port) = Some (S i)
    /\ vertices res !! i = Some (starboardVertexOf scale e)
    /\ vertices res !! S i = Some (portVertexOf scale e).
Proof.
  intros Hfresh res. subst res. rewrite fold_left_app. simpl.
  set (acc1 := fold_left emit L1 acc).
  destruct (emit_own_key acc1 e) as (H1 & H2 & H3 & H4).
  exists (length (vertices acc1) + length (keelBlock scale hasKeel e))%nat.
  rewrite !fold_emit_other_key by (intros e' He'; simpl; by apply Hfresh).
  rewrite fold_emit_vertices.
  split; [done|]. split; [done|]. split; by apply lookup_prefix.
Qed.

(** A key that no sample has is not in the lookup. *)
Lemma fold_emit_no_key (L : list Entry) (s w : nat) (tag : VertexTag) :
  (forall e, In e L -> (s, w) <> entryKey e) ->
  vertexMap (fold_left emit L
               {| vertices := []; vertexMap := ∅; keelVertices := [] |}) !! (s, w, tag) = None.
Proof.
  intros H. rewrite fold_emit_other_key by done. apply lookup_empty.
Qed.

(** Without a chine no chine vertex is recorded. *)
Lemma fold_emit_no_chine (L : list Entry) acc (s w : nat) :
  hasChine = false ->
  vertexMap (fold_left emit L acc) !! (s, w, ChineStar) = vertexMap acc !! (s, w, ChineStar)
  /\ vertexMap (fold_left emit L acc) !! (s, w, ChinePort) = vertexMap acc !! (s, w, ChinePort).
Proof.
  intros Hc. revert acc. induction L as [|e L IH]; simpl; intros acc; [done|].
  destruct (IH (emit acc e)) as [-> ->]. unfold emitEntry. rewrite Hc. simpl.
  by rewrite !lookup_insert_ne by congruence.
Qed.

End VertexFold.

(** [generateVertices] is the fold of [emitEntry] over the present
    samples of the sorted grid. *)
Lemma generateVertices_entries (stateUnits : Units) (table : QuoteTable) :
  generateVertices stateUnits table
  = fold_left (emitEntry (getUnitScale stateUnits)
                 (default false (hasKeel (metadata table)))
                 (default false (hasChine (metadata table))))
      (gridEntries 0 (getSortedStations table) (getSortedWaterlines table))
      {| vertices := []; vertexMap := ∅; keelVertices := [] |}.
Proof.
  unfold generateVertices, forEach. apply forEachFrom_grid.
Qed.

Lemma generateVertices_vertices (stateUnits : Units) (table : QuoteTable) :
  vertices (generateVertices stateUnits table)
  = flat_map (vertexBlock (getUnitScale stateUnits)
                (default false (hasKeel (metadata table)))
                (default false (hasChine (metadata table))))
      (gridEntries 0 (getSortedStations table) (getSortedWaterlines table)).
Proof.
  by rewrite generateVertices_entries, fold_emit_vertices.
Qed.

Section VertexPositions.

Variables (scale : Q) (hasKeel hasChine : bool).

Local Abbreviation emit := (emitEntry scale hasKeel hasChine).
Local Abbreviation initial := {| vertices := []; vertexMap := ∅; keelVertices := [] |}.

(** One sample keeps the indices in range. *)
Lemma emit_indicesInRange acc e : indicesInRange acc -> indicesInRange (emit acc e).
Proof.
  intros [Hvm Hkv].
  assert (Hlen : length (vertices (emit acc e))
                 = (length (vertices acc) + length (keelBlock scale hasKeel e) + 2
                    + length (chineBlock scale hasChine e))%nat).
  { unfold emitEntry, vertexBlock. simpl. rewrite !length_app. simpl. lia. }
  assert (Hold : forall i, is_Some (vertices acc !! i) -> is_Some (vertices (emit acc e) !! i)).
  { intros i [v Hv]. exists v. unfold emitEntry. simpl. by apply lookup_app_l_Some. }
  split.
  - intros k i Hk. unfold emitEntry in Hk. simpl in Hk.
    assert (Hcases :
      vertexMap acc !! k = Some i
      \/ (i < length (vertices (emit acc e)))%nat).
    { rewrite Hlen. unfold chineBlock.
      destruct (hasChine && (entryW e =? 0)%nat); simpl;
        repeat (apply lookup_insert_Some in Hk as [[_ <-]|[_ Hk]]; [right; lia|]);
        by left. }
    destruct Hcases as [Hc|Hc]; [by eapply Hold, Hvm | by apply lookup_lt_is_Some].
  - intros k i Hk. unfold emitEntry in Hk. simpl in Hk.
    unfold keelBlock in Hlen.
    destruct (hasKeel && (entryW e =? 0)%nat); [|by eapply Hold, Hkv].
    apply lookup_app_Some in Hk as [Hk|[_ Hk]]; [by eapply Hold, Hkv|].
    apply list_lookup_singleton_Some in Hk as [_ <-].
    apply lookup_lt_is_Some. rewrite Hlen. simpl. lia.
Qed.

Lemma fold_emit_indicesInRange (L : list Entry) acc :
  indicesInRange acc -> indicesInRange (fold_left emit L acc).
Proof.
  revert acc. induction L as [|e L IH]; simpl; intros acc H; [done|].
  by apply IH, emit_indicesInRange.
Qed.

Lemma initial_indicesInRange : indicesInRange initial.
Proof. split; intros k i H; simpl in H; [by rewrite lookup_empty in H | done]. Qed.

(** The position behind a key is kept by the samples of other keys. *)
Lemma fold_emit_positionAt_other (L : list Entry) acc (k : VertexKey) :
  indicesInRange acc ->
  (forall e, In e L -> (k.1.1, k.1.2) <> entryKey e) ->
  positionAt (fold_left emit L acc) k = positionAt acc k.
Proof.
  intros [Hvm _] Hk. unfold positionAt.
  rewrite fold_emit_other_key by done.
  destruct (vertexMap acc !! k) as [i|] eqn:Hi; [|done].
  rewrite fold_emit_vertices.
  destruct (Hvm k i Hi) as [v Hv]. rewrite Hv. by apply lookup_app_l_Some.
Qed.

(** What a sample records under its own key, on a lookup that does not
    hold the key yet. *)
Lemma emit_positionAt_own acc e (tag : VertexTag) :
  vertexMap acc !! (entryS e, entryW e, tag) = None ->
  positionAt (emit acc e) (entryS e, entryW e, tag) = tagVertex scale hasChine tag e.
Proof.
  intros Hfresh. unfold positionAt, emitEntry, tagVertex. cbn [vertices vertexMap].
  set (base := (length (vertices acc) + length (keelBlock scale hasKeel e))%nat).
  set (vs := vertices acc ++ vertexBlock scale hasKeel hasChine e).
  assert (Hv : forall (n : nat),
            vs !! (base + n)%nat
            = ([starboardVertexOf scale e; portVertexOf scale e]
                 ++ chineBlock scale hasChine e) !! n).
  { intros n. unfold vs, vertexBlock, base.
    rewrite app_assoc, lookup_app_r; rewrite length_app; [|lia]. f_equal. lia. }
  assert (H0 : vs !! base = Some (starboardVertexOf scale e)).
  { by rewrite <- (Nat.add_0_r base), Hv. }
  assert (H1 : vs !! S base = Some (portVertexOf scale e)).
  { replace (S base) with (base + 1)%nat by lia. by rewrite Hv. }
  assert (H2 : hasChine && (entryW e =? 0)%nat = true ->
               vs !! (base + 2)%nat = Some (chineStarboardVertexOf scale e)).
  { intros Hc. rewrite Hv. unfold chineBlock. by rewrite Hc. }
  assert (H3 : hasChine && (entryW e =? 0)%nat = true ->
               vs !! S (base + 2) = Some (chinePortVertexOf scale e)).
  { intros Hc. replace (S (base + 2)) with (base + 3)%nat by lia.
    rewrite Hv. unfold chineBlock. by rewrite Hc. }
  clearbody vs base. clear Hv.
  destruct (hasChine && (entryW e =? 0)%nat) eqn:Hc; destruct tag;
    rewrite ?lookup_insert_eq, ?(lookup_insert_ne _ _ _ _) by congruence;
    rewrite ?lookup_insert_eq, ?(lookup_insert_ne _ _ _ _) by congruence;
    rewrite ?lookup_insert_eq, ?(lookup_insert_ne _ _ _ _) by congruence;
    rewrite ?lookup_insert_eq, ?(lookup_insert_ne _ _ _ _) by congruence;
    unfold VertexKey in *; rewrite ?Hfresh; auto.
Qed.

(** The position behind a key in the result of a fold from the empty
    lookup, over samples in which the key occurs once. *)
Lemma fold_emit_positionAt (L1 L2 : list Entry) (e : Entry) (tag : VertexTag) :
  (forall e', In e' L1 -> entryKey e <> entryKey e') ->
  (forall e', In e' L2 -> entryKey e <> entryKey e') ->
  positionAt (fold_left emit (L1 ++ e :: L2) initial) (entryS e, entryW e, tag)
  = tagVertex scale hasChine tag e.
Proof.
  intros H1 H2. rewrite fold_left_app. simpl.
  rewrite fold_emit_positionAt_other; [| |done].
  - apply emit_positionAt_own. rewrite fold_emit_other_key by done. apply lookup_empty.
  - apply emit_indicesInRange, fold_emit_indicesInRange, initial_indicesInRange.
Qed.

Lemma fold_emit_positionAt_none (L : list Entry) (s w : nat) (tag : VertexTag) :
  (forall e, In e L -> (s, w) <> entryKey e) ->
  positionAt (fold_left emit L initial) (s, w, tag) = None.
Proof.
  intros H. unfold positionAt. by rewrite fold_emit_no_key.
Qed.

(** The keel list holds one index for each sample of the lowest
    waterline, in order, when the hull has a keel. *)
Lemma fold_emit_keelVertices (L : list Entry) acc :
  hasKeel = true ->
  exists ks,
    keelVertices (fold_left emit L acc) = keelVertices acc ++ ks
    /\ Forall2 (fun i e => vertices (fold_left emit L acc) !! i = Some (keelVertexOf scale e))
               ks (bottomEntries L).
Proof.
  intros Hk. revert acc. induction L as [|e L IH]; intros acc.
  { exists []. split; [by rewrite app_nil_r | constructor]. }
  destruct (IH (emit acc e)) as (ks & Hks & Hall).
  assert (Hkv : keelVertices (emit acc e)
                = keelVertices acc
                  ++ (if (entryW e =? 0)%nat then [length (vertices acc)] else [])).
  { unfold emitEntry. cbn [keelVertices]. rewrite Hk. cbn [andb].
    destruct (entryW e =? 0)%nat; [done | by rewrite app_nil_r]. }
  change (fold_left emit (e :: L) acc) with (fold_left emit L (emit acc e)).
  unfold bottomEntries in *. cbn [List.filter].
  rewrite Hks, Hkv, <- app_assoc.
  destruct (entryW e =? 0)%nat eqn:Hw.
  - exists (length (vertices acc) :: ks). split; [done|].
    constructor; [|done].
    rewrite fold_emit_vertices. apply lookup_app_l_Some.
    unfold emitEntry, vertexBlock, keelBlock. cbn [vertices]. rewrite Hk, Hw.
    cbn [andb]. rewrite lookup_app_r by lia. by rewrite Nat.sub_diag.
  - exists ks. split; done.
Qed.

Lemma fold_emit_no_keel (L : list Entry) acc :
  hasKeel = false -> keelVertices (fold_left emit L acc) = keelVertices acc.
Proof.
  intros Hk. revert acc. induction L as [|e L IH]; simpl; intros acc; [done|].
  rewrite IH. unfold emitEntry. simpl. by rewrite Hk.
Qed.

End VertexPositions.

(** * Face generation *)

Section Faces.

(** The generators append to the index list they are given. *)
Lemma generateStandardPanel_app (indices : list nat) (v : PanelVertices) :
  generateStandardPanel indices v = indices ++ generateStandardPanel [] v.
Proof. unfold generateStandardPanel. by rewrite !app_nil_l. Qed.

Lemma generateKeelConnection_app indices vertexMap keelVertices s w :
  generateKeelConnection indices vertexMap keelVertices s w
  = indices ++ generateKeelConnection [] vertexMap keelVertices s w.
Proof.
  unfold generateKeelConnection.
  destruct (negb (areVerticesValid _)); [by rewrite app_nil_r | by rewrite !app_nil_l].
Qed.

Lemma generateChinePanel_app indices vertexMap s w :
  generateChinePanel indices vertexMap s w
  = indices ++ generateChinePanel [] vertexMap s w.
Proof.
  unfold generateChinePanel.
  destruct (negb (areChineVerticesValid _)); [by rewrite app_nil_r | by rewrite !app_nil_l].
Qed.

Lemma generatePanelFaces_app indices vertexMap keelVertices s w hasKeel hasChine :
  generatePanelFaces indices vertexMap keelVertices s w hasKeel hasChine
  = indices ++ generatePanelFaces [] vertexMap keelVertices s w hasKeel hasChine.
Proof.
  unfold generatePanelFaces.
  destruct (negb (areAllPanelVerticesValid _)); [by rewrite app_nil_r|].
  destruct (hasChine && (w =? 0)%nat), (hasKeel && (w =? 0)%nat).
  - rewrite generateKeelConnection_app, generateChinePanel_app.
    rewrite (generateKeelConnection_app (generateChinePanel [] _ _ _)).
    by rewrite app_assoc.
  - apply generateChinePanel_app.
  - rewrite generateKeelConnection_app, generateStandardPanel_app.
    rewrite (generateKeelConnection_app (generateStandardPanel [] _)).
    by rewrite app_assoc.
  - apply generateStandardPanel_app.
Qed.

End Faces.

(** * Symmetric fallback *)

Section Entries.

(** Where the samples of the grid come from. *)
Lemma rowEntries_In station sIdx j hs e :
  In e (rowEntries station sIdx j hs) ->
  entryS e = sIdx /\ entryStation e = station
  /\ (j <= entryW e)%nat
  /\ hs !! (entryW e - j)%nat = Some (entryHeight e)
  /\ findWaterline station (entryHeight e) = Some (entryData e).
Proof.
  revert j. induction hs as [|h hs IH]; simpl; intros j He; [done|].
  apply in_app_iff in He as [He|He].
  - destruct (findWaterline station h) as [wl|] eqn:Hf; [|done].
    destruct He as [<-|[]]. simpl. rewrite Nat.sub_diag. done.
  - apply IH in He as (H1 & H2 & H3 & H4 & H5).
    repeat split; try done; [lia|].
    replace (entryW e - j)%nat with (S (entryW e - S j)) by lia. done.
Qed.

Lemma gridEntries_In i ss ws e :
  In e (gridEntries i ss ws) ->
  (i <= entryS e)%nat
  /\ ss !! (entryS e - i)%nat = Some (entryStation e)
  /\ ws !! entryW e = Some (entryHeight e)
  /\ findWaterline (entryStation e) (entryHeight e) = Some (entryData e).
Proof.
  revert i. induction ss as [|st ss IH]; simpl; intros i He; [done|].
  apply in_app_iff in He as [He|He].
  - apply rowEntries_In in He as (H1 & H2 & H3 & H4 & H5).
    rewrite Nat.sub_0_r in H4. subst. rewrite Nat.sub_diag. done.
  - apply IH in He as (H1 & H2 & H3 & H4).
    repeat split; try done; [lia|].
    replace (entryS e - i)%nat with (S (entryS e - S i)) by lia. done.
Qed.

(** Every present sample of the grid is listed. *)
Lemma rowEntries_complete station sIdx j hs w h wl :
  hs !! w = Some h -> findWaterline station h = Some wl ->
  In (mkEntry sIdx (j + w) station h wl) (rowEntries station sIdx j hs).
Proof.
  revert j w. induction hs as [|h0 hs IH]; simpl; intros j w Hh Hf; [done|].
  apply in_app_iff. destruct w as [|w]; simpl in Hh.
  - injection Hh as ->. rewrite Hf, Nat.add_0_r. left. by left.
  - right. replace (j + S w)%nat with (S j + w)%nat by lia. by apply IH.
Qed.

Lemma gridEntries_complete i ss ws s w st h wl :
  ss !! s = Some st -> ws !! w = Some h -> findWaterline st h = Some wl ->
  In (mkEntry (i + s) w st h wl) (gridEntries i ss ws).
Proof.
  revert i s. induction ss as [|st0 ss IH]; simpl; intros i s Hs Hh Hf; [done|].
  apply in_app_iff. destruct s as [|s]; simpl in Hs.
  - injection Hs as ->. left. rewrite Nat.add_0_r.
    by apply (rowEntries_complete st i 0 ws w h wl).
  - right. replace (i + S s)%nat with (S i + s)%nat by lia. by apply IH.
Qed.

Lemma rowEntries_sorted station sIdx j hs :
  StronglySorted keyLt (rowEntries station sIdx j hs).
Proof.
  revert j. induction hs as [|h hs IH]; simpl; intros j; [constructor|].
  destruct (findWaterline station h) as [wl|]; simpl; [|apply IH].
  constructor; [apply IH|].
  apply List.Forall_forall. intros e He.
  apply rowEntries_In in He as (H1 & _ & H3 & _).
  right. simpl. split; [done | lia].
Qed.

Lemma StronglySorted_app {A : Type} (R : A -> A -> Prop) (l1 l2 : list A) :
  StronglySorted R l1 -> StronglySorted R l2 ->
  (forall x y, In x l1 -> In y l2 -> R x y) ->
  StronglySorted R (l1 ++ l2).
Proof.
  induction 1 as [|x l1 Hl1 IH Hx]; simpl; intros H2 H12; [done|].
  constructor.
  - apply IH; [done|]. intros a b Ha Hb. apply H12; [by right | done].
  - apply List.Forall_forall. intros y Hy. apply in_app_iff in Hy as [Hy|Hy].
    + rewrite List.Forall_forall in Hx. by apply Hx.
    + apply H12; [by left | done].
Qed.

Lemma gridEntries_sorted i ss ws : StronglySorted keyLt (gridEntries i ss ws).
Proof.
  revert i. induction ss as [|st ss IH]; simpl; intros i; [constructor|].
  apply StronglySorted_app; [apply rowEntries_sorted | apply IH |].
  intros x y Hx Hy.
  apply rowEntries_In in Hx as (H1 & _).
  apply gridEntries_In in Hy as (H2 & _).
  left. lia.
Qed.

Lemma keyLt_neq (e e' : Entry) : keyLt e e' -> entryKey e <> entryKey e'.
Proof. unfold keyLt, entryKey. intros [H|[_ H]] [= H1 H2]; lia. Qed.

(** In a sorted list of samples a key occurs once: the samples after
    one of them have other keys. *)
Lemma sorted_split_fresh (L1 L2 : list Entry) (e : Entry) :
  StronglySorted keyLt (L1 ++ e :: L2) ->
  forall e', In e' L2 -> entryKey e <> entryKey e'.
Proof.
  induction L1 as [|x L1 IH]; simpl; intros Hs e' He'.
  - apply StronglySorted_inv in Hs as [_ Hall].
    rewrite List.Forall_forall in Hall. by apply keyLt_neq, Hall.
  - apply StronglySorted_inv in Hs as [Hs _]. by apply IH.
Qed.

End Entries.

Section Mirror.

Variables (scale : Q) (hasKeel hasChine : bool).

Lemma Qopp_opp (a : Q) : - - a = a.
Proof. destruct a. unfold Qopp. simpl. f_equal. lia. Qed.

Lemma mirror_mirror (v : Vector3) : mirror (mirror v) = v.
Proof. destruct v. unfold mirror. simpl. by rewrite Qopp_opp. Qed.

(** For a sample without starboard half-breadth the two vertices are
    mirror images of each other. *)
Lemma port_mirrors_starboard (e : Entry) :
  halfBreadthStarboard (entryData e) = None ->
  portVertexOf scale e = mirror (starboardVertexOf scale e)
  /\ chinePortVertexOf scale e = mirror (chineStarboardVertexOf scale e)
  /\ keelVertexOf scale e = mirror (keelVertexOf scale e).
Proof.
  intros Hnone.
  unfold portVertexOf, starboardVertexOf, chinePortVertexOf, chineStarboardVertexOf,
    keelVertexOf, mirror, starboardX. rewrite Hnone. simpl.
  by rewrite Qopp_mult_l.
Qed.

Lemma vertexBlock_mirror (e : Entry) (v : Vector3) :
  halfBreadthStarboard (entryData e) = None ->
  In v (vertexBlock scale hasKeel hasChine e) ->
  In (mirror v) (vertexBlock scale hasKeel hasChine e).
Proof.
  intros Hnone Hv. destruct (port_mirrors_starboard e Hnone) as (Hp & Hc & Hk).
  unfold vertexBlock, keelBlock, chineBlock in *.
  rewrite !in_app_iff in *.
  destruct Hv as [Hv | [Hv | Hv]].
  - left. destruct (hasKeel && (entryW e =? 0)%nat); [|done].
    destruct Hv as [<-|[]]. left. done.
  - right. left. destruct Hv as [<-|[<-|[]]].
    + right. left. done.
    + left. by rewrite Hp, mirror_mirror.
  - right. right. destruct (hasChine && (entryW e =? 0)%nat); [|done].
    destruct Hv as [<-|[<-|[]]].
    + right. left. done.
    + left. by rewrite Hc, mirror_mirror.
Qed.

End Mirror.

(** The samples of the sorted grid are samples of the table. *)
Lemma gridEntries_of_table (table : QuoteTable) (e : Entry) :
  In e (gridEntries 0 (getSortedStations table) (getSortedWaterlines table)) ->
  In (entryStation e) (stations table)
  /\ In (entryData e) (waterlines (entryStation e)).
Proof.
  intros He. apply gridEntries_In in He as (_ & Hs & _ & Hf). split.
  - apply (sortBy_In position). apply list_elem_of_In.
    by eapply list_elem_of_lookup_2.
  - unfold findWaterline in Hf. by apply find_some in Hf as [Hin _].
Qed.

(** The vertices of a table whose samples all omit the starboard
    half-breadth are closed under the mirror image. *)
Lemma generateVertices_mirror_closed (stateUnits : Units) (table : QuoteTable) (v : Vector3) :
  allSymmetric table ->
  In v (vertices (generateVertices stateUnits table)) ->
  In (mirror v) (vertices (generateVertices stateUnits table)).
Proof.
  intros Hsym. rewrite generateVertices_vertices, !in_flat_map.
  intros (e & He & Hv). exists e. split; [done|].
  apply vertexBlock_mirror; [|done].
  apply gridEntries_of_table in He as [Hst Hwl]. by apply (Hsym (entryStation e)).
Qed.

(** A key of the lookup belongs to a sample of the grid. *)
Lemma generateVertices_key_entry (stateUnits : Units) (table : QuoteTable)
    (s w : nat) (tag : VertexTag) :
  is_Some (vertexMap (generateVertices stateUnits table) !! (s, w, tag)) ->
  exists L1 e L2,
    gridEntries 0 (getSortedStations table) (getSortedWaterlines table) = L1 ++ e :: L2
    /\ entryKey e = (s, w).
Proof.
  rewrite generateVertices_entries.
  set (L := gridEntries 0 (getSortedStations table) (getSortedWaterlines table)).
  intros Hsome.
  destruct (List.find (fun e => bool_decide (entryKey e = (s, w))) L) as [e|] eqn:Hfind.
  - apply find_some in Hfind as [Hin Hkey]. apply bool_decide_eq_true in Hkey.
    apply in_split in Hin as (L1 & L2 & ->). by exists L1, e, L2.
  - exfalso. rewrite fold_emit_no_key in Hsome; [by destruct Hsome|].
    intros e He Hkey.
    pose proof (find_none _ _ Hfind e He) as Hn. simpl in Hn.
    apply bool_decide_eq_false in Hn. by apply Hn.
Qed.

(** The port vertex of a sample follows its starboard vertex, and is its
    mirror image when the sample omits the starboard half-breadth. *)
Lemma generateVertices_pairs (stateUnits : Units) (table : QuoteTable) (s w i : nat) :
  let r := generateVertices stateUnits table in
  vertexMap r !! (s, w, Star) = Some i ->
  exists e,
    In e (gridEntries 0 (getSortedStations table) (getSortedWaterlines table))
    /\ entryKey e = (s, w)
    /\ vertexMap r !! (s, w, Port) = Some (S i)
    /\ vertices r !! i = Some (starboardVertexOf (getUnitScale stateUnits) e)
    /\ vertices r !! S i = Some (portVertexOf (getUnitScale stateUnits) e).
Proof.
  intros r Hi.
  destruct (generateVertices_key_entry stateUnits table s w Star) as (L1 & e & L2 & HL & Hkey).
  { fold r. by rewrite Hi. }
  pose proof (gridEntries_sorted 0 (getSortedStations table) (getSortedWaterlines table)) as Hs.
  rewrite HL in Hs.
  destruct (fold_emit_own_key (getUnitScale stateUnits)
              (default false (hasKeel (metadata table)))
              (default false (hasChine (metadata table)))
              L1 L2 e {| vertices := []; vertexMap := ∅; keelVertices := [] |}
              (sorted_split_fresh L1 L2 e Hs)) as (i' & H1 & H2 & H3 & H4).
  rewrite <- HL, <- generateVertices_entries in H1, H2, H3, H4. fold r in H1, H2, H3, H4.
  unfold entryKey in Hkey. injection Hkey as Hs' Hw'. rewrite Hs', Hw' in H1, H2.
  assert (i' = i) as -> by congruence.
  exists e. split; [rewrite HL; apply in_elt|]. split; [unfold entryKey; congruence|]. done.
Qed.

Section FillStarboard.

Lemma find_map {A : Type} (f : A -> A) (p : A -> bool) (l : list A) :
  (forall a, p (f a) = p a) ->
  List.find p (map f l) = option_map f (List.find p l).
Proof.
  intros Hp. induction l as [|x l IH]; simpl; [done|].
  rewrite Hp. by destruct (p x).
Qed.

Lemma findWaterline_fill (st : Station) (h : Q) :
  findWaterline (fillStation st) h = option_map fillSample (findWaterline st h).
Proof. unfold findWaterline. simpl. by apply find_map. Qed.

Lemma getSortedStations_fill (table : QuoteTable) :
  getSortedStations (fillStarboard table) = map fillStation (getSortedStations table).
Proof. unfold getSortedStations. simpl. by apply sortBy_map. Qed.

Lemma fold_heights_fill (wls : list WaterlineData) (acc : list Q) :
  fold_left (fun acc wl => setAdd (height wl) acc) (map fillSample wls) acc
  = fold_left (fun acc wl => setAdd (height wl) acc) wls acc.
Proof. revert acc. induction wls as [|wl wls IH]; simpl; intros acc; [done|]. apply IH. Qed.

Lemma getSortedWaterlines_fill (table : QuoteTable) :
  getSortedWaterlines (fillStarboard table) = getSortedWaterlines table.
Proof.
  unfold getSortedWaterlines. f_equal. simpl.
  generalize (@nil Q). induction (stations table) as [|st sts IH]; simpl; intros acc; [done|].
  by rewrite IH, fold_heights_fill.
Qed.

Lemma rowEntries_fill st sIdx j hs :
  rowEntries (fillStation st) sIdx j hs = map fillEntry (rowEntries st sIdx j hs).
Proof.
  revert j. induction hs as [|h hs IH]; simpl; intros j; [done|].
  rewrite map_app, IH, findWaterline_fill. by destruct (findWaterline st h).
Qed.

Lemma gridEntries_fill i ss ws :
  gridEntries i (map fillStation ss) ws = map fillEntry (gridEntries i ss ws).
Proof.
  revert i. induction ss as [|st ss IH]; simpl; intros i; [done|].
  by rewrite map_app, IH, rowEntries_fill.
Qed.

Lemma starboardX_fill scale (wl : WaterlineData) :
  starboardX scale (fillSample wl) = starboardX scale wl.
Proof. reflexivity. Qed.

Lemma emitEntry_fill scale hasKeel hasChine acc (e : Entry) :
  emitEntry scale hasKeel hasChine acc (fillEntry e) = emitEntry scale hasKeel hasChine acc e.
Proof. reflexivity. Qed.

Lemma fold_emit_fill scale hasKeel hasChine (L : list Entry) acc :
  fold_left (emitEntry scale hasKeel hasChine) (map fillEntry L) acc
  = fold_left (emitEntry scale hasKeel hasChine) L acc.
Proof.
  revert acc. induction L as [|e L IH]; simpl; intros acc; [done|].
  by rewrite emitEntry_fill, IH.
Qed.

(** Vertex generation reads a missing starboard half-breadth as the
    port one. *)
Lemma generateVertices_fill (stateUnits : Units) (table : QuoteTable) :
  generateVertices stateUnits (fillStarboard table) = generateVertices stateUnits table.
Proof.
  rewrite !generateVertices_entries.
  rewrite getSortedStations_fill, getSortedWaterlines_fill, gridEntries_fill.
  simpl metadata. apply fold_emit_fill.
Qed.

Lemma samplePoints_fill scale (wl : WaterlineData) (y z : Q) :
  samplePoints scale (fillSample wl) y z = samplePoints scale wl y z.
Proof. unfold samplePoints. simpl. by destruct (halfBreadthStarboard wl). Qed.

Lemma stationProfile_fill scale (ws : list Q) (st : Station) :
  stationProfile scale ws (fillStation st) = stationProfile scale ws st.
Proof.
  unfold stationProfile. generalize (@nil Vector3).
  induction ws as [|h ws IH]; simpl; intros acc; [done|].
  rewrite findWaterline_fill.
  destruct (findWaterline st h) as [wl|]; simpl; [|apply IH].
  rewrite samplePoints_fill. apply IH.
Qed.

Lemma generateStationCurves_fill (stateUnits : Units) (table : QuoteTable) :
  generateStationCurves stateUnits (fillStarboard table)
  = generateStationCurves stateUnits table.
Proof.
  unfold generateStationCurves.
  rewrite getSortedStations_fill, getSortedWaterlines_fill.
  generalize (@nil (Q * list Vector3)).
  induction (getSortedStations table) as [|st ss IH]; simpl; intros acc; [done|].
  by rewrite stationProfile_fill, IH.
Qed.

Lemma fold_starboard_pass_fill scale (h : Q) (ss : list Station) (acc : list Vector3) :
  fold_left (fun points station =>
    match findWaterline station h with
    | Some wlData =>
        points ++ [mkVector3
                     match halfBreadthStarboard wlData with
                     | Some sb => sb * scale
                     | None => halfBreadthPort wlData * scale
                     end (h * scale) (position station * scale)]
    | None => points
    end) (map fillStation ss) acc
  = fold_left (fun points station =>
    match findWaterline station h with
    | Some wlData =>
        points ++ [mkVector3
                     match halfBreadthStarboard wlData with
                     | Some sb => sb * scale
                     | None => halfBreadthPort wlData * scale
                     end (h * scale) (position station * scale)]
    | None => points
    end) ss acc.
Proof.
  revert acc. induction ss as [|st ss IH]; simpl; intros acc; [done|].
  rewrite findWaterline_fill, IH.
  destruct (findWaterline st h) as [wl|]; simpl; [|done].
  by destruct (halfBreadthStarboard wl).
Qed.

Lemma fold_port_pass_fill scale (h : Q) (ss : list Station) (acc : list Vector3) :
  fold_left (fun points station =>
    match findWaterline station h with
    | Some wlData =>
        points ++ [mkVector3 (- (halfBreadthPort wlData * scale)) (h * scale)
                             (position station * scale)]
    | None => points
    end) (map fillStation ss) acc
  = fold_left (fun points station =>
    match findWaterline station h with
    | Some wlData =>
        points ++ [mkVector3 (- (halfBreadthPort wlData * scale)) (h * scale)
                             (position station * scale)]
    | None => points
    end) ss acc.
Proof.
  revert acc. induction ss as [|st ss IH]; simpl; intros acc; [done|].
  rewrite findWaterline_fill, IH.
  by destruct (findWaterline st h) as [wl|].
Qed.

Lemma waterlineLoop_fill scale (ss : list Station) (h : Q) :
  waterlineLoop scale (map fillStation ss) h = waterlineLoop scale ss h.
Proof.
  unfold waterlineLoop.
  by rewrite <- map_rev, fold_starboard_pass_fill, fold_port_pass_fill.
Qed.

Lemma generateWaterlineCurves_fill (stateUnits : Units) (table : QuoteTable) :
  generateWaterlineCurves stateUnits (fillStarboard table)
  = generateWaterlineCurves stateUnits table.
Proof.
  unfold generateWaterlineCurves.
  rewrite getSortedStations_fill, getSortedWaterlines_fill.
  generalize (@nil (Q * list Vector3)).
  induction (getSortedWaterlines table) as [|h ws IH]; simpl; intros acc; [done|].
  by rewrite waterlineLoop_fill, IH.
Qed.

Lemma generateDeckPoints_fill (stateUnits : Units) (table : QuoteTable) :
  generateDeckPoints stateUnits (fillStarboard table) = generateDeckPoints stateUnits table.
Proof.
  unfold generateDeckPoints.
  rewrite getSortedStations_fill, getSortedWaterlines_fill.
  destruct (last (getSortedWaterlines table)) as [top|]; [|done].
  generalize (@nil Vector3).
  induction (getSortedStations table) as [|st ss IH]; simpl; intros acc; [done|].
  rewrite findWaterline_fill.
  destruct (findWaterline st top) as [wl|]; simpl; [|apply IH].
  rewrite samplePoints_fill. apply IH.
Qed.

Lemma generateTransomPoints_fill (stateUnits : Units) (table : QuoteTable) :
  generateTransomPoints stateUnits (fillStarboard table)
  = generateTransomPoints stateUnits table.
Proof.
  unfold generateTransomPoints.
  rewrite getSortedStations_fill, getSortedWaterlines_fill.
  change (map fillStation (getSortedStations table)) with (fillStation <$> getSortedStations table).
  rewrite fmap_last.
  destruct (last (getSortedStations table)) as [st|]; simpl; [|done].
  apply stationProfile_fill.
Qed.

Lemma generateBowPoints_fill (stateUnits : Units) (table : QuoteTable) :
  generateBowPoints stateUnits (fillStarboard table) = generateBowPoints stateUnits table.
Proof.
  unfold generateBowPoints.
  rewrite getSortedStations_fill, getSortedWaterlines_fill.
  destruct (getSortedStations table) as [|st ss]; simpl; [done|].
  apply stationProfile_fill.
Qed.

Lemma Getters_getHalfBreadth_fill (table : QuoteTable) (s w : nat) (side : Side) :
  Getters.getHalfBreadth (fillStarboard table) s w side
  = Getters.getHalfBreadth table s w side.
Proof.
  unfold Getters.getHalfBreadth, Getters.getWaterlineData. simpl.
  rewrite list_lookup_fmap. destruct (stations table !! s) as [st|]; simpl; [|done].
  rewrite list_lookup_fmap. destruct (waterlines st !! w) as [wl|]; simpl; [|done].
  destruct side; [done|]. by destruct (halfBreadthStarboard wl).
Qed.

Lemma Helpers_getHalfBreadth_fill (table : QuoteTable) (p h : Q) (side : Side) :
  Helpers.getHalfBreadth (fillStarboard table) p h side
  = Helpers.getHalfBreadth table p h side.
Proof.
  unfold Helpers.getHalfBreadth, Helpers.getWaterlineData. simpl.
  rewrite (find_map fillStation) by done.
  destruct (List.find _ (stations table)) as [st|]; simpl; [|done].
  rewrite findWaterline_fill. destruct (findWaterline st h) as [wl|]; simpl; [|done].
  destruct side; [done|]. by destruct (halfBreadthStarboard wl).
Qed.

End FillStarboard.

Section InterpolatedSymmetry.

Import Helpers.

Lemma findNear_In (st : Station) (h : Q) (wl : WaterlineData) :
  findNear st h = Some wl -> In wl (waterlines st).
Proof. unfold findNear. intros H. by apply find_some in H as [H _]. Qed.

Lemma findBracket_In (ss : list Station) (p : Q) (lo up : Station) (r : Q) :
  findBracket ss p = Some (lo, up, r) -> In lo ss /\ In up ss.
Proof.
  induction ss as [|a ss IH]; simpl; [done|].
  destruct ss as [|b ss]; [done|].
  destruct (Qle_bool (position a) p && Qle_bool p (position b)).
  - intros [= <- <- <-]. split; [by left | right; by left].
  - intros H. apply IH in H as [H1 H2]. split; by right.
Qed.

Lemma nearestStation_In (first : Station) (ss : list Station) (p : Q) :
  In (nearestStation first ss p) (first :: ss).
Proof.
  unfold nearestStation.
  generalize (Qabs (p - position first)). intros d.
  assert (Hgen : forall (cur : Station) (d : Q) (pre : list Station),
            In cur pre ->
            In (fold_left (fun '(nearest, minDist) station =>
                   let dist := Qabs (p - position station) in
                   if Qltb dist minDist then (station, dist) else (nearest, minDist))
                 ss (cur, d)).1 (pre ++ ss)).
  { clear. induction ss as [|a ss IH]; intros cur d pre Hcur; cbn [fold_left].
    - by rewrite app_nil_r.
    - destruct (Qltb (Qabs (p - position a)) d).
      + specialize (IH a (Qabs (p - position a)) (pre ++ [a])).
        rewrite <- app_assoc in IH. cbv zeta. apply IH. apply in_app_iff. right. by left.
      + specialize (IH cur d (pre ++ [a])).
        rewrite <- app_assoc in IH. cbv zeta. apply IH. apply in_app_iff. by left. }
  apply (Hgen first d [first]). by left.
Qed.

(** A sample interpolated between stations whose samples omit the
    starboard half-breadth omits it too. *)
Lemma interpolateSample_symmetric table lower upper ratio h :
  (forall wl, In wl (waterlines lower) -> halfBreadthStarboard wl = None) ->
  (forall wl, In wl (waterlines upper) -> halfBreadthStarboard wl = None) ->
  halfBreadthStarboard (interpolateSample table lower upper ratio h) = None.
Proof.
  intros Hlo Hup. unfold interpolateSample.
  destruct (findNear lower h) as [l|] eqn:Hl; destruct (findNear upper h) as [u|] eqn:Hu.
  - simpl. by rewrite (Hlo l (findNear_In _ _ _ Hl)).
  - simpl. by apply Hlo, (findNear_In lower h).
  - simpl. by apply Hup, (findNear_In upper h).
  - destruct (findWaterlineBracket (getSortedWaterlines table) h) as [[lw uw] wr].
    destruct (findNear lower lw), (findNear lower uw), (findNear upper lw),
      (findNear upper uw); done.
Qed.

(** Interpolation keeps a table symmetric. *)
Lemma interpolateHullGrid_symmetric (table : QuoteTable) (config : LODConfig) :
  allSymmetric table -> allSymmetric (interpolateHullGrid table config).
Proof.
  intros Hsym. unfold interpolateHullGrid.
  destruct (Qle_bool (stationMultiplier config) 1 && Qle_bool (waterlineMultiplier config) 1);
    [done|].
  destruct (getSortedStations table) as [|first ss] eqn:Hss; [done|].
  destruct (getSortedWaterlines table) as [|w0 ws] eqn:Hws; [done|].
  intros st wl Hst Hwl. simpl in Hst.
  apply in_map_iff in Hst as (p & <- & _).
  assert (Hin : forall x, In x (first :: ss) ->
            forall wl', In wl' (waterlines x) -> halfBreadthStarboard wl' = None).
  { intros x Hx wl' Hwl'. apply (Hsym x wl'); [|done]. apply (sortBy_In position).
    fold (getSortedStations table). by rewrite Hss. }
  unfold interpolateStation in Hwl.
  destruct (findBracket (first :: ss) p) as [[[lo up] r]|] eqn:Hb.
  - apply findBracket_In in Hb as [Hlo Hup]. simpl in Hwl.
    apply in_map_iff in Hwl as (h & <- & _).
    apply interpolateSample_symmetric; by apply Hin.
  - simpl in Hwl. apply in_map_iff in Hwl as (h & <- & _).
    pose proof (nearestStation_In first (first :: ss) p) as Hn.
    assert (Hn' : In (nearestStation first (first :: ss) p) (first :: ss)).
    { destruct Hn as [Hn|Hn]; [left; done | done]. }
    apply interpolateSample_symmetric; by apply Hin.
Qed.

Lemma refinedTable_symmetric (table : QuoteTable) (lodConfig : LODConfig) :
  allSymmetric table -> allSymmetric (refinedTable table lodConfig).
Proof.
  intros Hsym. unfold refinedTable.
  destruct (Qltb 1 (stationMultiplier lodConfig) || Qltb 1 (waterlineMultiplier lodConfig));
    [by apply interpolateHullGrid_symmetric | done].
Qed.

End InterpolatedSymmetry.

Section SymmetryFlag.

(** The symmetry flag is not read. *)
Lemma interpolateHullGrid_withSymmetry sym (table : QuoteTable) (config : LODConfig) :
  Helpers.interpolateHullGrid (withSymmetry sym table) config
  = withSymmetry sym (Helpers.interpolateHullGrid table config).
Proof.
  unfold Helpers.interpolateHullGrid.
  destruct (Qle_bool (stationMultiplier config) 1 && Qle_bool (waterlineMultiplier config) 1);
    [done|].
  change (getSortedStations (withSymmetry sym table)) with (getSortedStations table).
  change (getSortedWaterlines (withSymmetry sym table)) with (getSortedWaterlines table).
  destruct (getSortedStations table) as [|first ss]; [done|].
  destruct (getSortedWaterlines table) as [|w0 ws]; [done|].
  reflexivity.
Qed.

Lemma refinedTable_withSymmetry sym (table : QuoteTable) (lodConfig : LODConfig) :
  refinedTable (withSymmetry sym table) lodConfig
  = withSymmetry sym (refinedTable table lodConfig).
Proof.
  unfold refinedTable.
  destruct (Qltb 1 (stationMultiplier lodConfig) || Qltb 1 (waterlineMultiplier lodConfig));
    [apply interpolateHullGrid_withSymmetry | done].
Qed.

Lemma generateStructuredHullGeometry_withSymmetry sym stateUnits table lodConfig :
  generateStructuredHullGeometry stateUnits (withSymmetry sym table) lodConfig
  = generateStructuredHullGeometry stateUnits table lodConfig.
Proof.
  unfold generateStructuredHullGeometry.
  fold (refinedTable (withSymmetry sym table) lodConfig).
  fold (refinedTable table lodConfig).
  rewrite refinedTable_withSymmetry. reflexivity.
Qed.

End SymmetryFlag.

(** * Panels with missing corners *)

Section PanelCorners.

(** A panel without one of its eight corners adds nothing. *)
Lemma generatePanelFaces_skip indices vertexMap keelVertices s w hasKeel hasChine :
  areAllPanelVerticesValid (getPanelVertices vertexMap s w) = false ->
  generatePanelFaces indices vertexMap keelVertices s w hasKeel hasChine = indices.
Proof. intros H. unfold generatePanelFaces. by rewrite H. Qed.

(** The indices of a panel are the indices of its corners. *)
Lemma generatePanelFaces_corners vertexMap keelVertices s w hasKeel hasChine :
  generatePanelFaces [] vertexMap keelVertices s w hasKeel hasChine
  = map idx (panelCornersOf (fun k => vertexMap !! k) (fun k => keelVertices !! k)
               s w hasKeel hasChine).
Proof.
  unfold generatePanelFaces, panelCornersOf, areAllPanelVerticesValid, getPanelVertices.
  cbn [topLeft topRight bottomRight bottomLeft
       topLeftPort topRightPort bottomRightPort bottomLeftPort].
  change (@allPresent nat) with areVerticesValid.
  destruct (negb (areVerticesValid _)); [done|].
  destruct (hasChine && (w =? 0)%nat), (hasKeel && (w =? 0)%nat).
  - rewrite generateKeelConnection_app.
    unfold generateChinePanel, generateKeelConnection, areChineVerticesValid,
      getChineVertices, getPanelVertices.
    cbn [chineTopLeft chineTopRight chineBottomLeft chineBottomRight
         chineTopLeftPort chineTopRightPort chineBottomLeftPort chineBottomRightPort
         topLeft topRight bottomRight bottomLeft
         topLeftPort topRightPort bottomRightPort bottomLeftPort].
    rewrite map_app.
    destruct (negb (areVerticesValid _)), (negb (areVerticesValid _)); done.
  - unfold generateChinePanel, areChineVerticesValid, getChineVertices, getPanelVertices.
    cbn [chineTopLeft chineTopRight chineBottomLeft chineBottomRight
         chineTopLeftPort chineTopRightPort chineBottomLeftPort chineBottomRightPort
         topLeft topRight bottomRight bottomLeft
         topLeftPort topRightPort bottomRightPort bottomLeftPort].
    rewrite app_nil_r.
    destruct (negb (areVerticesValid _)); done.
  - rewrite generateKeelConnection_app.
    unfold generateStandardPanel, generateKeelConnection.
    cbn [topLeft topRight bottomRight bottomLeft
         topLeftPort topRightPort bottomRightPort bottomLeftPort].
    rewrite map_app.
    destruct (negb (areVerticesValid _)); done.
  - unfold generateStandardPanel.
    cbn [topLeft topRight bottomRight bottomLeft
         topLeftPort topRightPort bottomRightPort bottomLeftPort].
    by rewrite app_nil_r.
Qed.

Lemma allPresent_Forall {A : Type} (l : list (option A)) :
  allPresent l = true <-> Forall is_Some l.
Proof.
  unfold allPresent. rewrite forallb_forall, List.Forall_forall.
  split; intros H o Ho.
  - specialize (H o Ho). by apply bool_decide_eq_true in H.
  - apply bool_decide_eq_true. by apply H.
Qed.

(** Every corner of a panel that is not skipped is present. *)
Lemma panelCornersOf_present {A : Type} (look : VertexKey -> option A)
    (keel : nat -> option A) s w hasKeel hasChine :
  Forall is_Some (panelCornersOf look keel s w hasKeel hasChine).
Proof.
  unfold panelCornersOf. cbv zeta.
  destruct (allPresent [look (s, w, Star); _; _; _; _; _; _; _]) eqn:H1; [|constructor].
  apply allPresent_Forall in H1. rewrite List.Forall_forall in H1.
  cbn [negb]. apply Forall_app. split.
  - destruct (hasChine && (w =? 0)%nat).
    + destruct (allPresent [look (s, w, ChineStar); _; _; _; _; _; _; _]) eqn:H2;
        [|constructor].
      apply allPresent_Forall in H2. rewrite List.Forall_forall in H2.
      cbn [negb]. apply List.Forall_forall. intros o Ho.
      cbn [In] in Ho. repeat destruct Ho as [<-|Ho]; try done;
        first [apply H1; cbn [In]; tauto | apply H2; cbn [In]; tauto].
    + apply List.Forall_forall. intros o Ho.
      cbn [In] in Ho. repeat destruct Ho as [<-|Ho]; try done; apply H1; cbn [In]; tauto.
  - destruct (hasKeel && (w =? 0)%nat); [|constructor].
    destruct (allPresent [keel s; _; _; _; _; _]) eqn:H3; [|constructor].
    apply allPresent_Forall in H3. rewrite List.Forall_forall in H3.
    cbn [negb]. apply List.Forall_forall. intros o Ho.
    cbn [In] in Ho. repeat destruct Ho as [<-|Ho]; try done;
      first [apply H1; cbn [In]; tauto | apply H3; cbn [In]; tauto].
Qed.

(** The corners read through a function that keeps presence. *)
Lemma panelCornersOf_map {A B : Type} (f : option A -> option B)
    (look : VertexKey -> option A) (keel : nat -> option A) s w hasKeel hasChine :
  (forall k, is_Some (f (look k)) <-> is_Some (look k)) ->
  (forall k, is_Some (f (keel k)) <-> is_Some (keel k)) ->
  map f (panelCornersOf look keel s w hasKeel hasChine)
  = panelCornersOf (fun k => f (look k)) (fun k => f (keel k)) s w hasKeel hasChine.
Proof.
  intros Hl Hk.
  assert (El : forall k, bool_decide (is_Some (f (look k))) = bool_decide (is_Some (look k))).
  { intros k. apply bool_decide_ext, Hl. }
  assert (Ek : forall k, bool_decide (is_Some (f (keel k))) = bool_decide (is_Some (keel k))).
  { intros k. apply bool_decide_ext, Hk. }
  unfold panelCornersOf, allPresent. cbv zeta. cbn [forallb].
  rewrite !El, !Ek.
  repeat match goal with
         | |- context [if ?b then _ else _] => destruct b
         end; done.
Qed.

(** The corners of a panel depend on the lookups at the panel only. *)
Lemma panelCornersOf_ext {A : Type} (look look' : VertexKey -> option A)
    (keel keel' : nat -> option A) s w hasKeel hasChine :
  (forall s' w' tag, s' = s \/ s' = S s -> w' = w \/ w' = S w ->
                     look' (s', w', tag) = look (s', w', tag)) ->
  (hasKeel = true -> forall s', s' = s \/ s' = S s -> keel' s' = keel s') ->
  panelCornersOf look' keel' s w hasKeel hasChine
  = panelCornersOf look keel s w hasKeel hasChine.
Proof.
  intros Hl Hk. unfold panelCornersOf. cbv zeta.
  rewrite !Hl by auto.
  destruct hasKeel; [|done].
  rewrite !Hk by auto. done.
Qed.

Lemma allPresent_mono {A B : Type} (l' : list (option A)) (l : list (option B)) :
  Forall2 (fun o' o => is_Some o' -> is_Some o) l' l ->
  allPresent l' = true -> allPresent l = true.
Proof.
  rewrite !allPresent_Forall.
  induction 1 as [|o' o l' l Ho Hall IH]; intros H; [constructor|].
  apply Forall_cons in H as [H1 H2]. constructor; auto.
Qed.

(** A panel over a lookup with fewer corners has no more triangles. *)
Lemma panelCornersOf_length_le {A B : Type} (look' : VertexKey -> option A)
    (look : VertexKey -> option B) (keel' : nat -> option A) (keel : nat -> option B)
    s w hasKeel hasChine :
  (forall k, is_Some (look' k) -> is_Some (look k)) ->
  (forall k, is_Some (keel' k) -> is_Some (keel k)) ->
  (length (panelCornersOf look' keel' s w hasKeel hasChine)
   <= length (panelCornersOf look keel s w hasKeel hasChine))%nat.
Proof.
  intros Hl Hk. unfold panelCornersOf. cbv zeta.
  destruct (allPresent [look' (s, w, Star); _; _; _; _; _; _; _]) eqn:H1';
    cbn [negb]; [|simpl; lia].
  rewrite (allPresent_mono _ [look (s, w, Star); look (S s, w, Star);
                              look (S s, S w, Star); look (s, S w, Star);
                              look (s, w, Port); look (S s, w, Port);
                              look (S s, S w, Port); look (s, S w, Port)] ltac:(repeat constructor; apply Hl) H1').
  cbn [negb]. rewrite !length_app. apply Nat.add_le_mono.
  - destruct (hasChine && (w =? 0)%nat); [|done].
    destruct (allPresent [look' (s, w, ChineStar); _; _; _; _; _; _; _]) eqn:H2';
      cbn [negb]; [|simpl; lia].
    rewrite (allPresent_mono _ [look (s, w, ChineStar); look (S s, w, ChineStar);
                                look (s, S w, Star); look (S s, S w, Star);
                                look (s, w, ChinePort); look (S s, w, ChinePort);
                                look (s, S w, Port); look (S s, S w, Port)] ltac:(repeat constructor; apply Hl) H2').
    done.
  - destruct (hasKeel && (w =? 0)%nat); [|done].
    destruct (allPresent [keel' s; _; _; _; _; _]) eqn:H3'; cbn [negb]; [|simpl; lia].
    rewrite (allPresent_mono _ [keel s; keel (S s); look (s, w, Star); look (S s, w, Star);
                                look (s, w, Port); look (S s, w, Port)] ltac:(repeat constructor; first [apply Hl | apply Hk]) H3').
    done.
Qed.

Lemma map_idx_behind {A : Type} (vs : list A) (l : list (option nat)) :
  Forall is_Some l -> map (fun i => vs !! i) (map idx l) = map (behind vs) l.
Proof.
  induction 1 as [|o l [i ->] Hall IH]; simpl; [done|]. by rewrite IH.
Qed.

End PanelCorners.

(** * The positions behind the vertex lookup of a table *)

Section TablePositions.

Variables (stateUnits : Units) (table : QuoteTable).

Local Abbreviation scale := (getUnitScale stateUnits).
Local Abbreviation keel := (default false (hasKeel (metadata table))).
Local Abbreviation chine := (default false (hasChine (metadata table))).
Local Abbreviation grid :=
  (gridEntries 0 (getSortedStations table) (getSortedWaterlines table)).

Lemma sorted_split_fresh_before (L1 L2 : list Entry) (e : Entry) :
  StronglySorted keyLt (L1 ++ e :: L2) ->
  forall e', In e' L1 -> entryKey e <> entryKey e'.
Proof.
  induction L1 as [|x L1 IH]; simpl; intros Hs e' He'; [done|].
  apply StronglySorted_inv in Hs as [Hs Hall]. destruct He' as [->|He'].
  - rewrite List.Forall_forall in Hall.
    intros Heq. symmetry in Heq. revert Heq. apply keyLt_neq, Hall.
    apply in_app_iff. right. by left.
  - by apply IH.
Qed.

Lemma generateVertices_indicesInRange :
  indicesInRange (generateVertices stateUnits table).
Proof.
  rewrite generateVertices_entries.
  apply fold_emit_indicesInRange, initial_indicesInRange.
Qed.

(** The position behind a key of the lookup is the vertex of the
    sample at that place of the grid. *)
Lemma generateVertices_positionAt (s w : nat) (tag : VertexTag) :
  positionAt (generateVertices stateUnits table) (s, w, tag)
  = match sampleAt (getSortedStations table) (getSortedWaterlines table) s w with
    | Some e => tagVertex scale chine tag e
    | None => None
    end.
Proof.
  rewrite generateVertices_entries.
  destruct (sampleAt _ _ s w) as [e|] eqn:Hsample.
  - unfold sampleAt in Hsample.
    destruct (getSortedStations table !! s) as [st|] eqn:Hs; [|done].
    destruct (getSortedWaterlines table !! w) as [h|] eqn:Hw; [|done].
    destruct (findWaterline st h) as [wl|] eqn:Hf; [|done].
    injection Hsample as <-.
    pose proof (gridEntries_complete 0 _ _ s w st h wl Hs Hw Hf) as Hin.
    cbn [Nat.add] in Hin.
    apply in_split in Hin as (L1 & L2 & HL).
    pose proof (gridEntries_sorted 0 (getSortedStations table) (getSortedWaterlines table))
      as Hsorted.
    rewrite HL in *.
    apply (fold_emit_positionAt scale keel chine L1 L2 (mkEntry s w st h wl) tag).
    + by apply (sorted_split_fresh_before L1 L2).
    + by apply (sorted_split_fresh L1 L2).
  - apply fold_emit_positionAt_none. intros e He Hkey.
    apply gridEntries_In in He as (_ & Hs & Hw & Hf).
    unfold entryKey in Hkey. injection Hkey as -> ->.
    rewrite Nat.sub_0_r in Hs.
    unfold sampleAt in Hsample. by rewrite Hs, Hw, Hf in Hsample.
Qed.

(** The position behind the [k]-th keel entry is the keel vertex of the
    [k]-th sample of the lowest waterline. *)
Lemma generateVertices_keelPositionAt (k : nat) :
  keelPositionAt (generateVertices stateUnits table) k
  = if keel then keelVertexOf scale <$> bottomEntries grid !! k else None.
Proof.
  unfold keelPositionAt. rewrite generateVertices_entries.
  destruct keel eqn:Hk.
  - destruct (fold_emit_keelVertices scale true chine grid
                {| vertices := []; vertexMap := ∅; keelVertices := [] |} eq_refl)
      as (ks & Hks & Hall).
    rewrite Hks. cbn [keelVertices app].
    destruct (ks !! k) as [i|] eqn:Hi.
    + destruct (Forall2_lookup_l _ _ _ _ _ Hall Hi) as (e & He & Hv).
      by rewrite He, Hv.
    + apply lookup_ge_None in Hi. rewrite (Forall2_length _ _ _ Hall) in Hi.
      apply lookup_ge_None in Hi. by rewrite Hi.
  - by rewrite fold_emit_no_keel.
Qed.

(** The positions of the triangles of a panel, read from the grid. *)
Lemma panelFaces_positions (s w : nat) :
  facePositions stateUnits table (panelFaces stateUnits table s w)
  = panelCornersOf (positionAt (generateVertices stateUnits table))
      (keelPositionAt (generateVertices stateUnits table)) s w keel chine.
Proof.
  unfold facePositions, panelFaces. cbv zeta.
  rewrite generatePanelFaces_corners.
  rewrite map_idx_behind by apply panelCornersOf_present.
  destruct generateVertices_indicesInRange as [Hvm Hkv].
  rewrite panelCornersOf_map; [done| |].
  - intros k. split; [intros [v Hv]|intros [i Hi]].
    + destruct (vertexMap _ !! k); [by eexists | done].
    + rewrite Hi. simpl. by eapply Hvm.
  - intros k. split; [intros [v Hv]|intros [i Hi]].
    + destruct (keelVertices _ !! k); [by eexists | done].
    + rewrite Hi. simpl. by eapply Hkv.
Qed.

(** The number of indices of a panel, read from the grid. *)
Lemma panelFaces_length (s w : nat) :
  length (panelFaces stateUnits table s w)
  = length (panelCornersOf (positionAt (generateVertices stateUnits table))
              (keelPositionAt (generateVertices stateUnits table)) s w keel chine).
Proof.
  rewrite <- panelFaces_positions. unfold facePositions. by rewrite length_map.
Qed.

End TablePositions.

(** * Removing a sample *)

Section Removal.

Variables (p0 h0 : Q).

Local Abbreviation drop := (dropSample p0 h0).
Local Abbreviation kept := (fun e => negb (removed p0 h0 e)).

Lemma position_dropSample (st : Station) : position (drop st) = position st.
Proof. unfold dropSample. by destruct (Qeq_bool (position st) p0). Qed.

Lemma Qeq_bool_trans_false (a b c : Q) :
  Qeq_bool a b = true -> Qeq_bool b c = false -> Qeq_bool a c = false.
Proof.
  intros Hab Hbc. apply Qeq_bool_iff in Hab.
  destruct (Qeq_bool a c) eqn:Hac; [|done].
  apply Qeq_bool_iff in Hac.
  assert (Heq : b == c) by (by rewrite <- Hab).
  apply Qeq_bool_iff in Heq. congruence.
Qed.

(** The removed sample is no longer found; every other one is. *)
Lemma findWaterline_dropSample (st : Station) (h : Q) :
  findWaterline (drop st) h
  = if Qeq_bool (position st) p0 && Qeq_bool h h0 then None else findWaterline st h.
Proof.
  unfold dropSample, findWaterline.
  destruct (Qeq_bool (position st) p0); cbn [andb waterlines]; [|done].
  induction (waterlines st) as [|wl wls IH]; cbn [List.filter List.find].
  { by destruct (Qeq_bool h h0). }
  destruct (Qeq_bool (height wl) h0) eqn:Hwl0; cbn [negb List.find].
  - rewrite IH. destruct (Qeq_bool h h0) eqn:Hh; [done|].
    destruct (Qeq_bool (height wl) h) eqn:Hwl; [|done].
    exfalso. apply Qeq_bool_iff in Hwl0, Hwl.
    assert (Heq : h == h0) by (by rewrite <- Hwl).
    apply Qeq_bool_iff in Heq. congruence.
  - destruct (Qeq_bool (height wl) h) eqn:Hwl.
    + destruct (Qeq_bool h h0) eqn:Hh; [|done].
      exfalso. apply Qeq_bool_iff in Hh, Hwl.
      assert (Heq : height wl == h0) by (by rewrite Hwl).
      apply Qeq_bool_iff in Heq. congruence.
    + apply IH.
Qed.

Lemma getSortedStations_removeSample (table : QuoteTable) :
  getSortedStations (removeSample p0 h0 table) = map drop (getSortedStations table).
Proof.
  unfold getSortedStations, removeSample. cbn [stations].
  apply sortBy_map, position_dropSample.
Qed.

Lemma sampleAt_dropSample (ss : list Station) (ws : list Q) (s w : nat) :
  sampleAt (map drop ss) ws s w
  = match sampleAt ss ws s w with
    | Some e => if removed p0 h0 e then None else Some (dropEntry p0 h0 e)
    | None => None
    end.
Proof.
  unfold sampleAt.
  change (map drop ss) with (drop <$> ss). rewrite list_lookup_fmap.
  destruct (ss !! s) as [st|]; cbn [fmap option_fmap option_map]; [|done].
  destruct (ws !! w) as [h|]; [|done].
  rewrite findWaterline_dropSample. unfold removed, dropEntry.
  destruct (findWaterline st h) as [wl|]; cbn [entryStation entryHeight entryS entryW entryData].
  - by destruct (Qeq_bool (position st) p0 && Qeq_bool h h0).
  - by destruct (Qeq_bool (position st) p0 && Qeq_bool h h0).
Qed.

Lemma tagVertex_dropEntry scale hasChine tag (e : Entry) :
  tagVertex scale hasChine tag (dropEntry p0 h0 e) = tagVertex scale hasChine tag e.
Proof.
  unfold tagVertex, starboardVertexOf, portVertexOf, chineStarboardVertexOf,
    chinePortVertexOf, dropEntry.
  cbn [entryStation entryHeight entryS entryW entryData].
  by rewrite position_dropSample.
Qed.

Lemma keelVertexOf_dropEntry scale (e : Entry) :
  keelVertexOf scale (dropEntry p0 h0 e) = keelVertexOf scale e.
Proof.
  unfold keelVertexOf, dropEntry. cbn [entryStation entryHeight].
  by rewrite position_dropSample.
Qed.

(** The samples of the grid after the removal are the samples that
    stay. *)
Lemma rowEntries_dropSample (st : Station) (sIdx j : nat) (hs : list Q) :
  rowEntries (drop st) sIdx j hs
  = map (dropEntry p0 h0) (List.filter kept (rowEntries st sIdx j hs)).
Proof.
  revert j. induction hs as [|h hs IH]; intros j; cbn [rowEntries]; [done|].
  rewrite findWaterline_dropSample, List.filter_app, map_app, IH. f_equal.
  destruct (findWaterline st h) as [wl|]; cbn [List.filter].
  - unfold removed. cbn [entryStation entryHeight].
    by destruct (Qeq_bool (position st) p0 && Qeq_bool h h0).
  - by destruct (Qeq_bool (position st) p0 && Qeq_bool h h0).
Qed.

Lemma gridEntries_dropSample (i : nat) (ss : list Station) (ws : list Q) :
  gridEntries i (map drop ss) ws
  = map (dropEntry p0 h0) (List.filter kept (gridEntries i ss ws)).
Proof.
  revert i. induction ss as [|st ss IH]; intros i; cbn [gridEntries map]; [done|].
  by rewrite rowEntries_dropSample, IH, List.filter_app, map_app.
Qed.

Lemma bottomEntries_dropEntry (L : list Entry) :
  bottomEntries (map (dropEntry p0 h0) (List.filter kept L))
  = map (dropEntry p0 h0) (List.filter kept (bottomEntries L)).
Proof.
  unfold bottomEntries. induction L as [|e L IH]; cbn [List.filter map]; [done|].
  destruct (removed p0 h0 e) eqn:Hr; cbn [negb map List.filter].
  - destruct (entryW e =? 0)%nat; cbn [List.filter]; [|done].
    by rewrite Hr.
  - cbn [dropEntry entryW]. destruct (entryW e =? 0)%nat; cbn [List.filter map]; [|done].
    rewrite Hr. cbn [negb map]. by rewrite IH.
Qed.

Lemma filter_length_le {A : Type} (f : A -> bool) (l : list A) :
  (length (List.filter f l) <= length l)%nat.
Proof. induction l as [|x l IH]; simpl; [done|]. destruct (f x); simpl; lia. Qed.

Lemma filter_all {A : Type} (f : A -> bool) (l : list A) :
  (forall x, In x l -> f x = true) -> List.filter f l = l.
Proof.
  induction l as [|x l IH]; simpl; intros H; [done|].
  rewrite (H x) by auto. f_equal. apply IH. auto.
Qed.

End Removal.

Section Concat.

Lemma fold_left_concat {A B : Type} (g : list A -> B -> list A) (l : list B)
    (init : list A) :
  (forall acc x, g acc x = acc ++ g [] x) ->
  fold_left g l init = init ++ concat (map (g []) l).
Proof.
  intros Hg. revert init. induction l as [|x l IH]; intros init; cbn [fold_left map concat].
  - by rewrite app_nil_r.
  - by rewrite IH, Hg, <- app_assoc.
Qed.

(** The index buffer is the concatenation of the panels, station by
    station and waterline by waterline. *)
Lemma generateFaces_concat table vertexMap keelVertices :
  generateFaces table vertexMap keelVertices
  = concat (map (fun s =>
      concat (map (fun w =>
                generatePanelFaces [] vertexMap keelVertices s w
                  (default false (hasKeel (metadata table)))
                  (default false (hasChine (metadata table))))
             (seq 0 (length (getSortedWaterlines table) - 1))))
      (seq 0 (length (getSortedStations table) - 1))).
Proof.
  unfold generateFaces. cbv zeta.
  rewrite (fold_left_concat
             (fun indices s =>
                fold_left (fun indices w =>
                             generatePanelFaces indices vertexMap keelVertices s w
                               (default false (hasKeel (metadata table)))
                               (default false (hasChine (metadata table))))
                          (seq 0 (length (getSortedWaterlines table) - 1)) indices)).
  - cbn [app]. f_equal. apply map_ext. intros s.
    rewrite (fold_left_concat (fun indices w => generatePanelFaces indices _ _ s w _ _)).
    + done.
    + intros acc w. apply generatePanelFaces_app.
  - intros acc s.
    rewrite !(fold_left_concat (fun indices w => generatePanelFaces indices _ _ s w _ _)).
    + done.
    + intros acc' w. apply generatePanelFaces_app.
    + intros acc' w. apply generatePanelFaces_app.
Qed.

Lemma length_concat_map_le {A B : Type} (f g : B -> list A) (l : list B) :
  (forall x, In x l -> (length (f x) <= length (g x))%nat) ->
  (length (concat (map f l)) <= length (concat (map g l)))%nat.
Proof.
  induction l as [|x l IH]; cbn [map concat]; intros H; [done|].
  rewrite !length_app. apply Nat.add_le_mono; [apply H; by left|].
  apply IH. intros y Hy. apply H. by right.
Qed.

Lemma length_concat_map_lt {A B : Type} (f g : B -> list A) (l : list B) (x0 : B) :
  (forall x, In x l -> (length (f x) <= length (g x))%nat) ->
  In x0 l -> (length (f x0) < length (g x0))%nat ->
  (length (concat (map f l)) < length (concat (map g l)))%nat.
Proof.
  induction l as [|x l IH]; cbn [map concat]; intros H Hin Hlt; [done|].
  rewrite !length_app.
  assert (Hl : (length (concat (map f l)) <= length (concat (map g l)))%nat).
  { apply length_concat_map_le. intros y Hy. apply H. by right. }
  destruct Hin as [->|Hin].
  - lia.
  - assert (Hx : (length (f x) <= length (g x))%nat) by (apply H; by left).
    assert (Hl' : (length (concat (map f l)) < length (concat (map g l)))%nat).
    { apply IH; [|done|done]. intros y Hy. apply H. by right. }
    lia.
Qed.

End Concat.

(** * The hull body before and after the removal of a sample *)

Section RemovalTable.

Variables (stateUnits : Units) (table : QuoteTable) (p0 h0 : Q).

Local Abbreviation table' := (removeSample p0 h0 table).
Local Abbreviation r := (generateVertices stateUnits table).
Local Abbreviation r' := (generateVertices stateUnits (removeSample p0 h0 table)).
Local Abbreviation scale := (getUnitScale stateUnits).
Local Abbreviation keel := (default false (hasKeel (metadata table))).
Local Abbreviation chine := (default false (hasChine (metadata table))).
Local Abbreviation ss := (getSortedStations table).
Local Abbreviation ws := (getSortedWaterlines table).

Hypothesis sameWaterlines : getSortedWaterlines (removeSample p0 h0 table) = ws.

Lemma sampleAt_Some (s w : nat) (e : Entry) :
  sampleAt ss ws s w = Some e ->
  ss !! s = Some (entryStation e) /\ ws !! w = Some (entryHeight e)
  /\ entryS e = s /\ entryW e = w.
Proof.
  unfold sampleAt. intros H.
  destruct (ss !! s) as [st|]; [|done].
  destruct (ws !! w) as [h|]; [|done].
  destruct (findWaterline st h) as [wl|]; [|done].
  by injection H as <-.
Qed.

Lemma positionAt_removeSample (s w : nat) (tag : VertexTag) :
  positionAt r' (s, w, tag)
  = match sampleAt ss ws s w with
    | Some e => if removed p0 h0 e then None else tagVertex scale chine tag e
    | None => None
    end.
Proof.
  rewrite generateVertices_positionAt, getSortedStations_removeSample, sameWaterlines,
    sampleAt_dropSample.
  destruct (sampleAt ss ws s w) as [e|]; [|done].
  destruct (removed p0 h0 e); [done|].
  apply tagVertex_dropEntry.
Qed.

(** A key of the lookup after the removal was a key before. *)
Lemma positionAt_removeSample_le (k : VertexKey) :
  is_Some (positionAt r' k) -> is_Some (positionAt r k).
Proof.
  destruct k as [[s w] tag].
  rewrite positionAt_removeSample, generateVertices_positionAt.
  destruct (sampleAt ss ws s w) as [e|]; [|done].
  destruct (removed p0 h0 e); [by intros [? ?] | done].
Qed.

(** Away from the removed sample the positions stay. *)
Lemma positionAt_removeSample_eq (s w : nat) (tag : VertexTag) :
  (forall st h, ss !! s = Some st -> ws !! w = Some h ->
                ~ (position st == p0 /\ h == h0)) ->
  positionAt r' (s, w, tag) = positionAt r (s, w, tag).
Proof.
  intros Hfar.
  rewrite positionAt_removeSample, generateVertices_positionAt.
  destruct (sampleAt ss ws s w) as [e|] eqn:He; [|done].
  destruct (removed p0 h0 e) eqn:Hr; [|done].
  exfalso. apply sampleAt_Some in He as (Hs & Hw & _).
  apply andb_true_iff in Hr as [H1 H2]. apply Qeq_bool_iff in H1, H2.
  by apply (Hfar _ _ Hs Hw).
Qed.

(** The removed sample has no vertex. *)
Lemma positionAt_removeSample_removed (s w : nat) (tag : VertexTag) (st : Station) (h : Q) :
  ss !! s = Some st -> ws !! w = Some h -> position st == p0 -> h == h0 ->
  positionAt r' (s, w, tag) = None.
Proof.
  intros Hs Hw Hp Hh. rewrite positionAt_removeSample.
  destruct (sampleAt ss ws s w) as [e|] eqn:He; [|done].
  apply sampleAt_Some in He as (Hs' & Hw' & _).
  assert (st = entryStation e) as -> by congruence.
  assert (h = entryHeight e) as -> by congruence.
  unfold removed.
  apply Qeq_bool_iff in Hp, Hh. by rewrite Hp, Hh.
Qed.

Lemma bottomEntries_removeSample :
  bottomEntries (gridEntries 0 (getSortedStations table') (getSortedWaterlines table'))
  = map (dropEntry p0 h0)
      (List.filter (fun e => negb (removed p0 h0 e)) (bottomEntries (gridEntries 0 ss ws))).
Proof.
  rewrite getSortedStations_removeSample, sameWaterlines, gridEntries_dropSample.
  apply bottomEntries_dropEntry.
Qed.

(** A keel entry after the removal was a keel entry before. *)
Lemma keelPositionAt_removeSample_le (k : nat) :
  is_Some (keelPositionAt r' k) -> is_Some (keelPositionAt r k).
Proof.
  rewrite !generateVertices_keelPositionAt, bottomEntries_removeSample.
  change (default false (hasKeel (metadata table'))) with keel.
  destruct keel; [|done].
  rewrite !fmap_is_Some.
  change (map (dropEntry p0 h0) ?l) with (dropEntry p0 h0 <$> l).
  rewrite list_lookup_fmap, fmap_is_Some, !lookup_lt_is_Some.
  pose proof (filter_length_le (fun e => negb (removed p0 h0 e))
                (bottomEntries (gridEntries 0 ss ws))).
  lia.
Qed.

(** When the removed sample is not on the lowest waterline, the keel
    entries stay. *)
Lemma keelPositionAt_removeSample_eq (k : nat) :
  (forall h, head ws = Some h -> ~ h == h0) ->
  keelPositionAt r' k = keelPositionAt r k.
Proof.
  intros Hlow.
  rewrite !generateVertices_keelPositionAt, bottomEntries_removeSample.
  change (default false (hasKeel (metadata table'))) with keel.
  destruct keel; [|done].
  rewrite filter_all.
  - change (map (dropEntry p0 h0) ?l) with (dropEntry p0 h0 <$> l).
    rewrite list_lookup_fmap.
    destruct (bottomEntries (gridEntries 0 ss ws) !! k) as [e|]; [|done].
    cbn [fmap option_fmap option_map]. f_equal. apply keelVertexOf_dropEntry.
  - intros e He. unfold bottomEntries in He.
    apply filter_In in He as [Hin Hw]. apply Nat.eqb_eq in Hw.
    apply gridEntries_In in Hin as (_ & _ & Hh & _). rewrite Hw in Hh.
    assert (Hhead : head ws = Some (entryHeight e)).
    { destruct ws; [done|]. by injection Hh as ->. }
    apply Hlow in Hhead. unfold removed.
    destruct (Qeq_bool (entryHeight e) h0) eqn:Hq.
    + apply Qeq_bool_iff in Hq. done.
    + by rewrite andb_false_r.
Qed.

(** No panel grows. *)
Lemma panelFaces_removeSample_le (s w : nat) :
  (length (panelFaces stateUnits table' s w) <= length (panelFaces stateUnits table s w))%nat.
Proof.
  rewrite !panelFaces_length.
  apply panelCornersOf_length_le.
  - apply positionAt_removeSample_le.
  - apply keelPositionAt_removeSample_le.
Qed.

(** The index buffer does not grow. *)
Lemma facesOf_removeSample_le :
  (length (facesOf stateUnits table') <= length (facesOf stateUnits table))%nat.
Proof.
  unfold facesOf. cbv zeta. rewrite !generateFaces_concat.
  rewrite getSortedStations_removeSample, sameWaterlines, length_map.
  apply length_concat_map_le. intros s _.
  apply length_concat_map_le. intros w _.
  apply panelFaces_removeSample_le.
Qed.

(** A panel away from the removed sample keeps the positions of its
    triangles. *)
Lemma panelFaces_removeSample_positions (s w : nat) :
  (keel = false \/ forall h, head ws = Some h -> ~ h == h0) ->
  ~ touchesSample table p0 h0 s w ->
  facePositions stateUnits table' (panelFaces stateUnits table' s w)
  = facePositions stateUnits table (panelFaces stateUnits table s w).
Proof.
  intros Hkeel Hfar. rewrite !panelFaces_positions.
  change (default false (hasKeel (metadata table'))) with keel.
  change (default false (hasChine (metadata table'))) with chine.
  apply panelCornersOf_ext.
  - intros s' w' tag Hs' Hw'. apply positionAt_removeSample_eq.
    intros st h Hst Hh [Hp Hq]. apply Hfar. by exists s', w', st, h.
  - intros Hk s' _. destruct Hkeel as [Hno|Hlow]; [congruence|].
    by apply keelPositionAt_removeSample_eq.
Qed.

End RemovalTable.

Section RemovalStrict.

Variables (stateUnits : Units) (table : QuoteTable) (p0 h0 : Q).

Local Abbreviation table' := (removeSample p0 h0 table).
Local Abbreviation r := (generateVertices stateUnits table).
Local Abbreviation keel := (default false (hasKeel (metadata table))).
Local Abbreviation chine := (default false (hasChine (metadata table))).
Local Abbreviation ss := (getSortedStations table).
Local Abbreviation ws := (getSortedWaterlines table).

Hypothesis sameWaterlines : getSortedWaterlines (removeSample p0 h0 table) = ws.

(** A panel without one of its corners has no triangle. *)
Lemma panelCornersOf_missing {A : Type} (look : VertexKey -> option A)
    (keel : nat -> option A) s w hasKeel hasChine s' w' :
  s' = s \/ s' = S s -> w' = w \/ w' = S w ->
  look (s', w', Star) = None ->
  panelCornersOf look keel s w hasKeel hasChine = [].
Proof.
  intros Hs Hw Hnone. unfold panelCornersOf. cbv zeta.
  destruct (allPresent [look (s, w, Star); _; _; _; _; _; _; _]) eqn:H1; [|done].
  exfalso. apply allPresent_Forall in H1. rewrite List.Forall_forall in H1.
  assert (Hsome : is_Some (look (s', w', Star))).
  { apply H1. destruct Hs as [->| ->], Hw as [->| ->]; cbn [In]; tauto. }
  rewrite Hnone in Hsome. by destruct Hsome.
Qed.

(** A panel that touches the removed sample has no triangle left. *)
Lemma panelFaces_removeSample_touched (s w : nat) :
  touchesSample table p0 h0 s w -> length (panelFaces stateUnits table' s w) = 0%nat.
Proof.
  intros (s' & w' & st & h & Hs & Hw & Hst & Hh & Hp & Hq).
  rewrite panelFaces_length.
  rewrite (panelCornersOf_missing _ _ s w _ _ s' w' Hs Hw); [done|].
  by apply (positionAt_removeSample_removed stateUnits table p0 h0 sameWaterlines
              s' w' Star st h).
Qed.

Lemma positionAt_of_index (k : VertexKey) :
  is_Some (vertexMap r !! k) -> is_Some (positionAt r k).
Proof.
  intros [i Hi]. unfold positionAt. rewrite Hi.
  destruct (generateVertices_indicesInRange stateUnits table) as [Hvm _].
  by eapply Hvm.
Qed.

(** On the lowest waterline of a hull with a chine, a sample that has
    its side vertices has its chine vertices. *)
Lemma positionAt_chine (s w : nat) (tag : VertexTag) :
  chine && (w =? 0)%nat = true ->
  is_Some (positionAt r (s, w, Star)) -> is_Some (positionAt r (s, w, tag)).
Proof.
  intros Hc. rewrite !generateVertices_positionAt.
  destruct (sampleAt ss ws s w) as [e|] eqn:He; [|done].
  apply (sampleAt_Some table) in He as (_ & _ & _ & Hw).
  intros _. unfold tagVertex. rewrite Hw, Hc. by destruct tag.
Qed.

(** A panel with its eight corners has a triangle. *)
Lemma panelFaces_complete_pos (s w : nat) :
  panelComplete stateUnits table s w = true ->
  (0 < length (panelFaces stateUnits table s w))%nat.
Proof.
  intros Hc. rewrite panelFaces_length.
  unfold panelComplete, areAllPanelVerticesValid, getPanelVertices in Hc.
  cbn [topLeft topRight bottomRight bottomLeft
       topLeftPort topRightPort bottomRightPort bottomLeftPort] in Hc.
  change areVerticesValid with (@allPresent nat) in Hc.
  apply allPresent_Forall in Hc. rewrite List.Forall_forall in Hc.
  assert (Hpos : forall s' w' tag,
             s' = s \/ s' = S s -> w' = w \/ w' = S w -> tag = Star \/ tag = Port ->
             is_Some (positionAt r (s', w', tag))).
  { intros s' w' tag Hs Hw Ht. apply positionAt_of_index, Hc.
    destruct Hs as [->| ->], Hw as [->| ->], Ht as [->| ->]; cbn [In]; tauto. }
  unfold panelCornersOf. cbv zeta.
  replace (allPresent [positionAt r (s, w, Star); _; _; _; _; _; _; _]) with true.
  2:{ symmetry. apply allPresent_Forall. repeat constructor; apply Hpos; auto. }
  cbn [negb]. rewrite length_app.
  destruct (chine && (w =? 0)%nat) eqn:Hch; [|simpl; lia].
  replace (allPresent [positionAt r (s, w, ChineStar); _; _; _; _; _; _; _]) with true.
  2:{ symmetry. apply allPresent_Forall.
      repeat constructor;
        first [apply Hpos; by auto | apply positionAt_chine; [done|apply Hpos; auto]]. }
  simpl. lia.
Qed.

(** The index buffer shrinks when a panel that had its eight corners
    touches the removed sample. *)
Lemma facesOf_removeSample_lt (s w : nat) :
  (s < length ss - 1)%nat -> (w < length ws - 1)%nat ->
  touchesSample table p0 h0 s w ->
  panelComplete stateUnits table s w = true ->
  (length (facesOf stateUnits table') < length (facesOf stateUnits table))%nat.
Proof.
  intros Hs Hw Htouch Hcomplete.
  unfold facesOf. cbv zeta. rewrite !generateFaces_concat.
  rewrite getSortedStations_removeSample, sameWaterlines, length_map.
  apply (length_concat_map_lt _ _ _ s).
  - intros s1 _. apply length_concat_map_le. intros w1 _.
    by apply panelFaces_removeSample_le.
  - apply in_seq. lia.
  - apply (length_concat_map_lt _ _ _ w).
    + intros w1 _. by apply panelFaces_removeSample_le.
    + apply in_seq. lia.
    + pose proof (panelFaces_removeSample_touched s w Htouch) as H0.
      pose proof (panelFaces_complete_pos s w Hcomplete) as H1.
      unfold panelFaces in H0, H1. cbv zeta in H0, H1.
      change (default false (hasKeel (metadata table'))) with keel in *.
      change (default false (hasChine (metadata table'))) with chine in *.
      lia.
Qed.

End RemovalStrict.

(** * Mirror symmetry of the faces *)

Section Triangles.

Lemma triangles_app {A : Type} (l1 l2 : list A) (k : nat) :
  length l1 = (3 * k)%nat -> triangles (l1 ++ l2) = triangles l1 ++ triangles l2.
Proof.
  revert l1. induction k as [|k IH]; intros l1 Hlen.
  - destruct l1; [done | simpl in Hlen; lia].
  - destruct l1 as [|a [|b [|c l1]]]; simpl in Hlen; try lia.
    cbn [app triangles]. rewrite IH by lia. done.
Qed.

Lemma triangles_concat {A B : Type} (f : B -> list A) (l : list B) :
  (forall x, In x l -> exists k, length (f x) = (3 * k)%nat) ->
  triangles (concat (map f l)) = concat (map (fun x => triangles (f x)) l).
Proof.
  induction l as [|x l IH]; intros H; cbn [map concat]; [done|].
  destruct (H x) as [k Hk]; [by left|].
  rewrite (triangles_app _ _ k Hk), IH; [done|].
  intros y Hy. apply H. by right.
Qed.

Lemma length_concat_multiple {A B : Type} (f : B -> list A) (l : list B) :
  (forall x, In x l -> exists k, length (f x) = (3 * k)%nat) ->
  exists k, length (concat (map f l)) = (3 * k)%nat.
Proof.
  induction l as [|x l IH]; intros H; cbn [map concat].
  - by exists 0%nat.
  - destruct (H x) as [k Hk]; [by left|].
    destruct IH as [k' Hk']; [intros y Hy; apply H; by right|].
    exists (k + k')%nat. rewrite length_app. lia.
Qed.

(** A panel contributes whole triangles. *)
Lemma panelCornersOf_length {A : Type} (look : VertexKey -> option A)
    (keel : nat -> option A) s w hasKeel hasChine :
  exists k, length (panelCornersOf look keel s w hasKeel hasChine) = (3 * k)%nat.
Proof.
  unfold panelCornersOf. cbv zeta.
  repeat match goal with
         | |- context [if ?b then _ else _] => destruct b
         end; cbn [app length];
    first [by exists 0%nat | by exists 4%nat | by exists 8%nat | by exists 12%nat].
Qed.

Lemma fmap_mirror_mirror (x : option Vector3) : mirror <$> (mirror <$> x) = x.
Proof. destruct x as [v|]; [|done]. simpl. by rewrite mirror_mirror. Qed.

(** Over a lookup whose port entries mirror the starboard ones, the
    triangles of a panel are closed under the mirror image. *)
Lemma panelCornersOf_mirror (look : VertexKey -> option Vector3)
    (keel : nat -> option Vector3) s w hasKeel hasChine :
  (forall s w, look (s, w, Port) = mirror <$> look (s, w, Star)) ->
  (forall s w, look (s, w, ChinePort) = mirror <$> look (s, w, ChineStar)) ->
  (forall k, mirror <$> keel k = keel k) ->
  forall tri,
    In tri (triangles (panelCornersOf look keel s w hasKeel hasChine)) ->
    In (mirrorTriangle tri) (triangles (panelCornersOf look keel s w hasKeel hasChine)).
Proof.
  intros Hp Hc Hk tri. unfold panelCornersOf. cbv zeta. rewrite !Hp, !Hc.
  repeat match goal with
         | |- context [if ?b then _ else _] => destruct b
         end; cbn [app triangles In]; intros H;
    repeat destruct H as [<-|H]; try done;
    unfold mirrorTriangle; cbn [fst snd];
    rewrite ?fmap_mirror_mirror, ?Hk;
    repeat first [left; reflexivity | right].
Qed.

End Triangles.

Section SymmetricTable.

Variables (stateUnits : Units) (table : QuoteTable).

Local Abbreviation r := (generateVertices stateUnits table).
Local Abbreviation scale := (getUnitScale stateUnits).
Local Abbreviation keel := (default false (hasKeel (metadata table))).
Local Abbreviation chine := (default false (hasChine (metadata table))).
Local Abbreviation ss := (getSortedStations table).
Local Abbreviation ws := (getSortedWaterlines table).

Hypothesis symmetricTable : allSymmetric table.

Lemma sampleAt_symmetric (s w : nat) (e : Entry) :
  sampleAt ss ws s w = Some e -> halfBreadthStarboard (entryData e) = None.
Proof.
  unfold sampleAt. intros H.
  destruct (ss !! s) as [st|] eqn:Hs; [|done].
  destruct (ws !! w) as [h|] eqn:Hw; [|done].
  destruct (findWaterline st h) as [wl|] eqn:Hf; [|done].
  injection H as <-.
  pose proof (gridEntries_complete 0 _ _ s w st h wl Hs Hw Hf) as Hin.
  apply gridEntries_of_table in Hin as [Hst Hwl].
  by apply (symmetricTable st).
Qed.

Lemma positionAt_port (s w : nat) :
  positionAt r (s, w, Port) = mirror <$> positionAt r (s, w, Star).
Proof.
  rewrite !generateVertices_positionAt.
  destruct (sampleAt ss ws s w) as [e|] eqn:He; [|done].
  apply sampleAt_symmetric in He.
  destruct (port_mirrors_starboard scale e He) as (Hp & _).
  unfold tagVertex. by rewrite Hp.
Qed.

Lemma positionAt_chinePort (s w : nat) :
  positionAt r (s, w, ChinePort) = mirror <$> positionAt r (s, w, ChineStar).
Proof.
  rewrite !generateVertices_positionAt.
  destruct (sampleAt ss ws s w) as [e|] eqn:He; [|done].
  apply sampleAt_symmetric in He.
  destruct (port_mirrors_starboard scale e He) as (_ & Hc & _).
  unfold tagVertex. destruct (chine && (entryW e =? 0)%nat); [|done].
  by rewrite Hc.
Qed.

Lemma keelPositionAt_mirror (k : nat) :
  mirror <$> keelPositionAt r k = keelPositionAt r k.
Proof.
  rewrite generateVertices_keelPositionAt.
  destruct keel; [|done].
  destruct (bottomEntries _ !! k) as [e|]; [|done].
  reflexivity.
Qed.

(** The positions of the whole index buffer, panel by panel. *)
Lemma facesOf_positions :
  facePositions stateUnits table (facesOf stateUnits table)
  = concat (map (fun s =>
      concat (map (fun w => facePositions stateUnits table (panelFaces stateUnits table s w))
                (seq 0 (length ws - 1))))
      (seq 0 (length ss - 1))).
Proof.
  unfold facesOf, facePositions at 1. cbv zeta.
  rewrite generateFaces_concat, concat_map, map_map.
  f_equal. apply map_ext. intros s.
  by rewrite concat_map, map_map.
Qed.

Lemma panelFaces_positions_length (s w : nat) :
  exists k, length (facePositions stateUnits table (panelFaces stateUnits table s w))
            = (3 * k)%nat.
Proof. rewrite panelFaces_positions. apply panelCornersOf_length. Qed.

(** The triangles of the hull body, panel by panel. *)
Lemma meshTriangles_panels tri :
  In tri (meshTriangles stateUnits table)
  <-> exists s w,
        In s (seq 0 (length ss - 1)) /\ In w (seq 0 (length ws - 1))
        /\ In tri (triangles (facePositions stateUnits table
                                (panelFaces stateUnits table s w))).
Proof.
  unfold meshTriangles. rewrite facesOf_positions.
  rewrite triangles_concat.
  2:{ intros s _. apply length_concat_multiple. intros w _.
      apply panelFaces_positions_length. }
  rewrite in_concat. split.
  - intros (l & Hl & Htri). apply in_map_iff in Hl as (s & <- & Hs).
    rewrite triangles_concat in Htri.
    2:{ intros w _. apply panelFaces_positions_length. }
    apply in_concat in Htri as (l & Hl & Htri).
    apply in_map_iff in Hl as (w & <- & Hw).
    by exists s, w.
  - intros (s & w & Hs & Hw & Htri).
    exists (triangles (concat (map (fun w =>
              facePositions stateUnits table (panelFaces stateUnits table s w))
              (seq 0 (length ws - 1))))).
    split.
    + apply in_map_iff. by exists s.
    + rewrite triangles_concat.
      2:{ intros w' _. apply panelFaces_positions_length. }
      apply in_concat.
      exists (triangles (facePositions stateUnits table (panelFaces stateUnits table s w))).
      split; [|done]. apply in_map_iff. by exists w.
Qed.

(** The hull body of a table whose samples all omit the starboard
    half-breadth is closed under the mirror image, triangle by
    triangle. *)
Lemma meshTriangles_mirror tri :
  In tri (meshTriangles stateUnits table) ->
  In (mirrorTriangle tri) (meshTriangles stateUnits table).
Proof.
  rewrite !meshTriangles_panels.
  intros (s & w & Hs & Hw & Htri). exists s, w. split; [done|]. split; [done|].
  rewrite panelFaces_positions in *.
  apply panelCornersOf_mirror; try done.
  - apply positionAt_port.
  - apply positionAt_chinePort.
  - apply keelPositionAt_mirror.
Qed.

End SymmetricTable.

(** * The claims of the specification *)

(** C1, as stated, fails: on the two-face surface, painting the first
    face and committing, then painting the second face and committing
    again, leaves an applied weight of 10 and one marker, not 20 and 2. *)
Lemma two_commits_do_not_accumulate :
  let tool := WeightManager.paintSelectionTool twoFaceManager in
  let first := paintAndApply twoFaceManager firstFacePoint twoFaceMesh in
  let final := paintAndApply first secondFacePoint twoFaceMesh in
  WeightManager.weightPerFace twoFaceManager = 10
  /\ WeightManager.getAppliedWeight twoFaceManager == 0
  /\ WeightManager.getAppliedWeightCount twoFaceManager = 0%nat
  /\ PaintSelectionTool.selectedFaces
       (PaintSelectionTool.selectFacesAroundPoint tool firstFacePoint twoFaceMesh)
     = [7000000%Z]
  /\ PaintSelectionTool.selectedFaces
       (PaintSelectionTool.selectFacesAroundPoint
          (WeightManager.paintSelectionTool first) secondFacePoint twoFaceMesh)
     = [7000001%Z]
  /\ WeightManager.getAppliedWeight final == 10
  /\ WeightManager.getAppliedWeightCount final = 1%nat
  /\ ~ (WeightManager.getAppliedWeight final == 20
        /\ WeightManager.getAppliedWeightCount final = 2%nat).
Proof.
  vm_compute. repeat split; try reflexivity; intros [? ?]; discriminate.
Qed.

(** C1, amended: from an empty selection, painting one face and
    committing, then painting a second face and committing again, leaves
    [getAppliedWeight() = 10] and [getAppliedWeightCount() = 1] when the
    weight per face is 10: the second commit replaces the painted set and
    the markers of the first. *)
Theorem second_commit_replaces_first
    (wm : WeightManager.WeightManager) (p1 p2 : Vector3) (mesh1 mesh2 : Mesh) (f1 f2 : Z) :
  WeightManager.hull wm <> None ->
  WeightManager.weightPerFace wm = 10 ->
  PaintSelectionTool.selectedFaces (WeightManager.paintSelectionTool wm) = [] ->
  PaintSelectionTool.faceData (WeightManager.paintSelectionTool wm) = [] ->
  let first := paintAndApply wm p1 mesh1 in
  let final := paintAndApply first p2 mesh2 in
  PaintSelectionTool.selectedFaces
    (PaintSelectionTool.selectFacesAroundPoint
       (WeightManager.paintSelectionTool wm) p1 mesh1) = [f1] ->
  PaintSelectionTool.selectedFaces
    (PaintSelectionTool.selectFacesAroundPoint
       (WeightManager.paintSelectionTool first) p2 mesh2) = [f2] ->
  WeightManager.getAppliedWeight final == 10
  /\ WeightManager.getAppliedWeightCount final = 1%nat.
Proof.
  intros Hh Hw Hsel Hfd first final H1 H2.
  assert (Hinv : cacheConsistent (WeightManager.paintSelectionTool wm)).
  { unfold cacheConsistent. by rewrite Hsel, Hfd. }
  assert (Hne1 : PaintSelectionTool.selectedFaces
            (PaintSelectionTool.selectFacesAroundPoint
               (WeightManager.paintSelectionTool wm) p1 mesh1) <> []) by (by rewrite H1).
  destruct (paintAndApply_state wm p1 mesh1 Hh Hinv Hne1) as (Hh1 & Hw1 & Ht1).
  fold first in Hh1, Hw1, Ht1.
  assert (Hinv1 : cacheConsistent (WeightManager.paintSelectionTool first)).
  { by rewrite Ht1. }
  assert (Hne2 : PaintSelectionTool.selectedFaces
            (PaintSelectionTool.selectFacesAroundPoint
               (WeightManager.paintSelectionTool first) p2 mesh2) <> []) by (by rewrite H2).
  destruct (paintAndApply_commits first p2 mesh2 Hh1 Hinv1 Hne2) as [Hc Hok].
  destruct (committed_applied _ Hc Hok) as [Hsum Hcount].
  unfold final, paintAndApply. rewrite Hsum, Hcount.
  unfold WeightManager.getSelectedFaceCount, PaintSelectionTool.getSelectedFaceCount.
  simpl. rewrite H2, Hw1, Hw. simpl. split; [reflexivity | done].
Qed.

Lemma second_commit_replaces_first_witness :
  let first := paintAndApply twoFaceManager firstFacePoint twoFaceMesh in
  let final := paintAndApply first secondFacePoint twoFaceMesh in
  (WeightManager.hull twoFaceManager <> None
   /\ WeightManager.weightPerFace twoFaceManager = 10
   /\ PaintSelectionTool.selectedFaces (WeightManager.paintSelectionTool twoFaceManager) = []
   /\ PaintSelectionTool.faceData (WeightManager.paintSelectionTool twoFaceManager) = []
   /\ PaintSelectionTool.selectedFaces
        (PaintSelectionTool.selectFacesAroundPoint
           (WeightManager.paintSelectionTool twoFaceManager) firstFacePoint twoFaceMesh)
      = [7000000%Z]
   /\ PaintSelectionTool.selectedFaces
        (PaintSelectionTool.selectFacesAroundPoint
           (WeightManager.paintSelectionTool first) secondFacePoint twoFaceMesh)
      = [7000001%Z])
  /\ (WeightManager.getAppliedWeight final == 10
      /\ WeightManager.getAppliedWeightCount final = 1%nat).
Proof.
  split.
  - repeat split; first [ discriminate | reflexivity ].
  - apply (second_commit_replaces_first twoFaceManager firstFacePoint secondFacePoint
             twoFaceMesh twoFaceMesh 7000000%Z 7000001%Z);
      first [ discriminate | reflexivity ].
Defined.



(** C9: from an empty selection, a brush path painted in add mode and
    then painted again in remove mode (same points, same surfaces, same
    brush radius) leaves the selection empty. *)
Theorem add_then_remove_empties_selection
    (t : PaintSelectionTool.PaintSelectionTool) (path : list (Vector3 * Mesh)) :
  PaintSelectionTool.selectedFaces t = [] ->
  let painted := paintPath (PaintSelectionTool.setRemoveMode t false) path in
  let erased := paintPath (PaintSelectionTool.setRemoveMode painted true) path in
  PaintSelectionTool.selectedFaces erased = []
  /\ (PaintSelectionTool.faceData t = [] -> PaintSelectionTool.faceData erased = []).
Proof.
  intros Hempty painted erased.
  assert (Hsel : PaintSelectionTool.selectedFaces erased = []).
  { destruct (PaintSelectionTool.selectedFaces erased) as [|y l] eqn:Hy; [done|].
    exfalso.
    assert (Hin : In y (PaintSelectionTool.selectedFaces erased)) by (rewrite Hy; by left).
    apply paintPath_remove_In in Hin as [Hin Hnot]; [|done].
    simpl in Hin. apply paintPath_add_In in Hin; [|done].
    destruct Hin as [Hin | (p & mesh & Hpath & Hhit)].
    { simpl in Hin. by rewrite Hempty in Hin. }
    apply (Hnot p mesh Hpath).
    destruct (paintPath_frame path (PaintSelectionTool.setRemoveMode t false))
      as (F1 & F2 & _).
    by rewrite (brushHits_frame (PaintSelectionTool.setRemoveMode t false)). }
  split; [done|]. intros Hfd.
  assert (Hinv : cacheConsistent erased).
  { unfold erased, painted, paintPath.
    assert (Hfold : forall path t0, cacheConsistent t0 ->
              cacheConsistent (fold_left (fun t1 '(worldPoint, hitMesh) =>
                 PaintSelectionTool.selectFacesAroundPoint t1 worldPoint hitMesh) path t0)).
    { intros pth. induction pth as [|[p mesh] pth IH]; simpl; intros t0 H0; [done|].
      apply IH. by apply selectFacesAroundPoint_consistent. }
    apply Hfold. unfold cacheConsistent. simpl.
    apply (Hfold path (PaintSelectionTool.setRemoveMode t false)).
    unfold cacheConsistent. simpl. by rewrite Hempty, Hfd. }
  unfold cacheConsistent in Hinv. rewrite Hsel in Hinv.
  by destruct (PaintSelectionTool.faceData erased).
Qed.

Lemma add_then_remove_empties_selection_witness :
  let t := PaintSelectionTool.setHull PaintSelectionTool.new twoFaceHull in
  let painted := paintPath (PaintSelectionTool.setRemoveMode t false) twoFacePath in
  let erased := paintPath (PaintSelectionTool.setRemoveMode painted true) twoFacePath in
  PaintSelectionTool.selectedFaces t = []
  /\ PaintSelectionTool.selectedFaces painted = [7000000%Z; 7000001%Z]
  /\ PaintSelectionTool.selectedFaces erased = [].
Proof.
  split; [reflexivity|]. split; [reflexivity|].
  apply (add_then_remove_empties_selection
           (PaintSelectionTool.setHull PaintSelectionTool.new twoFaceHull) twoFacePath).
  reflexivity.
Defined.

(** C10: after every sequence of operations of the selection engine
    (selection in add mode or in remove mode, clearing, and the setters),
    the keys of the face-data cache are the selected faces: same
    identities, in the same order, so a face is cached exactly when it is
    selected. *)
Theorem faceData_keys_are_selectedFaces (ops : list SelectionOp) :
  let t := fold_left runSelectionOp ops PaintSelectionTool.new in
  map fst (PaintSelectionTool.faceData t) = PaintSelectionTool.selectedFaces t
  /\ forall id : Z,
       mapHas id (PaintSelectionTool.faceData t)
       = setHas id (PaintSelectionTool.selectedFaces t).
Proof.
  intros t.
  assert (Hinv : cacheConsistent t) by (by apply runSelectionOps_consistent).
  split; [exact Hinv|].
  intros id. rewrite mapHas_keys. by rewrite Hinv.
Qed.



Lemma threeByThree_distinct : distinctKeys position (stations threeByThree).
Proof.
  intros i j a b Hij Ha Hb.
  destruct i as [|[|[|i]]]; destruct j as [|[|[|j]]]; try done;
    simpl in Ha, Hb; injection Ha as <-; injection Hb as <-; by vm_compute.
Qed.


(** C7, as stated, fails for an infinite coordinate: the half-breadths of
    [hugeTable] overflow the vertex buffer to infinities, and the build
    returns them in a geometry of four faces, not the placeholder. *)
Lemma infinite_coordinate_is_kept :
  let g := generateStructuredHullGeometry m hugeTable lodOne in
  In F32PosInfinity (hullVertices g)
  /\ existsb (fun x => negb (isFinite32 x)) (hullVertices g) = true
  /\ length (hullIndices g) = 12%nat
  /\ g <> createEmptyHullGeometry.
Proof.
  split; [vm_compute; tauto|].
  split; [by vm_compute|].
  split; [by vm_compute|].
  intros H. apply (f_equal (fun g => length (hullIndices g))) in H.
  vm_compute in H. discriminate.
Qed.

(** C7, amended: if any coordinate of the final vertex buffer is NaN, the
    assembly returns the empty hull geometry placeholder; likewise a build
    that produces no face, or no vertex, returns the placeholder.  An
    infinite coordinate is not looked for. *)
Theorem nan_or_no_face_gives_placeholder :
  (forall stateUnits table refinedStations refinedWaterlines vertices indices vertexArray,
      In F32NaN vertexArray ->
      assembleHullGeometry stateUnits table refinedStations refinedWaterlines
        vertices indices vertexArray = createEmptyHullGeometry)
  /\ (forall stateUnits table lodConfig,
        let refinedData := refinedTable table lodConfig in
        let r := generateVertices stateUnits refinedData in
        vertices r = [] \/ generateFaces refinedData (vertexMap r) (keelVertices r) = [] ->
        generateStructuredHullGeometry stateUnits table lodConfig = createEmptyHullGeometry).
Proof.
  split.
  - intros. by apply assembleHullGeometry_NaN.
  - intros stateUnits table lodConfig. apply generateStructuredHullGeometry_no_face.
Qed.

Lemma nan_or_no_face_gives_placeholder_witness :
  (In F32NaN [F32 0; F32NaN; F32 1]
   /\ assembleHullGeometry m threeByThree (getSortedStations threeByThree)
        (getSortedWaterlines threeByThree) [mkVector3 0 0 1] [0; 0; 0]%nat
        [F32 0; F32NaN; F32 1] = createEmptyHullGeometry)
  /\ (vertices (generateVertices m (refinedTable oneStationTable lodOne)) <> []
      /\ generateFaces (refinedTable oneStationTable lodOne)
           (vertexMap (generateVertices m (refinedTable oneStationTable lodOne)))
           (keelVertices (generateVertices m (refinedTable oneStationTable lodOne))) = []
      /\ generateStructuredHullGeometry m oneStationTable lodOne = createEmptyHullGeometry).
Proof.
  destruct nan_or_no_face_gives_placeholder as [Hnan Hface].
  split.
  - assert (Hin : In F32NaN [F32 0; F32NaN; F32 1]) by (right; left; reflexivity).
    split; [exact Hin|]. apply Hnan. exact Hin.
  - split; [by vm_compute|]. split; [by vm_compute|].
    apply Hface. right. by vm_compute.
Defined.

(** C8, on the code: for the table in millimetres whose two highest
    waterlines are 20 mm apart, the face at offset 15 has its centroid
    within 0.01 of the highest waterline in scaled units, and the deck
    group is empty; the same hull given in metres has that face, and five
    more, in the deck group.  The centroid is scaled, the waterline height
    it is compared with is not. *)
Theorem deck_group_ignores_unit_scale :
  let table := deckTable mm in
  let r := generateVertices mm table in
  let indices := generateFaces table (vertexMap r) (keelVertices r) in
  let g := generateStructuredHullGeometry mm table lodOne in
  let gm := generateStructuredHullGeometry m deckTableMetres lodOne in
  last (getSortedWaterlines table) = Some 1000
  /\ (exists v1 v2 v3,
        faceVertices (vertices r) indices 15 = Some (v1, v2, v3)
        /\ Qabs (vy (faceCentroid v1 v2 v3) - 1000 * getUnitScale mm) < 1 # 100
        /\ ~ Qabs (vy (faceCentroid v1 v2 v3) - 1000) < 1 # 100)
  /\ deck (groups g) = []
  /\ hullIndices gm = hullIndices g
  /\ deck (groups gm) = [15; 16; 17; 18; 19; 20]%nat.
Proof.
  split; [by vm_compute|]. split.
  - eexists _, _, _. split; [vm_compute; reflexivity|].
    split; [by vm_compute|]. intros H. vm_compute in H. discriminate.
  - split; [by vm_compute|]. split; by vm_compute.
Qed.

(** C3: a table of three stations and three waterline heights, every
    station with a sample at each height, with a keel and no chine, gives
    24 triangles: the four body triangles of each of the four panels, 16,
    and the four keel triangles of each of the two bottom panels, 8; no
    chine vertex exists, so no chine triangle.  This holds for every unit
    system and whether the samples are symmetric or not. *)
Theorem three_by_three_faces (table : QuoteTable) (stateUnits : Units) :
  length (stations table) = 3%nat ->
  length (getSortedWaterlines table) = 3%nat ->
  (forall st h, In st (stations table) -> In h (getSortedWaterlines table) ->
                findWaterline st h <> None) ->
  hasKeel (metadata table) = Some true ->
  default false (hasChine (metadata table)) = false ->
  let r := generateVertices stateUnits table in
  let faces := generateFaces table (vertexMap r) (keelVertices r) in
  length faces = (3 * 24)%nat
  /\ faces = bodyFaces r 0 0 ++ keelFaces r 0 ++ bodyFaces r 0 1
             ++ bodyFaces r 1 0 ++ keelFaces r 1 ++ bodyFaces r 1 1
  /\ (forall s w, (s < 2)%nat -> (w < 2)%nat -> length (bodyFaces r s w) = (3 * 4)%nat)
  /\ (forall s, (s < 2)%nat -> length (keelFaces r s) = (3 * 4)%nat)
  /\ (forall s w, vertexMap r !! (s, w, ChineStar) = None
                  /\ vertexMap r !! (s, w, ChinePort) = None).
Proof.
  intros Hs Hw Hfind Hkeel Hchine r faces.
  assert (Hss : length (getSortedStations table) = 3%nat).
  { unfold getSortedStations. by rewrite sortBy_length. }
  assert (Hin : forall st, In st (getSortedStations table) -> In st (stations table)).
  { intros st. apply sortBy_In. }
  destruct (getSortedStations table) as [|a [|b [|c [|]]]] eqn:Esorted;
    try (simpl in Hss; discriminate).
  destruct (getSortedWaterlines table) as [|h0 [|h1 [|h2 [|]]]] eqn:Eheights;
    try (simpl in Hw; discriminate).
  assert (Hsome : forall st h, In st [a; b; c] -> In h [h0; h1; h2] ->
            exists wl, findWaterline st h = Some wl).
  { intros st h Hst Hh. specialize (Hfind st h (Hin st Hst) Hh).
    destruct (findWaterline st h) as [wl|]; [by exists wl | done]. }
  destruct (Hsome a h0) as [a0 Ea0]; [simpl; tauto | simpl; tauto |].
  destruct (Hsome a h1) as [a1 Ea1]; [simpl; tauto | simpl; tauto |].
  destruct (Hsome a h2) as [a2 Ea2]; [simpl; tauto | simpl; tauto |].
  destruct (Hsome b h0) as [b0 Eb0]; [simpl; tauto | simpl; tauto |].
  destruct (Hsome b h1) as [b1 Eb1]; [simpl; tauto | simpl; tauto |].
  destruct (Hsome b h2) as [b2 Eb2]; [simpl; tauto | simpl; tauto |].
  destruct (Hsome c h0) as [c0 Ec0]; [simpl; tauto | simpl; tauto |].
  destruct (Hsome c h1) as [c1 Ec1]; [simpl; tauto | simpl; tauto |].
  destruct (Hsome c h2) as [c2 Ec2]; [simpl; tauto | simpl; tauto |].
  clear Hsome Hfind Hin.
  assert (Hchine_none : forall s w,
            vertexMap r !! (s, w, ChineStar) = None /\ vertexMap r !! (s, w, ChinePort) = None).
  { intros s w. subst r. rewrite generateVertices_entries.
    destruct (fold_emit_no_chine (getUnitScale stateUnits) (default false (Some true))
                (default false (hasChine (metadata table)))
                (gridEntries 0 (getSortedStations table) (getSortedWaterlines table))
                {| vertices := []; vertexMap := ∅; keelVertices := [] |} s w Hchine)
      as [H1 H2].
    rewrite Hkeel. by rewrite H1, H2. }
  split; [|split; [|split; [|split; [|exact Hchine_none]]]]; clear Hchine_none;
    subst faces r;
    unfold generateFaces, bodyFaces, keelFaces;
    rewrite generateVertices_entries, Hkeel, Hchine, Esorted, Eheights;
    cbn [gridEntries rowEntries];
    rewrite Ea0, Ea1, Ea2, Eb0, Eb1, Eb2, Ec0, Ec1, Ec2; clear.
  - vm_compute. reflexivity.
  - vm_compute. reflexivity.
  - intros s w Hs2 Hw2.
    destruct s as [|[|s]]; [| |lia]; (destruct w as [|[|w]]; [| |lia]);
      vm_compute; reflexivity.
  - intros s Hs2. destruct s as [|[|s]]; [| |lia]; vm_compute; reflexivity.
Qed.

Lemma three_by_three_faces_witness :
  (length (stations threeByThree) = 3%nat
   /\ getSortedWaterlines threeByThree = [0; 1; 2]
   /\ hasKeel (metadata threeByThree) = Some true
   /\ hasChine (metadata threeByThree) = Some false)
  /\ length (generateFaces threeByThree
               (vertexMap (generateVertices m threeByThree))
               (keelVertices (generateVertices m threeByThree))) = (3 * 24)%nat.
Proof.
  split. (repeat split; vm_compute; reflexivity).
  pose proof (three_by_three_faces threeByThree m) as H.
  destruct H as [H _].
  - reflexivity.
  - (vm_compute; reflexivity).
  - intros st h Hst Hh.
    (destruct Hst as [<-|[<-|[<-|[]]]]; destruct Hh as [<-|[<-|[<-|[]]]]; by vm_compute).
  - reflexivity.
  - reflexivity.
  - exact H.
Defined.


Lemma threeByThree_symmetric : allSymmetric threeByThree.
Proof.
  intros st wl Hst Hwl.
  destruct Hst as [<-|[<-|[<-|[]]]]; destruct Hwl as [<-|[<-|[<-|[]]]]; reflexivity.
Qed.


(** ** Panels with missing corners, and the removal of a sample *)

(** C4, as stated, fails: on the table [sparseTable] the middle station
    is the only one with a sample at the height 1, so that no panel of
    the grid of heights 0, 1, 2 has its eight corners and the index
    buffer is empty; without that sample the grid has the heights 0 and
    2 only, both panels have their corners, and the index buffer holds
    24 indices.  The removal does not reduce the face count. *)
Lemma removal_can_add_faces :
  findWaterline (mkStation 1 (threeSamples 1 2 3)) 1 = Some (mkWaterlineData 1 2 None)
  /\ getSortedStations sparseTable !! 1%nat = Some (mkStation 1 (threeSamples 1 2 3))
  /\ facesOf m sparseTable = []
  /\ length (facesOf m (removeSample 1 1 sparseTable)) = 24%nat
  /\ ~ (length (facesOf m (removeSample 1 1 sparseTable))
        < length (facesOf m sparseTable))%nat.
Proof.
  assert (H0 : facesOf m sparseTable = []) by (vm_compute; reflexivity).
  assert (H1 : length (facesOf m (removeSample 1 1 sparseTable)) = 24%nat)
    by (vm_compute; reflexivity).
  split; [vm_compute; reflexivity|]. split; [vm_compute; reflexivity|].
  split; [exact H0|]. split; [exact H1|].
  rewrite H0, H1. simpl. lia.
Qed.

(** With a keel, the removal of a sample of the lowest waterline moves
    the keel entries of the later stations one place down: the panel of
    the last two stations of [fourByThree] does not touch the sample
    removed at the second station, and has its keel triangles before
    the removal and not after it. *)
Example keel_entries_follow_list_order :
  ~ touchesSample fourByThree 1 0 2 0
  /\ length (panelFaces m fourByThree 2 0) = 24%nat
  /\ length (panelFaces m (removeSample 1 0 fourByThree) 2 0) = 12%nat.
Proof.
  split; [|split; vm_compute; reflexivity].
  intros (s' & w' & st & h & Hs & Hw & Hst & Hh & Hp & Hq).
  destruct Hs as [-> | ->]; vm_compute in Hst; injection Hst as <-;
    vm_compute in Hp; discriminate.
Qed.

(** C4 (amended): a panel that misses one of its eight corner indices in
    the vertex lookup is skipped: the index buffer comes back as it was,
    with no error, for every lookup.  Removing the sample of height [h0]
    from the station at position [p0], when the table keeps its list of
    waterline heights: generation still returns (every function here is
    total); the index buffer does not grow; it shrinks when a panel that
    had its eight corners touches the removed sample; and, when the hull
    has no keel or the sample is not on the lowest waterline, every panel
    that does not touch the removed sample keeps its triangles, on the
    same vertex positions in the same order. *)
Theorem panel_skip_and_sample_removal (stateUnits : Units) (table : QuoteTable) (p0 h0 : Q) :
  (forall indices vertexMap keelVertices s w hasKeel hasChine,
      areAllPanelVerticesValid (getPanelVertices vertexMap s w) = false ->
      generatePanelFaces indices vertexMap keelVertices s w hasKeel hasChine = indices)
  /\ (getSortedWaterlines (removeSample p0 h0 table) = getSortedWaterlines table ->
      (length (facesOf stateUnits (removeSample p0 h0 table))
       <= length (facesOf stateUnits table))%nat
      /\ (forall s w,
             (s < length (getSortedStations table) - 1)%nat ->
             (w < length (getSortedWaterlines table) - 1)%nat ->
             touchesSample table p0 h0 s w ->
             panelComplete stateUnits table s w = true ->
             (length (facesOf stateUnits (removeSample p0 h0 table))
              < length (facesOf stateUnits table))%nat)
      /\ (default false (hasKeel (metadata table)) = false
          \/ (forall h, head (getSortedWaterlines table) = Some h -> ~ h == h0) ->
          forall s w,
            ~ touchesSample table p0 h0 s w ->
            facePositions stateUnits (removeSample p0 h0 table)
              (panelFaces stateUnits (removeSample p0 h0 table) s w)
            = facePositions stateUnits table (panelFaces stateUnits table s w))).
Proof.
  split.
  - intros indices vertexMap keelVertices s w hasKeel hasChine.
    apply generatePanelFaces_skip.
  - intros Hws. split; [|split].
    + by apply facesOf_removeSample_le.
    + intros s w. by apply facesOf_removeSample_lt.
    + intros Hkeel s w. by apply panelFaces_removeSample_positions.
Qed.

Lemma panel_skip_and_sample_removal_witness :
  getSortedWaterlines (removeSample 1 1 fourByThree) = getSortedWaterlines fourByThree
  /\ generatePanelFaces [7%nat] ∅ [] 0 0 true false = [7%nat]
  /\ (length (facesOf m (removeSample 1 1 fourByThree)) < length (facesOf m fourByThree))%nat
  /\ facePositions m (removeSample 1 1 fourByThree)
       (panelFaces m (removeSample 1 1 fourByThree) 2 0)
     = facePositions m fourByThree (panelFaces m fourByThree 2 0).
Proof.
  assert (Hws : getSortedWaterlines (removeSample 1 1 fourByThree)
                = getSortedWaterlines fourByThree) by (vm_compute; reflexivity).
  destruct (panel_skip_and_sample_removal m fourByThree 1 1) as [Hskip Hrem].
  destruct (Hrem Hws) as (_ & Hlt & Hpos).
  split; [exact Hws|]. split; [|split].
  - apply Hskip. vm_compute. reflexivity.
  - apply (Hlt 0%nat 0%nat).
    + vm_compute. lia.
    + vm_compute. lia.
    + exists 1%nat, 1%nat, (mkStation 1 (threeSamples 1 2 3)), 1.
      split; [by right|]. split; [by right|].
      split; [vm_compute; reflexivity|]. split; [vm_compute; reflexivity|].
      split; reflexivity.
    + vm_compute. reflexivity.
  - apply Hpos.
    + right. intros h Hh. vm_compute in Hh. injection Hh as <-. discriminate.
    + intros (s' & w' & st & h & Hs & Hw & Hst & Hh & Hp & Hq).
      destruct Hs as [-> | ->]; vm_compute in Hst; injection Hst as <-;
        vm_compute in Hp; discriminate.
Defined.

(** * The sorted grid of a table *)

Section Stable.

Context {A : Type} (key : A -> Q).

Lemma withKey_insertBy (p : Q) (x : A) (l : list A) :
  withKey key p (insertBy key x l)
  = if Qeq_bool (key x) p then x :: withKey key p l else withKey key p l.
Proof.
  unfold withKey. induction l as [|y l IH]; cbn [insertBy List.filter].
  { by destruct (Qeq_bool (key x) p). }
  destruct (Qle_bool (key x) (key y)) eqn:Hle; cbn [List.filter].
  { by destruct (Qeq_bool (key x) p). }
  rewrite IH.
  destruct (Qeq_bool (key x) p) eqn:Hx, (Qeq_bool (key y) p) eqn:Hy; try done.
  exfalso. apply Qeq_bool_iff in Hx, Hy.
  assert (Hxy : key x <= key y) by (rewrite Hx, Hy; apply Qle_refl).
  apply Qle_bool_iff in Hxy. congruence.
Qed.

Lemma withKey_sortBy (p : Q) (l : list A) :
  withKey key p (sortBy key l) = withKey key p l.
Proof.
  unfold sortBy. induction l as [|x l IH]; cbn [foldr]; [done|].
  rewrite withKey_insertBy, IH. unfold withKey. cbn [List.filter].
  by destruct (Qeq_bool (key x) p).
Qed.

Lemma StronglySorted_lookup (R : A -> A -> Prop) (l : list A) (i j : nat) (a b : A) :
  StronglySorted R l -> (i < j)%nat -> l !! i = Some a -> l !! j = Some b -> R a b.
Proof.
  intros Hs. revert i j. induction Hs as [|x l Hs IH Hall]; intros i j Hij Ha Hb; [done|].
  destruct j as [|j]; [lia|]. simpl in Hb.
  destruct i as [|i]; simpl in Ha.
  - injection Ha as ->. rewrite List.Forall_forall in Hall. apply Hall.
    apply list_elem_of_In. by eapply list_elem_of_lookup_2.
  - apply (IH i j); [lia|done|done].
Qed.

Lemma sortBy_lookup_le (l : list A) (i j : nat) (a b : A) :
  (i < j)%nat -> sortBy key l !! i = Some a -> sortBy key l !! j = Some b ->
  key a <= key b.
Proof.
  intros Hij Ha Hb.
  by apply (StronglySorted_lookup (keyLe key) (sortBy key l) i j a b (sortBy_sorted key l)).
Qed.

Lemma sortBy_lookup_lt (l : list A) (i j : nat) (a b : A) :
  distinctKeys key l ->
  (i < j)%nat -> sortBy key l !! i = Some a -> sortBy key l !! j = Some b ->
  key a < key b.
Proof.
  intros Hd Hij Ha Hb.
  pose proof (sortBy_lookup_le l i j a b Hij Ha Hb) as Hle.
  assert (Hd' : distinctKeys key (sortBy key l)).
  { apply (distinctKeys_Permutation key _ l); [apply sortBy_Permutation | done]. }
  assert (Hne : ~ key a == key b) by (apply (Hd' i j a b); [lia|done|done]).
  apply Qle_lteq in Hle as [Hlt|Heq]; [done | by destruct Hne].
Qed.

End Stable.

Section Heights.

(** The set of heights never holds a height twice. *)
Lemma setAdd_distinct (h : Q) (s : list Q) :
  distinctKeys (fun x => x) s -> distinctKeys (fun x => x) (setAdd h s).
Proof.
  intros Hd. unfold setAdd.
  destruct (existsb (Qeq_bool h) s) eqn:Hex; [done|].
  assert (Hfresh : forall x, In x s -> ~ h == x).
  { intros x Hx Heq. apply Qeq_bool_iff in Heq.
    assert (existsb (Qeq_bool h) s = true) by (apply existsb_exists; by exists x).
    congruence. }
  intros i j a b Hij Ha Hb.
  apply lookup_app_Some in Ha as [Ha|[Hi Ha]];
    apply lookup_app_Some in Hb as [Hb|[Hj Hb]].
  - by apply (Hd i j).
  - apply list_lookup_singleton_Some in Hb as [_ <-].
    intros Heq. apply (Hfresh a); [|by symmetry].
    apply list_elem_of_In. by eapply list_elem_of_lookup_2.
  - apply list_lookup_singleton_Some in Ha as [_ <-].
    apply Hfresh. apply list_elem_of_In. by eapply list_elem_of_lookup_2.
  - apply list_lookup_singleton_Some in Ha as [Hi' _].
    apply list_lookup_singleton_Some in Hb as [Hj' _]. lia.
Qed.

Lemma setAdd_In (h x : Q) (s : list Q) : In x (setAdd h s) -> In x s \/ x = h.
Proof.
  unfold setAdd. destruct (existsb (Qeq_bool h) s); [by left|].
  intros Hin. apply in_app_iff in Hin as [Hin|[<-|[]]]; [by left | by right].
Qed.

Lemma setAdd_incl (h x : Q) (s : list Q) : In x s -> In x (setAdd h s).
Proof.
  unfold setAdd. destruct (existsb (Qeq_bool h) s); [done|].
  intros Hin. apply in_app_iff. by left.
Qed.

Lemma setAdd_has (h : Q) (s : list Q) : exists x, In x (setAdd h s) /\ x == h.
Proof.
  unfold setAdd. destruct (existsb (Qeq_bool h) s) eqn:Hex.
  - apply existsb_exists in Hex as (x & Hx & Heq). apply Qeq_bool_iff in Heq.
    exists x. split; [done | by symmetry].
  - exists h. split; [|reflexivity]. apply in_app_iff. right. by left.
Qed.

Local Abbreviation addHeights :=
  (fun acc station =>
     fold_left (fun acc wl => setAdd (height wl) acc) (waterlines station) acc).

Lemma fold_setAdd_spec (wls : list WaterlineData) (s : list Q) :
  let s' := fold_left (fun acc wl => setAdd (height wl) acc) wls s in
  (distinctKeys (fun x => x) s -> distinctKeys (fun x => x) s')
  /\ (forall x, In x s' -> In x s \/ exists wl, In wl wls /\ height wl = x)
  /\ (forall x, In x s -> In x s')
  /\ (forall wl, In wl wls -> exists x, In x s' /\ x == height wl).
Proof.
  revert s. induction wls as [|wl wls IH]; intros s; cbn [fold_left].
  { repeat split; try done. intros x Hx. by left. }
  destruct (IH (setAdd (height wl) s)) as (I1 & I2 & I3 & I4).
  split; [|split; [|split]].
  - intros Hd. by apply I1, setAdd_distinct.
  - intros x Hx. apply I2 in Hx as [Hx|(wl' & Hwl' & <-)].
    + apply setAdd_In in Hx as [Hx| ->]; [by left|].
      right. exists wl. split; [by left | done].
    + right. exists wl'. split; [by right | done].
  - intros x Hx. by apply I3, setAdd_incl.
  - intros wl' [<-|Hwl'].
    + destruct (setAdd_has (height wl) s) as (x & Hx & Heq).
      exists x. split; [by apply I3 | done].
    + by apply I4.
Qed.

Lemma waterlineSet_spec (sts : list Station) (s : list Q) :
  let s' := fold_left addHeights sts s in
  (distinctKeys (fun x => x) s -> distinctKeys (fun x => x) s')
  /\ (forall x, In x s' ->
        In x s \/ exists st wl, In st sts /\ In wl (waterlines st) /\ height wl = x)
  /\ (forall x, In x s -> In x s')
  /\ (forall st wl, In st sts -> In wl (waterlines st) -> exists x, In x s' /\ x == height wl).
Proof.
  revert s. induction sts as [|st sts IH]; intros s; cbn [fold_left].
  { repeat split; try done. intros x Hx. by left. }
  destruct (IH (fold_left (fun acc wl => setAdd (height wl) acc) (waterlines st) s))
    as (I1 & I2 & I3 & I4).
  destruct (fold_setAdd_spec (waterlines st) s) as (J1 & J2 & J3 & J4).
  split; [|split; [|split]].
  - intros Hd. by apply I1, J1.
  - intros x Hx. apply I2 in Hx as [Hx|(st' & wl & Hst & Hwl & <-)].
    + apply J2 in Hx as [Hx|(wl & Hwl & <-)]; [by left|].
      right. exists st, wl. split; [by left | done].
    + right. exists st', wl. split; [by right | done].
  - intros x Hx. by apply I3, J3.
  - intros st' wl [<-|Hst] Hwl.
    + destruct (J4 wl Hwl) as (x & Hx & Heq). exists x. split; [by apply I3 | done].
    + by apply (I4 st' wl).
Qed.

End Heights.

(** X1: [getSortedStations] returns the stations of the table, each as
    often as the table holds it, in ascending order of position; stations
    at one and the same position keep the order they have in the table. *)
Theorem getSortedStations_stable_sort (table : QuoteTable) :
  Permutation (getSortedStations table) (stations table)
  /\ (forall (i j : nat) (a b : Station),
        (i < j)%nat ->
        getSortedStations table !! i = Some a -> getSortedStations table !! j = Some b ->
        position a <= position b)
  /\ (forall p : Q,
        withKey position p (getSortedStations table) = withKey position p (stations table)).
Proof.
  split; [apply sortBy_Permutation|]. split.
  - intros i j a b. apply sortBy_lookup_le.
  - intros p. apply withKey_sortBy.
Qed.

Lemma getSortedWaterlines_spec (table : QuoteTable) :
  increasing (getSortedWaterlines table)
  /\ (forall h, In h (getSortedWaterlines table) ->
        exists st wl, In st (stations table) /\ In wl (waterlines st) /\ height wl = h)
  /\ (forall st wl, In st (stations table) -> In wl (waterlines st) ->
        exists h, In h (getSortedWaterlines table) /\ h == height wl).
Proof.
  unfold getSortedWaterlines. cbv zeta.
  destruct (waterlineSet_spec (stations table) []) as (H1 & H2 & _ & H4).
  split; [|split].
  - intros i j a b Hij Ha Hb.
    eapply (sortBy_lookup_lt (fun h => h)); [|exact Hij|exact Ha|exact Hb].
    apply H1. intros ? ? ? ? _ Hnil. done.
  - intros h Hh. apply sortBy_In in Hh. apply H2 in Hh as [[]|Hh]. done.
  - intros st wl Hst Hwl. destruct (H4 st wl Hst Hwl) as (x & Hx & Heq).
    exists x. split; [by apply sortBy_In | done].
Qed.

Lemma filter_length_Permutation {A : Type} (f : A -> bool) (l l' : list A) :
  Permutation l l' -> length (List.filter f l) = length (List.filter f l').
Proof.
  induction 1 as [|x l l' _ IH|x y l|l l' l'' _ IH1 _ IH2]; cbn [List.filter].
  - done.
  - destruct (f x); simpl; by rewrite IH.
  - destruct (f x), (f y); done.
  - by rewrite IH1.
Qed.

Lemma filter_nothing {A : Type} (f : A -> bool) (l : list A) :
  (forall x, In x l -> f x = false) -> List.filter f l = [].
Proof.
  induction l as [|x l IH]; intros H; cbn [List.filter]; [done|].
  rewrite (H x) by (by left). apply IH. intros y Hy. apply H. by right.
Qed.

(** In an increasing list a height has its key alone. *)
Lemma withKey_increasing (l : list Q) (h : Q) :
  increasing l -> In h l -> withKey (fun x => x) h l = [h].
Proof.
  unfold withKey. induction l as [|x l IH]; intros Hinc Hh; [done|].
  cbn [List.filter].
  assert (Hinc' : increasing l).
  { intros i' j' a b Hij Ha Hb. by apply (Hinc (S i') (S j') a b); [lia|..]. }
  destruct Hh as [->|Hh].
  - rewrite (proj2 (Qeq_bool_iff h h) (Qeq_refl h)). f_equal.
    apply filter_nothing. intros y Hy.
    apply list_elem_of_In, list_elem_of_lookup in Hy as [j Hj].
    assert (h < y) by (by apply (Hinc 0%nat (S j) h y); [lia|..]).
    destruct (Qeq_bool y h) eqn:Hq; [|done]. apply Qeq_bool_iff in Hq. lra.
  - pose proof Hh as Hh'. apply list_elem_of_In, list_elem_of_lookup in Hh' as [i Hi].
    assert (x < h) by (by apply (Hinc 0%nat (S i) x h); [lia|..]).
    destruct (Qeq_bool x h) eqn:Hq; [apply Qeq_bool_iff in Hq; lra|].
    by apply IH.
Qed.

(** X2: [getSortedWaterlines] returns the heights of the samples of the
    table in strictly ascending order: every height it returns is the
    height of a sample, every sample has its height in the list, and no
    height comes twice. *)
Theorem getSortedWaterlines_strictly_sorted (table : QuoteTable) :
  increasing (getSortedWaterlines table)
  /\ (forall h, In h (getSortedWaterlines table) ->
        exists st wl, In st (stations table) /\ In wl (waterlines st) /\ height wl = h)
  /\ (forall st wl, In st (stations table) -> In wl (waterlines st) ->
        exists h, In h (getSortedWaterlines table) /\ h == height wl).
Proof. exact (getSortedWaterlines_spec table). Qed.

(** * Vertices and faces of a table: counts and index validity *)

Section Counting.

Lemma rowEntries_length station sIdx j hs :
  length (rowEntries station sIdx j hs) = length (List.filter (hasSample station) hs).
Proof.
  revert j. induction hs as [|h hs IH]; intros j; cbn [rowEntries List.filter]; [done|].
  rewrite length_app, IH. unfold hasSample.
  by destruct (findWaterline station h).
Qed.

Lemma gridEntries_length i ss ws :
  length (gridEntries i ss ws)
  = list_sum (map (fun station => length (List.filter (hasSample station) ws)) ss).
Proof.
  revert i. induction ss as [|st ss IH]; intros i; cbn [gridEntries map list_sum]; [done|].
  by rewrite length_app, rowEntries_length, IH.
Qed.

Lemma bottomEntries_app (L1 L2 : list Entry) :
  bottomEntries (L1 ++ L2) = bottomEntries L1 ++ bottomEntries L2.
Proof. unfold bottomEntries. apply List.filter_app. Qed.

Lemma bottomEntries_row_later station sIdx j hs :
  bottomEntries (rowEntries station sIdx (S j) hs) = [].
Proof.
  unfold bottomEntries.
  assert (H : forall e, In e (rowEntries station sIdx (S j) hs) ->
                        (entryW e =? 0)%nat = false).
  { intros e He. apply rowEntries_In in He as (_ & _ & Hw & _).
    apply Nat.eqb_neq. lia. }
  induction (rowEntries station sIdx (S j) hs) as [|e l IHl]; [done|].
  cbn [List.filter]. rewrite (H e) by (by left). apply IHl.
  intros e' He'. apply H. by right.
Qed.

Lemma bottomEntries_row station sIdx hs :
  length (bottomEntries (rowEntries station sIdx 0 hs))
  = match hs with
    | [] => 0%nat
    | h0 :: _ => if hasSample station h0 then 1%nat else 0%nat
    end.
Proof.
  destruct hs as [|h0 hs]; [done|]. cbn [rowEntries].
  rewrite bottomEntries_app, bottomEntries_row_later, app_nil_r.
  unfold hasSample. by destruct (findWaterline station h0).
Qed.

Lemma bottomEntries_grid_length i ss ws :
  length (bottomEntries (gridEntries i ss ws))
  = match ws with
    | [] => 0%nat
    | h0 :: _ => length (List.filter (fun station => hasSample station h0) ss)
    end.
Proof.
  revert i. induction ss as [|st ss IH]; intros i; cbn [gridEntries].
  { by destruct ws. }
  rewrite bottomEntries_app, length_app, bottomEntries_row, IH.
  destruct ws as [|h0 ws]; [done|]. cbn [List.filter].
  by destruct (hasSample st h0).
Qed.

Lemma vertexBlock_length scale hasKeel hasChine e :
  length (vertexBlock scale hasKeel hasChine e)
  = (2 + (if hasKeel && (entryW e =? 0)%nat then 1 else 0)
     + (if hasChine && (entryW e =? 0)%nat then 2 else 0))%nat.
Proof.
  unfold vertexBlock, keelBlock, chineBlock. rewrite !length_app.
  destruct (hasKeel && (entryW e =? 0)%nat), (hasChine && (entryW e =? 0)%nat); simpl; lia.
Qed.

Lemma flat_map_vertexBlock_length scale hasKeel hasChine (L : list Entry) :
  length (flat_map (vertexBlock scale hasKeel hasChine) L)
  = (2 * length L + (if hasKeel then length (bottomEntries L) else 0)
     + (if hasChine then 2 * length (bottomEntries L) else 0))%nat.
Proof.
  unfold bottomEntries.
  induction L as [|e L IH]; cbn [flat_map List.filter].
  { by destruct hasKeel, hasChine. }
  rewrite length_app, vertexBlock_length, IH.
  destruct hasKeel, hasChine, (entryW e =? 0)%nat; simpl; lia.
Qed.

Lemma keelVertices_length (stateUnits : Units) (table : QuoteTable) :
  length (keelVertices (generateVertices stateUnits table))
  = if default false (hasKeel (metadata table))
    then length (bottomEntries (gridEntries 0 (getSortedStations table)
                                  (getSortedWaterlines table)))
    else 0%nat.
Proof.
  rewrite generateVertices_entries.
  destruct (default false (hasKeel (metadata table))) eqn:Hk.
  - destruct (fold_emit_keelVertices (getUnitScale stateUnits) true
                (default false (hasChine (metadata table)))
                (gridEntries 0 (getSortedStations table) (getSortedWaterlines table))
                {| vertices := []; vertexMap := ∅; keelVertices := [] |} eq_refl)
      as (ks & Hks & Hall).
    rewrite Hks. cbn [keelVertices app]. by apply Forall2_length in Hall.
  - by rewrite fold_emit_no_keel.
Qed.

End Counting.

(** X3: [generateVertices] makes two vertices for every sample of the
    sorted grid, one more for every sample of the lowest waterline when
    the hull has a keel, and two more for each of these when it has a
    chine; the keel list has one entry for every sample of the lowest
    waterline, and none without a keel. *)
Theorem generateVertices_count (stateUnits : Units) (table : QuoteTable) :
  let r := generateVertices stateUnits table in
  let keel := default false (hasKeel (metadata table)) in
  let chine := default false (hasChine (metadata table)) in
  length (vertices r)
  = (2 * sampleCount table
     + (if keel then bottomCount table else 0)
     + (if chine then 2 * bottomCount table else 0))%nat
  /\ length (keelVertices r) = (if keel then bottomCount table else 0%nat).
Proof.
  cbv zeta. unfold sampleCount, bottomCount.
  rewrite <- gridEntries_length with (i := 0%nat).
  rewrite <- (bottomEntries_grid_length 0 (getSortedStations table) (getSortedWaterlines table)).
  split.
  - rewrite generateVertices_vertices. apply flat_map_vertexBlock_length.
  - apply keelVertices_length.
Qed.

Section Indices.

Variables (scale : Q) (hasKeel hasChine : bool).

Lemma distinctIndices_weaken n n' vm kv :
  (n <= n')%nat -> distinctIndices n vm kv -> distinctIndices n' vm kv.
Proof.
  intros Hle (H1 & H2 & H3 & H4 & H5). repeat split; try done.
  - intros k i Hk. specialize (H1 k i Hk). lia.
  - intros j i Hj. specialize (H2 j i Hj). lia.
Qed.

(** A new key at the next free index. *)
Lemma distinctIndices_insert n vm kv (k : VertexKey) :
  distinctIndices n vm kv -> distinctIndices (S n) (<[k := n]> vm) kv.
Proof.
  intros (H1 & H2 & H3 & H4 & H5). repeat split; try done.
  - intros k' i Hk'. apply lookup_insert_Some in Hk' as [[_ <-]|[_ Hk']]; [lia|].
    specialize (H1 k' i Hk'). lia.
  - intros j i Hj. specialize (H2 j i Hj). lia.
  - intros k1 k2 i Hk1 Hk2.
    apply lookup_insert_Some in Hk1 as [[<- <-]|[Hne1 Hk1]];
      apply lookup_insert_Some in Hk2 as [[<- Hi]|[Hne2 Hk2]]; try done.
    + specialize (H1 k2 n Hk2). lia.
    + subst i. specialize (H1 k1 n Hk1). lia.
    + by apply (H3 k1 k2 i).
  - intros k' j i Hk' Hj.
    apply lookup_insert_Some in Hk' as [[_ <-]|[_ Hk']].
    + specialize (H2 j n Hj). lia.
    + by apply (H4 k' j i).
Qed.

(** A new keel entry at the next free index. *)
Lemma distinctIndices_keel n vm kv :
  distinctIndices n vm kv -> distinctIndices (S n) vm (kv ++ [n]).
Proof.
  intros (H1 & H2 & H3 & H4 & H5). repeat split; try done.
  - intros k i Hk. specialize (H1 k i Hk). lia.
  - intros j i Hj. apply lookup_app_Some in Hj as [Hj|[_ Hj]].
    + specialize (H2 j i Hj). lia.
    + apply list_lookup_singleton_Some in Hj as [_ <-]. lia.
  - intros k j i Hk Hj. apply lookup_app_Some in Hj as [Hj|[_ Hj]].
    + by apply (H4 k j i).
    + apply list_lookup_singleton_Some in Hj as [_ <-].
      specialize (H1 k n Hk). lia.
  - apply NoDup_app. split; [done|]. split; [|apply NoDup_singleton].
    intros x Hx Hx'. apply list_elem_of_singleton in Hx'. subst x.
    apply list_elem_of_lookup in Hx as [j Hj]. specialize (H2 j n Hj). lia.
Qed.

Lemma emit_distinctIndices acc e :
  distinctIndices (length (vertices acc)) (vertexMap acc) (keelVertices acc) ->
  let res := emitEntry scale hasKeel hasChine acc e in
  distinctIndices (length (vertices res)) (vertexMap res) (keelVertices res).
Proof.
  intros H. cbv zeta. unfold emitEntry. cbn [vertices vertexMap keelVertices].
  rewrite length_app, vertexBlock_length. unfold keelBlock.
  set (n := length (vertices acc)) in *.
  destruct (hasKeel && (entryW e =? 0)%nat); cbn [length].
  - apply distinctIndices_keel in H.
    apply (distinctIndices_insert _ _ _ (entryS e, entryW e, Star)) in H.
    apply (distinctIndices_insert _ _ _ (entryS e, entryW e, Port)) in H.
    replace (n + 1)%nat with (S n) by lia.
    destruct (hasChine && (entryW e =? 0)%nat).
    + apply (distinctIndices_insert _ _ _ (entryS e, entryW e, ChineStar)) in H.
      apply (distinctIndices_insert _ _ _ (entryS e, entryW e, ChinePort)) in H.
      replace (S n + 2)%nat with (S (S (S n))) by lia.
      replace (n + (2 + 1 + 2))%nat with (S (S (S (S (S n))))) by lia. done.
    + replace (n + (2 + 1 + 0))%nat with (S (S (S n))) by lia. done.
  - apply (distinctIndices_insert _ _ _ (entryS e, entryW e, Star)) in H.
    apply (distinctIndices_insert _ _ _ (entryS e, entryW e, Port)) in H.
    replace (n + 0)%nat with n by lia.
    destruct (hasChine && (entryW e =? 0)%nat).
    + apply (distinctIndices_insert _ _ _ (entryS e, entryW e, ChineStar)) in H.
      apply (distinctIndices_insert _ _ _ (entryS e, entryW e, ChinePort)) in H.
      replace (n + 2)%nat with (S (S n)) by lia.
      replace (n + (2 + 0 + 2))%nat with (S (S (S (S n)))) by lia. done.
    + replace (n + (2 + 0 + 0))%nat with (S (S n)) by lia. done.
Qed.

Lemma fold_emit_distinctIndices (L : list Entry) acc :
  distinctIndices (length (vertices acc)) (vertexMap acc) (keelVertices acc) ->
  let res := fold_left (emitEntry scale hasKeel hasChine) L acc in
  distinctIndices (length (vertices res)) (vertexMap res) (keelVertices res).
Proof.
  revert acc. induction L as [|e L IH]; intros acc H; [done|].
  cbn [fold_left]. apply IH. by apply emit_distinctIndices.
Qed.

End Indices.

(** X4: the indices that [generateVertices] records are indices of
    vertices it made, each recorded once: no two keys of the lookup
    share a vertex, the keel list repeats no vertex, and no keel vertex
    is a vertex of the lookup. *)
Theorem generateVertices_distinct_indices (stateUnits : Units) (table : QuoteTable) :
  let r := generateVertices stateUnits table in
  (forall k i, vertexMap r !! k = Some i -> (i < length (vertices r))%nat)
  /\ (forall j i, keelVertices r !! j = Some i -> (i < length (vertices r))%nat)
  /\ (forall k1 k2 i, vertexMap r !! k1 = Some i -> vertexMap r !! k2 = Some i -> k1 = k2)
  /\ (forall k j i, vertexMap r !! k = Some i -> keelVertices r !! j = Some i -> False)
  /\ NoDup (keelVertices r).
Proof.
  cbv zeta. rewrite generateVertices_entries.
  apply (fold_emit_distinctIndices _ _ _ _
           {| vertices := []; vertexMap := ∅; keelVertices := [] |}).
  repeat split; cbn [vertexMap keelVertices]; try done.
  apply NoDup_nil_2.
Qed.

Section FaceIndices.

(** Every corner of a panel is read from one of the two lookups. *)
Lemma panelCornersOf_elements {A : Type} (look : VertexKey -> option A)
    (keel : nat -> option A) s w hasKeel hasChine (o : option A) :
  In o (panelCornersOf look keel s w hasKeel hasChine) ->
  (exists k, o = look k) \/ (exists j, o = keel j).
Proof.
  unfold panelCornersOf. cbv zeta.
  repeat match goal with
         | |- context [if ?b then _ else _] => destruct b
         end; cbn [app In]; intros H;
    repeat destruct H as [<-|H]; try done; eauto.
Qed.

Lemma In_concat_map {A B : Type} (f : B -> list A) (l : list B) (x : A) :
  In x (concat (map f l)) <-> exists y, In y l /\ In x (f y).
Proof.
  rewrite in_concat. split.
  - intros (l' & Hl' & Hx). apply in_map_iff in Hl' as (y & <- & Hy). by exists y.
  - intros (y & Hy & Hx). exists (f y). split; [|done]. apply in_map_iff. by exists y.
Qed.

Lemma generatePanelFaces_multiple vertexMap keelVertices s w hasKeel hasChine :
  exists k, length (generatePanelFaces [] vertexMap keelVertices s w hasKeel hasChine)
            = (3 * k)%nat.
Proof.
  rewrite generatePanelFaces_corners, length_map.
  unfold panelCornersOf. cbv zeta.
  repeat match goal with
         | |- context [if ?b then _ else _] => destruct b
         end; cbn [app length];
    first [by exists 0%nat | by exists 4%nat | by exists 8%nat | by exists 12%nat].
Qed.

Lemma concat_multiple {A B : Type} (f : B -> list A) (l : list B) :
  (forall x, exists k, length (f x) = (3 * k)%nat) ->
  exists k, length (concat (map f l)) = (3 * k)%nat.
Proof.
  intros H. induction l as [|x l [k' IH]]; cbn [map concat].
  - by exists 0%nat.
  - destruct (H x) as [k Hk]. exists (k + k')%nat. rewrite length_app. lia.
Qed.

End FaceIndices.

(** The index buffer holds whole triangles of indices of vertices. *)
Lemma generateFaces_valid (stateUnits : Units) (table : QuoteTable) :
  let r := generateVertices stateUnits table in
  let faces := generateFaces table (vertexMap r) (keelVertices r) in
  (exists k, length faces = (3 * k)%nat)
  /\ forall i, In i faces -> (i < length (vertices r))%nat.
Proof.
  cbv zeta. rewrite generateFaces_concat. split.
  - apply concat_multiple. intros s. apply concat_multiple. intros w.
    apply generatePanelFaces_multiple.
  - intros i Hi.
    apply In_concat_map in Hi as (s & _ & Hi).
    apply In_concat_map in Hi as (w & _ & Hi).
    rewrite generatePanelFaces_corners in Hi.
    apply in_map_iff in Hi as (o & <- & Ho).
    pose proof Ho as Hsome.
    apply (proj1 (List.Forall_forall _ _) (panelCornersOf_present _ _ _ _ _ _)) in Hsome.
    destruct Hsome as [i ->].
    destruct (generateVertices_indicesInRange stateUnits table) as [Hvm Hkv].
    apply lookup_lt_is_Some.
    apply panelCornersOf_elements in Ho as [[k Hk]|[j Hj]]; cbn [idx default].
    + symmetry in Hk. by eapply Hvm.
    + symmetry in Hj. by eapply Hkv.
Qed.

(** X5: the index buffer of the hull body is made of whole triangles,
    and every index in it is the index of a vertex that
    [generateVertices] made for the same table. *)
Theorem generateFaces_indices_valid (stateUnits : Units) (table : QuoteTable) :
  let r := generateVertices stateUnits table in
  let faces := generateFaces table (vertexMap r) (keelVertices r) in
  (exists k, length faces = (3 * k)%nat)
  /\ forall i, In i faces -> (i < length (vertices r))%nat.
Proof. exact (generateFaces_valid stateUnits table). Qed.

Section CompleteGrid.

Variables (stateUnits : Units) (table : QuoteTable).

Local Abbreviation r := (generateVertices stateUnits table).
Local Abbreviation scale := (getUnitScale stateUnits).
Local Abbreviation keel := (default false (hasKeel (metadata table))).
Local Abbreviation chine := (default false (hasChine (metadata table))).
Local Abbreviation ss := (getSortedStations table).
Local Abbreviation ws := (getSortedWaterlines table).

Hypothesis complete : completeTable table.

Lemma complete_sampleAt (s w : nat) :
  (s < length ss)%nat -> (w < length ws)%nat ->
  exists e, sampleAt ss ws s w = Some e /\ entryW e = w.
Proof.
  intros Hs Hw. unfold sampleAt.
  destruct (lookup_lt_is_Some_2 ss s Hs) as [st Hst].
  destruct (lookup_lt_is_Some_2 ws w Hw) as [h Hh].
  rewrite Hst, Hh.
  assert (Hin : In st (stations table)).
  { apply (sortBy_In position). apply list_elem_of_In. by eapply list_elem_of_lookup_2. }
  assert (Hinh : In h ws).
  { apply list_elem_of_In. by eapply list_elem_of_lookup_2. }
  specialize (complete st h Hin Hinh).
  destruct (findWaterline st h) as [wl|]; [|done].
  by eexists.
Qed.

Lemma complete_positionAt (s w : nat) (tag : VertexTag) :
  (s < length ss)%nat -> (w < length ws)%nat ->
  tag = Star \/ tag = Port \/ chine && (w =? 0)%nat = true ->
  is_Some (positionAt r (s, w, tag)).
Proof.
  intros Hs Hw Htag. rewrite generateVertices_positionAt.
  destruct (complete_sampleAt s w Hs Hw) as (e & -> & Hew).
  unfold tagVertex. rewrite Hew.
  destruct Htag as [->|[->|Hc]]; [done|done|].
  rewrite Hc. by destruct tag.
Qed.

Lemma complete_bottomEntries :
  ws <> [] ->
  length (bottomEntries (gridEntries 0 ss ws)) = length ss.
Proof.
  intros Hne. rewrite bottomEntries_grid_length.
  destruct ws as [|h0 rest] eqn:Hws; [done|].
  rewrite filter_all; [done|].
  intros st Hst. unfold hasSample.
  assert (Hin : In st (stations table)) by (by apply (sortBy_In position)).
  assert (Hh : In h0 ws) by (rewrite Hws; by left).
  specialize (complete st h0 Hin Hh).
  by destruct (findWaterline st h0).
Qed.

Lemma complete_keelPositionAt (j : nat) :
  keel = true -> ws <> [] -> (j < length ss)%nat -> is_Some (keelPositionAt r j).
Proof.
  intros Hk Hne Hj. rewrite generateVertices_keelPositionAt, Hk.
  apply fmap_is_Some, lookup_lt_is_Some. by rewrite complete_bottomEntries.
Qed.

(** A panel with all its corners: four triangles, eight on the lowest
    row of a hull with a chine, and four more on the lowest row of a
    hull with a keel. *)
Lemma panelCornersOf_length_full {A : Type} (look : VertexKey -> option A)
    (keelAt : nat -> option A) s w hasKeel hasChine :
  (forall s' w' tag,
      s' = s \/ s' = S s -> w' = w \/ w' = S w ->
      tag = Star \/ tag = Port \/ (hasChine && (w' =? 0)%nat = true) ->
      is_Some (look (s', w', tag))) ->
  (hasKeel && (w =? 0)%nat = true -> is_Some (keelAt s) /\ is_Some (keelAt (S s))) ->
  length (panelCornersOf look keelAt s w hasKeel hasChine)
  = ((if hasChine && (w =? 0)%nat then 24 else 12)
     + (if hasKeel && (w =? 0)%nat then 12 else 0))%nat.
Proof.
  intros Hl Hk. unfold panelCornersOf. cbv zeta.
  replace (allPresent [look (s, w, Star); _; _; _; _; _; _; _]) with true.
  2:{ symmetry. apply allPresent_Forall. repeat constructor; apply Hl; auto. }
  cbn [negb]. rewrite length_app. f_equal.
  - destruct (hasChine && (w =? 0)%nat) eqn:Hc; [|done].
    replace (allPresent [look (s, w, ChineStar); _; _; _; _; _; _; _]) with true; [done|].
    symmetry. apply allPresent_Forall. repeat constructor; apply Hl; auto.
  - destruct (hasKeel && (w =? 0)%nat) eqn:Hkw; [|done].
    destruct (Hk eq_refl) as [H1 H2].
    replace (allPresent [keelAt s; _; _; _; _; _]) with true; [done|].
    symmetry. apply allPresent_Forall. repeat constructor; try done; apply Hl; auto.
Qed.

Lemma complete_panel_length (s w : nat) :
  (S s < length ss)%nat -> (S w < length ws)%nat ->
  length (panelFaces stateUnits table s w)
  = ((if chine && (w =? 0)%nat then 24 else 12)
     + (if keel && (w =? 0)%nat then 12 else 0))%nat.
Proof.
  intros Hs Hw. rewrite panelFaces_length.
  apply panelCornersOf_length_full.
  - intros s' w' tag Hs' Hw' Htag. apply complete_positionAt; [lia|lia|done].
  - intros Hk. apply andb_true_iff in Hk as [Hk _].
    assert (Hne : ws <> []) by (destruct ws; [simpl in Hw; lia | done]).
    split; apply complete_keelPositionAt; try done; lia.
Qed.

Lemma length_concat_map_seq {A : Type} (f : nat -> list A) (start n c : nat) :
  (forall x, (start <= x < start + n)%nat -> length (f x) = c) ->
  length (concat (map f (seq start n))) = (n * c)%nat.
Proof.
  revert start. induction n as [|n IH]; intros start H; cbn [seq map concat]; [done|].
  rewrite length_app, (H start) by lia. rewrite IH; [lia|].
  intros x Hx. apply H. lia.
Qed.

Lemma complete_row_length (s : nat) :
  (S s < length ss)%nat -> (2 <= length ws)%nat ->
  length (concat (map (fun w => panelFaces stateUnits table s w)
                      (seq 0 (length ws - 1))))
  = (12 * (length ws - 1) + (if chine then 12 else 0) + (if keel then 12 else 0))%nat.
Proof.
  intros Hs Hw.
  replace (length ws - 1)%nat with (S (length ws - 2)) by lia.
  cbn [seq map concat]. rewrite length_app, complete_panel_length by lia.
  rewrite (length_concat_map_seq _ 1 (length ws - 2) 12).
  - rewrite !andb_true_r. destruct chine, keel; lia.
  - intros w Hw'. rewrite complete_panel_length by lia.
    destruct w as [|w]; [lia|]. cbn [Nat.eqb]. by rewrite !andb_false_r.
Qed.

Lemma complete_faces_length :
  (2 <= length ws)%nat ->
  length (facesOf stateUnits table)
  = ((length ss - 1)
     * (12 * (length ws - 1) + (if chine then 12 else 0) + (if keel then 12 else 0)))%nat.
Proof.
  intros Hw. unfold facesOf. cbv zeta. rewrite generateFaces_concat.
  apply (length_concat_map_seq
           (fun s => concat (map (fun w => panelFaces stateUnits table s w)
                               (seq 0 (length ws - 1))))).
  intros s Hs. apply complete_row_length; [lia | done].
Qed.

End CompleteGrid.

(** X6: for a table in which every station has a sample at every height,
    with [S] stations and [W >= 2] heights, the hull body has
    [(S - 1) * (4 * (W - 1) + 4 c + 4 k)] triangles, where [c] is 1 for a
    hull with a chine and [k] is 1 for a hull with a keel: four
    triangles for each panel, four more on the lowest row for the chine
    inset and four more for the keel connection. *)
Theorem complete_grid_face_count (stateUnits : Units) (table : QuoteTable) :
  completeTable table ->
  (2 <= length (getSortedWaterlines table))%nat ->
  let r := generateVertices stateUnits table in
  let chine := default false (hasChine (metadata table)) in
  let keel := default false (hasKeel (metadata table)) in
  length (generateFaces table (vertexMap r) (keelVertices r))
  = (3 * ((length (stations table) - 1)
          * (4 * (length (getSortedWaterlines table) - 1)
             + (if chine then 4 else 0) + (if keel then 4 else 0))))%nat.
Proof.
  intros Hc Hw. cbv zeta.
  pose proof (complete_faces_length stateUnits table Hc Hw) as H.
  unfold facesOf in H. cbv zeta in H. rewrite H.
  unfold getSortedStations. rewrite sortBy_length.
  destruct (default false (hasChine (metadata table))),
    (default false (hasKeel (metadata table))); lia.
Qed.

Lemma fourByThree_complete : completeTable fourByThree.
Proof.
  intros st h Hst Hh.
  assert (Hws : getSortedWaterlines fourByThree = [0; 1; 2]) by (vm_compute; reflexivity).
  rewrite Hws in Hh.
  destruct Hst as [<-|[<-|[<-|[<-|[]]]]]; destruct Hh as [<-|[<-|[<-|[]]]]; by vm_compute.
Qed.

Lemma complete_grid_face_count_witness :
  completeTable fourByThree
  /\ (2 <= length (getSortedWaterlines fourByThree))%nat
  /\ length (generateFaces fourByThree
               (vertexMap (generateVertices m fourByThree))
               (keelVertices (generateVertices m fourByThree))) = 108%nat.
Proof.
  assert (Hw : (2 <= length (getSortedWaterlines fourByThree))%nat) by (vm_compute; lia).
  split; [exact fourByThree_complete|]. split; [exact Hw|].
  exact (complete_grid_face_count m fourByThree fourByThree_complete Hw).
Defined.

(** X7: a table that, after the refinement, has fewer than two stations
    or fewer than two waterline heights has no panel, and the build
    returns the empty hull geometry. *)
Theorem too_small_table_gives_placeholder (stateUnits : Units) (table : QuoteTable)
    (lodConfig : LODConfig) :
  let refined := refinedTable table lodConfig in
  (length (stations refined) <= 1)%nat \/ (length (getSortedWaterlines refined) <= 1)%nat ->
  generateStructuredHullGeometry stateUnits table lodConfig = createEmptyHullGeometry.
Proof.
  cbv zeta. intros Hsmall.
  apply generateStructuredHullGeometry_no_face. right.
  rewrite generateFaces_concat.
  unfold getSortedStations at 1. rewrite sortBy_length.
  destruct Hsmall as [Hs|Hw].
  - by replace (length (stations (refinedTable table lodConfig)) - 1)%nat with 0%nat by lia.
  - replace (length (getSortedWaterlines (refinedTable table lodConfig)) - 1)%nat
      with 0%nat by lia.
    cbn [seq map concat].
    induction (seq 0 (length (stations (refinedTable table lodConfig)) - 1)) as [|s l IH];
      [done|]. cbn [map concat]. by rewrite IH.
Qed.

Lemma too_small_table_gives_placeholder_witness :
  (length (stations (refinedTable oneStationTable lodOne)) <= 1)%nat
  /\ generateStructuredHullGeometry m oneStationTable lodOne = createEmptyHullGeometry.
Proof.
  assert (H : (length (stations (refinedTable oneStationTable lodOne)) <= 1)%nat)
    by (vm_compute; lia).
  split; [exact H|].
  apply (too_small_table_gives_placeholder m oneStationTable lodOne). left. exact H.
Defined.

(** * Caps and curves *)

Section QuadStrip.

Lemma toUint16_small (n : nat) : (Z.of_nat n < 65536)%Z -> toUint16 n = n.
Proof.
  intros H. unfold toUint16. rewrite Z.mod_small by lia. apply Nat2Z.id.
Qed.

Lemma flat_map_length_const {A B : Type} (f : A -> list B) (l : list A) (c : nat) :
  (forall x, length (f x) = c) -> length (flat_map f l) = (length l * c)%nat.
Proof.
  intros H. induction l as [|x l IH]; cbn [flat_map]; [done|].
  rewrite length_app, H, IH. simpl. lia.
Qed.

(** The quad strip over [k] pairs of points. *)
Lemma quadStripIndices_even (k : nat) :
  (2 <= k)%nat -> (Z.of_nat (2 * k) <= 65536)%Z ->
  length (quadStripIndices (2 * k)) = (3 * (2 * k - 2))%nat
  /\ forall i, In i (quadStripIndices (2 * k)) -> (i < 2 * k)%nat.
Proof.
  intros Hk Hmax. unfold quadStripIndices.
  assert (Hlt : (2 * k <? 4)%nat = false) by (apply Nat.ltb_ge; lia).
  rewrite Hlt.
  assert (Hn : ((2 * k + 1) / 2 - 1)%nat = (k - 1)%nat).
  { replace (2 * k + 1)%nat with (1 + k * 2)%nat by lia.
    rewrite Nat.div_add by lia. simpl. lia. }
  rewrite Hn. split.
  - rewrite length_map, (flat_map_length_const _ _ 6) by done.
    rewrite length_seq. lia.
  - intros i Hi. apply in_map_iff in Hi as (x & <- & Hx).
    apply in_flat_map in Hx as (j & Hj & Hx). apply in_seq in Hj.
    cbv zeta in Hx. cbn [In] in Hx.
    assert (x < 2 * k)%nat by (repeat destruct Hx as [<-|Hx]; try done; lia).
    rewrite toUint16_small; lia.
Qed.

Lemma quadStripIndices_few (n : nat) : (n < 4)%nat -> quadStripIndices n = [].
Proof.
  intros H. unfold quadStripIndices.
  by replace (n <? 4)%nat with true by (symmetry; apply Nat.ltb_lt; lia).
Qed.

End QuadStrip.

Section Points.

Variable scale : Q.

(** The points gathered from the samples that a scan finds. *)
Lemma fold_samplePoints {A : Type} (found : A -> option WaterlineData) (y z : A -> Q)
    (l : list A) (init : list Vector3) :
  fold_left (fun points x =>
               match found x with
               | Some wlData => points ++ samplePoints scale wlData (y x) (z x)
               | None => points
               end) l init
  = init ++ flat_map (fun x =>
                        match found x with
                        | Some wlData => samplePoints scale wlData (y x) (z x)
                        | None => []
                        end) l.
Proof.
  revert init. induction l as [|x l IH]; intros init; cbn [fold_left flat_map].
  { by rewrite app_nil_r. }
  rewrite IH. destruct (found x); [by rewrite <- app_assoc | done].
Qed.

Lemma flat_map_samplePoints_length {A : Type} (found : A -> option WaterlineData)
    (y z : A -> Q) (l : list A) :
  length (flat_map (fun x =>
                      match found x with
                      | Some wlData => samplePoints scale wlData (y x) (z x)
                      | None => []
                      end) l)
  = (2 * length (List.filter (fun x => match found x with Some _ => true | None => false end)
                   l))%nat.
Proof.
  induction l as [|x l IH]; cbn [flat_map List.filter]; [done|].
  rewrite length_app, IH. destruct (found x); simpl; lia.
Qed.

Lemma flat_map_samplePoints_In {A : Type} (found : A -> option WaterlineData)
    (y z : A -> Q) (l : list A) (p : Vector3) :
  In p (flat_map (fun x =>
                    match found x with
                    | Some wlData => samplePoints scale wlData (y x) (z x)
                    | None => []
                    end) l) ->
  exists x wlData,
    In x l /\ found x = Some wlData /\ vy p = y x /\ vz p = z x
    /\ (vx p = - (halfBreadthPort wlData * scale)
        \/ vx p = match halfBreadthStarboard wlData with
                  | Some sb => sb * scale
                  | None => halfBreadthPort wlData * scale
                  end).
Proof.
  intros Hp. apply in_flat_map in Hp as (x & Hx & Hp).
  destruct (found x) as [wlData|] eqn:Hf; [|done].
  exists x, wlData. unfold samplePoints in Hp. cbv zeta in Hp.
  destruct Hp as [<-|[<-|[]]]; cbn [vx vy vz]; repeat split; try done; [by left | by right].
Qed.

Lemma stationProfile_flat_map (sortedWaterlines : list Q) (station : Station) :
  stationProfile scale sortedWaterlines station
  = flat_map (fun h =>
                match findWaterline station h with
                | Some wlData => samplePoints scale wlData (h * scale) (position station * scale)
                | None => []
                end) sortedWaterlines.
Proof.
  unfold stationProfile. cbv zeta.
  by rewrite (fold_samplePoints (findWaterline station) (fun h => h * scale)
                (fun _ => position station * scale)).
Qed.

(** The profile of a station: two points for every height at which the
    station has a sample, all in the plane of the station. *)
Lemma stationProfile_spec (sortedWaterlines : list Q) (station : Station) :
  length (stationProfile scale sortedWaterlines station)
  = (2 * length (List.filter (hasSample station) sortedWaterlines))%nat
  /\ forall p, In p (stationProfile scale sortedWaterlines station) ->
       vz p = position station * scale
       /\ exists h, In h sortedWaterlines /\ vy p = h * scale.
Proof.
  rewrite stationProfile_flat_map. split.
  - apply flat_map_samplePoints_length.
  - intros p Hp. apply flat_map_samplePoints_In in Hp as (h & wl & Hh & _ & Hy & Hz & _).
    split; [done | by exists h].
Qed.

End Points.

Section Caps.

Variables (stateUnits : Units) (table : QuoteTable).

Local Abbreviation scale := (getUnitScale stateUnits).
Local Abbreviation ss := (getSortedStations table).
Local Abbreviation ws := (getSortedWaterlines table).

Lemma stripValid_even (points : list Vector3) (k : nat) :
  length points = (2 * k)%nat -> stripValid points (quadStripIndices (length points)).
Proof.
  intros Hk. split.
  - apply quadStripIndices_few.
  - intros H4 Hmax. rewrite Hk in *. apply quadStripIndices_even; [lia | done].
Qed.

Lemma generateDeckPoints_flat_map :
  generateDeckPoints stateUnits table
  = match last ws with
    | None => []
    | Some top =>
        flat_map (fun station =>
                    match findWaterline station top with
                    | Some wlData =>
                        samplePoints scale wlData (top * scale) (position station * scale)
                    | None => []
                    end) ss
    end.
Proof.
  unfold generateDeckPoints. cbv zeta. destruct (last ws) as [top|]; [|done].
  by rewrite (fold_samplePoints scale (fun station => findWaterline station top)
                (fun _ => top * scale) (fun station => position station * scale)).
Qed.

Lemma generateDeckPoints_length :
  length (generateDeckPoints stateUnits table)
  = match last ws with
    | None => 0%nat
    | Some top => (2 * length (List.filter (fun station => hasSample station top) ss))%nat
    end.
Proof.
  rewrite generateDeckPoints_flat_map. destruct (last ws) as [top|]; [|done].
  apply flat_map_samplePoints_length.
Qed.

Lemma capPoints_even :
  (exists k, length (generateDeckPoints stateUnits table) = (2 * k)%nat)
  /\ (exists k, length (generateTransomPoints stateUnits table) = (2 * k)%nat)
  /\ (exists k, length (generateBowPoints stateUnits table) = (2 * k)%nat).
Proof.
  split; [|split].
  - rewrite generateDeckPoints_length. destruct (last ws); [by eexists | by exists 0%nat].
  - unfold generateTransomPoints. cbv zeta. destruct (last ss) as [st|]; [|by exists 0%nat].
    destruct (stationProfile_spec scale ws st) as [-> _]. by eexists.
  - unfold generateBowPoints. cbv zeta. destruct (head ss) as [st|]; [|by exists 0%nat].
    destruct (stationProfile_spec scale ws st) as [-> _]. by eexists.
Qed.

End Caps.

(** X8: the index buffers of the deck, transom and bow caps are quad
    strips over the points of the cap: none for fewer than four points
    (two samples), otherwise two triangles between each pair of points
    and the next, and every index is the index of a point of the cap, as
    long as the cap has at most 65536 points. *)
Theorem cap_indices_valid (stateUnits : Units) (table : QuoteTable) :
  stripValid (generateDeckPoints stateUnits table)
             (generateDeckIndices (generateDeckPoints stateUnits table))
  /\ stripValid (generateTransomPoints stateUnits table)
                (generateTransomIndices (generateTransomPoints stateUnits table))
  /\ stripValid (generateBowPoints stateUnits table)
                (generateBowIndices (generateBowPoints stateUnits table)).
Proof.
  destruct (capPoints_even stateUnits table) as ([k1 H1] & [k2 H2] & [k3 H3]).
  unfold generateDeckIndices, generateTransomIndices, generateBowIndices.
  split; [|split]; eapply stripValid_even; eassumption.
Qed.

Lemma cap_indices_valid_witness :
  length (generateDeckPoints m threeByThree) = 6%nat
  /\ length (generateDeckIndices (generateDeckPoints m threeByThree)) = 12%nat
  /\ forall i, In i (generateDeckIndices (generateDeckPoints m threeByThree)) -> (i < 6)%nat.
Proof.
  assert (Hlen : length (generateDeckPoints m threeByThree) = 6%nat) by (vm_compute; reflexivity).
  destruct (cap_indices_valid m threeByThree) as [[_ Hdeck] _].
  rewrite Hlen in Hdeck.
  destruct Hdeck as [Hn Hi]; [lia | lia |].
  split; [exact Hlen|]. split; [exact Hn | exact Hi].
Defined.

(** X9: the deck cap lies at the height of the highest waterline: it has
    two points, port then starboard, for every station with a sample
    there, each at that height and at the position of its station; a
    table without a sample has no deck point. *)
Theorem generateDeckPoints_on_top_waterline (stateUnits : Units) (table : QuoteTable) :
  let scale := getUnitScale stateUnits in
  match last (getSortedWaterlines table) with
  | None => generateDeckPoints stateUnits table = []
  | Some top =>
      length (generateDeckPoints stateUnits table)
      = (2 * length (List.filter (fun station => hasSample station top)
                       (getSortedStations table)))%nat
      /\ forall p, In p (generateDeckPoints stateUnits table) ->
           vy p = top * scale
           /\ exists station wlData,
                In station (stations table)
                /\ findWaterline station top = Some wlData
                /\ vz p = position station * scale
                /\ (vx p = - (halfBreadthPort wlData * scale)
                    \/ vx p = match halfBreadthStarboard wlData with
                              | Some sb => sb * scale
                              | None => halfBreadthPort wlData * scale
                              end)
  end.
Proof.
  cbv zeta. pose proof (generateDeckPoints_length stateUnits table) as Hlen.
  rewrite generateDeckPoints_flat_map in *.
  destruct (last (getSortedWaterlines table)) as [top|]; [|done].
  split; [exact Hlen|].
  intros p Hp.
  apply flat_map_samplePoints_In in Hp as (st & wl & Hst & Hf & Hy & Hz & Hx).
  split; [done|]. exists st, wl. split; [by apply (sortBy_In position)|]. done.
Qed.

(** X10: the bow cap lies in the plane of the station with the least
    position and the transom cap in the plane of the station with the
    greatest one: two points for every height at which that station has
    a sample; a table without a station has neither. *)
Theorem bow_and_transom_planes (stateUnits : Units) (table : QuoteTable) :
  let scale := getUnitScale stateUnits in
  let planar := fun (station : option Station) (points : list Vector3) =>
    match station with
    | None => points = []
    | Some st =>
        length points
        = (2 * length (List.filter (hasSample st) (getSortedWaterlines table)))%nat
        /\ forall p, In p points ->
             vz p = position st * scale
             /\ exists h, In h (getSortedWaterlines table) /\ vy p = h * scale
    end in
  planar (head (getSortedStations table)) (generateBowPoints stateUnits table)
  /\ planar (last (getSortedStations table)) (generateTransomPoints stateUnits table)
  /\ (forall bow st, head (getSortedStations table) = Some bow -> In st (stations table) ->
        position bow <= position st)
  /\ (forall stern st, last (getSortedStations table) = Some stern -> In st (stations table) ->
        position st <= position stern)
  /\ (stations table = [] <-> head (getSortedStations table) = None)
  /\ (stations table = [] <-> last (getSortedStations table) = None).
Proof.
  cbv zeta. unfold generateBowPoints, generateTransomPoints. cbv zeta.
  split; [|split; [|split; [|split; [|split]]]].
  - destruct (head (getSortedStations table)) as [st|]; [|done]. apply stationProfile_spec.
  - destruct (last (getSortedStations table)) as [st|]; [|done]. apply stationProfile_spec.
  - intros bow st Hbow Hst. unfold getSortedStations in Hbow.
    pose proof (sortBy_sorted position (stations table)) as Hs.
    destruct (sortBy position (stations table)) as [|x l] eqn:Hsort; [done|].
    injection Hbow as ->.
    apply (sorted_head_least position bow l st Hs).
    rewrite <- Hsort. by apply sortBy_In.
  - intros stern st Hstern Hst.
    apply (sorted_last_greatest position (getSortedStations table) stern st);
      [apply sortBy_sorted | done | by apply sortBy_In].
  - rewrite head_None. unfold getSortedStations. by rewrite sortBy_nil.
  - rewrite last_None. unfold getSortedStations. by rewrite sortBy_nil.
Qed.

(** * Station and waterline curves *)

Section Records.

Context {T : Type}.

(** Reading a key after a write. *)
Lemma recordGet_recordSet (k k' : Q) (v : T) (r : list (Q * T)) :
  recordGet k (recordSet k' v r) = if Qeq_bool k' k then Some v else recordGet k r.
Proof.
  induction r as [|[k0 x] r IH]; cbn [recordSet recordGet].
  { by destruct (Qeq_bool k' k). }
  destruct (Qeq_bool k0 k') eqn:H0; cbn [recordGet].
  - destruct (Qeq_bool k0 k) eqn:H1, (Qeq_bool k' k) eqn:H2; try done; exfalso.
    + apply Qeq_bool_iff in H0, H1.
      assert (Heq : k' == k) by (by rewrite <- H0).
      apply Qeq_bool_iff in Heq. congruence.
    + apply Qeq_bool_iff in H0, H2.
      assert (Heq : k0 == k) by (by rewrite H0).
      apply Qeq_bool_iff in Heq. congruence.
  - rewrite IH.
    destruct (Qeq_bool k0 k) eqn:H1, (Qeq_bool k' k) eqn:H2; try done; exfalso.
    apply Qeq_bool_iff in H1, H2.
    assert (Heq : k0 == k') by (by rewrite H1, H2).
    apply Qeq_bool_iff in Heq. congruence.
Qed.

(** A record filled from a list: the last element with the key wins. *)
Lemma recordGet_fold {A : Type} (key : A -> Q) (f : A -> T) (l : list A)
    (init : list (Q * T)) (k : Q) :
  recordGet k (fold_left (fun r a => recordSet (key a) (f a) r) l init)
  = match last (withKey key k l) with
    | Some a => Some (f a)
    | None => recordGet k init
    end.
Proof.
  revert init. induction l as [|a l IH]; intros init; cbn [fold_left]; [done|].
  rewrite IH. unfold withKey. cbn [List.filter].
  destruct (Qeq_bool (key a) k) eqn:Ha.
  - destruct (List.filter (fun a0 => Qeq_bool (key a0) k) l) as [|b l'] eqn:Hf.
    + cbn [last]. by rewrite recordGet_recordSet, Ha.
    + change (last (a :: b :: l')) with (last (b :: l')).
      destruct (last (b :: l')) eqn:Hl; [done|]. by apply last_None in Hl.
  - destruct (last (List.filter (fun a0 => Qeq_bool (key a0) k) l)); [done|].
    by rewrite recordGet_recordSet, Ha.
Qed.

End Records.

Section Loop.

Variable scale : Q.

Lemma fold_single_points {A : Type} (found : A -> option WaterlineData)
    (point : A -> WaterlineData -> Vector3) (l : list A) (init : list Vector3) :
  fold_left (fun points x =>
               match found x with
               | Some wlData => points ++ [point x wlData]
               | None => points
               end) l init
  = init ++ flat_map (fun x => match found x with
                               | Some wlData => [point x wlData]
                               | None => []
                               end) l.
Proof.
  revert init. induction l as [|x l IH]; intros init; cbn [fold_left flat_map].
  { by rewrite app_nil_r. }
  rewrite IH. destruct (found x); [by rewrite <- app_assoc | done].
Qed.

Lemma flat_map_found_length {A : Type} (found : A -> option WaterlineData)
    (point : A -> WaterlineData -> Vector3) (l : list A) :
  length (flat_map (fun x => match found x with
                             | Some wlData => [point x wlData]
                             | None => []
                             end) l)
  = length (List.filter (fun x => match found x with Some _ => true | None => false end) l).
Proof.
  induction l as [|x l IH]; cbn [flat_map List.filter]; [done|].
  rewrite length_app, IH. by destruct (found x).
Qed.

Lemma filter_rev_length {A : Type} (f : A -> bool) (l : list A) :
  length (List.filter f (rev l)) = length (List.filter f l).
Proof.
  induction l as [|x l IH]; [done|]. cbn [rev List.filter].
  rewrite List.filter_app, length_app, IH. cbn [List.filter].
  destruct (f x); simpl; lia.
Qed.

Lemma waterlineLoop_passes (sortedStations : list Station) (h : Q) :
  waterlineLoop scale sortedStations h
  = let points :=
      flat_map (fun station =>
                  match findWaterline station h with
                  | Some wlData =>
                      [mkVector3 (match halfBreadthStarboard wlData with
                                  | Some sb => sb * scale
                                  | None => halfBreadthPort wlData * scale
                                  end) (h * scale) (position station * scale)]
                  | None => []
                  end) sortedStations
      ++ flat_map (fun station =>
                     match findWaterline station h with
                     | Some wlData =>
                         [mkVector3 (- (halfBreadthPort wlData * scale)) (h * scale)
                                    (position station * scale)]
                     | None => []
                     end) (rev sortedStations) in
    match points with
    | [] => []
    | p0 :: _ => points ++ [p0]
    end.
Proof.
  unfold waterlineLoop. cbv zeta.
  rewrite (fold_single_points (fun station => findWaterline station h)
             (fun station wlData =>
                mkVector3 (match halfBreadthStarboard wlData with
                           | Some sb => sb * scale
                           | None => halfBreadthPort wlData * scale
                           end) (h * scale) (position station * scale))).
  rewrite (fold_single_points (fun station => findWaterline station h)
             (fun station wlData =>
                mkVector3 (- (halfBreadthPort wlData * scale)) (h * scale)
                          (position station * scale))).
  cbn [app].
  by destruct (flat_map _ sortedStations ++ flat_map _ (rev sortedStations)).
Qed.

(** The loop of a waterline: the starboard points, the port points and
    the first point again. *)
Lemma waterlineLoop_spec (sortedStations : list Station) (h : Q) :
  let k := length (List.filter (fun station => hasSample station h) sortedStations) in
  let loop := waterlineLoop scale sortedStations h in
  (k = 0%nat -> loop = [])
  /\ ((0 < k)%nat -> length loop = (2 * k + 1)%nat /\ head loop = last loop)
  /\ (forall p, In p loop ->
        vy p = h * scale
        /\ exists station, In station sortedStations /\ vz p = position station * scale).
Proof.
  cbv zeta. rewrite waterlineLoop_passes. cbv zeta.
  set (star := flat_map _ sortedStations).
  set (prt := flat_map _ (rev sortedStations)).
  assert (Hstar : length star
                  = length (List.filter (fun station => hasSample station h) sortedStations)).
  { unfold star. rewrite flat_map_found_length. reflexivity. }
  assert (Hprt : length prt
                 = length (List.filter (fun station => hasSample station h) sortedStations)).
  { unfold prt. rewrite flat_map_found_length.
    apply (filter_rev_length (fun station => hasSample station h)). }
  assert (Hin : forall p, In p (star ++ prt) ->
            vy p = h * scale
            /\ exists station, In station sortedStations /\ vz p = position station * scale).
  { intros p Hp. apply in_app_iff in Hp as [Hp|Hp];
      apply in_flat_map in Hp as (st & Hst & Hp);
      destruct (findWaterline st h) as [wl|]; try done;
      destruct Hp as [<-|[]]; cbn [vy vz].
    - split; [done|]. by exists st.
    - split; [done|]. exists st. split; [by apply in_rev | done]. }
  clearbody star prt.
  set (k := length (List.filter (fun station => hasSample station h) sortedStations)) in *.
  split; [|split].
  - intros Hk. destruct star; [|simpl in Hstar; lia]. destruct prt; [done | simpl in Hprt; lia].
  - intros Hk. destruct star as [|p0 star]; [simpl in Hstar; lia|].
    cbn [app]. split.
    + cbn [length]. rewrite !length_app. simpl in *. lia.
    + change (p0 :: (star ++ prt) ++ [p0]) with ((p0 :: star ++ prt) ++ [p0]).
      by rewrite last_snoc.
  - intros p Hp. destruct (star ++ prt) as [|p0 rest] eqn:Hsp; [done|].
    apply in_app_iff in Hp as [Hp|[<-|[]]]; apply Hin; [done | by left].
Qed.

End Loop.

(** X11: the waterline curves hold one closed loop for every height of
    the table: the loop has a starboard point and a port point for every
    station with a sample at the height and ends with its first point
    again, and all its points lie at the height. *)
Theorem waterline_curves_closed (stateUnits : Units) (table : QuoteTable) (h : Q) :
  In h (getSortedWaterlines table) ->
  let scale := getUnitScale stateUnits in
  let k := length (List.filter (fun station => hasSample station h) (stations table)) in
  exists loop,
    recordGet h (generateWaterlineCurves stateUnits table) = Some loop
    /\ (0 < k)%nat
    /\ length loop = (2 * k + 1)%nat
    /\ head loop = last loop
    /\ forall p, In p loop ->
         vy p = h * scale
         /\ exists station, In station (stations table) /\ vz p = position station * scale.
Proof.
  intros Hh. cbv zeta.
  exists (waterlineLoop (getUnitScale stateUnits) (getSortedStations table) h).
  destruct (getSortedWaterlines_spec table) as (Hinc & Hfrom & _).
  assert (Hk : length (List.filter (fun station => hasSample station h) (getSortedStations table))
               = length (List.filter (fun station => hasSample station h) (stations table))).
  { apply filter_length_Permutation, sortBy_Permutation. }
  destruct (waterlineLoop_spec (getUnitScale stateUnits) (getSortedStations table) h)
    as (_ & Hpos & Hpts).
  rewrite Hk in Hpos.
  assert (Hkpos : (0 < length (List.filter (fun station => hasSample station h)
                                 (stations table)))%nat).
  { destruct (Hfrom h Hh) as (st & wl & Hst & Hwl & Heq).
    assert (Hin : In st (List.filter (fun station => hasSample station h) (stations table))).
    { apply filter_In. split; [done|]. unfold hasSample, findWaterline.
      destruct (List.find (fun wl0 => Qeq_bool (height wl0) h) (waterlines st)) eqn:Hf; [done|].
      exfalso. apply (find_none _ _ Hf) in Hwl. rewrite Heq in Hwl.
      by rewrite (proj2 (Qeq_bool_iff h h) (Qeq_refl h)) in Hwl. }
    destruct (List.filter _ (stations table)); [done | simpl; lia]. }
  destruct (Hpos Hkpos) as [Hlen Hclosed].
  split; [|split; [done|split; [done|split; [done|]]]].
  - unfold generateWaterlineCurves. cbv zeta.
    rewrite (recordGet_fold (fun x => x)
               (waterlineLoop (getUnitScale stateUnits) (getSortedStations table))).
    assert (Hone : withKey (fun x => x) h (getSortedWaterlines table) = [h])
      by (by apply withKey_increasing).
    by rewrite Hone.
  - intros p Hp. destruct (Hpts p Hp) as (Hy & st & Hst & Hz).
    split; [done|]. exists st. split; [by apply (sortBy_In position) | done].
Qed.

Lemma waterline_curves_closed_witness :
  In 1 (getSortedWaterlines threeByThree)
  /\ exists loop,
       recordGet 1 (generateWaterlineCurves m threeByThree) = Some loop
       /\ length loop = 7%nat
       /\ head loop = last loop.
Proof.
  assert (Hin : In 1 (getSortedWaterlines threeByThree)) by (vm_compute; tauto).
  split; [exact Hin|].
  destruct (waterline_curves_closed m threeByThree 1 Hin) as (loop & Hget & _ & Hlen & Hclosed & _).
  exists loop. split; [exact Hget|]. split; [exact Hlen | exact Hclosed].
Defined.

(** X12: the station curves are keyed by position: the curve under a
    position is the profile of the last station of the table at that
    position, so every station of the table finds a curve under its
    position, with two points for each of the samples and all of them in
    the plane of the station. *)
Theorem station_curves_by_position (stateUnits : Units) (table : QuoteTable) :
  let scale := getUnitScale stateUnits in
  let curves := generateStationCurves stateUnits table in
  (forall p : Q,
      recordGet p curves
      = stationProfile scale (getSortedWaterlines table)
          <$> last (withKey position p (stations table)))
  /\ (forall st, In st (stations table) ->
        exists st' pts,
          In st' (stations table) /\ position st' == position st
          /\ recordGet (position st) curves = Some pts
          /\ length pts
             = (2 * length (List.filter (hasSample st') (getSortedWaterlines table)))%nat
          /\ forall q, In q pts -> vz q = position st' * scale).
Proof.
  cbv zeta.
  assert (Hget : forall p : Q,
            recordGet p (generateStationCurves stateUnits table)
            = stationProfile (getUnitScale stateUnits) (getSortedWaterlines table)
                <$> last (withKey position p (stations table))).
  { intros p. unfold generateStationCurves. cbv zeta.
    rewrite (recordGet_fold position
               (stationProfile (getUnitScale stateUnits) (getSortedWaterlines table))).
    unfold getSortedStations. rewrite withKey_sortBy.
    by destruct (last (withKey position p (stations table))). }
  split; [exact Hget|].
  intros st Hst. rewrite Hget.
  assert (Hin : In st (withKey position (position st) (stations table))).
  { apply filter_In. split; [done|]. apply Qeq_bool_iff. reflexivity. }
  destruct (last (withKey position (position st) (stations table))) as [st'|] eqn:Hlast.
  - assert (Hst' : In st' (withKey position (position st) (stations table))).
    { apply list_elem_of_In, last_Some_elem_of, Hlast. }
    apply filter_In in Hst' as [Hst' Hpos]. apply Qeq_bool_iff in Hpos.
    exists st', (stationProfile (getUnitScale stateUnits) (getSortedWaterlines table) st').
    destruct (stationProfile_spec (getUnitScale stateUnits) (getSortedWaterlines table) st')
      as [Hlen Hpts].
    repeat split; try done. intros q Hq. by apply Hpts.
  - apply last_None in Hlast. rewrite Hlast in Hin. done.
Qed.

Lemma station_curves_by_position_witness :
  In (mkStation 5 (threeSamples 0 2 3)) (stations threeByThree)
  /\ exists pts, recordGet 5 (generateStationCurves m threeByThree) = Some pts
                 /\ length pts = 6%nat.
Proof.
  assert (Hin : In (mkStation 5 (threeSamples 0 2 3)) (stations threeByThree))
    by (right; left; reflexivity).
  split; [exact Hin|].
  destruct (station_curves_by_position m threeByThree) as [Hget _].
  exists (stationProfile (getUnitScale m) (getSortedWaterlines threeByThree)
            (mkStation 5 (threeSamples 0 2 3))).
  split; [|vm_compute; reflexivity].
  rewrite (Hget 5). vm_compute. reflexivity.
Defined.

(** * Array search and ear clipping of helpers.ts *)

Lemma Qltb_true (a b : Q) : Qltb a b = true <-> a < b.
Proof.
  unfold Qltb. rewrite negb_true_iff. split.
  - intros H. apply Qnot_le_lt. intros Hle. apply Qle_bool_iff in Hle. congruence.
  - intros H. destruct (Qle_bool b a) eqn:E; [|done].
    apply Qle_bool_iff in E. lra.
Qed.

Lemma Qltb_false (a b : Q) : Qltb a b = false <-> b <= a.
Proof.
  unfold Qltb. rewrite negb_false_iff. apply Qle_bool_iff.
Qed.

Lemma Qle_bool_false (a b : Q) : Qle_bool a b = false <-> b < a.
Proof.
  split.
  - intros H. apply Qnot_le_lt. intros Hle. apply Qle_bool_iff in Hle. congruence.
  - intros H. destruct (Qle_bool a b) eqn:E; [|done]. apply Qle_bool_iff in E. lra.
Qed.

Lemma findClosestLower_fold (value : Q) (array seen : list Q) (closest : option Q) :
  lowerOf value seen closest ->
  lowerOf value (seen ++ array)
    (fold_left (fun closest item =>
                  if Qle_bool item value
                     && match closest with
                        | None => true
                        | Some c => Qltb c item
                        end
                  then Some item else closest)
               array closest).
Proof.
  revert seen closest. induction array as [|item array IH]; intros seen closest H.
  - by rewrite app_nil_r.
  - cbn [fold_left].
    replace (seen ++ item :: array) with ((seen ++ [item]) ++ array)
      by (by rewrite <- app_assoc).
    apply IH. clear IH.
    destruct (Qle_bool item value) eqn:Hle; cbn [andb].
    + apply Qle_bool_iff in Hle. destruct closest as [c|]; cbn [lowerOf] in *.
      * destruct H as (Hin & Hc & Hmax).
        destruct (Qltb c item) eqn:Hlt.
        -- apply Qltb_true in Hlt. split; [apply in_or_app; right; by left|].
           split; [done|]. intros x [Hx|[<-|[]]]%in_app_or Hxv; [|lra].
           specialize (Hmax x Hx Hxv). lra.
        -- apply Qltb_false in Hlt. split; [apply in_or_app; by left|].
           split; [done|]. intros x [Hx|[<-|[]]]%in_app_or Hxv; [by apply Hmax|done].
      * split; [apply in_or_app; right; by left|]. split; [done|].
        intros x [Hx|[<-|[]]]%in_app_or Hxv; [|lra].
        specialize (H x Hx). lra.
    + apply Qle_bool_false in Hle. destruct closest as [c|]; cbn [lowerOf] in *.
      * destruct H as (Hin & Hc & Hmax). split; [apply in_or_app; by left|].
        split; [done|]. intros x [Hx|[<-|[]]]%in_app_or Hxv; [by apply Hmax|lra].
      * intros x [Hx|[<-|[]]]%in_app_or; [by apply H|done].
Qed.

Lemma findClosestHigher_fold (value : Q) (array seen : list Q) (closest : option Q) :
  higherOf value seen closest ->
  higherOf value (seen ++ array)
    (fold_left (fun closest item =>
                  if Qle_bool value item
                     && match closest with
                        | None => true
                        | Some c => Qltb item c
                        end
                  then Some item else closest)
               array closest).
Proof.
  revert seen closest. induction array as [|item array IH]; intros seen closest H.
  - by rewrite app_nil_r.
  - cbn [fold_left].
    replace (seen ++ item :: array) with ((seen ++ [item]) ++ array)
      by (by rewrite <- app_assoc).
    apply IH. clear IH.
    destruct (Qle_bool value item) eqn:Hle; cbn [andb].
    + apply Qle_bool_iff in Hle. destruct closest as [c|]; cbn [higherOf] in *.
      * destruct H as (Hin & Hc & Hmin).
        destruct (Qltb item c) eqn:Hlt.
        -- apply Qltb_true in Hlt. split; [apply in_or_app; right; by left|].
           split; [done|]. intros x [Hx|[<-|[]]]%in_app_or Hxv; [|lra].
           specialize (Hmin x Hx Hxv). lra.
        -- apply Qltb_false in Hlt. split; [apply in_or_app; by left|].
           split; [done|]. intros x [Hx|[<-|[]]]%in_app_or Hxv; [by apply Hmin|done].
      * split; [apply in_or_app; right; by left|]. split; [done|].
        intros x [Hx|[<-|[]]]%in_app_or Hxv; [|lra].
        specialize (H x Hx). lra.
    + apply Qle_bool_false in Hle. destruct closest as [c|]; cbn [higherOf] in *.
      * destruct H as (Hin & Hc & Hmin). split; [apply in_or_app; by left|].
        split; [done|]. intros x [Hx|[<-|[]]]%in_app_or Hxv; [by apply Hmin|lra].
      * intros x [Hx|[<-|[]]]%in_app_or; [by apply H|done].
Qed.

(** X13.  [findClosestLower] returns the greatest element of the array
    that is at most the value, [findClosestHigher] the least one that is at
    least the value; each returns [null] exactly when the array has no
    such element. *)
Theorem closest_lower_and_higher (array : list Q) (value : Q) :
  match findClosestLower array value with
  | Some c => In c array /\ c <= value /\ forall x, In x array -> x <= value -> x <= c
  | None => forall x, In x array -> value < x
  end
  /\ match findClosestHigher array value with
     | Some c => In c array /\ value <= c /\ forall x, In x array -> value <= x -> c <= x
     | None => forall x, In x array -> x < value
     end.
Proof.
  split.
  - apply (findClosestLower_fold value array [] None). by intros x [].
  - apply (findClosestHigher_fold value array [] None). by intros x [].
Qed.

Lemma findNearest_fold (value : Q) (rest seen : list Q) (prev : Q) :
  In prev seen ->
  (forall x, In x seen -> Qabs (prev - value) <= Qabs (x - value)) ->
  let r := fold_left (fun prev curr =>
                        if Qltb (Qabs (curr - value)) (Qabs (prev - value)) then curr else prev)
                     rest prev in
  In r (seen ++ rest)
  /\ forall x, In x (seen ++ rest) -> Qabs (r - value) <= Qabs (x - value).
Proof.
  revert seen prev. induction rest as [|curr rest IH]; intros seen prev Hin Hmin.
  - cbn [fold_left]. by rewrite app_nil_r.
  - cbn [fold_left].
    replace (seen ++ curr :: rest) with ((seen ++ [curr]) ++ rest)
      by (by rewrite <- app_assoc).
    apply IH.
    + destruct (Qltb _ _); apply in_or_app; [right; by left | by left].
    + intros x Hx. destruct (Qltb (Qabs (curr - value)) (Qabs (prev - value))) eqn:Hlt.
      * apply Qltb_true in Hlt. apply in_app_or in Hx as [Hx|[<-|[]]]; [|lra].
        specialize (Hmin x Hx). lra.
      * apply Qltb_false in Hlt. apply in_app_or in Hx as [Hx|[<-|[]]]; [by apply Hmin|done].
Qed.

(** X14.  [findNearest] returns an element of the array that no other
    element beats in distance to the value, and the value itself for an
    empty array. *)
Theorem findNearest_is_nearest (array : list Q) (value : Q) :
  (array = [] -> findNearest array value = value)
  /\ (array <> [] ->
      In (findNearest array value) array
      /\ forall x, In x array ->
           Qabs (findNearest array value - value) <= Qabs (x - value)).
Proof.
  split; [by intros ->|]. intros Hne.
  destruct array as [|first rest]; [done|].
  apply (findNearest_fold value rest [first] first); [by left|].
  intros x [<-|[]]. lra.
Qed.

Lemma findNearest_is_nearest_witness :
  In (findNearest [3; 1; 2; 5] 4) [3; 1; 2; 5]
  /\ forall x, In x [3; 1; 2; 5] -> Qabs (findNearest [3; 1; 2; 5] 4 - 4) <= Qabs (x - 4).
Proof. apply (findNearest_is_nearest [3; 1; 2; 5] 4). discriminate. Defined.

(** ** Ear clipping *)

Lemma findEar_fold (points : list Vector3) (remaining : list nat) (l : list nat)
    (acc r : option (nat * (nat * nat * nat))) :
  fold_left (fun found i =>
               match found with
               | Some _ => found
               | None =>
                   match earAt points remaining i with
                   | Some t => Some (i, t)
                   | None => None
                   end
               end) l acc = r ->
  r = acc \/ exists i t, r = Some (i, t) /\ In i l /\ earAt points remaining i = Some t.
Proof.
  revert acc. induction l as [|i l IH]; intros acc H; cbn [fold_left] in H.
  - by left.
  - apply IH in H as [H | (j & t & -> & Hin & He)].
    + destruct acc as [x|]; [by left|].
      destruct (earAt points remaining i) as [t|] eqn:He; [|by left].
      right. exists i, t. split; [done|]. split; [by left|done].
    + right. exists j, t. split; [done|]. split; [by right|done].
Qed.

Lemma findEar_Some (points : list Vector3) (remaining : list nat) i t :
  findEar points remaining = Some (i, t) ->
  (i < length remaining)%nat /\ earAt points remaining i = Some t.
Proof.
  intros H. apply findEar_fold in H as [H | (j & u & [= <- <-] & Hin & He)]; [done|].
  apply in_seq in Hin. split; [lia|done].
Qed.

Lemma pred_mod (i len : nat) :
  (i < len)%nat -> ((i + len - 1) mod len = if (i =? 0)%nat then len - 1 else i - 1)%nat.
Proof.
  intros H. destruct (i =? 0)%nat eqn:E.
  - apply Nat.eqb_eq in E as ->. apply Nat.mod_small. lia.
  - apply Nat.eqb_neq in E.
    replace (i + len - 1)%nat with ((i - 1) + 1 * len)%nat by lia.
    rewrite Nat.Div0.mod_add. apply Nat.mod_small. lia.
Qed.

Lemma succ_mod (i len : nat) :
  (i < len)%nat -> ((i + 1) mod len = if (i + 1 =? len)%nat then 0 else i + 1)%nat.
Proof.
  intros H. destruct (i + 1 =? len)%nat eqn:E.
  - apply Nat.eqb_eq in E. rewrite E. apply Nat.Div0.mod_same.
  - apply Nat.eqb_neq in E. apply Nat.mod_small. lia.
Qed.

Lemma lookup_In {A : Type} (l : list A) (i : nat) (x : A) : l !! i = Some x -> In x l.
Proof. intros H. apply list_elem_of_In. by eapply list_elem_of_lookup_2. Qed.

Lemma earAt_Some (points : list Vector3) (remaining : list nat) (i a b c : nat) :
  NoDup remaining -> (3 <= length remaining)%nat -> (i < length remaining)%nat ->
  earAt points remaining i = Some (a, b, c) ->
  (In a remaining /\ In b remaining /\ In c remaining) /\ a <> b /\ b <> c /\ a <> c.
Proof.
  intros Hnd Hlen Hi. unfold earAt.
  rewrite (pred_mod i _ Hi), (succ_mod i _ Hi).
  set (ia := if (i =? 0)%nat then (length remaining - 1)%nat else (i - 1)%nat).
  set (ic := if (i + 1 =? length remaining)%nat then 0%nat else (i + 1)%nat).
  destruct (remaining !! ia) as [a'|] eqn:Ha; [|done].
  destruct (remaining !! i) as [b'|] eqn:Hb; [|done].
  destruct (remaining !! ic) as [c'|] eqn:Hc; [|done].
  destruct (isEar points a' b' c' remaining); [|done].
  intros [= -> -> ->].
  split; [split; [|split]; eapply lookup_In; eassumption|].
  assert (Hab : ia <> i).
  { unfold ia. destruct (i =? 0)%nat eqn:E; [apply Nat.eqb_eq in E|apply Nat.eqb_neq in E]; lia. }
  assert (Hbc : i <> ic).
  { unfold ic. destruct (i + 1 =? _)%nat eqn:E; [apply Nat.eqb_eq in E|]; lia. }
  assert (Hac : ia <> ic).
  { unfold ia, ic.
    destruct (i =? 0)%nat eqn:E; [apply Nat.eqb_eq in E|apply Nat.eqb_neq in E];
      destruct (i + 1 =? _)%nat eqn:E'; [apply Nat.eqb_eq in E'|apply Nat.eqb_neq in E'| apply Nat.eqb_eq in E'|apply Nat.eqb_neq in E']; lia. }
  split; [|split]; intros ->.
  - apply Hab. by eapply NoDup_lookup.
  - apply Hbc. by eapply NoDup_lookup.
  - apply Hac. by eapply NoDup_lookup.
Qed.

Lemma triangles_fan {A : Type} (f : nat -> A * A * A) (l : list nat) :
  triangles (flat_map (fun i => [(f i).1.1; (f i).1.2; (f i).2]) l) = map f l.
Proof.
  induction l as [|i l IH]; [done|]. cbn [flat_map app triangles map].
  rewrite IH. by destruct (f i) as [[x y] z].
Qed.

Lemma nth_lookup_Some (l : list nat) (i : nat) :
  (i < length l)%nat -> l !! i = Some (nth i l 0%nat).
Proof.
  intros H. destruct (lookup_lt_is_Some_2 l i H) as [x Hx].
  rewrite Hx. f_equal. symmetry. by apply nth_lookup_Some.
Qed.

Lemma fanTriangles_valid (n : nat) (remaining : list nat) :
  NoDup remaining -> Forall (fun i => (i < n)%nat) remaining ->
  (2 <= length remaining)%nat ->
  length (fanTriangles remaining) = (3 * (length remaining - 2))%nat
  /\ validTriangles n (fanTriangles remaining).
Proof.
  intros Hnd Hall Hlen. unfold fanTriangles.
  assert (Hl : length (flat_map
                  (fun i => [nth 0 remaining 0%nat; nth i remaining 0%nat;
                             nth (i + 1) remaining 0%nat])
                  (seq 1 (length remaining - 2))) = (3 * (length remaining - 2))%nat).
  { rewrite (flat_map_length_const _ _ 3) by done. rewrite length_seq. lia. }
  split; [done|]. split; [eauto|].
  intros a b c Hin.
  rewrite (triangles_fan
             (fun i => (nth 0 remaining 0%nat, nth i remaining 0%nat,
                        nth (i + 1) remaining 0%nat))) in Hin.
  apply in_map_iff in Hin as (i & [= <- <- <-] & Hi). apply in_seq in Hi.
  pose proof (nth_lookup_Some remaining 0 ltac:(lia)) as H0.
  pose proof (nth_lookup_Some remaining i ltac:(lia)) as H1.
  pose proof (nth_lookup_Some remaining (i + 1) ltac:(lia)) as H2.
  rewrite List.Forall_forall in Hall.
  split; [split; [|split]; apply Hall; eapply lookup_In; eassumption|].
  split; [|split]; intros E; rewrite E in *.
  - assert (0 = i)%nat by (by eapply NoDup_lookup). lia.
  - assert (i = i + 1)%nat by (by eapply NoDup_lookup). lia.
  - assert (0 = i + 1)%nat by (by eapply NoDup_lookup). lia.
Qed.

Lemma validTriangles_app (n : nat) (l1 l2 : list nat) :
  validTriangles n l1 -> validTriangles n l2 -> validTriangles n (l1 ++ l2).
Proof.
  intros [[k1 H1] V1] [[k2 H2] V2]. split.
  - exists (k1 + k2)%nat. rewrite length_app. lia.
  - intros a b c. rewrite (triangles_app l1 l2 k1 H1). intros [H|H]%in_app_or; eauto.
Qed.

Lemma clipEars_spec (n : nat) (points : list Vector3) (fuel : nat)
    (remaining indices : list nat) :
  NoDup remaining -> Forall (fun i => (i < n)%nat) remaining ->
  (2 <= length remaining)%nat -> (length remaining - 2 <= fuel)%nat ->
  validTriangles n indices ->
  length (clipEars fuel points remaining indices)
  = (length indices + 3 * (length remaining - 2))%nat
  /\ validTriangles n (clipEars fuel points remaining indices).
Proof.
  revert remaining indices.
  induction fuel as [|fuel IH]; intros remaining indices Hnd Hall Hlen Hfuel Hv.
  - cbn [clipEars]. split; [lia|done].
  - cbn [clipEars]. destruct (length remaining <=? 2)%nat eqn:E.
    + apply Nat.leb_le in E. split; [lia|done].
    + apply Nat.leb_gt in E.
      destruct (findEar points remaining) as [[i [[a b] c]]|] eqn:Hear.
      * apply findEar_Some in Hear as [Hi He].
        apply earAt_Some in He as [(Ha & Hb & Hc) Hd]; [|done|lia|done].
        assert (Hdl : length (delete i remaining) = (length remaining - 1)%nat).
        { apply length_delete. by apply lookup_lt_is_Some_2. }
        destruct (IH (delete i remaining) (indices ++ [a; b; c])) as [IH1 IH2].
        -- pose proof (sublist_delete remaining i) as Hs. eauto using sublist_NoDup.
        -- apply List.Forall_forall. intros x Hx. rewrite List.Forall_forall in Hall.
           apply Hall. apply list_elem_of_In. eapply list_elem_of_delete_inv.
           apply list_elem_of_In. exact Hx.
        -- lia.
        -- lia.
        -- apply validTriangles_app; [done|]. split; [by exists 1%nat|].
           rewrite List.Forall_forall in Hall.
           intros a' b' c' [[= <- <- <-]|[]]. split; [|done].
           split; [|split]; by apply Hall.
        -- split; [|done]. rewrite IH1, length_app, Hdl. simpl. lia.
      * destruct (fanTriangles_valid n remaining Hnd Hall Hlen) as [Hl Hf].
        split; [by rewrite length_app, Hl|]. by apply validTriangles_app.
Qed.

(** X15.  [triangulatePolygon] gives no triangle for fewer than three
    points; for [n >= 3] points it gives exactly [n - 2] triangles, whose
    corners are indices of the points and are three different ones. *)
Theorem triangulatePolygon_triangle_count (points : list Vector3) :
  ((length points < 3)%nat -> triangulatePolygon points = [])
  /\ ((3 <= length points)%nat ->
      length (triangulatePolygon points) = (3 * (length points - 2))%nat
      /\ forall a b c, In (a, b, c) (triangles (triangulatePolygon points)) ->
           ((a < length points)%nat /\ (b < length points)%nat /\ (c < length points)%nat)
           /\ a <> b /\ b <> c /\ a <> c).
Proof.
  unfold triangulatePolygon. split; intros H.
  - apply Nat.ltb_lt in H. by rewrite H.
  - assert (E : (length points <? 3)%nat = false) by (apply Nat.ltb_ge; lia).
    rewrite E.
    destruct (clipEars_spec (length points) points (length points)
                (seq 0 (length points)) []) as [H1 [_ H2]].
    + apply NoDup_seq.
    + apply List.Forall_forall. intros x Hx. apply in_seq in Hx. lia.
    + rewrite length_seq. lia.
    + rewrite length_seq. lia.
    + split; [by exists 0%nat|]. by intros a b c [].
    + rewrite length_seq in H1. split; [exact H1|exact H2].
Qed.

Lemma triangulatePolygon_triangle_count_witness :
  length (triangulatePolygon squarePoints) = 6%nat
  /\ forall a b c, In (a, b, c) (triangles (triangulatePolygon squarePoints)) ->
       ((a < 4)%nat /\ (b < 4)%nat /\ (c < 4)%nat) /\ a <> b /\ b <> c /\ a <> c.
Proof.
  apply (proj2 (triangulatePolygon_triangle_count squarePoints)). simpl. lia.
Defined.

(** * The densified table *)

Lemma increasing_tail (a : Q) (l : list Q) : increasing (a :: l) -> increasing l.
Proof. intros H i j x y Hij Hx Hy. by apply (H (S i) (S j) x y); [lia|..]. Qed.

Lemma increasing_head (a b : Q) (l : list Q) : increasing (a :: l) -> In b l -> a < b.
Proof.
  intros H Hb. apply list_elem_of_In, list_elem_of_lookup in Hb as [j Hj].
  by apply (H 0%nat (S j) a b); [lia|..].
Qed.

Lemma increasing_app_lt (l1 l2 : list Q) (a b : Q) :
  increasing (l1 ++ l2) -> In a l1 -> In b l2 -> a < b.
Proof.
  intros H Ha Hb.
  apply list_elem_of_In, list_elem_of_lookup in Ha as [i Hi].
  apply list_elem_of_In, list_elem_of_lookup in Hb as [j Hj].
  apply (H i (length l1 + j)%nat a b).
  - apply lookup_lt_Some in Hi. lia.
  - by apply lookup_app_l_Some.
  - rewrite lookup_app_r by lia. by replace (length l1 + j - length l1)%nat with j by lia.
Qed.

(** A sorted list is left as it is. *)
Lemma sortBy_increasing (l : list Q) : increasing l -> sortBy (fun h => h) l = l.
Proof.
  induction l as [|a l IH]; intros H; [done|].
  unfold sortBy in *. cbn [foldr]. rewrite IH by (by eapply increasing_tail).
  destruct l as [|b l]; [done|]. cbn [insertBy].
  assert (a < b) by (apply (increasing_head a b (b :: l) H); by left).
  assert (Qle_bool a b = true) as -> by (apply Qle_bool_iff; lra). done.
Qed.

Lemma existsb_Qeq_false (h : Q) (s : list Q) :
  (forall x, In x s -> x < h) -> existsb (Qeq_bool h) s = false.
Proof.
  intros H. induction s as [|x s IH]; [done|]. cbn [existsb].
  rewrite IH by (intros y Hy; apply H; by right).
  assert (x < h) by (apply H; by left).
  destruct (Qeq_bool h x) eqn:E; [|done]. apply Qeq_bool_iff in E. lra.
Qed.

Lemma existsb_Qeq_true (h : Q) (s : list Q) : In h s -> existsb (Qeq_bool h) s = true.
Proof.
  intros H. apply existsb_exists. exists h. split; [done|]. by apply Qeq_bool_iff.
Qed.

(** The samples of a station whose heights continue a sorted set are
    added at its end. *)
Lemma fold_setAdd_fresh (wls : list WaterlineData) (s : list Q) :
  increasing (s ++ map height wls) ->
  fold_left (fun acc wl => setAdd (height wl) acc) wls s = s ++ map height wls.
Proof.
  revert s. induction wls as [|wl wls IH]; intros s H; cbn [fold_left map].
  - by rewrite app_nil_r.
  - cbn [map] in H. unfold setAdd at 2.
    rewrite existsb_Qeq_false.
    + rewrite IH; rewrite <- app_assoc; done.
    + intros x Hx. apply (increasing_app_lt s (height wl :: map height wls)); [done|done|by left].
Qed.

(** The samples of a station whose heights the set has are not added. *)
Lemma fold_setAdd_known (wls : list WaterlineData) (s : list Q) :
  (forall wl, In wl wls -> In (height wl) s) ->
  fold_left (fun acc wl => setAdd (height wl) acc) wls s = s.
Proof.
  induction wls as [|wl wls IH]; intros H; cbn [fold_left]; [done|].
  unfold setAdd at 2. rewrite existsb_Qeq_true by (apply H; by left).
  apply IH. intros wl' Hwl'. apply H. by right.
Qed.

(** The heights of a table whose stations all carry one and the same
    sorted list of heights. *)
Lemma getSortedWaterlines_grid (table : QuoteTable) (hs : list Q) :
  stations table <> [] -> increasing hs ->
  (forall st, In st (stations table) -> map height (waterlines st) = hs) ->
  getSortedWaterlines table = hs.
Proof.
  intros Hne Hinc Hall. unfold getSortedWaterlines. cbv zeta.
  destruct (stations table) as [|st0 sts]; [done|]. cbn [fold_left].
  rewrite (fold_setAdd_fresh (waterlines st0) []); cbn [app];
    rewrite (Hall st0) by (by left); [|done].
  assert (Hrest : fold_left (fun acc station =>
                     fold_left (fun acc wl => setAdd (height wl) acc) (waterlines station) acc)
                    sts hs = hs).
  { assert (Hsts : forall st, In st sts -> map height (waterlines st) = hs)
      by (intros st Hst; apply Hall; by right).
    clear Hall Hne. induction sts as [|st sts IH]; [done|]. cbn [fold_left].
    rewrite fold_setAdd_known.
    - apply IH. intros st' Hst'. apply Hsts. by right.
    - intros wl Hwl. rewrite <- (Hsts st) by (by left). by apply in_map. }
  rewrite Hrest. by apply sortBy_increasing.
Qed.

Lemma interpolateSample_height table lo up r h :
  height (Helpers.interpolateSample table lo up r h) = h.
Proof.
  unfold Helpers.interpolateSample. cbv zeta.
  destruct (Helpers.findNear lo h), (Helpers.findNear up h); cbn; try done.
  destruct (Helpers.findWaterlineBracket _ h) as [[a b] c].
  by destruct (Helpers.findNear lo a), (Helpers.findNear lo b), (Helpers.findNear up a), (Helpers.findNear up b).
Qed.

Lemma interpolateStation_heights table sortedStations first denseWaterlines stationPos :
  map height
    (waterlines (Helpers.interpolateStation table sortedStations first denseWaterlines stationPos))
  = denseWaterlines.
Proof.
  unfold Helpers.interpolateStation.
  destruct (match Helpers.findBracket sortedStations stationPos with
            | Some b => b
            | None => _
            end) as [[lo up] r].
  cbn [waterlines]. rewrite map_map.
  erewrite map_ext; [apply map_id|]. intros h. apply interpolateSample_height.
Qed.

Lemma denseCount_ge_2 (n : nat) (multiplier : Q) : (2 <= Helpers.denseCount n multiplier)%nat.
Proof. unfold Helpers.denseCount. lia. Qed.

Lemma densePositions_is_increasing (count : nat) (first last : Q) :
  first < last -> increasing (Helpers.densePositions count first last).
Proof. intros H i j a b. by apply densePositions_increasing. Qed.

Section Densified.

Variables (table : QuoteTable) (config : LODConfig) (lo hi : Q).
Hypothesis Hmult : ~ (stationMultiplier config <= 1 /\ waterlineMultiplier config <= 1).
Hypothesis Hst : stations table <> [].
Hypothesis Hlo : head (getSortedWaterlines table) = Some lo.
Hypothesis Hhi : last (getSortedWaterlines table) = Some hi.

Local Abbreviation dense := (Helpers.interpolateHullGrid table config).
Local Abbreviation heights :=
  (Helpers.densePositions (Helpers.denseCount (length (getSortedWaterlines table))
                              (waterlineMultiplier config)) lo hi).

Lemma densified_stations :
  exists first positions,
    length positions
    = Helpers.denseCount (length (stations table)) (stationMultiplier config)
    /\ stations dense
       = map (Helpers.interpolateStation table (getSortedStations table) first heights) positions.
Proof.
  unfold Helpers.interpolateHullGrid.
  assert (Qle_bool (stationMultiplier config) 1 && Qle_bool (waterlineMultiplier config) 1
          = false) as ->.
  { apply andb_false_iff.
    destruct (Qle_bool (stationMultiplier config) 1) eqn:E1; [|by left].
    destruct (Qle_bool (waterlineMultiplier config) 1) eqn:E2; [|by right].
    apply Qle_bool_iff in E1, E2. by destruct Hmult. }
  pose proof (sortBy_length position (stations table)) as Hlen.
  fold (getSortedStations table) in Hlen.
  destruct (getSortedStations table) as [|s0 ss] eqn:Hss.
  { destruct (stations table); [done | simpl in Hlen; lia]. }
  destruct (getSortedWaterlines table) as [|w0 ws] eqn:Hws; [done|].
  cbn [head] in Hlo. injection Hlo as ->. rewrite Hhi. cbn [default stations].
  eexists _, _. split; [|reflexivity].
  by rewrite densePositions_length, Hlen.
Qed.

Lemma dense_station_heights (st : Station) :
  In st (stations dense) -> map height (waterlines st) = heights.
Proof.
  destruct densified_stations as (first & positions & _ & ->).
  intros (p & <- & _)%in_map_iff. apply interpolateStation_heights.
Qed.

Lemma dense_length :
  length (stations dense) = Helpers.denseCount (length (stations table)) (stationMultiplier config).
Proof.
  destruct densified_stations as (first & positions & Hl & ->). by rewrite length_map.
Qed.

Lemma dense_complete : completeTable dense.
Proof.
  intros st h Hin Hh.
  destruct (getSortedWaterlines_spec dense) as (_ & Hfrom & _).
  destruct (Hfrom h Hh) as (st2 & wl & Hst2 & Hwl & <-).
  assert (Hin2 : In (height wl) (map height (waterlines st))).
  { rewrite (dense_station_heights st Hin), <- (dense_station_heights st2 Hst2).
    by apply in_map. }
  apply in_map_iff in Hin2 as (wl' & Heq & Hwl').
  unfold findWaterline. intros Hnone.
  pose proof (find_none _ _ Hnone wl' Hwl') as Hf. cbv beta in Hf.
  rewrite Heq in Hf.
  by rewrite (proj2 (Qeq_bool_iff _ _) (Qeq_refl (height wl))) in Hf.
Qed.

Lemma dense_heights : lo < hi -> getSortedWaterlines dense = heights.
Proof.
  intros Hlt. apply getSortedWaterlines_grid.
  - intros Hnil. pose proof dense_length as Hl. rewrite Hnil in Hl.
    pose proof (denseCount_ge_2 (length (stations table)) (stationMultiplier config)).
    simpl in Hl. lia.
  - by apply densePositions_is_increasing.
  - apply dense_station_heights.
Qed.

End Densified.

(** X16.  [interpolateHullGrid] returns the table itself when neither
    multiplier exceeds 1, when the table has no station and when no
    station has a sample; otherwise it builds a new table, and in every
    case the metadata are those of the table. *)
Theorem interpolateHullGrid_unchanged (table : QuoteTable) (config : LODConfig) :
  metadata (Helpers.interpolateHullGrid table config) = metadata table
  /\ (stationMultiplier config <= 1 -> waterlineMultiplier config <= 1 ->
      Helpers.interpolateHullGrid table config = table)
  /\ (stations table = [] -> Helpers.interpolateHullGrid table config = table)
  /\ ((forall st, In st (stations table) -> waterlines st = []) ->
      Helpers.interpolateHullGrid table config = table).
Proof.
  unfold Helpers.interpolateHullGrid. split; [|split; [|split]].
  - destruct (_ && _); [done|].
    destruct (getSortedStations table), (getSortedWaterlines table); done.
  - intros H1 H2. apply Qle_bool_iff in H1, H2. by rewrite H1, H2.
  - intros H. destruct (_ && _); [done|].
    unfold getSortedStations. by rewrite H.
  - intros H. destruct (_ && _); [done|].
    destruct (getSortedStations table); [done|].
    destruct (getSortedWaterlines table) as [|h hs] eqn:E; [done|].
    destruct (getSortedWaterlines_spec table) as (_ & Hfrom & _).
    destruct (Hfrom h) as (st & wl & Hst & Hwl & _); [rewrite E; by left|].
    rewrite (H st Hst) in Hwl. done.
Qed.

Lemma interpolateHullGrid_unchanged_witness :
  Helpers.interpolateHullGrid bareTable lodTwo = bareTable.
Proof.
  apply (proj2 (proj2 (proj2 (interpolateHullGrid_unchanged bareTable lodTwo)))).
  intros st [<-|[<-|[]]]; reflexivity.
Defined.



(** ** The size of the mesh of a full grid *)

Lemma generateVertices_length (stateUnits : Units) (table : QuoteTable) :
  length (vertices (generateVertices stateUnits table))
  = (2 * sampleCount table
     + (if default false (hasKeel (metadata table)) then bottomCount table else 0)
     + (if default false (hasChine (metadata table)) then 2 * bottomCount table else 0))%nat.
Proof.
  unfold sampleCount, bottomCount.
  rewrite <- gridEntries_length with (i := 0%nat).
  rewrite <- (bottomEntries_grid_length 0 (getSortedStations table) (getSortedWaterlines table)).
  rewrite generateVertices_vertices. apply flat_map_vertexBlock_length.
Qed.

Lemma list_sum_const {A : Type} (f : A -> nat) (l : list A) (c : nat) :
  (forall x, In x l -> f x = c) -> list_sum (map f l) = (length l * c)%nat.
Proof.
  induction l as [|x l IH]; intros H; [done|].
  change (list_sum (map f (x :: l))) with (f x + list_sum (map f l))%nat.
  rewrite (H x) by (by left). rewrite IH by (intros y Hy; apply H; by right).
  cbn [length]. lia.
Qed.

Lemma complete_hasSample (table : QuoteTable) st h :
  completeTable table -> In st (getSortedStations table) ->
  In h (getSortedWaterlines table) -> hasSample st h = true.
Proof.
  intros Hc Hst Hh. unfold hasSample.
  apply sortBy_In in Hst. specialize (Hc st h Hst Hh).
  by destruct (findWaterline st h).
Qed.

Lemma complete_sampleCount (table : QuoteTable) :
  completeTable table ->
  sampleCount table
  = (length (stations table) * length (getSortedWaterlines table))%nat.
Proof.
  intros Hc. unfold sampleCount.
  rewrite (list_sum_const _ _ (length (getSortedWaterlines table))).
  - unfold getSortedStations. by rewrite sortBy_length.
  - intros st Hst. f_equal. apply filter_all. intros h Hh.
    by apply (complete_hasSample table).
Qed.

Lemma complete_bottomCount (table : QuoteTable) :
  completeTable table -> getSortedWaterlines table <> [] ->
  bottomCount table = length (stations table).
Proof.
  intros Hc Hne. unfold bottomCount.
  destruct (getSortedWaterlines table) as [|h0 hs] eqn:E; [done|].
  rewrite filter_all.
  - unfold getSortedStations. by rewrite sortBy_length.
  - intros st Hst. apply (complete_hasSample table); [done|done|]. rewrite E. by left.
Qed.



(** ** The interpolated half-breadths *)

Lemma between_within (a b r bound : Q) :
  0 <= a <= bound -> 0 <= b <= bound -> 0 <= r <= 1 -> 0 <= a + (b - a) * r <= bound.
Proof.
  intros Ha Hb Hr.
  assert (E : a + (b - a) * r == (1 - r) * a + r * b) by ring.
  rewrite E.
  assert (0 <= (1 - r) * a) by (apply Qmult_le_0_compat; lra).
  assert (0 <= r * b) by (apply Qmult_le_0_compat; lra).
  assert (0 <= (1 - r) * (bound - a)) by (apply Qmult_le_0_compat; lra).
  assert (0 <= r * (bound - b)) by (apply Qmult_le_0_compat; lra).
  assert (E2 : (1 - r) * (bound - a) + r * (bound - b)
               == bound - ((1 - r) * a + r * b)) by ring.
  split; [lra|].
  generalize dependent ((1 - r) * a + r * b). intros. lra.
Qed.

Lemma ratio_within (x lower upper : Q) :
  lower < upper -> lower <= x -> x <= upper -> 0 <= (x - lower) / (upper - lower) <= 1.
Proof.
  intros Hlt Hl Hu. split.
  - apply Qle_shift_div_l; lra.
  - apply Qle_shift_div_r; lra.
Qed.

Lemma findWaterlineBracket_ratio (heights : list Q) (h : Q) :
  increasing heights -> 0 <= (Helpers.findWaterlineBracket heights h).2 <= 1.
Proof.
  induction heights as [|a [|b rest] IH]; intros Hinc; cbn [Helpers.findWaterlineBracket];
    [cbn; lra | cbn; lra |].
  destruct (Qle_bool a h && Qle_bool h b) eqn:E.
  - apply andb_true_iff in E as [E1 E2]. apply Qle_bool_iff in E1, E2. cbn [snd].
    apply ratio_within; [|done|done].
    apply (increasing_head a b (b :: rest) Hinc). by left.
  - apply IH. by eapply increasing_tail.
Qed.

Lemma findBracket_Some (sortedStations : list Station) (stationPos : Q) lower upper r :
  increasing (map position sortedStations) ->
  Helpers.findBracket sortedStations stationPos = Some (lower, upper, r) ->
  In lower sortedStations /\ In upper sortedStations /\ 0 <= r <= 1.
Proof.
  induction sortedStations as [|a [|b rest] IH]; intros Hinc; cbn [Helpers.findBracket];
    [done | done |].
  destruct (Qle_bool (position a) stationPos && Qle_bool stationPos (position b)) eqn:E.
  - intros [= <- <- <-].
    apply andb_true_iff in E as [E1 E2]. apply Qle_bool_iff in E1, E2.
    split; [by left|]. split; [right; by left|].
    apply ratio_within; [|done|done].
    apply (increasing_head (position a) (position b) (map position (b :: rest)) Hinc).
    by left.
  - intros H. destruct IH as (H1 & H2 & H3); [by eapply increasing_tail|done|].
    split; [by right|]. split; [by right|done].
Qed.

Lemma nearestStation_member (first : Station) (sortedStations : list Station) (stationPos : Q) :
  In first sortedStations ->
  In (Helpers.nearestStation first sortedStations stationPos) sortedStations.
Proof.
  intros Hf. unfold Helpers.nearestStation.
  assert (H : forall l acc, (forall x, In x l -> In x sortedStations) ->
                In acc.1 sortedStations ->
                In (fold_left (fun '(nearest, minDist) station =>
                                 let dist := Qabs (stationPos - position station) in
                                 if Qltb dist minDist then (station, dist)
                                 else (nearest, minDist)) l acc).1 sortedStations).
  { induction l as [|x l IH]; intros [n d] Hl Hacc; [done|]. cbn [fold_left].
    apply IH; [intros y Hy; apply Hl; by right|].
    cbv zeta. destruct (Qltb _ d); [apply Hl; by left | done]. }
  by apply H.
Qed.

Lemma findNear_sample (station : Station) (h : Q) (wl : WaterlineData) :
  Helpers.findNear station h = Some wl -> In wl (waterlines station).
Proof. intros H. by apply find_some in H as [H _]. Qed.

Lemma interpolateSample_within (bound : Q) (table : QuoteTable)
    (lowerStation upperStation : Station) (r h : Q) :
  0 <= bound -> 0 <= r <= 1 ->
  (forall wl, In wl (waterlines lowerStation) -> sampleWithin bound wl) ->
  (forall wl, In wl (waterlines upperStation) -> sampleWithin bound wl) ->
  sampleWithin bound (Helpers.interpolateSample table lowerStation upperStation r h).
Proof.
  intros Hb Hr Hl Hu. unfold Helpers.interpolateSample. cbv zeta.
  destruct (Helpers.findNear lowerStation h) as [l|] eqn:El;
    destruct (Helpers.findNear upperStation h) as [u|] eqn:Eu.
  - apply findNear_sample, Hl in El as [El1 El2]. apply findNear_sample, Hu in Eu as [Eu1 Eu2].
    split; cbn [halfBreadthPort halfBreadthStarboard].
    + by apply between_within.
    + intros s. destruct (halfBreadthStarboard l) as [ls|]; [|done].
      destruct (halfBreadthStarboard u) as [us|]; [|done].
      intros [= <-]. apply between_within; [by apply El2 | by apply Eu2 | done].
  - apply findNear_sample, Hl in El. exact El.
  - apply findNear_sample, Hu in Eu. exact Eu.
  - pose proof (findWaterlineBracket_ratio (getSortedWaterlines table) h
                  (proj1 (getSortedWaterlines_spec table))) as Hw.
    destruct (Helpers.findWaterlineBracket (getSortedWaterlines table) h) as [[a b] c].
    cbn [snd] in Hw.
    destruct (Helpers.findNear lowerStation a) as [ll|] eqn:E1;
      [|split; cbn; [lra | done]].
    destruct (Helpers.findNear lowerStation b) as [lu|] eqn:E2;
      [|split; cbn; [lra | done]].
    destruct (Helpers.findNear upperStation a) as [ul|] eqn:E3;
      [|split; cbn; [lra | done]].
    destruct (Helpers.findNear upperStation b) as [uu|] eqn:E4;
      [|split; cbn; [lra | done]].
    apply findNear_sample, Hl in E1 as [E1 _]. apply findNear_sample, Hl in E2 as [E2 _].
    apply findNear_sample, Hu in E3 as [E3 _]. apply findNear_sample, Hu in E4 as [E4 _].
    split; cbn [halfBreadthPort halfBreadthStarboard]; [|done].
    apply between_within; [by apply between_within | by apply between_within | done].
Qed.

Lemma distinct_sorted_increasing (table : QuoteTable) :
  distinctKeys position (stations table) ->
  increasing (map position (getSortedStations table)).
Proof.
  intros Hd i j a b Hij Ha Hb.
  rewrite list_lookup_fmap in Ha, Hb.
  destruct (getSortedStations table !! i) as [sa|] eqn:Ea; [|done].
  destruct (getSortedStations table !! j) as [sb|] eqn:Eb; [|done].
  injection Ha as <-. injection Hb as <-.
  by apply (sortBy_lookup_lt position (stations table) i j).
Qed.


Lemma threeByThree_positions_distinct : distinctKeys position (stations threeByThree).
Proof.
  intros i j a b Hij Ha Hb.
  destruct i as [|[|[|i]]]; destruct j as [|[|[|j]]]; try done;
    cbn in Ha, Hb; injection Ha as <-; injection Hb as <-; by vm_compute.
Qed.

Lemma threeByThree_within : breadthsWithin 3 threeByThree.
Proof.
  intros st wl Hst Hwl.
  destruct Hst as [<-|[<-|[<-|[]]]]; destruct Hwl as [<-|[<-|[<-|[]]]];
    (split; [by vm_compute | by intros s]).
Qed.


(** * Groups and colours *)

(** ** The scans for the closest station and waterline *)

Lemma scan_firstNearest {A : Type} (dist : A -> Q) (l seen : list A) (c : A) :
  firstNearest dist seen c ->
  firstNearest dist (seen ++ l)
    (fold_left (fun '(closest, minDist) x =>
                  if Qltb (dist x) minDist then (x, dist x) else (closest, minDist))
               l (c, dist c)).1.
Proof.
  revert seen c. induction l as [|x l IH]; intros seen c H.
  - cbn [fold_left fst]. by rewrite app_nil_r.
  - cbn [fold_left].
    replace (seen ++ x :: l) with ((seen ++ [x]) ++ l) by (by rewrite <- app_assoc).
    destruct H as (i & Hi & Hbefore & Hall).
    destruct (Qltb (dist x) (dist c)) eqn:E.
    + apply Qltb_true in E. apply IH. exists (length seen). split; [|split].
      * by rewrite lookup_app_r, Nat.sub_diag by lia.
      * intros j y Hj Hy. rewrite lookup_app_l in Hy by done.
        assert (dist c <= dist y) by (apply Hall; by eapply lookup_In). lra.
      * intros y [Hy|[<-|[]]]%in_app_or; [|lra]. specialize (Hall y Hy). lra.
    + apply Qltb_false in E. apply IH. exists i. split; [|split].
      * by apply lookup_app_l_Some.
      * intros j y Hj Hy. apply (Hbefore j y Hj).
        apply lookup_lt_Some in Hi. by rewrite lookup_app_l in Hy by lia.
      * intros y [Hy|[<-|[]]]%in_app_or; [by apply Hall|done].
Qed.

Lemma firstNearest_single {A : Type} (dist : A -> Q) (c : A) : firstNearest dist [c] c.
Proof.
  exists 0%nat. split; [done|]. split; [intros j x Hj; lia|].
  intros x [<-|[]]. lra.
Qed.

(** X20.  The three scans for a closest element, of the station and of
    the waterline of a face in [organizeGeometryGroups] and of the
    station of a position in [interpolateHullGrid], return an element at
    the least distance, and the first such one in the order in which the
    start value and the list are read. *)
Theorem closest_scans_return_first_nearest :
  (forall station0 stations z,
      firstNearest (fun s => Qabs (z - position s)) (station0 :: stations)
        (closestStation station0 stations z))
  /\ (forall waterline0 waterlines y,
        firstNearest (fun w => Qabs (y - w)) (waterline0 :: waterlines)
          (closestWaterline waterline0 waterlines y))
  /\ (forall first sortedStations stationPos,
        firstNearest (fun s => Qabs (stationPos - position s)) (first :: sortedStations)
          (Helpers.nearestStation first sortedStations stationPos)).
Proof.
  split; [|split].
  - intros s0 l z.
    apply (scan_firstNearest (fun s => Qabs (z - position s)) l [s0] s0).
    apply firstNearest_single.
  - intros w0 l y.
    apply (scan_firstNearest (fun w => Qabs (y - w)) l [w0] w0).
    apply firstNearest_single.
  - intros s0 l z.
    apply (scan_firstNearest (fun s => Qabs (z - position s)) l [s0] s0).
    apply firstNearest_single.
Qed.

(** ** The groups of [organizeGeometryGroups] *)

Lemma recordGet_Qeq {T : Type} (k k' : Q) (r : list (Q * T)) :
  k == k' -> recordGet k r = recordGet k' r.
Proof.
  intros H. induction r as [|[k0 x] r IH]; cbn [recordGet]; [done|].
  rewrite IH. by rewrite H.
Qed.

Lemma recordGet_recordPush (k p : Q) (items : list nat) (r : list (Q * list nat)) :
  recordGet p (recordPush k items r)
  = match recordGet p r with
    | Some l => Some (if Qeq_bool k p then l ++ items else l)
    | None => None
    end.
Proof.
  unfold recordPush. destruct (recordGet k r) as [l0|] eqn:Hk.
  - rewrite recordGet_recordSet. destruct (Qeq_bool k p) eqn:E.
    + apply Qeq_bool_iff in E. by rewrite <- (recordGet_Qeq k p r E), Hk.
    + by destruct (recordGet p r).
  - destruct (Qeq_bool k p) eqn:E.
    + apply Qeq_bool_iff in E. by rewrite <- (recordGet_Qeq k p r E), Hk.
    + by destruct (recordGet p r).
Qed.

Section Organize.

Variables (vertices : list Vector3) (stations : list Station) (waterlines : list Q).
Variables (station0 : Station) (waterline0 : Q).

Local Abbreviation loop := (organizeFaces vertices stations waterlines station0 waterline0).
Local Abbreviation ofStation :=
  (fun (p : Q) (f : nat * Vector3) =>
     Qeq_bool (position (closestStation station0 stations (vz f.2))) p).
Local Abbreviation ofWaterline :=
  (fun (h : Q) (f : nat * Vector3) =>
     Qeq_bool (closestWaterline waterline0 waterlines (vy f.2)) h).
Local Abbreviation onTop :=
  (fun (f : nat * Vector3) => isTopWaterline f.2 (default waterline0 (last waterlines))).

(** The loop over a buffer of whole faces: what each group gains. *)
Lemma organizeFaces_whole (k : nat) :
  forall (indices : list nat) (i : nat) (groups : GeometryGroups),
    length indices = (3 * k)%nat ->
    exists groups',
      loop i indices groups = Some groups'
      /\ (forall p,
            recordGet p (groupStations groups')
            = (fun l => l ++ faceOffsets (List.filter (ofStation p)
                                            (validFacesFrom vertices i indices)))
              <$> recordGet p (groupStations groups))
      /\ (forall h,
            recordGet h (groupWaterlines groups')
            = (fun l => l ++ faceOffsets (List.filter (ofWaterline h)
                                            (validFacesFrom vertices i indices)))
              <$> recordGet h (groupWaterlines groups))
      /\ deck groups'
         = deck groups ++ faceOffsets (List.filter onTop (validFacesFrom vertices i indices)).
Proof.
  induction k as [|k IH]; intros indices i groups Hlen.
  - destruct indices; [|simpl in Hlen; lia]. exists groups.
    cbn [organizeFaces validFacesFrom List.filter faceOffsets flat_map].
    split; [done|]. split; [|split].
    + intros p. destruct (recordGet p _); cbn; [by rewrite app_nil_r|done].
    + intros h. destruct (recordGet h _); cbn; [by rewrite app_nil_r|done].
    + by rewrite app_nil_r.
  - destruct indices as [|a [|b [|c rest]]]; simpl in Hlen; try lia.
    cbn [organizeFaces validFacesFrom].
    destruct (vertices !! a) as [v1|]; [|apply IH; lia].
    destruct (vertices !! b) as [v2|]; [|apply IH; lia].
    destruct (vertices !! c) as [v3|]; [|apply IH; lia].
    destruct (IH rest (i + 3)%nat
                (organizeFace vertices stations waterlines station0 waterline0
                   i v1 v2 v3 groups)) as (g' & Hg & Hs & Hw & Hd); [lia|].
    exists g'. split; [exact Hg|]. split; [|split].
    + intros p. rewrite Hs. unfold organizeFace. cbv zeta. cbn [groupStations].
      rewrite recordGet_recordPush. cbn [List.filter snd].
      destruct (recordGet p (groupStations groups)) as [l|]; cbn [fmap option_fmap option_map];
        [|done].
      destruct (Qeq_bool _ p); [|done].
      cbn [faceOffsets flat_map fst]. by rewrite <- app_assoc.
    + intros h. rewrite Hw. unfold organizeFace. cbv zeta. cbn [groupWaterlines].
      rewrite recordGet_recordPush. cbn [List.filter snd].
      destruct (recordGet h (groupWaterlines groups)) as [l|];
        cbn [fmap option_fmap option_map]; [|done].
      destruct (Qeq_bool _ h); [|done].
      cbn [faceOffsets flat_map fst]. by rewrite <- app_assoc.
    + rewrite Hd. unfold organizeFace. cbv zeta. cbn [deck List.filter snd].
      destruct (isTopWaterline _ _); [|done].
      cbn [faceOffsets flat_map fst]. by rewrite <- app_assoc.
Qed.

(** A last face that is not whole, with its entries in range, raises. *)
Lemma organizeFaces_incomplete (k : nat) :
  forall (indices : list nat) (i : nat) (groups : GeometryGroups),
    (length indices = 3 * k + 1 \/ length indices = 3 * k + 2)%nat ->
    Forall (fun idx => (idx < length vertices)%nat) indices ->
    loop i indices groups = None.
Proof.
  induction k as [|k IH]; intros indices i groups Hlen Hall.
  - destruct indices as [|a [|b [|c rest]]]; simpl in Hlen; try lia.
    + cbn [organizeFaces existsb]. inversion_clear Hall as [|? ? Ha _].
      by assert ((length vertices <=? a)%nat = false) as -> by (apply Nat.leb_gt; lia).
    + cbn [organizeFaces existsb]. inversion_clear Hall as [|? ? Ha Hall'].
      inversion_clear Hall' as [|? ? Hb _].
      assert ((length vertices <=? a)%nat = false) as -> by (apply Nat.leb_gt; lia).
      by assert ((length vertices <=? b)%nat = false) as -> by (apply Nat.leb_gt; lia).
  - destruct indices as [|a [|b [|c rest]]]; simpl in Hlen; try lia.
    inversion_clear Hall as [|? ? Ha Hall1]. inversion_clear Hall1 as [|? ? Hb Hall2].
    inversion_clear Hall2 as [|? ? Hc Hall3].
    cbn [organizeFaces].
    destruct (vertices !! a), (vertices !! b), (vertices !! c); apply IH; (lia || done).
Qed.

End Organize.

(** The groups of a buffer of whole faces. *)
Lemma organizeGeometryGroups_spec (vertices : list Vector3) (indices : list nat)
    (stations : list Station) (waterlines : list Q)
    (station0 : Station) (waterline0 top : Q) (k : nat) :
  vertices <> [] ->
  head stations = Some station0 ->
  head waterlines = Some waterline0 ->
  last waterlines = Some top ->
  length indices = (3 * k)%nat -> k <> 0%nat ->
  let groups := organizeGeometryGroups vertices indices stations waterlines in
  let faces := validFacesFrom vertices 0 indices in
  (forall p,
      recordGet p (groupStations groups)
      = match withKey position p stations with
        | [] => None
        | _ :: _ =>
            Some (faceOffsets
                    (List.filter
                       (fun f => Qeq_bool
                                   (position (closestStation station0 stations (vz f.2))) p)
                       faces))
        end)
  /\ (forall h,
        recordGet h (groupWaterlines groups)
        = match withKey (fun w => w) h waterlines with
          | [] => None
          | _ :: _ =>
              Some (faceOffsets
                      (List.filter
                         (fun f => Qeq_bool
                                     (closestWaterline waterline0 waterlines (vy f.2)) h)
                         faces))
          end)
  /\ deck groups = faceOffsets (List.filter (fun f => isTopWaterline f.2 top) faces).
Proof.
  intros Hv Hs Hw Htop Hlen Hk. cbv zeta. unfold organizeGeometryGroups.
  assert ((length vertices =? 0)%nat = false) as ->.
  { apply Nat.eqb_neq. by destruct vertices. }
  assert ((length indices =? 0)%nat = false) as -> by (apply Nat.eqb_neq; lia).
  cbn [orb].
  destruct stations as [|s0 ss] eqn:Es; [done|]. injection Hs as ->.
  destruct waterlines as [|w0 ws] eqn:Ew; [done|]. injection Hw as ->.
  rewrite <- Es, <- Ew. cbv zeta.
  destruct (organizeFaces_whole vertices stations waterlines station0 waterline0 k
              indices 0
              {| groupStations :=
                   fold_left (fun r station => recordSet (position station) [] r) stations [];
                 groupWaterlines :=
                   fold_left (fun r waterlineHeight => recordSet waterlineHeight [] r)
                             waterlines [];
                 deck := [] |} Hlen) as (g' & -> & H1 & H2 & H3).
  split; [|split].
  - intros p. rewrite H1. cbn [groupStations].
    rewrite (recordGet_fold position (fun _ => [])).
    destruct (withKey position p stations) as [|x l] eqn:E; [done|].
    destruct (last (x :: l)) eqn:El; [done|]. by apply last_None in El.
  - intros h. rewrite H2. cbn [groupWaterlines].
    rewrite (recordGet_fold (fun w => w) (fun _ => [])).
    destruct (withKey (fun w => w) h waterlines) as [|x l] eqn:E; [done|].
    destruct (last (x :: l)) eqn:El; [done|]. by apply last_None in El.
  - rewrite H3. cbn [deck app]. by rewrite Ew, Htop.
Qed.

(** X21.  For a buffer of whole faces, [organizeGeometryGroups] lists
    under the position of a station the offsets [i, i + 1, i + 2] of
    every face in range whose centroid is closest to a station at that
    position, in the order of the buffer, and likewise under each
    waterline height; the deck group lists the faces whose centroid is
    within 0.01 of the last waterline; a position or height that is not
    one of the given ones has no group. *)
Theorem organizeGeometryGroups_by_closest (vertices : list Vector3) (indices : list nat)
    (stations : list Station) (waterlines : list Q)
    (station0 : Station) (waterline0 top : Q) (k : nat) :
  vertices <> [] ->
  head stations = Some station0 ->
  head waterlines = Some waterline0 ->
  last waterlines = Some top ->
  length indices = (3 * k)%nat -> k <> 0%nat ->
  let groups := organizeGeometryGroups vertices indices stations waterlines in
  let faces := validFacesFrom vertices 0 indices in
  (forall p,
      recordGet p (groupStations groups)
      = match withKey position p stations with
        | [] => None
        | _ :: _ =>
            Some (faceOffsets
                    (List.filter
                       (fun f => Qeq_bool
                                   (position (closestStation station0 stations (vz f.2))) p)
                       faces))
        end)
  /\ (forall h,
        recordGet h (groupWaterlines groups)
        = match withKey (fun w => w) h waterlines with
          | [] => None
          | _ :: _ =>
              Some (faceOffsets
                      (List.filter
                         (fun f => Qeq_bool
                                     (closestWaterline waterline0 waterlines (vy f.2)) h)
                         faces))
          end)
  /\ deck groups = faceOffsets (List.filter (fun f => isTopWaterline f.2 top) faces).
Proof.
  exact (organizeGeometryGroups_spec vertices indices stations waterlines
           station0 waterline0 top k).
Qed.


(** X22.  [organizeGeometryGroups] returns three empty groups when there
    is no vertex, no index, no station or no waterline, and also, through
    the exception it catches, when the buffer ends in a face that is not
    whole and all its indices are in range. *)
Theorem organizeGeometryGroups_empty (vertices : list Vector3) (indices : list nat)
    (stations : list Station) (waterlines : list Q) :
  (vertices = [] \/ indices = [] \/ stations = [] \/ waterlines = [] ->
   organizeGeometryGroups vertices indices stations waterlines = emptyGroups)
  /\ ((length indices mod 3 <> 0)%nat ->
      Forall (fun idx => (idx < length vertices)%nat) indices ->
      organizeGeometryGroups vertices indices stations waterlines = emptyGroups).
Proof.
  unfold organizeGeometryGroups. split.
  - intros [H|[H|[H|H]]]; rewrite H; cbn [length Nat.eqb orb].
    + done.
    + by rewrite orb_true_r.
    + by destruct (_ || _).
    + destruct (_ || _); [done|]. by destruct stations.
  - intros Hmod Hall. destruct (_ || _); [done|].
    destruct stations as [|s0 ss]; [done|]. destruct waterlines as [|w0 ws]; [done|].
    cbv zeta. rewrite (organizeFaces_incomplete _ _ _ _ _ (length indices / 3)); [done| |done].
    pose proof (Nat.div_mod_eq (length indices) 3) as Hd.
    pose proof (Nat.mod_upper_bound (length indices) 3 ltac:(lia)) as Hu.
    lia.
Qed.

Lemma organizeGeometryGroups_empty_witness :
  organizeGeometryGroups [mkVector3 0 0 0; mkVector3 1 0 0; mkVector3 0 1 0]
    [0; 1; 2; 0]%nat (stations threeByThree) [0; 1; 2]
  = emptyGroups.
Proof.
  apply (proj2 (organizeGeometryGroups_empty
                  [mkVector3 0 0 0; mkVector3 1 0 0; mkVector3 0 1 0]
                  [0; 1; 2; 0]%nat (stations threeByThree) [0; 1; 2])).
  - cbn. lia.
  - repeat constructor; cbn; lia.
Defined.

Lemma organizeGeometryGroups_by_closest_witness :
  let r := generateVertices m threeByThree in
  let indices := generateFaces threeByThree (vertexMap r) (keelVertices r) in
  let stations := getSortedStations threeByThree in
  let waterlines := getSortedWaterlines threeByThree in
  let groups := organizeGeometryGroups (vertices r) indices stations waterlines in
  length indices = 72%nat
  /\ recordGet 7 (groupStations groups) = None
  /\ deck groups
     = faceOffsets (List.filter (fun f => isTopWaterline f.2 2)
                                (validFacesFrom (vertices r) 0 indices)).
Proof.
  cbv zeta.
  set (r := generateVertices m threeByThree).
  set (indices := generateFaces threeByThree (vertexMap r) (keelVertices r)).
  assert (Hlen : length indices = (3 * 24)%nat) by (vm_compute; reflexivity).
  assert (Hv : vertices r <> []) by (vm_compute; discriminate).
  assert (Hs : head (getSortedStations threeByThree)
               = Some (mkStation 0 (threeSamples 0 1 2))) by (vm_compute; reflexivity).
  assert (Hw : head (getSortedWaterlines threeByThree) = Some 0) by (vm_compute; reflexivity).
  assert (Ht : last (getSortedWaterlines threeByThree) = Some 2) by (vm_compute; reflexivity).
  destruct (organizeGeometryGroups_by_closest (vertices r) indices
              (getSortedStations threeByThree) (getSortedWaterlines threeByThree)
              (mkStation 0 (threeSamples 0 1 2)) 0 2 24 Hv Hs Hw Ht Hlen ltac:(lia))
    as (H1 & _ & H3).
  split; [exact Hlen|]. split; [|exact H3].
  rewrite (H1 7). vm_compute. reflexivity.
Defined.

(** ** Colours *)

Section Colours.

Variable indices : list nat.

(** The three stores of [applyColorToFace] for one corner. *)
Local Abbreviation store v color colors :=
  (<[(v * 3 + 2)%nat := toFloat32 (vz color)]>
     (<[(v * 3 + 1)%nat := toFloat32 (vy color)]>
        (<[(v * 3)%nat := toFloat32 (vx color)]> colors))).

Lemma store_length v color colors : length (store v color colors) = length colors.
Proof. by rewrite !length_insert. Qed.

Lemma store_other v v' color colors :
  v <> v' -> vertexColor (store v color colors) v' = vertexColor colors v'.
Proof.
  intros H. unfold vertexColor.
  rewrite !list_lookup_insert_ne by lia. done.
Qed.

Lemma store_same v color colors :
  (v * 3 + 2 < length colors)%nat -> vertexColor (store v color colors) v = colorTriple color.
Proof.
  intros H. unfold vertexColor, colorTriple. f_equal; [f_equal|].
  - rewrite !list_lookup_insert_ne by lia. apply list_lookup_insert_eq. lia.
  - rewrite list_lookup_insert_ne by lia. apply list_lookup_insert_eq.
    rewrite length_insert. lia.
  - apply list_lookup_insert_eq. rewrite !length_insert. lia.
Qed.

Lemma applyColorToFace_steps colors faceIndex color :
  applyColorToFace colors indices faceIndex color
  = let step := fun k cs => match indices !! (faceIndex * 3 + k)%nat with
                            | None => cs
                            | Some v => store v color cs
                            end in
    step 2%nat (step 1%nat (step 0%nat colors)).
Proof. reflexivity. Qed.

(** What every store keeps, [applyColorToFace] keeps. *)
Lemma applyColorToFace_keeps (I : list float32 -> Prop) colors faceIndex color :
  (forall v cs, cornerOf indices faceIndex v -> I cs -> I (store v color cs)) ->
  I colors -> I (applyColorToFace colors indices faceIndex color).
Proof.
  intros Hstep H. rewrite applyColorToFace_steps. cbv zeta.
  assert (Hk : forall k cs, (k < 3)%nat -> I cs ->
                 I (match indices !! (faceIndex * 3 + k)%nat with
                    | None => cs
                    | Some v => store v color cs
                    end)).
  { intros k cs Hk Hcs. destruct (indices !! _) as [v|] eqn:E; [|done].
    apply Hstep; [|done]. by exists k. }
  apply Hk; [lia|]. apply Hk; [lia|]. apply Hk; [lia|done].
Qed.

Lemma applyDeckColors_keeps (I : list float32 -> Prop) deckFaces color colors :
  (forall f v cs, In f deckFaces -> cornerOf indices f v -> I cs -> I (store v color cs)) ->
  I colors -> I (applyDeckColors colors indices deckFaces color).
Proof.
  unfold applyDeckColors. revert colors.
  induction deckFaces as [|f l IH]; intros colors Hstep H; [done|]. cbn [fold_left].
  apply IH; [intros f' v cs Hf'; apply Hstep; by right|].
  apply applyColorToFace_keeps; [|done]. intros v cs. apply Hstep. by left.
Qed.

Lemma applyGroupColors_keeps (I : list float32 -> Prop) (faces : list (Q * list nat))
    color colors :
  (forall f v cs, In f (flat_map snd faces) -> cornerOf indices f v -> I cs ->
                  I (store v color cs)) ->
  I colors -> I (applyGroupColors colors indices faces color).
Proof.
  unfold applyGroupColors. revert colors.
  induction faces as [|[key group] l IH]; intros colors Hstep H; [done|]. cbn [fold_left].
  apply IH.
  - intros f v cs Hf. apply Hstep. cbn [flat_map snd]. apply in_or_app. by right.
  - apply (applyDeckColors_keeps I group color colors); [|done].
    intros f v cs Hf. apply Hstep. cbn [flat_map snd]. apply in_or_app. by left.
Qed.

Lemma initializeDefaultColors_length vertexCount color :
  length (initializeDefaultColors vertexCount color) = (vertexCount * 3)%nat.
Proof.
  unfold initializeDefaultColors.
  rewrite (flat_map_length_const _ _ 3) by done. by rewrite length_seq.
Qed.

Lemma constant_triples_lookup {A : Type} (a b c : float32) (l : list A) (v : nat) :
  (v < length l)%nat ->
  vertexColor (flat_map (fun _ => [a; b; c]) l) v = (Some a, Some b, Some c).
Proof.
  revert v. induction l as [|x l IH]; intros v Hv; [simpl in Hv; lia|].
  destruct v as [|v]; [done|]. cbn [flat_map app]. simpl in Hv.
  rewrite <- (IH v) by lia. unfold vertexColor.
  replace (S v * 3)%nat with (S (S (S (v * 3)))) by lia. done.
Qed.

Lemma initializeDefaultColors_color vertexCount color v :
  (v < vertexCount)%nat ->
  vertexColor (initializeDefaultColors vertexCount color) v = colorTriple color.
Proof.
  intros Hv. unfold initializeDefaultColors.
  apply (constant_triples_lookup _ _ _ (seq 0 vertexCount)). by rewrite length_seq.
Qed.

(** A deck face leaves the deck colour on its corners. *)
Lemma applyColorToFace_corner colors faceIndex color v :
  cornerOf indices faceIndex v -> (v * 3 + 2 < length colors)%nat ->
  vertexColor (applyColorToFace colors indices faceIndex color) v = colorTriple color.
Proof.
  intros (k & Hk & Hv) Hlen. rewrite applyColorToFace_steps. cbv zeta.
  assert (Hkeep : forall j cs, length cs = length colors ->
            vertexColor cs v = colorTriple color ->
            vertexColor (match indices !! (faceIndex * 3 + j)%nat with
                         | None => cs
                         | Some v' => store v' color cs
                         end) v = colorTriple color).
  { intros j cs Hl Hcs. destruct (indices !! (faceIndex * 3 + j)%nat) as [v'|]; [|done].
    destruct (decide (v' = v)) as [->|Hne]; [apply store_same; lia|].
    by rewrite store_other. }
  assert (Hlen' : forall j cs, length cs = length colors ->
            length (match indices !! (faceIndex * 3 + j)%nat with
                    | None => cs
                    | Some v' => store v' color cs
                    end) = length colors).
  { intros j cs Hl.
    destruct (indices !! (faceIndex * 3 + j)%nat); [by rewrite store_length|done]. }
  assert (L0 := Hlen' 0%nat colors eq_refl).
  assert (L1 := Hlen' 1%nat _ L0).
  destruct k as [|[|[|k]]]; [| | |lia].
  - apply Hkeep; [exact L1|]. apply Hkeep; [exact L0|].
    rewrite Hv. apply store_same. lia.
  - apply Hkeep; [exact L1|].
    rewrite Hv. apply store_same. rewrite L0. lia.
  - rewrite Hv. apply store_same. rewrite L1. lia.
Qed.

End Colours.

(** The colour buffer: its length, the deck colour and the default colour. *)
Lemma generateColors_spec (vertexCount : nat) (indices : list nat)
    (groups : GeometryGroups) (colorMap : PartialColorMap) :
  let colors := generateColors vertexCount indices groups colorMap in
  let deckColor := default (colorDeck defaultColorMap) (optDeck colorMap) in
  let defaultColor := default (colorDefault defaultColorMap) (optDefault colorMap) in
  length colors = (vertexCount * 3)%nat
  /\ (forall f v, In f (deck groups) -> cornerOf indices f v -> (v < vertexCount)%nat ->
        vertexColor colors v = colorTriple deckColor)
  /\ (forall v, (v < vertexCount)%nat ->
        (forall f, In f (groupEntries groups) -> ~ cornerOf indices f v) ->
        vertexColor colors v = colorTriple defaultColor).
Proof.
  cbv zeta. unfold generateColors. cbv zeta. cbn [colorStation colorWaterline colorDeck colorDefault].
  set (c0 := initializeDefaultColors vertexCount _).
  set (c1 := applyGroupColors c0 indices (groupStations groups) _).
  set (c2 := applyGroupColors c1 indices (groupWaterlines groups) _).
  assert (H0 : length c0 = (vertexCount * 3)%nat) by apply initializeDefaultColors_length.
  assert (H1 : length c1 = (vertexCount * 3)%nat).
  { apply (applyGroupColors_keeps indices (fun cs => length cs = (vertexCount * 3)%nat));
      [|done]. intros f v cs _ _ H. by rewrite !length_insert. }
  assert (H2 : length c2 = (vertexCount * 3)%nat).
  { apply (applyGroupColors_keeps indices (fun cs => length cs = (vertexCount * 3)%nat));
      [|done]. intros f v cs _ _ H. by rewrite !length_insert. }
  split; [|split].
  - apply (applyDeckColors_keeps indices (fun cs => length cs = (vertexCount * 3)%nat));
      [|done]. intros f v cs _ _ H. by rewrite !length_insert.
  - intros f v Hf Hc Hv.
    apply in_split in Hf as (l1 & l2 & Hd). rewrite Hd.
    unfold applyDeckColors. rewrite fold_left_app. cbn [fold_left].
    set (cs1 := fold_left _ l1 c2).
    assert (Hl1 : length cs1 = (vertexCount * 3)%nat).
    { apply (applyDeckColors_keeps indices (fun cs => length cs = (vertexCount * 3)%nat));
        [|done]. intros f' v' cs _ _ H. by rewrite !length_insert. }
    apply (applyDeckColors_keeps indices
             (fun cs => length cs = (vertexCount * 3)%nat
                        /\ vertexColor cs v = colorTriple
                             (default (colorDeck defaultColorMap) (optDeck colorMap)))).
    + intros f' v' cs _ _ [Hl Hcs]. split; [by rewrite !length_insert|].
      destruct (decide (v' = v)) as [->|Hne]; [apply store_same; lia|].
      by rewrite store_other.
    + split.
      * apply (applyColorToFace_keeps indices (fun cs => length cs = (vertexCount * 3)%nat));
          [|done]. intros v' cs _ H. by rewrite !length_insert.
      * apply applyColorToFace_corner; [done|lia].
  - intros v Hv Hno.
    assert (Hstep : forall color f v' cs, In f (groupEntries groups) -> cornerOf indices f v' ->
              vertexColor cs v = colorTriple
                (default (colorDefault defaultColorMap) (optDefault colorMap)) ->
              vertexColor
                (<[(v' * 3 + 2)%nat := toFloat32 (vz color)]>
                   (<[(v' * 3 + 1)%nat := toFloat32 (vy color)]>
                      (<[(v' * 3)%nat := toFloat32 (vx color)]> cs))) v
              = colorTriple (default (colorDefault defaultColorMap) (optDefault colorMap))).
    { intros color f v' cs Hf Hc Hcs. rewrite store_other; [done|].
      intros ->. by apply (Hno f). }
    unfold groupEntries in Hstep.
    apply (applyDeckColors_keeps indices
             (fun cs => vertexColor cs v = colorTriple
                          (default (colorDefault defaultColorMap) (optDefault colorMap)))).
    { intros f v' cs Hf. apply Hstep. apply in_or_app. right. apply in_or_app. by right. }
    apply (applyGroupColors_keeps indices
             (fun cs => vertexColor cs v = colorTriple
                          (default (colorDefault defaultColorMap) (optDefault colorMap)))).
    { intros f v' cs Hf. apply Hstep. apply in_or_app. right. apply in_or_app. by left. }
    apply (applyGroupColors_keeps indices
             (fun cs => vertexColor cs v = colorTriple
                          (default (colorDefault defaultColorMap) (optDefault colorMap)))).
    { intros f v' cs Hf. apply Hstep. apply in_or_app. by left. }
    by apply initializeDefaultColors_color.
Qed.

(** X23.  The colour buffer that [generateColors] returns has three
    entries for every vertex, whatever the groups list; a vertex that is
    a corner of a face listed in the deck group has the deck colour; a
    vertex that is a corner of no listed face has the default colour. *)
Theorem generateColors_buffer (vertexCount : nat) (indices : list nat)
    (groups : GeometryGroups) (colorMap : PartialColorMap) :
  let colors := generateColors vertexCount indices groups colorMap in
  let deckColor := default (colorDeck defaultColorMap) (optDeck colorMap) in
  let defaultColor := default (colorDefault defaultColorMap) (optDefault colorMap) in
  length colors = (vertexCount * 3)%nat
  /\ (forall f v, In f (deck groups) -> cornerOf indices f v -> (v < vertexCount)%nat ->
        vertexColor colors v = colorTriple deckColor)
  /\ (forall v, (v < vertexCount)%nat ->
        (forall f, In f (groupEntries groups) -> ~ cornerOf indices f v) ->
        vertexColor colors v = colorTriple defaultColor).
Proof. exact (generateColors_spec vertexCount indices groups colorMap). Qed.


Lemma generateColors_buffer_witness :
  let groups := {| groupStations := [(0, [1%nat])]; groupWaterlines := []; deck := [0%nat] |} in
  let colors := generateColors 6 [0; 1; 2; 3; 4; 5]%nat groups noColorMap in
  vertexColor colors 1 = colorTriple (colorDeck defaultColorMap)
  /\ vertexColor colors 4 = colorTriple (colorStation defaultColorMap).
Proof.
  cbv zeta. split; [|by vm_compute].
  apply (proj1 (proj2 (generateColors_buffer 6 [0; 1; 2; 3; 4; 5]%nat
                         {| groupStations := [(0, [1%nat])]; groupWaterlines := [];
                            deck := [0%nat] |} noColorMap)) 0%nat 1%nat).
  - by left.
  - exists 1%nat. split; [lia | reflexivity].
  - lia.
Defined.

(** ** The buffers of the hull geometry *)

Lemma toUint16_le (n : nat) : (toUint16 n <= n)%nat.
Proof.
  unfold toUint16.
  pose proof (Z.mod_le (Z.of_nat n) 65536 ltac:(lia) ltac:(lia)).
  pose proof (Z.mod_pos_bound (Z.of_nat n) 65536 ltac:(lia)). lia.
Qed.

Lemma map_toUint16_small (n : nat) (l : list nat) :
  (Z.of_nat n <= 65536)%Z -> (forall i, In i l -> (i < n)%nat) -> map toUint16 l = l.
Proof.
  intros Hn Hl. induction l as [|i l IH]; [done|]. cbn [map].
  rewrite IH by (intros j Hj; apply Hl; by right). f_equal.
  apply toUint16_small. specialize (Hl i ltac:(by left)). lia.
Qed.

Lemma fillVertexArray_length (vertices : list Vector3) :
  length (fillVertexArray vertices) = (length vertices * 3)%nat.
Proof. unfold fillVertexArray. by apply flat_map_length_const. Qed.

(** X24.  The geometry that [generateStructuredHullGeometry] returns is
    consistent, placeholder or not: the vertex buffer and the colour
    buffer have three entries for each of the [vertexCount] vertices, the
    index buffer holds [faceCount] whole triangles, and every index in it
    is below [vertexCount].  As long as there are at most 65536 vertices,
    the 16-bit index buffer holds the indices that [generateFaces] made,
    unchanged. *)
Theorem hull_geometry_buffers (stateUnits : Units) (table : QuoteTable)
    (lodConfig : LODConfig) :
  let g := generateStructuredHullGeometry stateUnits table lodConfig in
  let n := vertexCount (stats g) in
  let refined := refinedTable table lodConfig in
  let r := generateVertices stateUnits refined in
  length (hullVertices g) = (n * 3)%nat
  /\ length (colors g) = (n * 3)%nat
  /\ (exists k, length (hullIndices g) = (3 * k)%nat
                /\ faceCount (stats g) == inject_Z (Z.of_nat k))
  /\ (forall i, In i (hullIndices g) -> (i < n)%nat)
  /\ (g <> createEmptyHullGeometry ->
      n = length (vertices r)
      /\ ((Z.of_nat n <= 65536)%Z ->
          hullIndices g = generateFaces refined (vertexMap r) (keelVertices r))).
Proof.
  cbv zeta. rewrite generateStructuredHullGeometry_unfold. cbv zeta.
  set (refined := refinedTable table lodConfig).
  set (r := generateVertices stateUnits refined).
  set (faces := generateFaces refined (vertexMap r) (keelVertices r)).
  assert (Hempty :
    let g := createEmptyHullGeometry in
    length (hullVertices g) = (vertexCount (stats g) * 3)%nat
    /\ length (colors g) = (vertexCount (stats g) * 3)%nat
    /\ (exists k, length (hullIndices g) = (3 * k)%nat
                  /\ faceCount (stats g) == inject_Z (Z.of_nat k))
    /\ (forall i, In i (hullIndices g) -> (i < vertexCount (stats g))%nat)
    /\ (g <> createEmptyHullGeometry ->
        vertexCount (stats g) = length (vertices r)
        /\ ((Z.of_nat (vertexCount (stats g)) <= 65536)%Z -> hullIndices g = faces))).
  { cbv zeta. cbn. split; [done|]. split; [done|].
    split; [by exists 0%nat|]. split; [by intros i []|]. by intros H. }
  destruct ((length (vertices r) =? 0)%nat || (length faces =? 0)%nat); [exact Hempty|].
  unfold assembleHullGeometry.
  destruct (existsb isNaN32 (fillVertexArray (vertices r))); [exact Hempty|].
  cbv zeta. cbn [hullVertices colors hullIndices stats vertexCount faceCount].
  destruct (generateFaces_valid stateUnits refined) as [[k Hk] Hin].
  fold r in Hk, Hin. fold faces in Hk, Hin.
  split; [apply fillVertexArray_length|].
  split; [apply generateColors_spec|].
  split.
  { exists k. rewrite length_map. split; [done|]. rewrite Hk.
    rewrite Nat2Z.inj_mul, inject_Z_mult. change (inject_Z (Z.of_nat 3)) with 3. field. }
  split.
  { intros i (j & <- & Hj)%in_map_iff. specialize (Hin j Hj).
    pose proof (toUint16_le j). lia. }
  intros _. split; [done|]. intros Hn. by apply (map_toUint16_small (length (vertices r))).
Qed.

Lemma hull_geometry_buffers_witness :
  let g := generateStructuredHullGeometry m threeByThree lodOne in
  let r := generateVertices m threeByThree in
  vertexCount (stats g) = 21%nat
  /\ hullIndices g = generateFaces threeByThree (vertexMap r) (keelVertices r).
Proof.
  cbv zeta.
  assert (Hg : generateStructuredHullGeometry m threeByThree lodOne
               <> createEmptyHullGeometry).
  { intros H. apply (f_equal (fun g => length (hullIndices g))) in H.
    vm_compute in H. discriminate H. }
  destruct (hull_geometry_buffers m threeByThree lodOne) as (_ & _ & _ & _ & H).
  destruct (H Hg) as [Hn Hi]. split; [by vm_compute|].
  apply Hi. vm_compute. discriminate.
Defined.

(** ** The deck colour in the hull geometry *)

Lemma concat_nils {A B : Type} (f : A -> list B) (l : list A) :
  (forall x, f x = []) -> concat (map f l) = [].
Proof.
  intros H. induction l as [|x l IH]; [done|]. cbn [map concat]. by rewrite H, IH.
Qed.

(** A face needs two stations and two waterline heights. *)
Lemma generateFaces_some table vertexMap keelVertices :
  generateFaces table vertexMap keelVertices <> [] ->
  getSortedStations table <> [] /\ getSortedWaterlines table <> [].
Proof.
  rewrite generateFaces_concat. intros H. split; intros Hnil; apply H; rewrite Hnil.
  - done.
  - cbn [length Nat.sub seq map]. by apply concat_nils.
Qed.

(** X25.  In the hull geometry the deck colour goes to the vertices found
    at the places [3 i] to [3 i + 8] of the index buffer, for every face
    in range at the offset [i] of the buffer whose centroid is within 0.01
    of the last waterline height of the refined table: the deck group
    lists the offsets [i], [i + 1] and [i + 2], and the colour pass reads
    each entry as the number of a face. *)
Theorem deck_colour_by_offset (stateUnits : Units) (table : QuoteTable)
    (lodConfig : LODConfig) (top : Q) (i j v : nat) (centroid : Vector3) :
  let g := generateStructuredHullGeometry stateUnits table lodConfig in
  let refined := refinedTable table lodConfig in
  let r := generateVertices stateUnits refined in
  let faces := generateFaces refined (vertexMap r) (keelVertices r) in
  g <> createEmptyHullGeometry ->
  last (getSortedWaterlines refined) = Some top ->
  In (i, centroid) (validFacesFrom (vertices r) 0 faces) ->
  isTopWaterline centroid top = true ->
  (j < 9)%nat ->
  map toUint32 faces !! (3 * i + j)%nat = Some v ->
  (v < length (vertices r))%nat ->
  vertexColor (colors g) v = colorTriple (colorDeck defaultColorMap).
Proof.
  cbv zeta. rewrite generateStructuredHullGeometry_unfold. cbv zeta.
  set (refined := refinedTable table lodConfig).
  set (r := generateVertices stateUnits refined).
  set (faces := generateFaces refined (vertexMap r) (keelVertices r)).
  intros Hg Htop Hface Hdeck Hj Hv Hlt.
  destruct (length (vertices r) =? 0)%nat eqn:Ev; [done|].
  destruct (length faces =? 0)%nat eqn:Ef; [done|]. cbn [orb] in *.
  unfold assembleHullGeometry in *.
  destruct (existsb isNaN32 (fillVertexArray (vertices r))); [done|].
  cbv zeta. cbn [colors].
  apply Nat.eqb_neq in Ev, Ef.
  destruct (generateFaces_valid stateUnits refined) as [[k Hk] _].
  fold r in Hk. fold faces in Hk.
  destruct (generateFaces_some refined (vertexMap r) (keelVertices r)) as [Hs Hw].
  { fold faces. by destruct faces. }
  destruct (getSortedStations refined) as [|s0 ss] eqn:Es; [done|].
  destruct (getSortedWaterlines refined) as [|w0 ws] eqn:Ew; [done|].
  destruct (organizeGeometryGroups_spec (vertices r) faces (s0 :: ss) (w0 :: ws)
              s0 w0 top k) as (_ & _ & Hd); [by destruct (vertices r)|done|done|done|done|lia|].
  cbv zeta in Hd.
  destruct (generateColors_spec (length (vertices r)) (map toUint32 faces)
              (organizeGeometryGroups (vertices r) faces (s0 :: ss) (w0 :: ws)) noColorMap)
    as (_ & Hdeckcol & _).
  apply (Hdeckcol (i + j / 3)%nat v); [| |done].
  - rewrite Hd. unfold faceOffsets. apply in_flat_map.
    exists (i, centroid). split.
    + apply filter_In. by split.
    + cbn [fst].
      assert (j / 3 < 3)%nat by (apply Nat.Div0.div_lt_upper_bound; lia).
      destruct (j / 3)%nat as [|[|[|q]]]; [| | |lia].
      * left. lia.
      * right. by left.
      * right. right. by left.
  - exists (j mod 3)%nat. split; [apply Nat.mod_upper_bound; lia|].
    rewrite <- Hv. f_equal.
    pose proof (Nat.div_mod_eq j 3). lia.
Qed.

Lemma deck_colour_by_offset_witness :
  let g := generateStructuredHullGeometry m deckTableThree lodOne in
  hullIndices g !! 15%nat = Some 2%nat
  /\ hullIndices g !! 45%nat = Some 9%nat
  /\ vertexColor (colors g) 9 = colorTriple (colorDeck defaultColorMap).
Proof.
  cbv zeta. split; [by vm_compute|]. split; [by vm_compute|].
  apply (deck_colour_by_offset m deckTableThree lodOne 1 15 0 9
           (mkVector3 (12 # 24) (298 # 300) (1 # 3))).
  - by vm_compute.
  - by vm_compute.
  - vm_compute. do 5 right. left. reflexivity.
  - by vm_compute.
  - lia.
  - by vm_compute.
  - vm_compute. lia.
Defined.

(** * Selection and weights *)

Import PaintSelectionTool.

(** X26.  [getFaceUniqueId] tells the faces of all surfaces apart as long
    as face numbers stay below one million: two surfaces and two such
    face numbers with the same identity are the same surface id and the
    same face.  The face number one million of a surface has the identity
    of the face 0 of the surface with the next id. *)
Theorem getFaceUniqueId_injective :
  (forall (mesh1 mesh2 : Mesh) (f1 f2 : nat),
      (Z.of_nat f1 < 1000000)%Z -> (Z.of_nat f2 < 1000000)%Z ->
      getFaceUniqueId mesh1 f1 = getFaceUniqueId mesh2 f2 ->
      meshId mesh1 = meshId mesh2 /\ f1 = f2)
  /\ (forall mesh1 mesh2 : Mesh,
        meshId mesh2 = (meshId mesh1 + 1)%Z ->
        getFaceUniqueId mesh1 (Z.to_nat 1000000) = getFaceUniqueId mesh2 0).
Proof.
  unfold getFaceUniqueId. split.
  - intros mesh1 mesh2 f1 f2 H1 H2 H. lia.
  - intros mesh1 mesh2 H. rewrite H. lia.
Qed.

Lemma getFaceUniqueId_injective_witness :
  getFaceUniqueId twoFaceMesh 0 <> getFaceUniqueId twoFaceMesh 1.
Proof.
  intros H.
  destruct (proj1 getFaceUniqueId_injective twoFaceMesh twoFaceMesh 0%nat 1%nat
              ltac:(simpl; lia) ltac:(simpl; lia) H) as [_ E].
  discriminate E.
Defined.

(** ** One call of the selection *)

Lemma fold_left_fixed {A B : Type} (f : A -> B -> A) (l : list B) (a : A) :
  (forall x, In x l -> f a x = a) -> fold_left f l a = a.
Proof.
  induction l as [|x l IH]; intros H; [done|]. cbn [fold_left].
  rewrite (H x) by (by left). apply IH. intros y Hy. apply H. by right.
Qed.

Lemma selectFacesAroundPoint_In t worldPoint hitMesh y :
  In y (selectedFaces (selectFacesAroundPoint t worldPoint hitMesh))
  <-> if isRemoving t
      then In y (selectedFaces t) /\ ~ In y (brushHits t worldPoint hitMesh)
      else In y (selectedFaces t) \/ In y (brushHits t worldPoint hitMesh).
Proof.
  destruct (isRemoving t) eqn:E.
  - rewrite selectFacesAroundPoint_remove by done. apply fold_setDelete_In.
  - rewrite selectFacesAroundPoint_add by done. apply fold_setInsert_In.
Qed.

Lemma setInsert_present (x : Z) (s : list Z) : In x s -> setInsert x s = s.
Proof. intros H. unfold setInsert. by rewrite (proj2 (setHas_In x s) H). Qed.

(** A face that the brush hits and that a consistent state has, in add
    mode, or has not, in remove mode: the turn of the loop changes
    nothing. *)
Lemma selectFace_settled hitMesh mt localPoint positions ix u k :
  cacheConsistent u ->
  (forall c, localFaceCenter positions ix k = Some c ->
             withinDistance c localPoint (brushSize u) = true ->
             if isRemoving u
             then ~ In (getFaceUniqueId hitMesh k) (selectedFaces u)
             else In (getFaceUniqueId hitMesh k) (selectedFaces u)) ->
  selectFace hitMesh mt localPoint positions ix u k = u.
Proof.
  intros Hc H. unfold selectFace.
  destruct (localFaceCenter positions ix k) as [c|]; [|done].
  destruct (withinDistance c localPoint (brushSize u)) eqn:Hw; [|done].
  specialize (H c eq_refl Hw).
  destruct (isRemoving u) eqn:Hr; cbn [negb].
  - apply setHas_false in H. by rewrite H.
  - rewrite mapHas_keys, Hc, (proj2 (setHas_In _ _) H). cbn [negb].
    rewrite setInsert_present by done. destruct u. cbn in *. by rewrite Hr.
Qed.

Lemma selectFacesAroundPoint_again t worldPoint hitMesh :
  cacheConsistent t ->
  let t' := selectFacesAroundPoint t worldPoint hitMesh in
  selectFacesAroundPoint t' worldPoint hitMesh = t'.
Proof.
  intros Hc t'.
  assert (Hc' : cacheConsistent t') by (by apply selectFacesAroundPoint_consistent).
  destruct (selectFacesAroundPoint_frame t worldPoint hitMesh) as (Hh & Hb & Hr).
  fold t' in Hh, Hb, Hr.
  pose proof (fun y => selectFacesAroundPoint_In t worldPoint hitMesh y) as Hin.
  fold t' in Hin.
  unfold selectFacesAroundPoint at 1. rewrite Hh.
  destruct (hull t) as [h|] eqn:Eh; [|done].
  destruct (index (geometry hitMesh)) as [ix|] eqn:Ei; [|done].
  apply fold_left_fixed. intros k Hk.
  apply selectFace_settled; [done|]. intros c Hcen Hw. rewrite Hb in Hw.
  assert (Hhit : In (getFaceUniqueId hitMesh k) (brushHits t worldPoint hitMesh)).
  { unfold brushHits. rewrite Eh, Ei. apply in_flat_map. exists k. split; [done|].
    rewrite Hcen, Hw. by left. }
  rewrite Hr. specialize (Hin (getFaceUniqueId hitMesh k)).
  destruct (isRemoving t); [|apply Hin; by right].
  intros Hy. apply Hin in Hy. tauto.
Qed.

(** X27.  One call of [selectFacesAroundPoint], on a state that the
    operations of the tool can reach: in add mode the selection becomes
    the old selection together with the faces under the brush, in remove
    mode the old selection without them; the hull, the brush size and the
    mode stay; and the same call made again changes nothing. *)
Theorem selectFacesAroundPoint_effect (ops : list SelectionOp) (worldPoint : Vector3)
    (hitMesh : Mesh) :
  let t := fold_left runSelectionOp ops PaintSelectionTool.new in
  let t' := selectFacesAroundPoint t worldPoint hitMesh in
  (forall y,
      In y (selectedFaces t')
      <-> if isRemoving t
          then In y (selectedFaces t) /\ ~ In y (brushHits t worldPoint hitMesh)
          else In y (selectedFaces t) \/ In y (brushHits t worldPoint hitMesh))
  /\ (hull t' = hull t /\ brushSize t' = brushSize t /\ isRemoving t' = isRemoving t)
  /\ selectFacesAroundPoint t' worldPoint hitMesh = t'.
Proof.
  cbv zeta. split; [intros y; apply selectFacesAroundPoint_In|].
  split; [apply selectFacesAroundPoint_frame|].
  apply selectFacesAroundPoint_again. by apply runSelectionOps_consistent.
Qed.

(** ** The breakdown of the selection *)

Lemma countOf_countFace (b : SelectionBreakdown) (mt kind : MeshType) :
  countOf (countFace b mt) kind
  = (countOf b kind + if sameMeshType mt kind then 1 else 0)%nat.
Proof. destruct mt, kind; cbn; lia. Qed.

Lemma breakdown_fold (sel : list Z) (l : list (Z * FaceData)) (b : SelectionBreakdown)
    (kind : MeshType) :
  (forall e, In e l -> In e.1 sel) ->
  countOf (fold_left (fun breakdown '(faceId, faceData) =>
                        if setHas faceId sel
                        then countFace breakdown (meshType faceData)
                        else breakdown) l b) kind
  = (countOf b kind
     + length (List.filter (fun e => sameMeshType (meshType e.2) kind) l))%nat.
Proof.
  revert b. induction l as [|[id data] l IH]; intros b H; cbn [fold_left List.filter].
  { cbn. lia. }
  rewrite IH by (intros e He; apply H; by right).
  rewrite (proj2 (setHas_In id sel)) by (apply (H (id, data)); by left).
  rewrite countOf_countFace. cbn [snd].
  destruct (sameMeshType (meshType data) kind); cbn [length]; lia.
Qed.

Lemma filter_kinds_length (l : list (Z * FaceData)) :
  (length (List.filter (fun e => sameMeshType (meshType e.2) TypeHull) l)
   + length (List.filter (fun e => sameMeshType (meshType e.2) TypeDeck) l)
   + length (List.filter (fun e => sameMeshType (meshType e.2) TypeStation) l)
   + length (List.filter (fun e => sameMeshType (meshType e.2) TypeTransom) l)
   + length (List.filter (fun e => sameMeshType (meshType e.2) TypeBow) l)
   + length (List.filter (fun e => sameMeshType (meshType e.2) TypeUnknown) l))%nat
  = length l.
Proof.
  induction l as [|[id data] l IH]; [done|]. cbn [List.filter snd length].
  destruct (meshType data); cbn [sameMeshType length]; lia.
Qed.

(** X28.  On a state that the operations of the tool can reach,
    [getSelectionBreakdown] counts under each kind of surface the cached
    faces recorded with that kind, and its six counts add up to
    [getSelectedFaceCount]. *)
Theorem getSelectionBreakdown_counts (ops : list SelectionOp) :
  let t := fold_left runSelectionOp ops PaintSelectionTool.new in
  let b := getSelectionBreakdown t in
  (forall kind, countOf b kind = length (facesOfType t kind))
  /\ (countHull b + countDeck b + countStation b + countTransom b + countBow b
      + countUnknown b)%nat = getSelectedFaceCount t.
Proof.
  cbv zeta. set (t := fold_left runSelectionOp ops PaintSelectionTool.new).
  assert (Hc : cacheConsistent t) by (by apply runSelectionOps_consistent).
  assert (Hall : forall e, In e (faceData t) -> In e.1 (selectedFaces t)).
  { intros e He. rewrite <- Hc. by apply in_map. }
  assert (Hk : forall kind, countOf (getSelectionBreakdown t) kind
                            = length (facesOfType t kind)).
  { intros kind. unfold getSelectionBreakdown, facesOfType.
    rewrite (breakdown_fold _ _ _ kind Hall). by destruct kind. }
  split; [exact Hk|].
  change (countOf (getSelectionBreakdown t) TypeHull
          + countOf (getSelectionBreakdown t) TypeDeck
          + countOf (getSelectionBreakdown t) TypeStation
          + countOf (getSelectionBreakdown t) TypeTransom
          + countOf (getSelectionBreakdown t) TypeBow
          + countOf (getSelectionBreakdown t) TypeUnknown
          = getSelectedFaceCount t)%nat.
  rewrite !Hk. unfold facesOfType. rewrite filter_kinds_length.
  unfold getSelectedFaceCount. by rewrite <- Hc, length_map.
Qed.

(** ** The commit of a selection *)

Section CommitOutcome.

Import WeightManager.

Lemma selected_entries_map (l : list (Z * FaceData)) (sel : list Z) (w : Q) :
  (forall e, In e l -> setHas e.1 sel = true) ->
  flat_map (fun '(faceId, data) =>
              if setHas faceId sel
              then [{| weightPosition := worldCenter data; magnitude := w |}]
              else []) l
  = map (fun e => {| weightPosition := worldCenter e.2; magnitude := w |}) l.
Proof.
  induction l as [|[id d] l IH]; intros Hall; [done|].
  pose proof (Hall (id, d) (or_introl eq_refl)) as Hk. cbn [fst] in Hk.
  cbn [flat_map map]. rewrite Hk. cbn [app snd].
  f_equal. apply IH. intros e He. apply Hall. by right.
Qed.

(** With a consistent cache the weights of the selection are one for
    each cached face, at its centre in world space. *)
Lemma selectionWeights_map (wm : WeightManager) :
  cacheConsistent (paintSelectionTool wm) ->
  selectionWeights wm
  = map (fun e => {| weightPosition := worldCenter e.2; magnitude := weightPerFace wm |})
        (PaintSelectionTool.faceData (paintSelectionTool wm)).
Proof.
  unfold selectionWeights, PaintSelectionTool.getFaceData, cacheConsistent. intros Hc.
  apply selected_entries_map.
  intros e He. apply setHas_In. rewrite <- Hc. by apply in_map.
Qed.

Lemma createWeightMarkers_map {A : Type} (f : A -> Weight) (l : list A) :
  createWeightMarkers (map f l)
  = imap (fun index a =>
            {| markerPosition := weightPosition (f a);
               markerWeight := magnitude (f a);
               markerIndex := index |}) l.
Proof. unfold createWeightMarkers. by rewrite imap_fmap. Qed.

Lemma applyWeightToSelection_false (wm : WeightManager) :
  fst (applyWeightToSelection wm) = false ->
  snd (applyWeightToSelection wm) = wm
  /\ (hull wm = None \/ PaintSelectionTool.faceData (paintSelectionTool wm) = []).
Proof.
  unfold applyWeightToSelection, PaintSelectionTool.getFaceData.
  destruct (hull wm) as [h|]; [|by intros _; split; [|left]].
  destruct (PaintSelectionTool.faceData (paintSelectionTool wm)); [|done].
  intros _. split; [done|by right].
Qed.

Lemma applyWeightToSelection_outcome_of (wm : WeightManager) :
  cacheConsistent (paintSelectionTool wm) ->
  let tool := paintSelectionTool wm in
  let result := applyWeightToSelection wm in
  (fst result = false <-> hull wm = None \/ PaintSelectionTool.selectedFaces tool = [])
  /\ (fst result = false -> snd result = wm)
  /\ (fst result = true ->
      exists h,
        hull wm = Some h
        /\ hull (snd result)
           = Some (Physics.setPaintedWeights h
                     (map (fun e => {| weightPosition := worldCenter e.2;
                                       magnitude := weightPerFace wm |})
                          (PaintSelectionTool.faceData tool)))
        /\ weightMarkers (snd result)
           = imap (fun index e => {| markerPosition := worldCenter e.2;
                                     markerWeight := weightPerFace wm;
                                     markerIndex := index |})
                  (PaintSelectionTool.faceData tool)
        /\ PaintSelectionTool.selectedFaces (paintSelectionTool (snd result)) = []
        /\ PaintSelectionTool.faceData (paintSelectionTool (snd result)) = []
        /\ getAppliedWeight (snd result) == getTotalWeight wm).
Proof.
  intros Hc. cbv zeta. split; [|split].
  - split.
    + intros H. apply applyWeightToSelection_false in H as [_ [H|H]]; [by left|right].
      unfold cacheConsistent in Hc. by rewrite <- Hc, H.
    + intros H. destruct (fst (applyWeightToSelection wm)) eqn:E; [|done].
      apply applyWeightToSelection_true in E as (h & Hh & Hne & _).
      destruct H as [H|H]; [congruence|].
      unfold cacheConsistent in Hc. rewrite H in Hc.
      by destruct (PaintSelectionTool.faceData (paintSelectionTool wm)).
  - intros H. by apply applyWeightToSelection_false in H as [H _].
  - intros H. pose proof (committed_applied wm Hc H) as [Happ _].
    destruct (applyWeightToSelection_true wm H) as (h & Hh & _ & Hs).
    exists h. split; [done|]. rewrite Hs in *. cbn [hull weightMarkers paintSelectionTool].
    rewrite (selectionWeights_map wm Hc).
    split; [done|]. split; [by rewrite createWeightMarkers_map|].
    split; [done|]. split; [done|].
    rewrite (selectionWeights_map wm Hc) in Happ. exact Happ.
Qed.

End CommitOutcome.



(** ** The ledger *)

Lemma fold_Qplus_from (l : list Q) (a : Q) : fold_left Qplus l a == a + fold_left Qplus l 0.
Proof.
  revert a. induction l as [|x l IH]; intros a; cbn [fold_left]; [ring|].
  rewrite IH, (IH (0 + x)). ring.
Qed.

Lemma fold_Qplus_magnitudes (l : list Weight) :
  fold_left Qplus (map magnitude l) 0 == sumMagnitudes l.
Proof.
  induction l as [|w l IH]; [reflexivity|]. cbn [map fold_left].
  rewrite fold_Qplus_from, IH, sumMagnitudes_cons. ring.
Qed.

Lemma fold_Qplus_app (l1 l2 : list Q) :
  fold_left Qplus (l1 ++ l2) 0 == fold_left Qplus l1 0 + fold_left Qplus l2 0.
Proof. rewrite fold_left_app. apply fold_Qplus_from. Qed.

